(* ===== verification/_CoqProject ===== *)
-Q . S2P
Prelude.v
GoStd.v
GoPath.v
GoMonad.v
DeviceRules.v
DeviceEmulator.v
DeviceCgroup.v
DeviceFilter.v
DeviceTypes.v
ShimInit.v
ShimExec.v
Container.v
CgroupUtils.v
Rootfs.v
ContainerState.v
Criu.v
CriuSim.v
CriuMounts.v
CriuSpec.v
Gc.v
GcConcurrent.v
BitSeq.v
BitHandle.v
BitStore.v
Idm.v
Enosys.v
Task.v
TaskInv.v
TaskWf.v
TaskDuty.v
TaskSpec.v
TaskLive.v
Proc.v
InitSync.v
InitParent.v
InitChild.v
InitSpec.v
InitChildSpec.v
InitParentSpec.v
InitRun.v
Users.v
UsersSpec.v
SpecConv.v
Validate.v
SpecConvSpec.v
CgroupFile.v
Cgroup2.v
Cgroup2Spec.v
