(* ===== verification/Prelude.v ===== *)
(** * Verification of the container runtime of SwiftBaton

    SwiftBaton migrates running containers. This library models the Go code between the
    container engine and CRIU that a migration goes through, and proves what makes it
    correct: the container object of runc, the start of its processes, its checkpoint and
    restore, the making and checking of its configuration, the look-up of users, the manager
    of its cgroup and the device control of its cgroups, the stub of its seccomp filter, and the containerd shim that calls runc, its processes and its task service; and of the engine
    around them the garbage collection of containerd and the allocation of ids and bits in
    libnetwork. Paths below are
    relative to [src/dependencies/]; [libcontainer] is [runc/libcontainer], [libnetwork]
    is [docker-ce/components/engine/libnetwork].

    ** Parts and files

    - Prelude.v (this file): errors and results of Go functions ([error], [result]),
      folds that may fail ([foldM]), machine integers ([wrapu], [wraps]), tactics.
    - GoStd.v, GoPath.v: what the code uses of Go's standard library: strconv, strings
      (bytes are [ascii]), bufio.Scanner, the errno tests of os, path/filepath. GoPath.v
      sees a rooted path as the list of its elements.
    - GoMonad.v: code that changes objects and calls the outside: a state monad in which
      an error or a panic keeps what was changed before it, [defer], a class [Handler]
      for the calls, and two kinds of frame rules: [quiet] (no panic, a part of the state
      is kept) and [frame] (a part is kept whatever the outcome).
    - DeviceRules.v ([libcontainer/devices]): permission sets, cgroup rules, device
      numbers, the walk over [/dev].
    - DeviceEmulator.v ([libcontainer/cgroups/devices/devices_emulator.go]): the model
      runc keeps of a devices cgroup, its rules and the transition to another model.
    - DeviceCgroup.v ([libcontainer/cgroups/fs/devices.go] and the error policy of
      [fs2/devices.go]): setting the rules, against an interface of the kernel.
    - DeviceFilter.v ([libcontainer/cgroups/ebpf/devicefilter]): the generator of the
      cgroup v2 program, against an interface of the instruction set. DeviceTypes.v: a
      type system for these programs, as a verifier in one pass.
    - Enosys.v ([libcontainer/seccomp/patchbpf/enosys_linux.go]): the program that is put
      in front of a seccomp filter, against an interface of classic BPF.
    - ShimInit.v, ShimExec.v ([containerd/cmd/containerd-shim-runc-v2/process]): the init
      process and the exec processes of the shim with their state machines.
    - Task.v ([containerd/cmd/containerd-shim-runc-v2/task/service.go], the process tables
      of [runc/container.go]): the goroutines of the shim's service as a transition system.
      TaskInv.v and TaskWf.v: its invariant; TaskDuty.v, TaskSpec.v: who has to publish an
      exit; TaskLive.v: progress and a measure.
    - Container.v: data of libcontainer, its small configuration functions, and [ccall],
      the calls a container makes to the kernel, the files, the hooks and CRIU.
    - CgroupUtils.v ([libcontainer/cgroups/utils.go], [v1_utils.go]): where the cgroups of
      a process are. Rootfs.v ([libcontainer/rootfs_linux.go]): mount points.
    - ContainerState.v ([state_linux.go], [container_linux.go]): the state machine of a
      container and its methods.
    - Criu.v ([container_linux.go], from [checkCriuFeatures] to [criuNotifications]):
      checkpoint and restore. CriuSpec.v and CriuMounts.v hold the theorems, CriuSim.v a
      simulated host in which they are instantiated.
    - Proc.v: code that runs in two processes: programs as trees of calls, pairs of them
      joined by a socket pair, and a typing discipline (a session type with assertions)
      that makes pairs of typed programs safe, free of deadlock and terminating.
    - InitSync.v ([libcontainer/sync.go], the data of [init_linux.go] and [process.go], the
      command line of [container_linux.go]), InitParent.v ([process_linux.go], [Start] of
      [container_linux.go]) and InitChild.v ([factory_linux.go], [init_linux.go],
      [standard_init_linux.go], [setns_init_linux.go], [rootfs_linux.go]): the start of a
      process, as [runc create] and [runc exec] do it, and the process that is started.
      InitSpec.v: their protocol, an automaton, and the plan of each side, as lists of
      marks; InitChildSpec.v, InitParentSpec.v: each side keeps to them; InitRun.v: what
      follows for both together.
    - Users.v ([libcontainer/user], the id maps of [libcontainer/system/linux.go]): passwd,
      group, subordinate id and id map files, and the user a process runs as. UsersSpec.v:
      its theorems.
    - SpecConv.v ([libcontainer/specconv/spec_linux.go], [seccomp/config.go], data of
      [configs]): from [config.json] to a configuration. Validate.v
      ([libcontainer/configs/validate]): its validation, with its specification.
      SpecConvSpec.v: the theorems on the conversion, and on both together.
    - CgroupFile.v ([libcontainer/cgroups/fscommon], the files and directories of
      [libcontainer/cgroups/utils.go]): opening, reading, writing and removing what is in
      the cgroup file system. Cgroup2.v ([libcontainer/cgroups/fs2]): the manager of a
      cgroup v2: its path, its creation, the limits, the freezer, the statistics.
      Cgroup2Spec.v: where the cgroup is, and which directories are made.
    - Gc.v, GcConcurrent.v ([containerd/gc/gc.go]): marking and sweeping; the concurrent
      marking as a step relation on its goroutines, channel, wait group and context.
    - BitSeq.v ([libnetwork/bitseq/sequence.go]): the run-length encoded bit mask and its
      byte form. BitHandle.v: the handle on a mask, its methods, and the calls to the
      store ([bitseq/store.go], [datastore/datastore.go]). BitStore.v: several processes
      that share a store. Idm.v ([libnetwork/idm/idm.go]): the id manager over a handle.

    A spec becomes a configuration in SpecConv.v and is checked in Validate.v; [view] is what
    Container.v and the start of a process see of it, its access rules are those of the
    filter in DeviceFilter.v, its labels and id mappings are read by Container.v and written
    by the start of a process, and read back from the kernel by Users.v, which also answers
    the calls of InitChild.v that set up the user; the cgroup settings it makes are what the
    manager of Cgroup2.v writes into files. The engine calls the shim, whose [Init] calls runc through the runtime interface
    (calls of ShimInit.v); runc builds a [linuxContainer] (Container.v), whose methods
    (ContainerState.v) call the cgroup manager, which is Cgroup2.v for version 2, and for
    the devices of version 1 DeviceCgroup.v; [Checkpoint] and [Restore] (Criu.v) use the state machine, Rootfs.v
    and CgroupUtils.v and talk to CRIU; [Start] is modelled apart, with the process it
    starts, because it is the only method during which two processes of runc talk. The
    service of Task.v calls the processes of ShimInit.v and ShimExec.v, of which it sees the phase only: that
    an operation is atomic under the mutex of its process is what connects the two models.
    The shim and the container are not composed into
    one model: between them are two processes and the command line of runc. The garbage
    collection runs inside of the containerd daemon and the id managers inside of the
    engine; they share only the prelude and the monad with the rest.

    ** How code is modelled

    An object is a record and a method a computation in [M (object * world)]; the world is
    any type with a handler of the calls, so a theorem without hypotheses on the handler
    holds for every behaviour of the environment, failures at every call included. Where
    a property needs the kernel to behave, its documented behaviour is a class
    ([KernelView], [MountView], the controller of DeviceCgroup.v, [EbpfISA],
    [ClassicBPF], the atomic store [KVStore], the directories [CgroupTree]) with an instance; [BitPool] is what Idm.v
    asks of a handle, and BitHandle.v provides it. The implementations of a Go interface are an inductive type or a record of
    methods. Error texts keep their fixed part; log output and mutexes are left out, and a
    method that runs under its mutex is one atomic step. Go maps are finite maps, under an
    option where nil and empty differ; a loop over a map is a loop over [map_to_list],
    or over any list with its entries where the outcome might depend on the order
    (Enosys.v).

    ** What is shown

    - Devices: a transition reaches its target and is never refused, and between
      allow-lists touches only what differs; [Set] installs the requested rules - both
      unless a wildcard exception that is kept would need a hole; the
      printed rules parse back; the walk over [/dev] finds exactly the devices; the
      generated filter decides as the rules say, is well typed, and is refused exactly
      for malformed rules.
    - Seccomp: the patched filter returns ENOSYS for the calls that are newer than the
      profile and leaves the others to the filter; the stub is what a generator over
      unbounded integers makes, so none of its operands is cut off.
    - Shim: every operation refines an abstract life cycle, under any environment; the
      exit is reported exactly once; what is not enabled is refused without effect.
    - Task service: as long as the starts of one process do not overlap and an exec process
      is started once, every exit is published exactly once, after the event that
      announces the process, and no subscription is leaked; without these conditions two
      schedules show exits that are published twice; for every behaviour of callers the
      service comes to rest, without deadlock.
    - Container: the status is what the kernel shows, no signal to a container that is not
      frozen reaches a process that reuses the pid, destruction ends, pause and resume are inverse, the namespaces to
      join are the configured ones; and where a restored or a created container falls out
      of these properties.
    - Checkpoint and restore: a conversation is a success only as the protocol says, dump
      and restore agree on external namespaces and descriptor numbers, a restore leaves
      no mounts behind; what may be mounted over [/proc].
    - Starting a process: the parent and the child come to their end in every order of
      their steps, never waiting for each other; the child enters its root and takes on
      its confinement only after the parent has done what must come before, and the
      program is only executed after all of it; a start without an error has a confined
      child; a start that fails has cleaned up after itself and left no child, but for two
      places after the start proper: when the poststart hooks fail the cgroups stay, and
      when the state for them cannot be read the child stays as well; a panic, which a
      child that is killed between the two messages that report its error brings about,
      cleans up nothing; the descriptors the child finds in its environment are the files
      that were meant.
    - Cgroups: the cgroup of a container is below the mount point whatever its path says,
      and it is created with everything above it or not at all.
    - Configuration: a converted spec has well-formed namespaces, root and mappings and
      passes the checks on them; validation accepts exactly what a specification calls
      valid; what its devices and mount options mean; its labels give its annotations back;
      and that the default devices are shared between the containers of a process.
    - Users: a user specification resolves to what the files say; the additional groups are
      complete and without duplicates; the files and the id mappings are read back as they
      were written.
    - Garbage collection: both markings return exactly the reachable nodes or the error of
      a reachable node; every interleaving of the concurrent one ends, without deadlock,
      misuse of the wait group or a write to the result; sweeping keeps what is reachable.
    - Ids: the encoded list is a set of bits, in one canonical form; reserving and
      releasing through a store shared with other processes is linearizable, so no bit is
      given out twice; the id manager is a pool of ids, also when free ids are released,
      which the handle miscounts; the byte form is a bijection.
    - Lemmas that are named by no property document smaller defects, such as
      [CriuSpec.feature_check_without_features].

    ** Bounds and fuel

    [GetDevices] recurses with fuel; a theorem shows that the depth of the tree is
    enough. A program of the device filter runs with one unit of fuel per instruction,
    which is enough because it only jumps forward; so does the stub of Enosys.v. [Tricolor]
    has fuel for every node it may take from its list, bounded in [Tricolor_ends]; the
    concurrent marking and the task service have measures. The search for a free bit retries at most once,
    [search_fuel] is 2; [set] has one unit of fuel per attempt to write to the store, and
    without a store one is enough. [state_destroy] recurses once, because
    a loaded state refreshes to another one: fuel 1, and a theorem that it is not
    exhausted. Removing and walking cgroups has the depth of the tree as fuel, an
    interrupted write is tried again a number of times that is a parameter. [exec] polls the fifo of a container until something happens; its fuel is
    the number of polls, and what is stated of it holds for every positive fuel. Programs of
    Proc.v have no fuel: a loop is a node of the program, and a typed loop sends or receives
    in every turn, of which a protocol has finitely many. What CRIU will say is
    a finite list in the answer to [CriuConnect], so its loop is structural. Numbers keep
    the width of the source where it matters: 64-bit parses with clamping, [int32]
    conversions of device numbers and descriptors, device number packing.

    ** Not modelled

    Of the start of a process: [nsexec.c], whose first two stages are C code and appear as
    the answers of calls of the parent ([cmd.Process] is the first stage until
    [waitForChildExit], and the child of the pair from then on); the encoding of messages,
    each JSON value being one message; the log pipe; the body of single mounts, devices and
    consoles. The child of the pair is there before the parent has started it, which cannot
    be seen because it waits for its configuration first.

    The controllers of cgroup v1 but for devices, the systemd managers, the loading of the
    device filter, the rules of libseccomp and the loading of the filter,
    the factory but for [StartInitialization]; the parser of dbus values, and the example
    spec of [specconv]; a mapping that is empty but not nil, which validation tells apart
    and which [specconv] never makes; of the task service of the shim the
    handlers that only pass a call on to a process, its shutdown, and pids that the kernel
    reuses (which the code says it cannot handle); the rest of the containerd daemon and of
    the Docker engine (of the datastore of libnetwork: cache, lists and watches); and CRIU
    itself, which is C. *)

From Stdlib Require Export ZArith Lia Ascii.
From stdpp Require Export base gmap strings list fin_maps sorting.

#[global] Open Scope Z_scope.

(** ** Go errors and results

    Go's [error] values are modelled by their text: [ErrNew] for
    [errors.New]/[fmt.Errorf], [ErrWrap] for [errors.Wrap] and friends, and
    [ErrSys] for an errno-like value that comes from the operating system. *)

Inductive error :=
  | ErrNew (msg : string)
  | ErrWrap (msg : string) (cause : error)
  | ErrSys (errno : Z).

#[export] Instance error_eq_dec : EqDecision error.
Proof. solve_decision. Defined.

(** A Go function that returns [(T, error)], or that may panic. *)
Inductive result (A : Type) :=
  | Ok (a : A)
  | Err (e : error)
  | Panic (msg : string).
Arguments Ok {A} a.
Arguments Err {A} e.
Arguments Panic {A} msg.

#[export] Instance result_eq_dec {A} `{EqDecision A} : EqDecision (result A).
Proof. solve_decision. Defined.

Definition rbind {A B} (m : result A) (k : A → result B) : result B :=
  match m with
  | Ok a => k a
  | Err e => Err e
  | Panic s => Panic s
  end.

(** [errors.Wrap(err, msg)]: [nil] stays [nil]. *)
Definition wrap_err {A} (msg : string) (m : result A) : result A :=
  match m with
  | Err e => Err (ErrWrap msg e)
  | _ => m
  end.

Definition is_ok {A} (m : result A) : bool :=
  match m with Ok _ => true | _ => false end.

Declare Scope go_scope.
Delimit Scope go_scope with go.
Notation "'let!' x := m 'in' k" := (rbind m (λ x, k))
  (at level 10, x pattern, m at level 100, k at level 200) : go_scope.
Notation "'do!' m 'in' k" := (rbind m (λ _, k))
  (at level 10, m at level 100, k at level 200) : go_scope.
#[global] Open Scope go_scope.

(** [for _, x := range l { if err := f(x); err != nil { return err } }] with the
    state threaded through. *)
Fixpoint foldM {S A} (f : S → A → result S) (s : S) (l : list A) : result S :=
  match l with
  | [] => Ok s
  | x :: l' => let! s' := f s x in foldM f s' l'
  end.

(** ** Machine integers *)

Definition wrapu (bits n : Z) : Z := n mod 2 ^ bits.
Definition wraps (bits n : Z) : Z :=
  (n + 2 ^ (bits - 1)) mod 2 ^ bits - 2 ^ (bits - 1).

Definition u8 (n : Z) : Z := wrapu 8 n.
Definition u32 (n : Z) : Z := wrapu 32 n.
Definition u64 (n : Z) : Z := wrapu 64 n.
Definition i32 (n : Z) : Z := wraps 32 n.

(** ** Automation *)

Create HintDb go discriminated.
Create Rewrite HintDb go.

(** Case analysis on every [result] that is bound in a hypothesis or the goal. *)
Ltac case_result :=
  match goal with
  | H : context [rbind ?m _] |- _ => destruct m eqn:?; simpl in H; simplify_eq
  | |- context [rbind ?m _] => destruct m eqn:?; simpl; simplify_eq
  end.

Ltac inv_ok := repeat (case_result || case_match || simplify_eq/=).

(** Split a boolean conjunction/disjunction in hypotheses. *)
Ltac bool_to_prop :=
  repeat match goal with
  | H : (_ && _)%bool = true |- _ => apply andb_true_iff in H as [? ?]
  | H : (_ && _)%bool = false |- _ => apply andb_false_iff in H
  | H : (_ || _)%bool = false |- _ => apply orb_false_iff in H as [? ?]
  | H : (_ || _)%bool = true |- _ => apply orb_true_iff in H
  | H : negb _ = true |- _ => apply negb_true_iff in H
  | H : negb _ = false |- _ => apply negb_false_iff in H
  | H : bool_decide _ = true |- _ => apply bool_decide_eq_true in H
  | H : bool_decide _ = false |- _ => apply bool_decide_eq_false in H
  | H : (_ =? _) = true |- _ => apply Z.eqb_eq in H
  | H : (_ =? _) = false |- _ => apply Z.eqb_neq in H
  | H : (_ <? _) = true |- _ => apply Z.ltb_lt in H
  | H : (_ <? _) = false |- _ => apply Z.ltb_ge in H
  | H : (_ <=? _) = true |- _ => apply Z.leb_le in H
  | H : (_ <=? _) = false |- _ => apply Z.leb_gt in H
  end.

(** ** Results *)

Lemma rbind_ok {A B} (m : result A) (k : A → result B) b :
  rbind m k = Ok b ↔ ∃ a, m = Ok a ∧ k a = Ok b.
Proof. split; [destruct m; naive_solver|]. by intros (a & -> & ?). Qed.

Lemma wrap_err_ok {A} msg (m : result A) a : wrap_err msg m = Ok a ↔ m = Ok a.
Proof. destruct m; naive_solver. Qed.

Lemma foldM_app {S A} (f : S → A → result S) s l1 l2 :
  foldM f s (l1 ++ l2) = let! s' := foldM f s l1 in foldM f s' l2.
Proof.
  revert s; induction l1 as [|x l1 IH]; intros s; [done|simpl].
  destruct (f s x); simpl; auto.
Qed.

(** Invariants of a fold: what every step preserves, the fold preserves. *)
Lemma foldM_inv {S A} (f : S → A → result S) (P : S → Prop) l s s' :
  (∀ s x s', x ∈ l → P s → f s x = Ok s' → P s') →
  P s → foldM f s l = Ok s' → P s'.
Proof.
  revert s; induction l as [|x l IH]; simpl; intros s Hstep Hs Hf; [naive_solver|].
  apply rbind_ok in Hf as (s1 & H1 & H2).
  eapply (IH s1); [|by eapply Hstep; [left|..]|done].
  intros ? ? ? ?; eapply Hstep; by right.
Qed.

(** ** Integers *)

Lemma wrapu_small bits n : 0 ≤ n < 2 ^ bits → wrapu bits n = n.
Proof. apply Z.mod_small. Qed.

Lemma wrapu_range bits n : 0 ≤ bits → 0 ≤ wrapu bits n < 2 ^ bits.
Proof. intros. apply Z.mod_pos_bound. lia. Qed.

Lemma wraps_small bits n :
  0 < bits → - 2 ^ (bits - 1) ≤ n < 2 ^ (bits - 1) → wraps bits n = n.
Proof.
  intros Hb Hn. unfold wraps.
  assert (2 ^ bits = 2 * 2 ^ (bits - 1)) as Hp.
  { rewrite <- Z.pow_succ_r by lia. f_equal. lia. }
  rewrite Z.mod_small; lia.
Qed.

Lemma ones_id n x : 0 ≤ n → 0 ≤ x < 2 ^ n → Z.land x (Z.ones n) = x.
Proof. intros. rewrite Z.land_ones by lia. by apply Z.mod_small. Qed.

Lemma testbit_ones' n i : 0 ≤ n → 0 ≤ i → Z.testbit (Z.ones n) i = (i <? n).
Proof. intros. rewrite Z.testbit_ones_nonneg by lia. done. Qed.

(** Equality of two bit expressions, bit by bit. *)
Ltac bits_step :=
  match goal with
  | |- context [Z.testbit (Z.lor ?a ?b) ?m] => rewrite (Z.lor_spec a b m)
  | |- context [Z.testbit (Z.land ?a ?b) ?m] => rewrite (Z.land_spec a b m)
  | |- context [Z.testbit (Z.shiftl ?a ?n) ?m] =>
      first [rewrite (Z.shiftl_spec a n m) by lia
            | rewrite (Z.testbit_neg_r (Z.shiftl a n) m) by lia | destruct (Z.ltb_spec m 0)]
  | |- context [Z.testbit (Z.shiftr ?a ?n) ?m] => rewrite (Z.shiftr_spec a n m) by lia
  | |- context [Z.testbit (Z.ones ?n) ?m] =>
      first [rewrite (testbit_ones' n m) by lia | rewrite (Z.testbit_neg_r (Z.ones n) m) by lia
            | destruct (Z.ltb_spec m 0)]
  | |- context [?a <? ?b] => destruct (Z.ltb_spec a b); try (exfalso; lia)
  end.
Ltac bits :=
  apply Z.bits_inj'; intros i Hi; repeat bits_step;
  rewrite ?andb_true_r, ?andb_false_r, ?orb_false_r, ?orb_false_l;
  repeat match goal with
  | |- context [Z.testbit ?a ?m] => rewrite (Z.testbit_neg_r a m) by lia
  end;
  rewrite ?andb_false_l, ?orb_false_r, ?orb_false_l;
  try reflexivity; try (f_equal; lia).

(** Testing one bit with a mask. *)
Lemma land_pow_zero b n : 0 ≤ n → (Z.land b (2 ^ n) =? 0) = negb (Z.testbit b n).
Proof.
  intros Hn. destruct (Z.testbit b n) eqn:E; simpl.
  - apply Z.eqb_neq. intros H. apply (f_equal (λ x, Z.testbit x n)) in H.
    rewrite Z.land_spec, E, Z.pow2_bits_true, Z.bits_0 in H by done. done.
  - apply Z.eqb_eq, Z.bits_inj'. intros m Hm. rewrite Z.land_spec, Z.bits_0, Z.pow2_bits_eqb by done.
    destruct (Z.eqb_spec n m) as [->|]; [by rewrite E|by rewrite andb_false_r].
Qed.
