(* ===== verification/GoStd.v ===== *)
(** * The parts of Go's standard library the runtime relies on

    Go strings are byte sequences, modelled by [string] (a list of 8-bit
    characters).  The file models what the sources use of [strconv], [strings],
    [bufio.Scanner] and [fmt]'s [%c] verb, with the values Go returns beside an
    error (callers such as [libcontainer/user] ignore the error and keep the
    value). *)

From S2P Require Import Prelude.

(** ** strconv *)

Inductive num_error := ErrSyntax | ErrRange.

#[export] Instance num_error_eq_dec : EqDecision num_error.
Proof. solve_decision. Defined.

Definition digit_val (c : ascii) : option Z :=
  let n := Z.of_N (N_of_ascii c) in
  if (48 <=? n) && (n <=? 57) then Some (n - 48) else None.

Definition digit_char (d : Z) : ascii := ascii_of_N (Z.to_N (48 + d)).

(** The digit loop of [strconv.ParseUint(s, 10, bits)]: [n] is the value read so
    far, [maxv] is [1<<bits - 1].  It stops at the first overflow or at the first
    byte that is not a digit, whichever comes first. *)
Fixpoint parse_digits (maxv n : Z) (s : string) : Z * option num_error :=
  match s with
  | EmptyString => (n, None)
  | String c s' =>
      match digit_val c with
      | None => (0, Some ErrSyntax)
      | Some d =>
          if maxv <? n * 10 + d then (maxv, Some ErrRange)
          else parse_digits maxv (n * 10 + d) s'
      end
  end.

Definition ParseUint (s : string) (bits : Z) : Z * option num_error :=
  match s with
  | EmptyString => (0, Some ErrSyntax)
  | _ => parse_digits (2 ^ bits - 1) 0 s
  end.

Definition signed_of_unsigned (neg : bool) (bits : Z) (r : Z * option num_error)
    : Z * option num_error :=
  let cutoff := 2 ^ (bits - 1) in
  match r with
  | (_, Some ErrSyntax) => (0, Some ErrSyntax)
  | (un, _) =>
      if negb neg && (cutoff <=? un) then (cutoff - 1, Some ErrRange)
      else if neg && (cutoff <? un) then (- cutoff, Some ErrRange)
      else ((if neg then - un else un), None)
  end.

(** [strconv.ParseInt(s, 10, bits)]. *)
Definition ParseInt (s : string) (bits : Z) : Z * option num_error :=
  match s with
  | EmptyString => (0, Some ErrSyntax)
  | String "+" s' => signed_of_unsigned false bits (ParseUint s' bits)
  | String "-" s' => signed_of_unsigned true bits (ParseUint s' bits)
  | _ => signed_of_unsigned false bits (ParseUint s bits)
  end.

(** [strconv.Atoi], [int] being 64 bits wide. *)
Definition Atoi (s : string) : Z * option num_error := ParseInt s 64.

(** Decimal digits of [n >= 0], most significant first, in front of [acc].  [fuel]
    bounds the number of digits. *)
Fixpoint format_digits (fuel : nat) (n : Z) (acc : string) : string :=
  match fuel with
  | O => acc
  | S fuel' =>
      if n <? 10 then String (digit_char n) acc
      else format_digits fuel' (n / 10) (String (digit_char (n mod 10)) acc)
  end.

(** [strconv.FormatInt(n, 10)]: a number below [2^k] has at most [k + 1] digits. *)
Definition FormatInt (n : Z) : string :=
  let fuel := S (Z.to_nat (Z.log2_up (Z.abs n + 1))) in
  if n <? 0 then String "-" (format_digits fuel (- n) "") else format_digits fuel n "".

Definition Itoa (n : Z) : string := FormatInt n.

(** ** fmt: the [%c] verb, UTF-8 encoding of a rune *)

Definition byte_char (n : Z) : ascii := ascii_of_N (Z.to_N n).

Definition fmt_rune (r : Z) : string :=
  let r := if (r <? 0) || (0x10FFFF <? r) || ((0xD800 <=? r) && (r <=? 0xDFFF))
           then 0xFFFD else r in
  if r <=? 0x7F then String (byte_char r) ""
  else if r <=? 0x7FF then
    String (byte_char (0xC0 + Z.shiftr r 6))
      (String (byte_char (0x80 + Z.land r 0x3F)) "")
  else if r <=? 0xFFFF then
    String (byte_char (0xE0 + Z.shiftr r 12))
      (String (byte_char (0x80 + Z.land (Z.shiftr r 6) 0x3F))
        (String (byte_char (0x80 + Z.land r 0x3F)) ""))
  else
    String (byte_char (0xF0 + Z.shiftr r 18))
      (String (byte_char (0x80 + Z.land (Z.shiftr r 12) 0x3F))
        (String (byte_char (0x80 + Z.land (Z.shiftr r 6) 0x3F))
          (String (byte_char (0x80 + Z.land r 0x3F)) ""))).

(** ** strings *)

(** [strings.Split(s, sep)] for a one-byte separator. *)
Fixpoint Split (sep : ascii) (s : string) : list string :=
  match s with
  | EmptyString => [""]
  | String c s' =>
      if decide (c = sep) then "" :: Split sep s'
      else match Split sep s' with
           | [] => [String c ""]
           | w :: ws => String c w :: ws
           end
  end.

(** [strings.Join(l, sep)]. *)
Fixpoint Join (sep : string) (l : list string) : string :=
  match l with
  | [] => ""
  | [w] => w
  | w :: ws => w +:+ sep +:+ Join sep ws
  end.

Fixpoint HasPrefix (s prefix : string) : bool :=
  match prefix, s with
  | EmptyString, _ => true
  | String p prefix', String c s' => bool_decide (p = c) && HasPrefix s' prefix'
  | _, EmptyString => false
  end.

Fixpoint drop_str (n : nat) (s : string) : string :=
  match n, s with
  | S n', String _ s' => drop_str n' s'
  | _, _ => s
  end.

Definition TrimPrefix (s prefix : string) : string :=
  if HasPrefix s prefix then drop_str (String.length prefix) s else s.

(** [strings.Contains(s, sub)]. *)
Fixpoint Contains (s sub : string) : bool :=
  HasPrefix s sub ||
  match s with
  | EmptyString => false
  | String _ s' => Contains s' sub
  end.

Fixpoint contains_char (c : ascii) (s : string) : bool :=
  match s with
  | EmptyString => false
  | String c' s' => bool_decide (c = c') || contains_char c s'
  end.

(** [unicode.IsSpace] over UTF-8: the width in bytes of the white-space rune at the
    head of [s], 0 when there is none.  A white-space rune has one valid encoding, so
    the rune at the head is white space exactly when the bytes are that encoding. *)
Definition code (c : ascii) : Z := Z.of_N (N_of_ascii c).

Definition is_space_1 (a : Z) : bool := ((9 <=? a) && (a <=? 13)) || (a =? 32).

Definition is_space_2 (a b : Z) : bool := (a =? 0xC2) && ((b =? 0x85) || (b =? 0xA0)).

Definition is_space_3 (a b d : Z) : bool :=
  ((a =? 0xE1) && (b =? 0x9A) && (d =? 0x80))
  || ((a =? 0xE2) && (b =? 0x80) &&
       (((0x80 <=? d) && (d <=? 0x8A)) || (d =? 0xA8) || (d =? 0xA9) || (d =? 0xAF)))
  || ((a =? 0xE2) && (b =? 0x81) && (d =? 0x9F))
  || ((a =? 0xE3) && (b =? 0x80) && (d =? 0x80)).

Definition space_width (s : string) : nat :=
  match s with
  | EmptyString => O
  | String c s' =>
      if is_space_1 (code c) then 1%nat
      else match s' with
      | EmptyString => O
      | String c2 s'' =>
          if is_space_2 (code c) (code c2) then 2%nat
          else match s'' with
          | EmptyString => O
          | String c3 _ => if is_space_3 (code c) (code c2) (code c3) then 3%nat else O
          end
      end
  end.

(** Drop leading white space; [skip] bytes of the rune being dropped remain. *)
Fixpoint trim_left_aux (skip : nat) (s : string) : string :=
  match s with
  | EmptyString => ""
  | String c s' =>
      match skip with
      | S k => trim_left_aux k s'
      | O => match space_width s with
             | O => s
             | S k => trim_left_aux k s'
             end
      end
  end.

Definition TrimLeftSpace (s : string) : string := trim_left_aux 0 s.

(** Drop trailing white space: cut at the first position whose whole tail is white
    space. *)
Fixpoint TrimRightSpace (s : string) : string :=
  match s with
  | EmptyString => ""
  | String c s' =>
      if bool_decide (TrimLeftSpace s = "") then "" else String c (TrimRightSpace s')
  end.

Definition TrimSpace (s : string) : string := TrimRightSpace (TrimLeftSpace s).

(** [strings.Fields]: the maximal runs of non-space bytes. [cur] is the current field
    (None between fields), [skip] the bytes left of the space being skipped. *)
Fixpoint fields_aux (skip : nat) (cur : option string) (s : string) : list string :=
  let flush := match cur with Some w => [w] | None => [] end in
  match s with
  | EmptyString => flush
  | String c s' =>
      match skip with
      | S k => fields_aux k None s'
      | O => match space_width s with
             | O => fields_aux 0 (Some (default "" cur +:+ String c "")) s'
             | S k => flush ++ fields_aux k None s'
             end
      end
  end.

Definition Fields (s : string) : list string := fields_aux 0 None s.

(** ** path/filepath *)

(** One path element of [filepath.Clean] on the stack of elements kept so far (last
    first): "." and "" vanish, ".." drops the last real element, stays when there is
    none and the path is relative, and vanishes at the root. *)
Definition clean_step (rooted : bool) (stk : list string) (e : string) : list string :=
  if bool_decide (e = "") || bool_decide (e = ".") then stk
  else if bool_decide (e = "..") then
    match stk with
    | [] => if rooted then [] else [".."]
    | top :: stk' => if bool_decide (top = "..") then ".." :: stk else stk'
    end
  else e :: stk.

Definition Clean (path : string) : string :=
  if bool_decide (path = "") then "."
  else
    let rooted := HasPrefix path "/" in
    let stk := foldl (clean_step rooted) [] (Split "/" path) in
    let body := Join "/" (reverse stk) in
    if rooted then String "/" body
    else if bool_decide (body = "") then "." else body.

(** [filepath.Join] on two elements. *)
Definition path_Join (a b : string) : string :=
  if bool_decide (a ≠ "") then Clean (a +:+ "/" +:+ b)
  else if bool_decide (b ≠ "") then Clean b
  else "".

(** ** os: the errno values behind [os.IsNotExist], [os.IsExist] and [os.IsPermission] *)

Definition EPERM : Z := 1.
Definition ENOENT : Z := 2.
Definition EACCES : Z := 13.
Definition EEXIST : Z := 17.
Definition ENOTEMPTY : Z := 39.

Definition IsNotExist (e : error) : bool := bool_decide (e = ErrSys ENOENT).
Definition IsExist (e : error) : bool :=
  bool_decide (e = ErrSys EEXIST) || bool_decide (e = ErrSys ENOTEMPTY).
Definition IsPermission (e : error) : bool :=
  bool_decide (e = ErrSys EPERM) || bool_decide (e = ErrSys EACCES).

(** ** bufio.Scanner with ScanLines *)

(** An [io.Reader]: the bytes it yields and the error, other than [io.EOF], that ends
    them. *)
Record reader := mk_reader { rd_data : string; rd_err : option error }.

Definition LF : ascii := "010".
Definition CR : ascii := "013".

(** [bufio.MaxScanTokenSize]. *)
Definition MaxScanTokenSize : Z := 65536.

Fixpoint dropCR (s : string) : string :=
  match s with
  | EmptyString => ""
  | String c EmptyString => if decide (c = CR) then "" else s
  | String c s' => String c (dropCR s')
  end.

(** The raw lines: the text up to each line feed, and the rest when it is not empty. *)
Definition raw_lines (s : string) : list string :=
  let ls := Split LF s in
  match last ls with
  | Some EmptyString => removelast ls
  | _ => ls
  end.

Definition ErrTooLong : error := ErrNew "bufio.Scanner: token too long".

(** The tokens [Scan] delivers and what [Err] says afterwards.  The buffer holds
    [MaxScanTokenSize] bytes: a line that fills it stops the scan. *)
Fixpoint scan_tokens (ls : list string) (err : option error)
    : list string * option error :=
  match ls with
  | [] => ([], err)
  | l :: ls' =>
      if Z.of_nat (String.length l) <? MaxScanTokenSize then
        let '(ts, e) := scan_tokens ls' err in (dropCR l :: ts, e)
      else ([], Some ErrTooLong)
  end.

Definition scan_lines (r : reader) : list string * option error :=
  scan_tokens (raw_lines (rd_data r)) (rd_err r).

(** ** Facts about strconv *)

Lemma digit_val_char d : 0 ≤ d < 10 → digit_val (digit_char d) = Some d.
Proof.
  intros Hd.
  assert (d = 0 ∨ d = 1 ∨ d = 2 ∨ d = 3 ∨ d = 4 ∨ d = 5 ∨ d = 6 ∨ d = 7 ∨ d = 8 ∨ d = 9)
    as Hc by lia.
  by destruct_or! Hc; subst.
Qed.

Lemma digit_val_range c d : digit_val c = Some d → 0 ≤ d < 10.
Proof. unfold digit_val. intros H. case_match; simplify_eq. bool_to_prop. lia. Qed.

(** The digits of [n], read back after the value [v], give [v] followed by [n]; here
    for [v = 0]. *)
Lemma parse_format_digits maxv fuel n acc :
  0 ≤ n ≤ maxv → n < 10 ^ Z.of_nat fuel → (0 < fuel)%nat →
  parse_digits maxv 0 (format_digits fuel n acc) = parse_digits maxv n acc.
Proof.
  revert n acc. induction fuel as [|fuel IH]; intros n acc Hn Hfuel Hpos; [lia|].
  cbn [format_digits]. case_match eqn:E; bool_to_prop.
  - cbn [parse_digits]. rewrite digit_val_char by lia.
    destruct (Z.ltb_spec maxv (0 * 10 + n)); [lia|]. f_equal; lia.
  - rewrite Nat2Z.inj_succ, Z.pow_succ_r in Hfuel by lia.
    assert (0 < fuel)%nat as Hf.
    { destruct fuel; [simpl in Hfuel; lia|lia]. }
    pose proof (Z.div_mod n 10 ltac:(lia)).
    pose proof (Z.mod_pos_bound n 10 ltac:(lia)).
    pose proof (Z.div_pos n 10 ltac:(lia) ltac:(lia)).
    rewrite IH; [| lia | apply Z.div_lt_upper_bound; lia | done].
    cbn [parse_digits]. rewrite digit_val_char by lia.
    destruct (Z.ltb_spec maxv (n / 10 * 10 + n mod 10)); [lia|]. f_equal; lia.
Qed.

Lemma format_fuel n :
  0 ≤ n → n < 10 ^ Z.of_nat (S (Z.to_nat (Z.log2_up (Z.abs n + 1)))).
Proof.
  intros Hn. rewrite Nat2Z.inj_succ, Z2Nat.id by apply Z.log2_up_nonneg.
  rewrite Z.abs_eq by done.
  assert (n + 1 ≤ 2 ^ Z.log2_up (n + 1)) as H.
  { destruct (Z.eq_dec n 0) as [->|]; [done|].
    apply Z.log2_up_spec. lia. }
  pose proof (Z.log2_up_nonneg (n + 1)).
  assert (2 ^ Z.log2_up (n + 1) ≤ 10 ^ Z.log2_up (n + 1)) by (apply Z.pow_le_mono_l; lia).
  rewrite Z.pow_succ_r by lia. lia.
Qed.

Lemma digit_char_code d : 0 ≤ d < 10 → code (digit_char d) = 48 + d.
Proof.
  intros Hd.
  assert (d = 0 ∨ d = 1 ∨ d = 2 ∨ d = 3 ∨ d = 4 ∨ d = 5 ∨ d = 6 ∨ d = 7 ∨ d = 8 ∨ d = 9)
    as Hc by lia.
  by destruct_or! Hc; subst.
Qed.

(** Every byte of a printed non-negative number is a digit, and there is at least one. *)
Fixpoint all_digits (s : string) : bool :=
  match s with
  | EmptyString => true
  | String c s' => match digit_val c with Some _ => all_digits s' | None => false end
  end.

Lemma format_digits_all fuel n acc :
  0 ≤ n → all_digits acc = true → all_digits (format_digits fuel n acc) = true.
Proof.
  revert n acc; induction fuel as [|fuel IH]; intros n acc Hn Ha; [done|simpl].
  case_match; bool_to_prop; simpl.
  - by rewrite digit_val_char by lia.
  - pose proof (Z.mod_pos_bound n 10 ltac:(lia)).
    apply IH; [apply Z.div_pos; lia|]. simpl. by rewrite digit_val_char by lia.
Qed.

Lemma format_digits_cons fuel n acc :
  ∃ c s, format_digits (S fuel) n acc = String c s.
Proof.
  revert n acc; induction fuel as [|fuel IH]; intros n acc.
  - simpl. case_match; eauto.
  - cbn [format_digits]. case_match; [by eauto|]. apply IH.
Qed.

Lemma FormatInt_nonneg n :
  0 ≤ n → ∃ c s, FormatInt n = String c s ∧ all_digits (String c s) = true.
Proof.
  intros Hn. unfold FormatInt. case_match; bool_to_prop; [lia|].
  destruct (format_digits_cons (Z.to_nat (Z.log2_up (Z.abs n + 1))) n "") as (c & s & Hc).
  exists c, s. split; [done|]. rewrite <- Hc. by apply format_digits_all.
Qed.

Lemma ParseUint_FormatInt n bits :
  0 ≤ n ≤ 2 ^ bits - 1 → ParseUint (FormatInt n) bits = (n, None).
Proof.
  intros Hn. destruct (FormatInt_nonneg n) as (c & s & Hc & _); [lia|].
  unfold ParseUint. rewrite Hc, <- Hc. unfold FormatInt.
  case_match; bool_to_prop; [lia|].
  by rewrite parse_format_digits by (try apply format_fuel; lia).
Qed.

Lemma all_digits_head c s :
  all_digits (String c s) = true → c ≠ "+"%char ∧ c ≠ "-"%char.
Proof. simpl. intros H. case_match eqn:E; [|done]. split; intros ->; by vm_compute in E. Qed.

Lemma ParseInt_unsigned c s bits :
  c ≠ "+"%char → c ≠ "-"%char →
  ParseInt (String c s) bits = signed_of_unsigned false bits (ParseUint (String c s) bits).
Proof.
  intros H1 H2. destruct c as [[] [] [] [] [] [] [] []]; try reflexivity; done.
Qed.

(** Printing a number and parsing it back, at any width that holds it. *)
Lemma ParseInt_FormatInt n bits :
  0 < bits → - 2 ^ (bits - 1) ≤ n < 2 ^ (bits - 1) → ParseInt (FormatInt n) bits = (n, None).
Proof.
  intros Hb Hn.
  assert (2 ^ bits = 2 * 2 ^ (bits - 1)) as Hp.
  { rewrite <- Z.pow_succ_r by lia. f_equal. lia. }
  destruct (Z.ltb_spec n 0).
  - assert (FormatInt n = String "-" (FormatInt (- n))) as ->.
    { unfold FormatInt. rewrite Z.abs_opp.
      destruct (Z.ltb_spec n 0), (Z.ltb_spec (- n) 0); (lia || done). }
    cbn [ParseInt]. rewrite ParseUint_FormatInt by lia. cbn [signed_of_unsigned negb andb].
    destruct (Z.ltb_spec (2 ^ (bits - 1)) (- n)); [lia|]. f_equal; lia.
  - destruct (FormatInt_nonneg n) as (c & s & Hc & Hd); [done|].
    destruct (all_digits_head _ _ Hd).
    rewrite Hc, ParseInt_unsigned, <- Hc, ParseUint_FormatInt by (done || lia).
    cbn [signed_of_unsigned negb andb].
    destruct (Z.leb_spec (2 ^ (bits - 1)) n); [lia|done].
Qed.

Lemma Atoi_Itoa n : - 2 ^ 63 ≤ n < 2 ^ 63 → Atoi (Itoa n) = (n, None).
Proof. intros Hn. unfold Atoi, Itoa. apply ParseInt_FormatInt; lia. Qed.

Lemma Itoa_inj n m : Itoa n = Itoa m → n = m.
Proof.
  unfold Itoa. intros H.
  set (b := Z.log2_up (Z.abs n + Z.abs m + 1) + 1).
  assert (0 < b) as Hb by (pose proof (Z.log2_up_nonneg (Z.abs n + Z.abs m + 1)); lia).
  assert (Z.abs n + Z.abs m + 1 ≤ 2 ^ (b - 1)) as Hle.
  { unfold b. replace (_ + 1 - 1) with (Z.log2_up (Z.abs n + Z.abs m + 1)) by lia.
    destruct (Z.eq_dec (Z.abs n + Z.abs m) 0) as [->|]; [done|].
    apply Z.log2_up_spec. lia. }
  pose proof (ParseInt_FormatInt n b Hb ltac:(lia)).
  pose proof (ParseInt_FormatInt m b Hb ltac:(lia)). congruence.
Qed.

Lemma parse_digits_range maxv n s v e :
  0 ≤ n ≤ maxv → parse_digits maxv n s = (v, e) → 0 ≤ v ≤ maxv.
Proof.
  revert n; induction s as [|c s IH]; simpl; intros n Hn H; [naive_solver|].
  repeat case_match; simplify_eq; [lia| |lia].
  bool_to_prop. eapply IH; [|done]. match goal with H : digit_val _ = _ |- _ =>
    apply digit_val_range in H end. lia.
Qed.

(** [ParseInt] never returns a value outside its width, error or not: callers that drop
    the error get a clamped value. *)
Lemma ParseInt_range s bits :
  0 < bits → - 2 ^ (bits - 1) ≤ (ParseInt s bits).1 < 2 ^ (bits - 1).
Proof.
  intros Hb. pose proof (Z.pow_pos_nonneg 2 (bits - 1) ltac:(lia) ltac:(lia)).
  assert (∀ neg s, - 2 ^ (bits - 1) ≤ (signed_of_unsigned neg bits (ParseUint s bits)).1
                   < 2 ^ (bits - 1)) as Hs.
  { intros neg s'.
    assert (0 ≤ (ParseUint s' bits).1) as H0.
    { unfold ParseUint. destruct s' as [|c s']; [done|].
      destruct (parse_digits _ _ _) as [v e] eqn:E. simpl.
      apply parse_digits_range in E; [lia|].
      pose proof (Z.pow_pos_nonneg 2 bits ltac:(lia) ltac:(lia)). lia. }
    unfold signed_of_unsigned. destruct (ParseUint s' bits) as [un [[]|]]; simpl in *; [lia|..];
      destruct neg; simpl; repeat case_match; simpl; bool_to_prop; lia. }
  unfold ParseInt. repeat case_match; try apply Hs; simpl; lia.
Qed.

(** ** Facts about strings and lines *)

Lemma string_app_cons c a b : String c a +:+ b = String c (a +:+ b).
Proof. done. Qed.

Lemma string_app_nil_r s : s +:+ "" = s.
Proof. induction s as [|c s IH]; [done|]. by rewrite string_app_cons, IH. Qed.

Lemma string_app_assoc a b c : (a +:+ b) +:+ c = a +:+ (b +:+ c).
Proof. induction a as [|x a IH]; [done|]. by rewrite !string_app_cons, IH. Qed.

Lemma contains_char_app c a b :
  contains_char c (a +:+ b) = contains_char c a || contains_char c b.
Proof.
  induction a as [|c' a IH]; [done|]. rewrite string_app_cons. simpl.
  by rewrite IH, orb_assoc.
Qed.

Lemma all_digits_contains c s :
  digit_val c = None → all_digits s = true → contains_char c s = false.
Proof.
  intros Hc. induction s as [|c' s IH]; simpl; [done|]. intros Hd.
  destruct (digit_val c') eqn:E; [|done].
  rewrite bool_decide_eq_false_2 by congruence. by apply IH.
Qed.

Lemma Split_app sep l rest :
  contains_char sep l = false → Split sep (l +:+ String sep rest) = l :: Split sep rest.
Proof.
  induction l as [|c l IH]; intros Hl.
  - simpl. by rewrite decide_True.
  - rewrite string_app_cons. simpl in *. apply orb_false_iff in Hl as [Hc Hl].
    bool_to_prop. rewrite decide_False by done. by rewrite IH.
Qed.

Lemma Split_nonempty sep s : Split sep s ≠ [].
Proof. destruct s as [|c s]; simpl; [done|]. repeat case_match; done. Qed.

Lemma Split_single sep l : contains_char sep l = false → Split sep l = [l].
Proof.
  induction l as [|c l IH]; intros Hl; [done|]. simpl in *.
  apply orb_false_iff in Hl as [Hc Hl]. bool_to_prop. rewrite decide_False by done.
  by rewrite IH.
Qed.

(** Splitting at the separator undoes joining, when no element contains it. *)
Lemma Split_Join sep l :
  l ≠ [] → (∀ x, x ∈ l → contains_char sep x = false) →
  Split sep (Join (String sep "") l) = l.
Proof.
  induction l as [|x l IH]; intros Hl Hx; [done|].
  destruct l as [|y l]; [apply Split_single, Hx; by left|].
  change (Join (String sep "") (x :: y :: l))
    with (x +:+ String sep "" +:+ Join (String sep "") (y :: l)).
  rewrite string_app_cons. change ("" +:+ ?s) with s.
  rewrite Split_app by (apply Hx; by left). f_equal. apply IH; [done|].
  intros z Hz. apply Hx. by right.
Qed.

Lemma dropCR_id s : contains_char CR s = false → dropCR s = s.
Proof.
  induction s as [|c s IH]; simpl; [done|]. intros [Hc Hs]%orb_false_iff.
  bool_to_prop. destruct s as [|c' s].
  - by rewrite decide_False.
  - by rewrite IH.
Qed.

(** The text made of the given lines, each ended by a line feed. *)
Fixpoint unlines (ls : list string) : string :=
  match ls with
  | [] => ""
  | l :: ls' => l +:+ String LF (unlines ls')
  end.

(** A line [bufio.Scanner] delivers unchanged. *)
Definition line_ok (l : string) : Prop :=
  contains_char LF l = false ∧ contains_char CR l = false ∧
  Z.of_nat (String.length l) < MaxScanTokenSize.

Lemma Split_unlines ls : Forall line_ok ls → Split LF (unlines ls) = ls ++ [""].
Proof.
  induction 1 as [|l ls (Hl & _) _ IH]; [done|]. simpl. by rewrite Split_app, IH.
Qed.

Lemma scan_unlines ls err :
  Forall line_ok ls → scan_lines (mk_reader (unlines ls) err) = (ls, err).
Proof.
  intros Hls. unfold scan_lines, raw_lines. simpl. rewrite Split_unlines by done.
  rewrite last_snoc, removelast_last. clear -Hls.
  induction Hls as [|l ls (_ & Hcr & Hlen) _ IH]; [done|]. simpl.
  rewrite (proj2 (Z.ltb_lt _ _) Hlen), IH. by rewrite dropCR_id.
Qed.

Lemma string_length_app a b : String.length (a +:+ b) = (String.length a + String.length b)%nat.
Proof. induction a as [|c a IH]; [done|]. rewrite string_app_cons. simpl. by rewrite IH. Qed.

Lemma format_digits_length fuel n acc :
  (String.length (format_digits fuel n acc) ≤ fuel + String.length acc)%nat.
Proof.
  revert n acc; induction fuel as [|fuel IH]; intros n acc; simpl; [lia|].
  case_match; simpl; [lia|]. etrans; [apply IH|]. simpl. lia.
Qed.

Lemma FormatInt_length n bits :
  0 ≤ n < 2 ^ bits → 0 ≤ bits → Z.of_nat (String.length (FormatInt n)) ≤ bits + 1.
Proof.
  intros Hn Hb. unfold FormatInt. case_match; bool_to_prop; [lia|].
  pose proof (format_digits_length (S (Z.to_nat (Z.log2_up (Z.abs n + 1)))) n "") as Hl.
  rewrite Z.abs_eq in * by lia. simpl String.length in Hl at 2.
  assert (Z.log2_up (n + 1) ≤ bits) by (apply Z.log2_up_le_pow2; lia).
  pose proof (Z.log2_up_nonneg (n + 1)). lia.
Qed.
