(* ===== verification/GoPath.v ===== *)
(** * Paths: the rest of Go's [path/filepath]

    [filepath.Rel], [filepath.Dir] and [filepath.Base] on top of [Clean] of GoStd.v, and
    the view of a rooted path as the list of its elements, in which the path functions
    become list functions. *)

From S2P Require Import Prelude GoStd.

(** The elements of a cleaned path. *)
Definition split_path (p : string) : list string :=
  if bool_decide (p = "") || bool_decide (p = "/") then []
  else Split "/" (TrimPrefix p "/").

Fixpoint strip_common (b t : list string) : list string * list string :=
  match b, t with
  | x :: b', y :: t' => if decide (x = y) then strip_common b' t' else (b, t)
  | _, _ => (b, t)
  end.

(** [filepath.Rel(basepath, targpath)]. *)
Definition Rel (basepath targpath : string) : result string :=
  let base := Clean basepath in
  let targ := Clean targpath in
  if decide (targ = base) then Ok "."
  else
    let base := if decide (base = ".") then "" else base in
    let e := ErrNew ("Rel: can't make " +:+ targpath +:+ " relative to " +:+ basepath) in
    if negb (Bool.eqb (HasPrefix base "/") (HasPrefix targ "/")) then Err e
    else
      let '(b, t) := strip_common (split_path base) (split_path targ) in
      match b with
      | [] => Ok (Join "/" t)
      | x :: _ => if decide (x = "..") then Err e
                  else Ok (Join "/" (replicate (length b) ".." ++ t))
      end.

(** [filepath.Dir]: what precedes the last slash, cleaned. *)
Definition Dir (path : string) : string :=
  Clean (Join "/" (removelast (Split "/" path) ++ [""])).

(** [filepath.Base]: the last element, trailing slashes apart. *)
Definition Base (path : string) : string :=
  if decide (path = "") then "."
  else default "/" (last (filter (λ e, e ≠ "") (Split "/" path))).

(** ** Elements *)

(** The elements that remain of a path when it is cleaned. *)
Definition elems (path : string) : list string :=
  reverse (foldl (clean_step (HasPrefix path "/")) [] (Split "/" path)).

Definition rooted (path : string) : Prop := HasPrefix path "/" = true.

(** An element of a cleaned path. *)
Definition elem_ok (e : string) : Prop := e ≠ "" ∧ e ≠ "." ∧ contains_char "/" e = false.

Lemma Split_sep_app sep a b : Split sep (a +:+ String sep b) = Split sep a ++ Split sep b.
Proof.
  induction a as [|c a IH]; [simpl; by rewrite decide_True|].
  rewrite string_app_cons. simpl. case_decide; [by rewrite IH|]. rewrite IH.
  pose proof (Split_nonempty sep a). by destruct (Split sep a).
Qed.

Lemma Split_elem sep s x : x ∈ Split sep s → contains_char sep x = false.
Proof.
  revert x; induction s as [|c s IH]; intros x Hx; simpl in Hx.
  { apply list_elem_of_singleton in Hx as ->. done. }
  case_decide as Hc.
  { apply elem_of_cons in Hx as [->|Hx]; [done|by apply IH]. }
  destruct (Split sep s) as [|w ws] eqn:E; [by destruct (Split_nonempty sep s)|].
  apply elem_of_cons in Hx as [->|Hx]; [|apply IH; by right].
  simpl. rewrite (IH w) by by left. by rewrite bool_decide_eq_false_2.
Qed.

Lemma foldl_clean_ok r l stk :
  (∀ x, x ∈ l → contains_char "/" x = false) → Forall elem_ok stk →
  Forall elem_ok (foldl (clean_step r) stk l).
Proof.
  revert stk; induction l as [|e l IH]; intros stk Hl Hstk; [done|]. simpl.
  apply IH; [intros x Hx; apply Hl; by right|]. unfold clean_step.
  case_bool_decide as H1; [done|]. case_bool_decide as H2; [done|]. simpl.
  case_bool_decide as H3.
  - destruct stk as [|top stk]; [destruct r; [done|by repeat constructor]|].
    case_bool_decide; [|by inversion_clear Hstk]. constructor; [|done]. by repeat constructor.
  - constructor; [|done]. split_and!; [done|done|]. apply Hl. by left.
Qed.

Lemma elems_ok path : Forall elem_ok (elems path).
Proof.
  unfold elems. apply Forall_reverse, foldl_clean_ok; [|constructor]. apply Split_elem.
Qed.

Lemma rooted_head path : rooted path → ∃ s, path = String "/" s.
Proof.
  unfold rooted. destruct path as [|c s]; simpl; [done|]. intros H.
  apply andb_true_iff in H as [Hc _]. bool_to_prop. subst. by exists s.
Qed.

Lemma slash_prefix s : HasPrefix (String "/" s) "/" = true.
Proof. by destruct s. Qed.

Lemma rooted_cons s : rooted (String "/" s).
Proof. apply slash_prefix. Qed.

Lemma Clean_rooted path : rooted path → Clean path = String "/" (Join "/" (elems path)).
Proof.
  intros Hr. unfold Clean, elems. rewrite Hr.
  destruct (rooted_head path Hr) as [s ->]. by rewrite bool_decide_eq_false_2.
Qed.


Lemma Join_empty l : Forall elem_ok l → Join "/" l = "" → l = [].
Proof.
  destruct l as [|x l]; [done|]. intros Hl. inversion_clear Hl as [|? ? [Hx _]].
  destruct x as [|c x]; [done|]. by destruct l.
Qed.

Lemma split_path_elems l : Forall elem_ok l → split_path (String "/" (Join "/" l)) = l.
Proof.
  intros Hl. unfold split_path. rewrite bool_decide_eq_false_2 by done. simpl orb.
  case_bool_decide as H.
  { injection H as H. symmetry. by apply Join_empty. }
  unfold TrimPrefix. rewrite slash_prefix. cbn [drop_str String.length].
  apply Split_Join.
  - by intros ->.
  - intros x Hx. rewrite Forall_forall in Hl. by apply Hl.
Qed.

(** A cleaned rooted path is determined by its elements. *)
Lemma split_path_Clean path : rooted path → split_path (Clean path) = elems path.
Proof. intros Hr. rewrite Clean_rooted by done. apply split_path_elems, elems_ok. Qed.

Lemma Clean_eq p q : rooted p → rooted q → Clean p = Clean q ↔ elems p = elems q.
Proof.
  intros Hp Hq. split.
  - intros H. by rewrite <- !split_path_Clean, H.
  - intros H. by rewrite !Clean_rooted, H.
Qed.

Lemma Clean_Rooted p : rooted p → rooted (Clean p).
Proof. intros Hr. rewrite Clean_rooted by done. apply rooted_cons. Qed.

Definition not_dotdot (e : string) : Prop := e ≠ "..".

(** Above the root there is nothing. *)
Lemma foldl_clean_dots l stk :
  Forall not_dotdot stk → Forall not_dotdot (foldl (clean_step true) stk l).
Proof.
  revert stk; induction l as [|e l IH]; intros stk Hs; [done|]. simpl. apply IH. unfold clean_step.
  case_bool_decide; [done|]. case_bool_decide; [done|]. simpl. case_bool_decide as He.
  - destruct stk as [|top stk]; [done|]. inversion_clear Hs.
    by rewrite bool_decide_eq_false_2.
  - by constructor.
Qed.

Lemma elems_no_dots p : rooted p → Forall not_dotdot (elems p).
Proof.
  intros Hr. unfold elems. rewrite Hr. apply Forall_reverse, foldl_clean_dots. constructor.
Qed.

Lemma foldl_clean_id l stk :
  Forall elem_ok l → Forall not_dotdot l → foldl (clean_step true) stk l = reverse l ++ stk.
Proof.
  revert stk; induction l as [|e l IH]; intros stk Ho Hd; [done|]. simpl.
  inversion_clear Ho as [|? ? (H1 & H2 & H3)]. inversion_clear Hd as [|? ? H4].
  unfold clean_step at 2. rewrite !bool_decide_eq_false_2 by done. simpl.
  by rewrite IH, reverse_cons, <- app_assoc.
Qed.

Lemma elems_Clean p : rooted p → elems (Clean p) = elems p.
Proof.
  intros Hr. rewrite Clean_rooted by done. unfold elems at 1. rewrite slash_prefix.
  change (Split "/" (String "/" (Join "/" (elems p)))) with ("" :: Split "/" (Join "/" (elems p))).
  destruct (elems p) as [|x l] eqn:E; [done|]. rewrite <- E. simpl.
  rewrite Split_Join.
  - rewrite foldl_clean_id by (apply elems_ok || by apply elems_no_dots).
    by rewrite app_nil_r, reverse_involutive.
  - by rewrite E.
  - pose proof (elems_ok p) as Hok. intros y Hy. rewrite Forall_forall in Hok. by apply Hok.
Qed.

Lemma rooted_app a b : rooted a → rooted (a +:+ b).
Proof. intros [s ->]%rooted_head. apply rooted_cons. Qed.

(** Joining below a rooted path. *)
Lemma elems_Join a b l :
  rooted a → foldl (clean_step true) (reverse (elems a)) (Split "/" b) = l →
  rooted (path_Join a b) ∧ elems (path_Join a b) = reverse l.
Proof.
  intros Ha Hl. unfold path_Join.
  rewrite bool_decide_eq_true_2 by (by intros ->).
  change ("/" +:+ b) with (String "/" b).
  assert (rooted (a +:+ String "/" b)) as Hr by by apply rooted_app.
  split; [by apply Clean_Rooted|]. rewrite elems_Clean by done.
  unfold elems. rewrite Hr, Split_sep_app, foldl_app. f_equal. rewrite <- Hl.
  unfold elems. by rewrite Ha, reverse_involutive.
Qed.

(** [Rel] on rooted paths. *)
Lemma Rel_rooted p q :
  rooted p → rooted q →
  Rel p q = if decide (elems q = elems p) then Ok "." else
    let '(b, t) := strip_common (elems p) (elems q) in
    match b with
    | [] => Ok (Join "/" t)
    | x :: _ => if decide (x = "..")
                then Err (ErrNew ("Rel: can't make " +:+ q +:+ " relative to " +:+ p))
                else Ok (Join "/" (replicate (length b) ".." ++ t))
    end.
Proof.
  intros Hp Hq. unfold Rel.
  rewrite (decide_ext _ _ _ _ (Clean_eq q p Hq Hp)).
  case_decide; [done|].
  assert (Clean p ≠ ".") as Hd by (by rewrite Clean_rooted).
  rewrite decide_False by done.
  rewrite (Clean_Rooted p Hp), (Clean_Rooted q Hq). simpl negb. cbv iota.
  by rewrite !split_path_Clean.
Qed.

Lemma strip_common_split b t :
  ∃ c, b = c ++ (strip_common b t).1 ∧ t = c ++ (strip_common b t).2.
Proof.
  revert t; induction b as [|x b IH]; intros t; [by exists []|].
  destruct t as [|y t]; [by exists []|]. simpl. case_decide as Hxy; [|by exists []].
  subst. destruct (IH t) as (c & H1 & H2). exists (y :: c). simpl. by rewrite <- H1, <- H2.
Qed.

Lemma strip_common_prefix b t : strip_common b (b ++ t) = ([], t).
Proof. induction b as [|x b IH]; [done|]. simpl. by rewrite decide_True. Qed.

Lemma strip_common_self b : strip_common b b = ([], []).
Proof. rewrite <- (app_nil_r b) at 2. apply strip_common_prefix. Qed.

(** The three shapes of a relative path: the same place, below, and up first. *)
Lemma Rel_cases p q :
  rooted p → rooted q →
  (elems q = elems p ∧ Rel p q = Ok ".") ∨
  (∃ t, t ≠ [] ∧ elems q = elems p ++ t ∧ Rel p q = Ok (Join "/" t)) ∨
  (∃ x b t, strip_common (elems p) (elems q) = (x :: b, t) ∧
            Rel p q = Ok (Join "/" (".." :: replicate (length b) ".." ++ t))).
Proof.
  intros Hp Hq. rewrite Rel_rooted by done. case_decide as Heq; [by left|right].
  destruct (strip_common_split (elems p) (elems q)) as (c & H1 & H2).
  destruct (strip_common (elems p) (elems q)) as [[|x b] t] eqn:E; simpl in *.
  - left. exists t. rewrite app_nil_r in H1. subst c.
    split_and!; [|done|done]. intros ->. by rewrite app_nil_r in H2.
  - right. exists x, b, t. split; [done|]. rewrite decide_False; [done|].
    pose proof (elems_no_dots p Hp) as Hd. rewrite H1, Forall_app, Forall_cons in Hd. apply Hd.
Qed.

Lemma HasPrefix_app a b : HasPrefix (a +:+ b) a = true.
Proof.
  induction a as [|c a IH]; [by destruct b|]. rewrite string_app_cons. simpl.
  by rewrite bool_decide_eq_true_2, IH.
Qed.

Lemma Join_cons x l : ∃ s, Join "/" (x :: l) = x +:+ s.
Proof.
  destruct l as [|y l]; [exists ""|by eexists]. change (Join "/" [x]) with x.
  induction x as [|c x IH]; [done|]. by rewrite string_app_cons, <- IH.
Qed.

Lemma Join_not_dot t : t ≠ [] → Forall elem_ok t → Join "/" t ≠ ".".
Proof.
  intros Ht Hok. destruct t as [|x t]; [done|]. apply Forall_cons in Hok as [(H1 & H2 & H3) _].
  destruct t as [|y t]; [done|]. simpl. intros Hj.
  destruct x as [|c x]; [done|]. rewrite string_app_cons in Hj. injection Hj as _ Hj.
  by destruct x.
Qed.

(** [Rel] finds the same place exactly for equal elements. *)
Lemma Rel_dot p q :
  rooted p → rooted q → ∃ r, Rel p q = Ok r ∧ (r = "." ↔ elems q = elems p).
Proof.
  intros Hp Hq. pose proof (elems_ok q) as Hok.
  destruct (Rel_cases p q Hp Hq) as [[H1 H2]|[(t & H1 & H2 & H3)|(x & b & t & H1 & H2)]].
  - by exists ".".
  - exists (Join "/" t). split; [done|]. rewrite H2 in Hok. apply Forall_app in Hok as [_ Hok].
    split; [by intros ?%Join_not_dot|]. rewrite H2. intros H.
    apply (f_equal length) in H. rewrite length_app in H. destruct t; [done|simpl in H; lia].
  - eexists; split; [exact H2|]. split.
    + destruct (Join_cons ".." (replicate (length b) ".." ++ t)) as [s ->]. by destruct s.
    + intros Heq. by rewrite Heq, strip_common_self in H1.
Qed.

(** The element lists that joining and cleaning leave alone. *)
Definition clean_elems (l : list string) : Prop := Forall elem_ok l ∧ Forall not_dotdot l.

#[export] Instance elem_ok_dec e : Decision (elem_ok e).
Proof. unfold elem_ok. apply _. Defined.
#[export] Instance not_dotdot_dec e : Decision (not_dotdot e).
Proof. unfold not_dotdot. apply _. Defined.
#[export] Instance clean_elems_dec l : Decision (clean_elems l).
Proof. unfold clean_elems. apply _. Defined.

Lemma elems_below a v l :
  rooted a → Split "/" v = "" :: l → clean_elems l →
  rooted (path_Join a v) ∧ elems (path_Join a v) = elems a ++ l.
Proof.
  intros Ha Hv [H1 H2].
  destruct (elems_Join a v (reverse l ++ reverse (elems a))) as [Hr He]; [done| |].
  - rewrite Hv. simpl. by rewrite foldl_clean_id.
  - split; [done|]. by rewrite He, reverse_app, !reverse_involutive.
Qed.
