(* ===== verification/GoMonad.v ===== *)
(** * Stateful Go code

    The monad of the components that mutate objects and call the outside world: a
    computation threads a state and ends with a value, an error or a panic; what was
    changed before an error stays changed. [defer], the recovery of an error as a
    value and the frame rules used by the components are here. *)

From S2P Require Import Prelude.

Definition M (S A : Type) : Type := S → result A * S.

Section Monad.
Context {S : Type}.

Definition ret {A} (a : A) : M S A := λ s, (Ok a, s).
Definition throw {A} (e : error) : M S A := λ s, (Err e, s).
Definition panic {A} (msg : string) : M S A := λ s, (Panic msg, s).

Definition bind {A B} (m : M S A) (k : A → M S B) : M S B := λ s,
  match m s with
  | (Ok a, s') => k a s'
  | (Err e, s') => (Err e, s')
  | (Panic x, s') => (Panic x, s')
  end.

Definition get : M S S := λ s, (Ok s, s).
Definition modify (f : S → S) : M S () := λ s, (Ok tt, f s).
Definition gets {A} (f : S → A) : M S A := λ s, (Ok (f s), s).

(** [v, err := m()]: the error becomes a value, a panic does not. *)
Definition try {A} (m : M S A) : M S (error + A) := λ s,
  match m s with
  | (Ok a, s') => (Ok (inr a), s')
  | (Err e, s') => (Ok (inl e), s')
  | (Panic x, s') => (Panic x, s')
  end.

(** [err := m()] *)
Definition err_of {A} (m : M S A) : M S (option error) :=
  bind (try m) (λ r, ret match r with inl e => Some e | inr _ => None end).

(** A call whose error is dropped. *)
Definition ignore {A} (m : M S A) : M S () := bind (try m) (λ _, ret tt).

(** [return err] for an error value that may be nil. *)
Definition return_err (e : option error) : M S () :=
  match e with None => ret tt | Some e => throw e end.

(** [if err := m(); err != nil { return f(err) }] *)
Definition map_err {A} (f : error → error) (m : M S A) : M S A := λ s,
  match m s with
  | (Err e, s') => (Err (f e), s')
  | r => r
  end.

(** [defer d()]: [d] runs whatever the outcome of [m] is. *)
Definition defer {A} (d : M S ()) (m : M S A) : M S A := λ s,
  let (r, s1) := m s in
  match d s1 with
  | (Panic x, s2) => (Panic x, s2)
  | (_, s2) => (r, s2)
  end.

(** A deferred clean-up that is skipped once [m] has come to its end: it runs when [m]
    returns an error or panics. *)
Definition on_failure {A} (d : M S ()) (m : M S A) : M S A := λ s,
  match m s with
  | (Ok a, s1) => (Ok a, s1)
  | (r, s1) => match d s1 with (Panic x, s2) => (Panic x, s2) | (_, s2) => (r, s2) end
  end.

Definition lift {A} (r : result A) : M S A := λ s, (r, s).

Definition when (b : bool) (m : M S ()) : M S () := if b then m else ret tt.

Fixpoint for_each {A} (f : A → M S ()) (l : list A) : M S () :=
  match l with
  | [] => ret tt
  | x :: l' => bind (f x) (λ _, for_each f l')
  end.
End Monad.

Notation "'do' x ← m ; k" := (bind m (λ x, k))
  (at level 100, x pattern, m at next level, k at level 200, right associativity) : go_scope.
Notation "m ;;; k" := (bind m (λ _, k)) (at level 100, k at level 200, right associativity) : go_scope.

(** ** Quiet computations: no panic, and the part [f] of the state is kept *)

Section Quiet.
Context {S X : Type} (f : S → X).

Definition quiet {A} (m : M S A) : Prop :=
  ∀ s, match m s with (Panic _, _) => False | (_, s') => f s' = f s end.

Lemma quiet_ret {A} (a : A) : quiet (ret a).
Proof. done. Qed.
Lemma quiet_throw {A} e : quiet (throw (A := A) e).
Proof. done. Qed.
Lemma quiet_get : quiet get.
Proof. done. Qed.
Lemma quiet_gets {A} (g : S → A) : quiet (gets g).
Proof. done. Qed.

Lemma quiet_bind {A B} (m : M S A) (k : A → M S B) :
  quiet m → (∀ a, quiet (k a)) → quiet (bind m k).
Proof.
  intros Hm Hk s. unfold bind. specialize (Hm s).
  destruct (m s) as [[a|e|x] s1]; [|done|done].
  specialize (Hk a s1). destruct (k a s1) as [[]]; congruence.
Qed.

Lemma quiet_try {A} (m : M S A) : quiet m → quiet (try m).
Proof. intros Hm s. specialize (Hm s). unfold try. by destruct (m s) as [[]]. Qed.

Lemma quiet_err_of {A} (m : M S A) : quiet m → quiet (err_of m).
Proof. intros Hm. apply quiet_bind; [by apply quiet_try|intros; apply quiet_ret]. Qed.

Lemma quiet_ignore {A} (m : M S A) : quiet m → quiet (ignore m).
Proof. intros Hm. apply quiet_bind; [by apply quiet_try|intros; apply quiet_ret]. Qed.

Lemma quiet_return_err e : quiet (return_err e).
Proof. destruct e; [apply quiet_throw|apply quiet_ret]. Qed.

Lemma quiet_map_err {A} g (m : M S A) : quiet m → quiet (map_err g m).
Proof. intros Hm s. specialize (Hm s). unfold map_err. by destruct (m s) as [[]]. Qed.

Lemma quiet_defer {A} d (m : M S A) : quiet d → quiet m → quiet (defer d m).
Proof.
  intros Hd Hm s. specialize (Hm s). unfold defer.
  destruct (m s) as [r s1]. specialize (Hd s1). destruct (d s1) as [[] s2], r; congruence.
Qed.

Lemma quiet_on_failure {A} d (m : M S A) : quiet d → quiet m → quiet (on_failure d m).
Proof.
  intros Hd Hm s. specialize (Hm s). unfold on_failure.
  destruct (m s) as [[] s1]; [done| |done]. specialize (Hd s1). destruct (d s1) as [[] s2]; congruence.
Qed.

Lemma quiet_modify g : (∀ s, f (g s) = f s) → quiet (modify g).
Proof. intros Hg s. apply Hg. Qed.

Lemma quiet_when b m : quiet m → quiet (when b m).
Proof. by destruct b. Qed.

Lemma quiet_for_each {A} (g : A → M S ()) l : (∀ x, quiet (g x)) → quiet (for_each g l).
Proof. intros Hg; induction l; simpl; [apply quiet_ret|apply quiet_bind; auto]. Qed.

Lemma quiet_lift {A} (r : result A) : (∀ x, r ≠ Panic x) → quiet (lift r).
Proof. intros Hr s. unfold lift. destruct r; [done|done|naive_solver]. Qed.

(** What a quiet computation leaves. *)
Lemma quiet_run {A} (m : M S A) s r s' :
  quiet m → m s = (r, s') → f s' = f s ∧ ∀ x, r ≠ Panic x.
Proof. intros Hm E. specialize (Hm s). rewrite E in Hm. by destruct r. Qed.
End Quiet.

(** ** Frames: the part [f] of the state is kept, whatever the outcome *)

Section Frame.
Context {S X : Type} (f : S → X).

Definition frame {A} (m : M S A) : Prop := ∀ s, f (m s).2 = f s.

Lemma frame_ret {A} (a : A) : frame (ret a).
Proof. done. Qed.
Lemma frame_throw {A} e : frame (throw (A := A) e).
Proof. done. Qed.
Lemma frame_panic {A} x : frame (panic (A := A) x).
Proof. done. Qed.
Lemma frame_get : frame get.
Proof. done. Qed.
Lemma frame_gets {A} (g : S → A) : frame (gets g).
Proof. done. Qed.
Lemma frame_lift {A} (r : result A) : frame (lift r).
Proof. done. Qed.

Lemma frame_bind {A B} (m : M S A) (k : A → M S B) :
  frame m → (∀ a, frame (k a)) → frame (bind m k).
Proof.
  intros Hm Hk s. unfold bind. specialize (Hm s).
  destruct (m s) as [[a|e|x] s1]; simpl in *; [|done|done]. by rewrite Hk.
Qed.

Lemma frame_try {A} (m : M S A) : frame m → frame (try m).
Proof. intros Hm s. specialize (Hm s). unfold try. by destruct (m s) as [[]]. Qed.

Lemma frame_err_of {A} (m : M S A) : frame m → frame (err_of m).
Proof. intros Hm. apply frame_bind; [by apply frame_try|intros; apply frame_ret]. Qed.

Lemma frame_ignore {A} (m : M S A) : frame m → frame (ignore m).
Proof. intros Hm. apply frame_bind; [by apply frame_try|intros; apply frame_ret]. Qed.

Lemma frame_return_err e : frame (return_err e).
Proof. by destruct e. Qed.

Lemma frame_map_err {A} g (m : M S A) : frame m → frame (map_err g m).
Proof. intros Hm s. specialize (Hm s). unfold map_err. by destruct (m s) as [[]]. Qed.

Lemma frame_defer {A} d (m : M S A) : frame d → frame m → frame (defer d m).
Proof.
  intros Hd Hm s. specialize (Hm s). unfold defer. destruct (m s) as [r s1]. specialize (Hd s1).
  destruct (d s1) as [[] s2]; simpl in *; congruence.
Qed.

Lemma frame_on_failure {A} d (m : M S A) : frame d → frame m → frame (on_failure d m).
Proof.
  intros Hd Hm s. specialize (Hm s). unfold on_failure. destruct (m s) as [[] s1]; [done|..];
  specialize (Hd s1); destruct (d s1) as [[] s2]; simpl in *; congruence.
Qed.

Lemma frame_modify g : (∀ s, f (g s) = f s) → frame (modify g).
Proof. intros Hg s. apply Hg. Qed.

Lemma frame_when b m : frame m → frame (when b m).
Proof. by destruct b. Qed.

Lemma frame_for_each {A} (g : A → M S ()) l : (∀ x, frame (g x)) → frame (for_each g l).
Proof. intros Hg; induction l; simpl; [apply frame_ret|apply frame_bind; auto]. Qed.
End Frame.

Lemma bind_ok {S A B} (m : M S A) (k : A → M S B) s a s' :
  m s = (Ok a, s') → bind m k s = k a s'.
Proof. unfold bind. by intros ->. Qed.

Lemma bind_err {S A B} (m : M S A) (k : A → M S B) s e s' :
  m s = (Err e, s') → bind m k s = (Err e, s').
Proof. unfold bind. by intros ->. Qed.

Lemma err_of_run {S X A} (f : S → X) (m : M S A) s :
  quiet f m → ∃ e s1, err_of m s = (Ok e, s1) ∧ f s1 = f s.
Proof.
  intros Hm. unfold err_of, try, bind. specialize (Hm s).
  destruct (m s) as [[a|e|x] s1]; simpl; [by exists None, s1|by exists (Some e), s1|done].
Qed.

Lemma ignore_run {S X A} (f : S → X) (m : M S A) s :
  quiet f m → ∃ s1, ignore m s = (Ok tt, s1) ∧ f s1 = f s.
Proof.
  intros Hm. unfold ignore, try, bind. specialize (Hm s).
  destruct (m s) as [[a|e|x] s1]; simpl; [by exists s1|by exists s1|done].
Qed.

(** ** Calls to the outside

    [E] is the type of the calls of a component, indexed by the type of the answer; a
    handler gives every call an answer or an error and moves to a new world. *)

Class Handler (E : Type → Type) (W : Type) := handle_call : ∀ {A}, E A → W → (error + A) * W.

(** One call, for an object of type [S] in a world [W]. *)
Definition ask {E W} `{Handler E W} {S A} (c : E A) : M (S * W) A := λ s,
  match handle_call c s.2 with
  | (inl e, w) => (Err e, (s.1, w))
  | (inr a, w) => (Ok a, (s.1, w))
  end.

Definition this {S W} : M (S * W) S := gets fst.
Definition change {S W} (f : S → S) : M (S * W) () := modify (λ s, (f s.1, s.2)).

Lemma bind_this {S W B} (k : S → M (S * W) B) s : bind this k s = k s.1 s.
Proof. done. Qed.

Lemma bind_ret {S A B} (a : A) (k : A → M S B) s : bind (ret a) k s = k a s.
Proof. done. Qed.

Lemma bind_change {S W B} (f : S → S) (k : () → M (S * W) B) s :
  bind (change f) k s = k tt (f s.1, s.2).
Proof. done. Qed.

Lemma ask_ok {E W} `{Handler E W} {S A} (c : E A) (x : S) w a w' :
  handle_call c w = (inr a, w') → ask c (x, w) = (Ok a, (x, w')).
Proof. unfold ask; simpl. by intros ->. Qed.

Lemma ask_err {E W} `{Handler E W} {S A} (c : E A) (x : S) w e w' :
  handle_call c w = (inl e, w') → ask c (x, w) = (Err e, (x, w')).
Proof. unfold ask; simpl. by intros ->. Qed.

Lemma quiet_ask {E W} `{Handler E W} {S A X} (g : S → X) (c : E A) :
  quiet (λ s : S * W, g s.1) (ask c).
Proof. intros [x w]. unfold ask; simpl. by destruct (handle_call c w) as [[] ?]. Qed.

Lemma quiet_this {S W X} (f : S * W → X) : quiet f this.
Proof. done. Qed.

(** A call leaves the object alone. *)
Lemma ask_this {E W} `{Handler E W} {S A} (c : E A) (x : S) w :
  ask c (x, w) = (match fst (handle_call c w) with inl e => Err e | inr a => Ok a end,
                  (x, snd (handle_call c w))).
Proof. unfold ask; simpl. by destruct (handle_call c w) as [[] ?]. Qed.

(** Inversion of a run of [bind]. *)
Lemma bind_run {S A B} (m : M S A) (k : A → M S B) s r s' :
  bind m k s = (r, s') →
  (∃ a s1, m s = (Ok a, s1) ∧ k a s1 = (r, s')) ∨
  (∃ e, m s = (Err e, s') ∧ r = Err e) ∨ (∃ x, m s = (Panic x, s') ∧ r = Panic x).
Proof. unfold bind. destruct (m s) as [[a|e|x] s1]; naive_solver. Qed.

(** ** What a successful run went through *)

Lemma bind_ok_inv {S A B} (m : M S A) (k : A → M S B) s b s' :
  bind m k s = (Ok b, s') → ∃ a s1, m s = (Ok a, s1) ∧ k a s1 = (Ok b, s').
Proof. unfold bind. destruct (m s) as [[a|e|x] s1]; naive_solver. Qed.

Lemma defer_ok_inv {S A} d (m : M S A) s a s' :
  defer d m s = (Ok a, s') → ∃ s1, m s = (Ok a, s1).
Proof.
  unfold defer. destruct (m s) as [r s1]. destruct (d s1) as [[] s2]; naive_solver.
Qed.

Lemma on_failure_ok_inv {S A} d (m : M S A) s a s' :
  on_failure d m s = (Ok a, s') → m s = (Ok a, s').
Proof.
  unfold on_failure. destruct (m s) as [[] s1]; [done|..];
    destruct (d s1) as [[] s2]; naive_solver.
Qed.

Lemma map_err_ok_inv {S A} f (m : M S A) s a s' :
  map_err f m s = (Ok a, s') → m s = (Ok a, s').
Proof. unfold map_err. by destruct (m s) as [[] ?]; intros ?; simplify_eq. Qed.

Lemma ask_ok_inv {E W} `{Handler E W} {S A} (c : E A) (s : S * W) a s' :
  ask c s = (Ok a, s') → handle_call c s.2 = (inr a, s'.2) ∧ s'.1 = s.1.
Proof. unfold ask. destruct (handle_call c s.2) as [[] w]; naive_solver. Qed.

(** Open every [bind] of a successful run. *)
Ltac inv_run :=
  repeat match goal with
  | H : bind _ _ _ = (Ok _, _) |- _ => apply bind_ok_inv in H as (? & ? & ? & H)
  | H : defer _ _ _ = (Ok _, _) |- _ => apply defer_ok_inv in H as (? & H)
  | H : on_failure _ _ _ = (Ok _, _) |- _ => apply on_failure_ok_inv in H
  | H : map_err _ _ _ = (Ok _, _) |- _ => apply map_err_ok_inv in H
  | H : ask _ _ = (Ok _, _) |- _ => apply ask_ok_inv in H as [H ?]
  | H : ret _ _ = (Ok _, _) |- _ => unfold ret in H; injection H as ? ?; subst
  | H : throw _ _ = (Ok _, _) |- _ => discriminate H
  | H : panic _ _ = (Ok _, _) |- _ => discriminate H
  end.

Create HintDb quiet discriminated.
#[export] Hint Resolve quiet_ret quiet_throw quiet_get quiet_gets quiet_bind quiet_try
  quiet_err_of quiet_ignore quiet_return_err quiet_map_err quiet_defer quiet_on_failure quiet_when
  quiet_for_each : quiet.

(** Prove a computation quiet by its structure. *)
Ltac quiet :=
  repeat first
    [ progress intros
    | assumption
    | apply quiet_bind | apply quiet_modify; done
    | apply quiet_defer
    | solve [eauto with quiet]
    | match goal with
      | |- quiet _ (match ?x with _ => _ end) => destruct x
      | |- quiet _ (if ?x then _ else _) => destruct x
      | |- quiet _ (let (_, _) := ?x in _) => destruct x
      end
    | apply quiet_map_err | apply quiet_try | apply quiet_err_of | apply quiet_ignore
    | apply quiet_when | apply quiet_for_each ].
#[export] Hint Resolve quiet_this : quiet.
#[export] Hint Extern 1 (quiet _ (ask _)) => apply quiet_ask : quiet.

Create HintDb frame discriminated.
#[export] Hint Resolve frame_ret frame_throw frame_panic frame_get frame_gets frame_lift
  frame_return_err : frame.

(** Frame a computation by its structure; what is not a combinator is left to the hints. *)
Ltac frame_step :=
  match goal with
  | |- ∀ _, _ => intros ?
  | |- frame _ (bind _ _) => apply frame_bind
  | |- frame _ (try _) => apply frame_try
  | |- frame _ (err_of _) => apply frame_err_of
  | |- frame _ (ignore _) => apply frame_ignore
  | |- frame _ (map_err _ _) => apply frame_map_err
  | |- frame _ (defer _ _) => apply frame_defer
  | |- frame _ (on_failure _ _) => apply frame_on_failure
  | |- frame _ (when _ _) => apply frame_when
  | |- frame _ (for_each _ _) => apply frame_for_each
  | |- frame _ this => apply frame_gets
  | |- frame _ (change _) => apply frame_modify; done
  | |- frame _ (let (_, _) := ?x in _) => destruct x
  | |- frame _ (if ?b then _ else _) => destruct b
  | |- frame _ (match ?x with _ => _ end) => destruct x
  | |- frame _ _ => solve [eauto with frame]
  end.
Ltac frame := repeat frame_step.
