(* ===== verification/DeviceRules.v ===== *)
(** * Device rules and device nodes

    Models [libcontainer/devices]: the permission strings and their set operations,
    device types, the cgroup rule syntax ([CgroupString]), device numbers and the
    walk of a device directory ([DeviceFromPath], [GetDevices]). *)

From S2P Require Import Prelude GoStd.

(** ** Permissions: a string over r, w, m used as a set *)

Abbreviation Permissions := string (only parsing).

Definition deviceRead : Z := 1.
Definition deviceWrite : Z := 2.
Definition deviceMknod : Z := 4.

(** One turn of the loop of [toSet]. *)
Definition perm_bit (c : ascii) : Z :=
  if decide (c = "r"%char) then deviceRead
  else if decide (c = "w"%char) then deviceWrite
  else if decide (c = "m"%char) then deviceMknod
  else 0.

Fixpoint toSet_loop (set : Z) (p : Permissions) : Z :=
  match p with
  | EmptyString => set
  | String c p' => toSet_loop (Z.lor set (perm_bit c)) p'
  end.

Definition toSet (p : Permissions) : Z := toSet_loop 0 p.

Definition fromSet (set : Z) : Permissions :=
  (if Z.land set deviceRead =? deviceRead then "r" else "") +:+
  (if Z.land set deviceWrite =? deviceWrite then "w" else "") +:+
  (if Z.land set deviceMknod =? deviceMknod then "m" else "").

Definition Union (p o : Permissions) : Permissions := fromSet (Z.lor (toSet p) (toSet o)).
Definition Difference (p o : Permissions) : Permissions :=
  fromSet (Z.ldiff (toSet p) (toSet o)).
Definition Intersection (p o : Permissions) : Permissions :=
  fromSet (Z.land (toSet p) (toSet o)).

Definition IsEmpty (p : Permissions) : bool := bool_decide (p = "").
Definition PermIsValid (p : Permissions) : bool := bool_decide (p = fromSet (toSet p)).

(** ** Types and rules *)

Definition Wildcard : Z := -1.

(** [type Type rune]. *)
Abbreviation DevType := Z (only parsing).
Definition WildcardDevice : DevType := 97.
Definition BlockDevice : DevType := 98.
Definition CharDevice : DevType := 99.
Definition FifoDevice : DevType := 112.

Definition TypeIsValid (t : DevType) : bool :=
  (t =? WildcardDevice) || (t =? BlockDevice) || (t =? CharDevice) || (t =? FifoDevice).
Definition CanMknod (t : DevType) : bool :=
  (t =? BlockDevice) || (t =? CharDevice) || (t =? FifoDevice).
Definition CanCgroup (t : DevType) : bool :=
  (t =? WildcardDevice) || (t =? BlockDevice) || (t =? CharDevice).

Record Rule := mk_Rule {
  rule_type : DevType;
  rule_major : Z;
  rule_minor : Z;
  rule_perms : Permissions;
  rule_allow : bool
}.

#[export] Instance Rule_eq_dec : EqDecision Rule.
Proof. solve_decision. Defined.

Definition num_or_star (n : Z) : string := if n =? Wildcard then "*" else FormatInt n.

Definition CgroupString (d : Rule) : string :=
  fmt_rune (rule_type d) +:+ " " +:+ num_or_star (rule_major d) +:+ ":" +:+
  num_or_star (rule_minor d) +:+ " " +:+ rule_perms d.

(** ** Device numbers ([golang.org/x/sys/unix], dev_linux.go) *)

Definition Major (dev : Z) : Z :=
  Z.lor (u32 (Z.shiftr (Z.land dev 0x00000000000fff00) 8))
        (u32 (Z.shiftr (Z.land dev 0xfffff00000000000) 32)).

Definition Minor (dev : Z) : Z :=
  Z.lor (u32 (Z.shiftr (Z.land dev 0x00000000000000ff) 0))
        (u32 (Z.shiftr (Z.land dev 0x00000ffffff00000) 12)).

Definition unix_Mkdev (major minor : Z) : Z :=
  Z.lor (Z.lor (Z.lor (wrapu 64 (Z.shiftl (Z.land major 0x00000fff) 8))
                      (wrapu 64 (Z.shiftl (Z.land major 0xfffff000) 32)))
               (wrapu 64 (Z.shiftl (Z.land minor 0x000000ff) 0)))
        (wrapu 64 (Z.shiftl (Z.land minor 0xffffff00) 12)).

Definition Mkdev (d : Rule) : result Z :=
  if (rule_major d =? Wildcard) || (rule_minor d =? Wildcard)
  then Err (ErrNew "cannot mkdev() device with wildcards")
  else Ok (unix_Mkdev (u32 (rule_major d)) (u32 (rule_minor d))).

(** ** Reading devices from a directory *)

Record Device := mk_Device {
  dev_rule : Rule;
  dev_path : string;
  dev_mode : Z;
  dev_uid : Z;
  dev_gid : Z
}.

(** The fields of [unix.Stat_t] the code reads. *)
Record Stat := mk_Stat { st_mode : Z; st_rdev : Z; st_uid : Z; st_gid : Z }.

(** An entry of [ioutil.ReadDir]. *)
Record FileInfo := mk_FileInfo { fi_name : string; fi_isdir : bool }.

Definition S_IFMT : Z := 0xf000.
Definition S_IFBLK : Z := 0x6000.
Definition S_IFCHR : Z := 0x2000.
Definition S_IFIFO : Z := 0x1000.

Definition ErrNotADevice : error := ErrNew "not a device node".

(** [ENOENT], what [os.IsNotExist] recognises. *)
Definition ENOENT : Z := 2.
Definition IsNotExist (e : error) : bool := bool_decide (e = ErrSys ENOENT).

Section Walk.
(** The two "testing dependencies" of the source, [unixLstat] and [ioutilReadDir],
    stand for the file system. *)
Context (unixLstat : string → result Stat).
Context (ioutilReadDir : string → result (list FileInfo)).

Definition DeviceFromPath (path : string) (permissions : string) : result Device :=
  let! stat := unixLstat path in
  let mode := st_mode stat in
  let devNumber := st_rdev stat in
  let mk t := Ok {|
      dev_rule := {| rule_type := t; rule_major := Major devNumber;
                     rule_minor := Minor devNumber; rule_perms := permissions;
                     rule_allow := false |};
      dev_path := path;
      dev_mode := Z.ldiff mode S_IFMT;
      dev_uid := st_uid stat;
      dev_gid := st_gid stat |} in
  let fmt := Z.land mode S_IFMT in
  if fmt =? S_IFBLK then mk BlockDevice
  else if fmt =? S_IFCHR then mk CharDevice
  else if fmt =? S_IFIFO then mk FifoDevice
  else Err ErrNotADevice.

(** The directories [GetDevices] does not enter. *)
Definition skipped_dir (name : string) : bool :=
  bool_decide (name ∈ ["pts"; "shm"; "fd"; "mqueue"; ".lxc"; ".lxd-mounts"; ".udev"]).

Definition out_of_fuel : error := ErrNew "model: directory tree deeper than the fuel".

(** One entry of the loop of [GetDevices]; [sub] is the recursive call. *)
Definition get_entry (sub : string → result (list Device)) (path : string)
    (out : list Device) (f : FileInfo) : result (list Device) :=
  if fi_isdir f then
    if skipped_dir (fi_name f) then Ok out
    else let! s := sub (path_Join path (fi_name f)) in Ok (out ++ s)
  else if bool_decide (fi_name f = "console") then Ok out
  else match DeviceFromPath (path_Join path (fi_name f)) "rwm" with
       | Ok d => if rule_type (dev_rule d) =? FifoDevice then Ok out else Ok (out ++ [d])
       | Err e => if bool_decide (e = ErrNotADevice) then Ok out
                  else if IsNotExist e then Ok out else Err e
       | Panic s => Panic s
       end.

Fixpoint GetDevices (fuel : nat) (path : string) : result (list Device) :=
  match fuel with
  | O => Err out_of_fuel
  | S fuel' =>
      let! files := ioutilReadDir path in
      foldM (get_entry (GetDevices fuel') path) [] files
  end.

Definition HostDevices (fuel : nat) : result (list Device) := GetDevices fuel "/dev".

(** The directory tree below [path] is at most [depth] directories deep. *)
Fixpoint tree_depth (depth : nat) (path : string) : Prop :=
  match depth with
  | O => False
  | S depth' =>
      match ioutilReadDir path with
      | Ok files => ∀ f, f ∈ files → fi_isdir f = true →
                     tree_depth depth' (path_Join path (fi_name f))
      | _ => True
      end
  end.
End Walk.

(** ** Facts about permission sets *)

Lemma perm_bit_range c : 0 ≤ perm_bit c < 8.
Proof. unfold perm_bit, deviceRead, deviceWrite, deviceMknod. repeat case_decide; lia. Qed.

Lemma small_set (s : Z) : 0 ≤ s < 8 →
  s = 0 ∨ s = 1 ∨ s = 2 ∨ s = 3 ∨ s = 4 ∨ s = 5 ∨ s = 6 ∨ s = 7.
Proof. lia. Qed.

Ltac enum_set H := let H' := fresh in
  pose proof (small_set _ H) as H'; destruct_or! H'.

Lemma small_ops a b : 0 ≤ a < 8 → 0 ≤ b < 8 →
  0 ≤ Z.lor a b < 8 ∧ 0 ≤ Z.land a b < 8 ∧ 0 ≤ Z.ldiff a b < 8.
Proof. intros Ha Hb. by enum_set Ha; enum_set Hb; subst; repeat split; vm_compute. Qed.

Lemma toSet_loop_range s p : 0 ≤ s < 8 → 0 ≤ toSet_loop s p < 8.
Proof.
  revert s; induction p as [|c p IH]; intros s Hs; [done|simpl].
  apply IH. by apply small_ops; [|apply perm_bit_range].
Qed.

Lemma toSet_range p : 0 ≤ toSet p < 8.
Proof. by apply toSet_loop_range. Qed.

Lemma toSet_fromSet s : 0 ≤ s < 8 → toSet (fromSet s) = s.
Proof. intros Hs. by enum_set Hs; subst. Qed.

Lemma fromSet_empty s : 0 ≤ s < 8 → IsEmpty (fromSet s) = true ↔ s = 0.
Proof. intros Hs. by enum_set Hs; subst. Qed.

Lemma PermIsValid_fromSet s : 0 ≤ s < 8 → PermIsValid (fromSet s) = true.
Proof. intros Hs. unfold PermIsValid. by rewrite toSet_fromSet, bool_decide_eq_true_2. Qed.

Lemma toSet_Union p o : toSet (Union p o) = Z.lor (toSet p) (toSet o).
Proof. apply toSet_fromSet, small_ops; apply toSet_range. Qed.

Lemma toSet_Difference p o : toSet (Difference p o) = Z.ldiff (toSet p) (toSet o).
Proof. apply toSet_fromSet, small_ops; apply toSet_range. Qed.

Lemma toSet_Intersection p o : toSet (Intersection p o) = Z.land (toSet p) (toSet o).
Proof. apply toSet_fromSet, small_ops; apply toSet_range. Qed.

Lemma Union_valid p o : PermIsValid (Union p o) = true.
Proof. apply PermIsValid_fromSet, small_ops; apply toSet_range. Qed.

Lemma Difference_valid p o : PermIsValid (Difference p o) = true.
Proof. apply PermIsValid_fromSet, small_ops; apply toSet_range. Qed.

Lemma valid_perms_eq p q :
  PermIsValid p = true → PermIsValid q = true → toSet p = toSet q → p = q.
Proof. unfold PermIsValid. intros. bool_to_prop. congruence. Qed.

Lemma Difference_empty p o :
  IsEmpty (Difference p o) = true ↔ Z.ldiff (toSet p) (toSet o) = 0.
Proof. apply fromSet_empty, small_ops; apply toSet_range. Qed.

Lemma Intersection_empty p o :
  IsEmpty (Intersection p o) = true ↔ Z.land (toSet p) (toSet o) = 0.
Proof. apply fromSet_empty, small_ops; apply toSet_range. Qed.

Lemma valid_empty p : PermIsValid p = true → IsEmpty p = true ↔ toSet p = 0.
Proof.
  unfold PermIsValid. intros H. bool_to_prop. rewrite H at 1.
  apply fromSet_empty, toSet_range.
Qed.

#[export] Hint Resolve toSet_range Union_valid Difference_valid : go.
#[export] Hint Rewrite toSet_Union toSet_Difference toSet_Intersection : go.

(** ** Device numbers *)

Lemma Major_Mkdev major minor :
  0 ≤ major < 2 ^ 32 → 0 ≤ minor < 2 ^ 32 → Major (unix_Mkdev major minor) = major.
Proof.
  intros H1 H2. rewrite <- (ones_id 32 major) at 2 by lia.
  unfold Major, unix_Mkdev, u32, wrapu. rewrite <- !Z.land_ones by lia.
  change 0xfff00 with (Z.shiftl (Z.ones 12) 8).
  change 0xfffff00000000000 with (Z.shiftl (Z.ones 20) 44).
  change 0xfff with (Z.ones 12).
  change 0xff with (Z.ones 8).
  change 0xfffff000 with (Z.shiftl (Z.ones 20) 12).
  change 0xffffff00 with (Z.shiftl (Z.ones 24) 8).
  bits.
Qed.

Lemma Minor_Mkdev major minor :
  0 ≤ major < 2 ^ 32 → 0 ≤ minor < 2 ^ 32 → Minor (unix_Mkdev major minor) = minor.
Proof.
  intros H1 H2. rewrite <- (ones_id 32 minor) at 2 by lia.
  unfold Minor, unix_Mkdev, u32, wrapu. rewrite <- !Z.land_ones by lia.
  change 0xffffff00000 with (Z.shiftl (Z.ones 24) 20).
  change 0xfff with (Z.ones 12).
  change 0xff with (Z.ones 8).
  change 0xfffff000 with (Z.shiftl (Z.ones 20) 12).
  change 0xffffff00 with (Z.shiftl (Z.ones 24) 8).
  bits.
Qed.

(** ** The directory walk *)

Section WalkFacts.
Context (unixLstat : string → result Stat).

(** A file that contributes the device [d] by itself. *)
Definition is_device_file (path : string) (f : FileInfo) (d : Device) : Prop :=
  fi_isdir f = false ∧ fi_name f ≠ "console" ∧
  DeviceFromPath unixLstat (path_Join path (fi_name f)) "rwm" = Ok d ∧
  rule_type (dev_rule d) ≠ FifoDevice.

Definition entry_yields (sub : string → result (list Device)) path f d : Prop :=
  is_device_file path f d ∨
  (fi_isdir f = true ∧ skipped_dir (fi_name f) = false ∧
   ∃ s, sub (path_Join path (fi_name f)) = Ok s ∧ d ∈ s).

Lemma get_entry_spec sub path out f out' d :
  get_entry unixLstat sub path out f = Ok out' →
  d ∈ out' ↔ d ∈ out ∨ entry_yields sub path f d.
Proof.
  unfold get_entry, entry_yields, is_device_file. intros H.
  destruct (fi_isdir f) eqn:Hdir.
  - case_match eqn:Hskip; simplify_eq; [naive_solver|].
    apply rbind_ok in H as (s & Hs & [= <-]). rewrite elem_of_app, Hs. naive_solver.
  - case_match eqn:Hcons; simplify_eq; bool_to_prop; [naive_solver|].
    destruct (DeviceFromPath _ _ _) as [dd|e|] eqn:Hdev.
    + case_match eqn:Hf; simplify_eq; bool_to_prop;
        rewrite ?elem_of_app, ?list_elem_of_singleton; naive_solver.
    + repeat case_match; simplify_eq; naive_solver.
    + done.
Qed.

Lemma get_entries_spec sub path files out out' d :
  foldM (get_entry unixLstat sub path) out files = Ok out' →
  d ∈ out' ↔ d ∈ out ∨ ∃ f, f ∈ files ∧ entry_yields sub path f d.
Proof.
  revert out; induction files as [|f files IH]; simpl; intros out H.
  - simplify_eq. split; [by left|]. intros [?|(f & Hf & _)]; [done|].
    by apply elem_of_nil in Hf.
  - apply rbind_ok in H as (out1 & H1 & H2). rewrite (IH _ H2).
    rewrite (get_entry_spec _ _ _ _ _ _ H1). setoid_rewrite elem_of_cons. naive_solver.
Qed.

Context (ioutilReadDir : string → result (list FileInfo)).

(** The devices found under [path]: those of its own files and those of the
    directories that are not skipped. *)
Inductive on_disk : string → Device → Prop :=
  | on_disk_here path files f d :
      ioutilReadDir path = Ok files → f ∈ files → is_device_file path f d →
      on_disk path d
  | on_disk_below path files f d :
      ioutilReadDir path = Ok files → f ∈ files → fi_isdir f = true →
      skipped_dir (fi_name f) = false → on_disk (path_Join path (fi_name f)) d →
      on_disk path d.
End WalkFacts.

Section WalkTheorems.
Context (unixLstat : string → result Stat).
Context (ioutilReadDir : string → result (list FileInfo)).

Lemma get_entries_sub_ok sub path files out out' f :
  foldM (get_entry unixLstat sub path) out files = Ok out' →
  f ∈ files → fi_isdir f = true → skipped_dir (fi_name f) = false →
  is_Some (match sub (path_Join path (fi_name f)) with Ok s => Some s | _ => None end).
Proof.
  revert out; induction files as [|f' files IH]; simpl; intros out H Hin Hd Hs.
  { by apply elem_of_nil in Hin. }
  apply rbind_ok in H as (out1 & H1 & H2).
  apply elem_of_cons in Hin as [<-|Hin]; [|by eapply IH].
  unfold get_entry in H1. rewrite Hd, Hs in H1.
  apply rbind_ok in H1 as (s & -> & _). by eexists.
Qed.

(** [GetDevices] returns exactly the devices on disk: when the walk succeeds, a device
    is in the result iff it is a block or character device (not a FIFO, not named
    "console") in the directory or in a sub-directory that is not one of the skipped
    ones. *)
Theorem GetDevices_exact fuel path out d :
  GetDevices unixLstat ioutilReadDir fuel path = Ok out →
  d ∈ out ↔ on_disk unixLstat ioutilReadDir path d.
Proof.
  revert path out d; induction fuel as [|fuel IH]; intros path out d; [done|].
  cbn [GetDevices]. intros (files & Hr & Hf)%rbind_ok.
  rewrite (get_entries_spec _ _ _ _ _ _ d Hf). split.
  - intros [Hn|(f & Hin & [Hd|(Hd & Hs & s & Hsub & Hds)])].
    + by apply elem_of_nil in Hn.
    + by eapply on_disk_here.
    + eapply on_disk_below; eauto. by apply (IH _ _ _ Hsub).
  - intros Hd. right. inversion Hd as [? files' f ? Hr' Hin Hdev|? files' f ? Hr' Hin Hdir Hskip Hsub];
      (assert (files' = files) as -> by congruence); subst;
      exists f; (split; [done|]); [by left|right].
    destruct (get_entries_sub_ok _ _ _ _ _ _ Hf Hin Hdir Hskip) as [s Hs].
    destruct (GetDevices _ _ fuel _) as [s'|e|m] eqn:Heq; simplify_eq.
    split_and!; [done..|]. exists s. split; [done|]. by apply (IH _ _ d Heq).
Qed.

Lemma get_entries_no_fuel sub path files out :
  (∀ p, unixLstat p ≠ Err out_of_fuel) →
  (∀ f, f ∈ files → fi_isdir f = true →
        sub (path_Join path (fi_name f)) ≠ Err out_of_fuel) →
  foldM (get_entry unixLstat sub path) out files ≠ Err out_of_fuel.
Proof.
  intros Hl. revert out; induction files as [|f files IH]; simpl; intros out Hsub; [done|].
  destruct (get_entry _ _ _ _ _) as [out1|e|m] eqn:E; simpl; [|intros [= ->]|done].
  { apply IH. intros f' ?; apply Hsub; by right. }
  unfold get_entry in E. destruct (fi_isdir f) eqn:Hd.
  - case_match; [done|]. destruct (sub _) eqn:Es; simplify_eq/=.
    apply (Hsub f); [by left|done..].
  - case_match; [done|]. unfold DeviceFromPath in E.
    destruct (unixLstat _) as [st|e'|] eqn:El; simplify_eq/=; repeat case_match; simplify_eq/=.
    by eapply Hl.
Qed.

(** The recursion of [GetDevices] is bounded by the depth of the directory tree: with
    that much fuel the walk never stops for lack of it, whatever the file system
    answers. *)
Theorem GetDevices_terminates depth path :
  tree_depth ioutilReadDir depth path →
  (∀ p, unixLstat p ≠ Err out_of_fuel) → (∀ p, ioutilReadDir p ≠ Err out_of_fuel) →
  GetDevices unixLstat ioutilReadDir depth path ≠ Err out_of_fuel.
Proof.
  intros Ht Hl Hr. revert path Ht; induction depth as [|depth IH]; intros path Ht; [done|].
  cbn [GetDevices]. simpl in Ht. pose proof (Hr path).
  destruct (ioutilReadDir path) as [files|e|]; simpl; [|congruence|done].
  apply get_entries_no_fuel; [done|]. intros f Hin Hd. by apply IH, Ht.
Qed.

(** Device numbers survive the round trip through [mknod]: a node created with the
    number [Mkdev] computes for a rule is read back by [DeviceFromPath] with the rule's
    type, major and minor number. *)
Theorem Mkdev_DeviceFromPath r st path perms :
  0 ≤ rule_major r < 2 ^ 32 → 0 ≤ rule_minor r < 2 ^ 32 →
  Mkdev r = Ok (st_rdev st) → unixLstat path = Ok st →
  (rule_type r, Z.land (st_mode st) S_IFMT) ∈ [(BlockDevice, S_IFBLK); (CharDevice, S_IFCHR)] →
  ∃ d, DeviceFromPath unixLstat path perms = Ok d ∧
       rule_type (dev_rule d) = rule_type r ∧
       rule_major (dev_rule d) = rule_major r ∧ rule_minor (dev_rule d) = rule_minor r.
Proof.
  intros Hmaj Hmin Hmk Hst Hfmt. unfold Mkdev in Hmk. case_match; [done|].
  injection Hmk as Hmk. unfold u32 in Hmk. rewrite !wrapu_small in Hmk by lia.
  unfold DeviceFromPath. rewrite Hst. cbn [rbind].
  rewrite !elem_of_cons in Hfmt.
  destruct Hfmt as [[= -> ->]|[[= -> ->]|[]%elem_of_nil]]; simpl; eexists; (split; [done|]);
    simpl; rewrite <- Hmk, Major_Mkdev, Minor_Mkdev by lia; done.
Qed.
End WalkTheorems.

(** ** A concrete device directory *)

Definition demo_lstat (p : string) : result Stat :=
  if bool_decide (p = "/dev/null") then Ok (mk_Stat 0x21B6 (unix_Mkdev 1 3) 0 0)
  else if bool_decide (p = "/dev/sub/sda") then Ok (mk_Stat 0x61B0 (unix_Mkdev 8 0) 0 6)
  else Err (ErrSys ENOENT).

Definition demo_readdir (p : string) : result (list FileInfo) :=
  if bool_decide (p = "/dev") then
    Ok [mk_FileInfo "console" false; mk_FileInfo "null" false; mk_FileInfo "pts" true;
        mk_FileInfo "sub" true]
  else if bool_decide (p = "/dev/sub") then Ok [mk_FileInfo "sda" false]
  else if bool_decide (p = "/dev/pts") then Ok [mk_FileInfo "0" false]
  else Err (ErrSys ENOENT).

Definition demo_null : Device :=
  mk_Device (mk_Rule CharDevice 1 3 "rwm" false) "/dev/null" 0x1B6 0 0.
Definition demo_sda : Device :=
  mk_Device (mk_Rule BlockDevice 8 0 "rwm" false) "/dev/sub/sda" 0x1B0 0 6.

Lemma GetDevices_exact_witness :
  demo_sda ∈ [demo_null; demo_sda] ↔ on_disk demo_lstat demo_readdir "/dev" demo_sda.
Proof. apply (GetDevices_exact demo_lstat demo_readdir 2). vm_compute. reflexivity. Defined.

Lemma GetDevices_terminates_witness :
  GetDevices demo_lstat demo_readdir 2 "/dev" ≠ Err out_of_fuel.
Proof.
  apply GetDevices_terminates.
  - simpl. intros f Hf. rewrite !elem_of_cons in Hf.
    destruct_or! Hf; subst; try discriminate; try (by intros _; simpl; intros ? ?%list_elem_of_singleton; subst).
    by apply elem_of_nil in Hf.
  - intros p. unfold demo_lstat. repeat case_match; discriminate.
  - intros p. unfold demo_readdir. repeat case_match; discriminate.
Defined.

Lemma Mkdev_DeviceFromPath_witness :
  ∃ d, DeviceFromPath demo_lstat "/dev/sub/sda" "rw" = Ok d ∧
       rule_type (dev_rule d) = BlockDevice ∧
       rule_major (dev_rule d) = 8 ∧ rule_minor (dev_rule d) = 0.
Proof.
  apply (Mkdev_DeviceFromPath demo_lstat (mk_Rule BlockDevice 8 0 "rw" true)
           (mk_Stat 0x61B0 (unix_Mkdev 8 0) 0 6)); try (simpl; lia); try reflexivity.
  left.
Defined.
