(* ===== verification/DeviceEmulator.v ===== *)
(** * The cgroup-v1 devices emulator

    Models [libcontainer/cgroups/devices/devices_emulator.go]: the state of a
    cgroup-v1 devices controller (default policy and exceptions), the effect of allow
    and deny rules on it, the parser of devices.list, and [Transition], which computes
    the rules that take one controller state to another. *)

From S2P Require Import Prelude GoStd DeviceRules.

(** ** Data *)

Record deviceMeta := mk_meta { node : DevType; major : Z; minor : Z }.

#[export] Instance deviceMeta_eq_dec : EqDecision deviceMeta.
Proof. solve_decision. Defined.

#[export] Instance deviceMeta_countable : Countable deviceMeta :=
  inj_countable' (λ m, (node m, major m, minor m)) (λ '(n, a, b), mk_meta n a b)
    ltac:(by intros []).

Record deviceRule := mk_deviceRule { meta : deviceMeta; perms : Permissions }.

(** [deviceRules] is a Go map: [None] is the nil map, which reads as empty and panics
    on assignment. *)
Definition deviceRules := option (gmap deviceMeta Permissions).

Definition rules_map (r : deviceRules) : gmap deviceMeta Permissions := default ∅ r.

(** [r[m]], the zero value [""] when the key is absent. *)
Definition rules_get (r : deviceRules) (m : deviceMeta) : Permissions :=
  default "" (rules_map r !! m).

(** The comparison of [orderedEntries]: by (major, minor, type). *)
Definition meta_less (a b : deviceMeta) : bool :=
  (major a <? major b)
  || ((major a =? major b) && (minor a <? minor b))
  || ((major a =? major b) && (minor a =? minor b) && (node a <? node b)).

Definition rule_le (a b : deviceMeta * Permissions) : Prop := meta_less b.1 a.1 = false.
#[export] Instance rule_le_dec a b : Decision (rule_le a b).
Proof. unfold rule_le. apply _. Defined.

Definition orderedEntries (r : deviceRules) : list deviceRule :=
  (λ kv, mk_deviceRule kv.1 kv.2) <$> merge_sort rule_le (map_to_list (rules_map r)).

Record Emulator := mk_Emulator { defaultAllow : bool; rules : deviceRules }.

#[export] Instance Emulator_eq_dec : EqDecision Emulator.
Proof. solve_decision. Defined.

Definition IsBlacklist (e : Emulator) : bool := defaultAllow e.
Definition IsAllowAll (e : Emulator) : bool :=
  IsBlacklist e && bool_decide (size (rules_map (rules e)) = 0%nat).

(** ** Parsing devices.list *)

Fixpoint span_str (P : ascii → bool) (s : string) : string * string :=
  match s with
  | EmptyString => ("", "")
  | String c s' => if P c then let '(a, b) := span_str P s' in (String c a, b) else ("", s)
  end.

(** [\s] of RE2. *)
Definition is_re_space (c : ascii) : bool :=
  bool_decide (code c ∈ [9; 10; 12; 13; 32]).
Definition is_digit (c : ascii) : bool := bool_decide (is_Some (digit_val c)).
Definition is_rwm (c : ascii) : bool := bool_decide (c ∈ ["r"; "w"; "m"]%char).

Definition span1 (P : ascii → bool) (s : string) : option (string * string) :=
  let '(a, b) := span_str P s in if bool_decide (a = "") then None else Some (a, b).

(** A number field: a run of digits, or a star. *)
Definition re_number (s : string) : option (string * string) :=
  match s with
  | String c s' => if bool_decide (c = "*"%char) then Some ("*", s') else span1 is_digit s
  | EmptyString => None
  end.

(** The regular expression of the source: one of a, b, c; white space; a number field, a
    colon, a number field; white space; a run of r, w, m; end of text.  The classes of
    consecutive parts are disjoint, so each part takes the longest run. *)
Definition devicesListRegexp (line : string) : option (ascii * string * string * string) :=
  match line with
  | String t s0 =>
      if bool_decide (t ∈ ["a"; "b"; "c"]%char) then
        '(_, s1) ← span1 is_re_space s0;
        '(major, s2) ← re_number s1;
        match s2 with
        | String c s3 =>
            if bool_decide (c = ":"%char) then
              '(minor, s4) ← re_number s3;
              '(_, s5) ← span1 is_re_space s4;
              '(perms, s6) ← span1 is_rwm s5;
              if bool_decide (s6 = "") then Some (t, major, minor, perms) else None
            else None
        | EmptyString => None
        end
      else None
  | EmptyString => None
  end.

Definition num_err_text (e : num_error) : error :=
  match e with
  | ErrSyntax => ErrNew "invalid syntax"
  | ErrRange => ErrNew "value out of range"
  end.

(** The two number fields of [parseLine]. *)
Definition parse_number (what s : string) : result Z :=
  if bool_decide (s = "*") then Ok Wildcard
  else match ParseUint s 32 with
       | (v, None) => Ok v
       | (_, Some e) => Err (ErrWrap what (num_err_text e))
       end.

Definition parseLine (line : string) : result (option deviceRule) :=
  match devicesListRegexp line with
  | None => Err (ErrNew "line doesn't match devices.list format")
  | Some (n, maj, min, p) =>
      let rest t :=
        let! mj := parse_number "parse major number" maj in
        let! mn := parse_number "parse minor number" min in
        if negb (PermIsValid p) || IsEmpty p
        then Err (ErrNew "parse access mode: contained unknown modes or is empty")
        else Ok (Some (mk_deviceRule (mk_meta t mj mn) p)) in
      if bool_decide (n = "a"%char) then Ok None
      else if bool_decide (n = "b"%char) then rest BlockDevice
      else if bool_decide (n = "c"%char) then rest CharDevice
      else Err (ErrNew "unknown device type")
  end.

(** ** Applying rules *)

Definition addRule (e : Emulator) (rule : deviceRule) : result Emulator :=
  let m := rules_map (rules e) in
  let oldPerms := rules_get (rules e) (meta rule) in
  let newPerms := Union (perms rule) oldPerms in
  Ok (mk_Emulator (defaultAllow e) (Some (<[meta rule := newPerms]> m))).

Definition partialMetas (m : deviceMeta) : list deviceMeta :=
  [mk_meta (node m) Wildcard (minor m);
   mk_meta (node m) (major m) Wildcard;
   mk_meta (node m) Wildcard Wildcard].

(** The check of the loop in [rmRule] for one partially matching wildcard rule. *)
Definition punches_hole (e : Emulator) (rule : deviceRule) (partialMeta : deviceMeta) : bool :=
  negb (bool_decide (meta rule = partialMeta)) &&
  negb (IsEmpty (Intersection (rules_get (rules e) partialMeta) (perms rule))).

Definition rmRule (e : Emulator) (rule : deviceRule) : result Emulator :=
  if existsb (punches_hole e rule) (partialMetas (meta rule))
  then Err (ErrNew "requested rule not supported by devices cgroupv1")
  else
    let newPerms := Difference (rules_get (rules e) (meta rule)) (perms rule) in
    if IsEmpty newPerms
    then Ok (mk_Emulator (defaultAllow e) (delete (meta rule) <$> rules e))
    else match rules e with
         | None => Panic "assignment to entry in nil map"
         | Some m => Ok (mk_Emulator (defaultAllow e) (Some (<[meta rule := newPerms]> m)))
         end.

Definition emu_allow (e : Emulator) (rule : option deviceRule) : result Emulator :=
  match rule with
  | None => Ok (mk_Emulator true None)
  | Some r =>
      if node (meta r) =? WildcardDevice then Ok (mk_Emulator true None)
      else if defaultAllow e then wrap_err "remove 'deny' exception" (rmRule e r)
      else wrap_err "add 'allow' exception" (addRule e r)
  end.

Definition emu_deny (e : Emulator) (rule : option deviceRule) : result Emulator :=
  match rule with
  | None => Ok (mk_Emulator false None)
  | Some r =>
      if node (meta r) =? WildcardDevice then Ok (mk_Emulator false None)
      else if defaultAllow e then wrap_err "add 'deny' exception" (addRule e r)
      else wrap_err "remove 'allow' exception" (rmRule e r)
  end.

Definition Apply (e : Emulator) (rule : Rule) : result Emulator :=
  if negb (CanCgroup (rule_type rule)) then Err (ErrNew "cannot add rule with non-cgroup type")
  else
    let innerRule := mk_deviceRule
      (mk_meta (rule_type rule) (rule_major rule) (rule_minor rule)) (rule_perms rule) in
    let innerRule := if node (meta innerRule) =? WildcardDevice then None else Some innerRule in
    if rule_allow rule then emu_allow e innerRule else emu_deny e innerRule.

(** One line of the scan loop of [EmulatorFromList]. *)
Definition load_line (e : Emulator) (line : string) : result Emulator :=
  let! r := wrap_err "parsing line" (parseLine line) in
  wrap_err "adding devices.list rule" (emu_allow e r).

Definition EmulatorFromList (list : reader) : result Emulator :=
  let '(lines, err) := scan_lines list in
  let! e := foldM load_line (mk_Emulator false None) lines in
  match err with
  | Some x => Err (ErrWrap "reading devices.list lines" x)
  | None => Ok e
  end.

(** ** Transition *)

Definition disruptive_rule (allow : bool) : Rule := mk_Rule WildcardDevice (-1) (-1) "rwm" allow.

(** The rules of the first loop (the old permissions the target does not have) and of
    the second (the new permissions the old rules do not have). *)
Definition droppedRules (target : Emulator) (oldRules : deviceRules) : list Rule :=
  omap (λ rule,
    let newPerms := rules_get (rules target) (meta rule) in
    let droppedPerms := Difference (perms rule) newPerms in
    if IsEmpty droppedPerms then None
    else Some (mk_Rule (node (meta rule)) (major (meta rule)) (minor (meta rule))
                 droppedPerms (defaultAllow target)))
    (orderedEntries oldRules).

Definition gainedRules (target : Emulator) (oldRules : deviceRules) : list Rule :=
  omap (λ rule,
    let oldPerms := rules_get oldRules (meta rule) in
    let gainedPerms := Difference (perms rule) oldPerms in
    if IsEmpty gainedPerms then None
    else Some (mk_Rule (node (meta rule)) (major (meta rule)) (minor (meta rule))
                 gainedPerms (negb (defaultAllow target))))
    (orderedEntries (rules target)).

Definition Transition (source target : Emulator) : result (list Rule) :=
  let disruptive := IsBlacklist source ||
                    negb (Bool.eqb (defaultAllow source) (defaultAllow target)) in
  let oldRules := if disruptive then None else rules source in
  Ok ((if disruptive then [disruptive_rule (defaultAllow target)] else [])
      ++ droppedRules target oldRules ++ gainedRules target oldRules).

(** ** Specification: the permission bits of each exception *)

Definition perm_of (e : Emulator) (m : deviceMeta) : Z := toSet (rules_get (rules e) m).

Definition rule_meta (r : Rule) : deviceMeta :=
  mk_meta (rule_type r) (rule_major r) (rule_minor r).

(** The well-formed states: every exception has a canonical, non-empty permission string
    and names a block or character device. *)
Definition wf_entry (m : deviceMeta) (p : Permissions) : Prop :=
  PermIsValid p = true ∧ IsEmpty p = false ∧ (node m = BlockDevice ∨ node m = CharDevice).

Definition wf_emu (e : Emulator) : Prop := map_Forall wf_entry (rules_map (rules e)).

#[export] Instance wf_emu_dec e : Decision (wf_emu e).
Proof. unfold wf_emu, wf_entry. apply _. Defined.

(** A rule that removes permissions another, wider exception still grants. *)
Definition hole (e : Emulator) (r : Rule) : Prop :=
  ∃ pm, pm ∈ partialMetas (rule_meta r) ∧ pm ≠ rule_meta r ∧
        Z.land (perm_of e pm) (toSet (rule_perms r)) ≠ 0.

Lemma rules_get_insert m k p q :
  rules_get (Some (<[k := p]> m)) q = if decide (k = q) then p else rules_get (Some m) q.
Proof. unfold rules_get. simpl. rewrite lookup_insert. by case_decide. Qed.

Lemma rules_get_map r q : rules_get (Some (rules_map r)) q = rules_get r q.
Proof. by destruct r. Qed.

Lemma rules_get_delete r k q :
  rules_get (delete k <$> r) q = if decide (k = q) then "" else rules_get r q.
Proof.
  destruct r as [m|]; simpl; [|by case_decide].
  unfold rules_get; simpl. rewrite lookup_delete. by case_decide.
Qed.

Lemma existsb_hole e r :
  existsb (punches_hole e (mk_deviceRule (rule_meta r) (rule_perms r)))
    (partialMetas (rule_meta r)) = true ↔ hole e r.
Proof.
  rewrite existsb_exists. unfold hole. setoid_rewrite <- list_elem_of_In.
  apply exist_proper. intros pm. apply and_iff_compat_l.
  unfold punches_hole, perm_of. cbn [meta perms]. rewrite andb_true_iff, !negb_true_iff.
  rewrite bool_decide_eq_false, <- not_true_iff_false, Intersection_empty. naive_solver.
Qed.

Lemma addRule_effect e r e' :
  addRule e r = Ok e' →
  defaultAllow e' = defaultAllow e ∧
  ∀ m, perm_of e' m = if decide (meta r = m) then Z.lor (perm_of e m) (toSet (perms r))
                      else perm_of e m.
Proof.
  intros [= <-]. split; [done|]. intros m. unfold perm_of. cbn [rules].
  rewrite rules_get_insert, rules_get_map. case_decide as E; [|done]. subst.
  rewrite toSet_Union. apply Z.lor_comm.
Qed.

Lemma rmRule_effect e r e' :
  rmRule e r = Ok e' →
  defaultAllow e' = defaultAllow e ∧
  ∀ m, perm_of e' m = if decide (meta r = m) then Z.ldiff (perm_of e m) (toSet (perms r))
                      else perm_of e m.
Proof.
  unfold rmRule. intros H. case_match; [done|].
  destruct (IsEmpty (Difference _ _)) eqn:Hem; [|destruct (rules e) as [m|] eqn:Hr; [|done]];
    simplify_eq; (split; [done|]); intros q; unfold perm_of; cbn [rules].
  - apply Difference_empty in Hem. rewrite rules_get_delete. case_decide; [|done].
    subst. by rewrite Hem.
  - rewrite Hr, rules_get_insert. case_decide; [|done]. subst. by rewrite toSet_Difference.
Qed.


(** [rmRule] never writes to the nil map. *)
Lemma rmRule_no_panic e r s : rmRule e r ≠ Panic s.
Proof.
  unfold rmRule. case_match; [done|]. case_match eqn:Hem; [done|].
  destruct (rules e) as [m|] eqn:Hr; [done|].
  exfalso. apply not_true_iff_false in Hem. apply Hem, Difference_empty.
  unfold rules_get. simpl. apply Z.ldiff_0_l.
Qed.

Lemma rmRule_ok e r :
  existsb (punches_hole e r) (partialMetas (meta r)) = false → is_ok (rmRule e r) = true.
Proof.
  intros H. pose proof (rmRule_no_panic e r) as Hp. unfold rmRule in *. rewrite H in *.
  by repeat case_match.
Qed.

Lemma perm_of_wf_ext e1 e2 :
  wf_emu e1 → wf_emu e2 → (∀ m, perm_of e1 m = perm_of e2 m) →
  rules_map (rules e1) = rules_map (rules e2).
Proof.
  intros W1 W2 H. apply map_eq. intros m. specialize (H m). unfold perm_of, rules_get in H.
  assert (∀ e p, wf_emu e → rules_map (rules e) !! m = Some p → toSet p ≠ 0) as Hne.
  { intros e p We Hp. destruct (We m p Hp) as (Hv & He & _).
    rewrite <- valid_empty by done. by rewrite He. }
  destruct (rules_map (rules e1) !! m) as [p1|] eqn:H1,
           (rules_map (rules e2) !! m) as [p2|] eqn:H2; simpl in H; [|..|done].
  - destruct (W1 m p1 H1) as (? & _), (W2 m p2 H2) as (? & _).
    f_equal. by apply valid_perms_eq.
  - by apply Hne in H1.
  - symmetry in H. by apply Hne in H2.
Qed.

(** ** What [Apply] does *)

(** The default policy and the bits of every exception after a rule. *)
Definition apply_effect (e e' : Emulator) (r : Rule) : Prop :=
  if rule_type r =? WildcardDevice then e' = mk_Emulator (rule_allow r) None
  else defaultAllow e' = defaultAllow e ∧
       ∀ m, perm_of e' m =
         if decide (rule_meta r = m) then
           if Bool.eqb (rule_allow r) (defaultAllow e)
           then Z.ldiff (perm_of e m) (toSet (rule_perms r))
           else Z.lor (perm_of e m) (toSet (rule_perms r))
         else perm_of e m.

(** A rule [Apply] refuses. *)
Definition apply_refused (e : Emulator) (r : Rule) : Prop :=
  CanCgroup (rule_type r) = false ∨
  (rule_type r ≠ WildcardDevice ∧ rule_allow r = defaultAllow e ∧ hole e r).

Lemma Apply_unfold e r :
  CanCgroup (rule_type r) = true → rule_type r ≠ WildcardDevice →
  let ir := mk_deviceRule (rule_meta r) (rule_perms r) in
  ∃ msg, Apply e r =
    if Bool.eqb (rule_allow r) (defaultAllow e) then wrap_err msg (rmRule e ir)
    else wrap_err msg (addRule e ir).
Proof.
  intros Hc Hw ir. unfold Apply. rewrite Hc. cbn [negb].
  fold (rule_meta r). fold ir. change (node (meta ir)) with (rule_type r).
  apply Z.eqb_neq in Hw. rewrite Hw.
  unfold emu_allow, emu_deny. change (node (meta ir)) with (rule_type r). rewrite Hw.
  destruct (rule_allow r), (defaultAllow e); eexists; reflexivity.
Qed.

Lemma Apply_wildcard e r :
  rule_type r = WildcardDevice → Apply e r = Ok (mk_Emulator (rule_allow r) None).
Proof. intros Hw. unfold Apply, CanCgroup. rewrite Hw. simpl. by destruct (rule_allow r). Qed.

Lemma Apply_ok_effect e r e' : Apply e r = Ok e' → apply_effect e e' r.
Proof.
  intros H. unfold apply_effect.
  destruct (Z.eqb_spec (rule_type r) WildcardDevice) as [Hw|Hw].
  { rewrite Apply_wildcard in H by done. by simplify_eq. }
  destruct (CanCgroup (rule_type r)) eqn:Hc; [|unfold Apply in H; by rewrite Hc in H].
  destruct (Apply_unfold e r Hc Hw) as [msg Heq]. rewrite Heq in H.
  case_match; apply wrap_err_ok in H.
  - by apply rmRule_effect in H.
  - by apply addRule_effect in H.
Qed.

Lemma Apply_ok_iff e r : is_ok (Apply e r) = true ↔ ¬ apply_refused e r.
Proof.
  unfold apply_refused.
  destruct (CanCgroup (rule_type r)) eqn:Hc; [|unfold Apply; rewrite Hc; naive_solver].
  destruct (Z.eqb_spec (rule_type r) WildcardDevice) as [Hw|Hw].
  { rewrite Apply_wildcard by done. naive_solver. }
  destruct (Apply_unfold e r Hc Hw) as [msg ->].
  pose proof (existsb_hole e r) as Hh.
  destruct (Bool.eqb _ _) eqn:Hb.
  - apply Bool.eqb_prop in Hb.
    destruct (existsb _ _) eqn:Hx.
    + split; [|naive_solver]. unfold rmRule. cbn [meta]. by rewrite Hx.
    + apply (rmRule_ok e (mk_deviceRule (rule_meta r) (rule_perms r))) in Hx.
      destruct (rmRule _ _); naive_solver.
  - apply Bool.eqb_false_iff in Hb. simpl. naive_solver.
Qed.

Lemma Apply_no_panic e r s : Apply e r ≠ Panic s.
Proof.
  destruct (CanCgroup (rule_type r)) eqn:Hc; [|unfold Apply; by rewrite Hc].
  destruct (Z.eq_dec (rule_type r) WildcardDevice) as [Hw|Hw].
  { by rewrite Apply_wildcard. }
  destruct (Apply_unfold e r Hc Hw) as [msg ->]. case_match; [|done].
  intros Hx. destruct (rmRule _ _) eqn:E; simplify_eq/=. by apply rmRule_no_panic in E.
Qed.

(** Canonical permission strings are preserved by every rule. *)
Lemma Apply_wf e r e' :
  toSet (rule_perms r) ≠ 0 → wf_emu e → Apply e r = Ok e' → wf_emu e'.
Proof.
  intros Hp We H.
  destruct (Z.eq_dec (rule_type r) WildcardDevice) as [Hw|Hw].
  { rewrite Apply_wildcard in H by done. simplify_eq. apply map_Forall_empty. }
  destruct (CanCgroup (rule_type r)) eqn:Hc; [|unfold Apply in H; by rewrite Hc in H].
  assert (rule_type r = BlockDevice ∨ rule_type r = CharDevice) as Hn.
  { unfold CanCgroup in Hc. rewrite !orb_true_iff, !Z.eqb_eq in Hc. naive_solver. }
  destruct (Apply_unfold e r Hc Hw) as [msg Heq]. rewrite Heq in H.
  case_match; apply wrap_err_ok in H.
  - unfold rmRule in H. case_match; [done|]. cbn [meta perms] in H.
    destruct (IsEmpty (Difference _ _)) eqn:Hem.
    + simplify_eq. unfold wf_emu in *. simpl. destruct (rules e) as [m|]; simpl in *; [|done].
      by apply map_Forall_delete.
    + unfold wf_emu in *. destruct (rules e) as [m|]; [|done]. simplify_eq. simpl in *.
      apply map_Forall_insert_2; [|done]. split_and!; auto with go.
  - unfold addRule in H. simplify_eq. cbn [meta perms] in *. unfold wf_emu in *. simpl.
    apply map_Forall_insert_2; [|done]. split_and!; auto with go.
    apply not_true_iff_false. rewrite valid_empty, toSet_Union by auto with go.
    rewrite Z.lor_eq_0_iff. tauto.
Qed.

(** ** Ordered entries *)

Lemma meta_less_irrefl a : meta_less a a = false.
Proof. unfold meta_less. rewrite !Z.ltb_irrefl, !andb_false_r. done. Qed.

Lemma meta_less_total a b : meta_less a b = false → meta_less b a = false → a = b.
Proof.
  unfold meta_less. destruct a as [n1 a1 b1], b as [n2 a2 b2]; simpl.
  rewrite !orb_false_iff, !andb_false_iff, !Z.ltb_ge, !Z.eqb_neq. intros. f_equal; lia.
Qed.

Lemma meta_less_trans a b c :
  meta_less b a = false → meta_less c b = false → meta_less c a = false.
Proof.
  unfold meta_less. destruct a as [n1 a1 b1], b as [n2 a2 b2], c as [n3 a3 b3]; simpl.
  rewrite !orb_false_iff, !andb_false_iff, !Z.ltb_ge, !Z.eqb_neq. lia.
Qed.

#[export] Instance rule_le_trans : Transitive rule_le.
Proof. intros a b c. unfold rule_le. intros. by eapply meta_less_trans. Qed.

#[export] Instance rule_le_total : Total rule_le.
Proof.
  intros a b. unfold rule_le.
  destruct (meta_less b.1 a.1) eqn:E; [right|by left].
  apply not_true_iff_false. intros E'.
  unfold meta_less in *. rewrite !orb_true_iff, !andb_true_iff, !Z.ltb_lt, !Z.eqb_eq in *. lia.
Qed.

Lemma orderedEntries_elem r m p :
  mk_deviceRule m p ∈ orderedEntries r ↔ rules_map r !! m = Some p.
Proof.
  unfold orderedEntries. rewrite list_elem_of_fmap, <- elem_of_map_to_list.
  split.
  - intros ([k v] & [= <- <-] & Hin). by rewrite merge_sort_Permutation in Hin.
  - intros Hin. exists (m, p). split; [done|]. by rewrite merge_sort_Permutation.
Qed.

Lemma orderedEntries_metas r :
  meta <$> orderedEntries r ≡ₚ (map_to_list (rules_map r)).*1.
Proof.
  unfold orderedEntries. rewrite <- list_fmap_compose, merge_sort_Permutation.
  by apply reflexive_eq, list_fmap_ext.
Qed.

Lemma orderedEntries_NoDup r : NoDup (meta <$> orderedEntries r).
Proof. rewrite orderedEntries_metas. apply NoDup_fst_map_to_list. Qed.

Lemma orderedEntries_sorted r :
  StronglySorted (λ a b, meta_less (meta b) (meta a) = false) (orderedEntries r).
Proof.
  unfold orderedEntries.
  assert (StronglySorted rule_le (merge_sort rule_le (map_to_list (rules_map r)))) as Hs
    by apply (StronglySorted_merge_sort rule_le).
  induction Hs as [|x l Hs IH Hx]; simpl; constructor; [done|].
  rewrite Forall_fmap. eapply Forall_impl; [exact Hx|]. done.
Qed.

Lemma orderedEntries_get r m :
  m ∈ meta <$> orderedEntries r ∨ rules_get r m = "".
Proof.
  destruct (rules_map r !! m) as [p|] eqn:E.
  - left. apply list_elem_of_fmap. exists (mk_deviceRule m p). split; [done|].
    by apply orderedEntries_elem.
  - right. unfold rules_get. by rewrite E.
Qed.

Lemma orderedEntries_perms r x :
  x ∈ orderedEntries r → rules_get r (meta x) = perms x.
Proof.
  destruct x as [m p]. intros H%orderedEntries_elem. unfold rules_get. cbn [meta]. by rewrite H.
Qed.

(** ** A batch of rules computed from a list of entries *)

(** What it takes for the rule [g] emits for an entry to change its bits by [delta]:
    remove them when [sub], add them otherwise, in an emulator whose default is [d]. *)
Definition emits (sub d : bool) (delta : deviceMeta → Z) (x : deviceRule) (o : option Rule) : Prop :=
  match o with
  | None => delta (meta x) = 0
  | Some r => rule_meta r = meta x ∧ toSet (rule_perms r) = delta (meta x) ∧
              rule_type r ≠ WildcardDevice ∧ CanCgroup (rule_type r) = true ∧
              toSet (rule_perms r) ≠ 0 ∧ Bool.eqb (rule_allow r) d = sub
  end.

Definition batch_op (sub : bool) : Z → Z → Z := if sub then Z.ldiff else Z.lor.

Lemma batch_op_0 sub x : batch_op sub x 0 = x.
Proof. destruct sub; [apply Z.ldiff_0_r|apply Z.lor_0_r]. Qed.

Lemma batch_effect sub delta g L e e' :
  NoDup (meta <$> L) →
  (∀ x, x ∈ L → emits sub (defaultAllow e) delta x (g x)) →
  foldM Apply e (omap g L) = Ok e' →
  defaultAllow e' = defaultAllow e ∧
  ∀ m, perm_of e' m = if decide (m ∈ meta <$> L) then batch_op sub (perm_of e m) (delta m)
                      else perm_of e m.
Proof.
  revert e. induction L as [|x L IH]; intros e Hnd Hg Hf.
  { injection Hf as <-. split; [done|]. intros m.
    rewrite decide_False; [done|]. apply not_elem_of_nil. }
  rewrite fmap_cons in Hnd. apply NoDup_cons in Hnd as [Hx Hnd].
  assert (∀ m, m ∈ meta <$> x :: L ↔ m = meta x ∨ m ∈ meta <$> L) as Hcons
    by (intros; rewrite fmap_cons; apply elem_of_cons).
  pose proof (Hg x ltac:(by left)) as Hgx. cbn [omap list_omap] in Hf.
  destruct (g x) as [r|].
  - destruct Hgx as (Hm & Hp & Hw & Hc & Hne & Hb). cbn [foldM] in Hf.
    apply rbind_ok in Hf as (e1 & H1 & H2).
    pose proof (Apply_ok_effect _ _ _ H1) as Heff. unfold apply_effect in Heff.
    rewrite (proj2 (Z.eqb_neq _ _) Hw), Hb, Hm, Hp in Heff. destruct Heff as [Hd He1].
    apply IH in H2 as [Hd' He']; [|done|intros y Hy; rewrite Hd; apply Hg; by right].
    split; [congruence|]. intros m. rewrite He', He1.
    destruct (decide (m = meta x)) as [->|Hne'].
    + rewrite decide_False by done. rewrite decide_True by done.
      rewrite decide_True by (apply Hcons; by left). by destruct sub.
    + rewrite (decide_False (P := meta x = m)) by done.
      apply decide_ext. rewrite Hcons. naive_solver.
  - apply IH in Hf as [Hd' He']; [|done|intros y Hy; apply Hg; by right].
    split; [done|]. intros m. rewrite He'. cbn [emits] in Hgx.
    destruct (decide (m = meta x)) as [->|Hne'].
    + rewrite decide_False by done. rewrite decide_True by (apply Hcons; by left).
      by rewrite Hgx, batch_op_0.
    + apply decide_ext. rewrite Hcons. naive_solver.
Qed.

Lemma batch_wf sub delta g L e e' :
  (∀ x, x ∈ L → emits sub (defaultAllow e) delta x (g x)) →
  wf_emu e → foldM Apply e (omap g L) = Ok e' → wf_emu e'.
Proof.
  intros Hg. apply (foldM_inv Apply wf_emu). intros s r s' Hr We Ha.
  apply list_elem_of_omap in Hr as (x & Hx & Hgx). specialize (Hg x Hx).
  rewrite Hgx in Hg. eapply Apply_wf; [|done..]. apply Hg.
Qed.

(** Adding permissions always succeeds. *)
Lemma batch_add_ok delta g L e :
  (∀ x, x ∈ L → emits false (defaultAllow e) delta x (g x)) →
  is_ok (foldM Apply e (omap g L)) = true.
Proof.
  revert e; induction L as [|x L IH]; intros e Hg; [done|]. cbn [omap list_omap].
  pose proof (Hg x ltac:(by left)) as Hgx.
  destruct (g x) as [r|]; [|apply IH; intros y Hy; apply Hg; by right].
  destruct Hgx as (Hm & Hp & Hw & Hc & Hne & Hb). cbn [foldM].
  assert (is_ok (Apply e r) = true) as Hok.
  { apply Apply_ok_iff. intros [Hr|(_ & Ha & _)]; [congruence|].
    rewrite Ha, Bool.eqb_reflx in Hb. done. }
  destruct (Apply e r) as [e1|?|?] eqn:H1; [|done..]. cbn [rbind].
  apply Apply_ok_effect in H1. unfold apply_effect in H1.
  rewrite (proj2 (Z.eqb_neq _ _) Hw) in H1. destruct H1 as [Hd _].
  apply IH. intros y Hy. rewrite Hd. apply Hg. by right.
Qed.

(** ** Transition *)

Lemma ldiff_ldiff a b : Z.ldiff a (Z.ldiff a b) = Z.land a b.
Proof.
  apply Z.bits_inj'. intros i Hi. rewrite !Z.ldiff_spec, Z.land_spec.
  by destruct (Z.testbit a i), (Z.testbit b i).
Qed.

Lemma lor_land_ldiff a b : Z.lor (Z.land a b) (Z.ldiff b a) = b.
Proof.
  apply Z.bits_inj'. intros i Hi. rewrite Z.lor_spec, Z.land_spec, Z.ldiff_spec.
  by destruct (Z.testbit a i), (Z.testbit b i).
Qed.

(** The permission bits the first and the second loop of [Transition] work on. *)
Definition dropped_bits (target : Emulator) (old : deviceRules) (m : deviceMeta) : Z :=
  Z.ldiff (toSet (rules_get old m)) (perm_of target m).
Definition gained_bits (target : Emulator) (old : deviceRules) (m : deviceMeta) : Z :=
  Z.ldiff (perm_of target m) (toSet (rules_get old m)).

Lemma wf_entry_cgroup m p :
  wf_entry m p → node m ≠ WildcardDevice ∧ CanCgroup (node m) = true.
Proof. intros (_ & _ & [-> | ->]); done. Qed.

Lemma wf_orderedEntries e x :
  wf_emu e → x ∈ orderedEntries (rules e) → wf_entry (meta x) (perms x).
Proof. destruct x as [m p]. intros We Hx%orderedEntries_elem. by apply We. Qed.

Lemma Difference_nonempty p o : IsEmpty (Difference p o) = false → toSet (Difference p o) ≠ 0.
Proof. intros H ?. apply not_true_iff_false in H. apply H, Difference_empty. by rewrite <- toSet_Difference. Qed.

Lemma meta_eta m : mk_meta (node m) (major m) (minor m) = m.
Proof. by destruct m. Qed.

Section Emission.
Context (source target : Emulator) (Ws : wf_emu source) (Wt : wf_emu target).

Lemma dropped_emits x :
  x ∈ orderedEntries (rules source) →
  emits true (defaultAllow target) (dropped_bits target (rules source)) x
    (let newPerms := rules_get (rules target) (meta x) in
     let droppedPerms := Difference (perms x) newPerms in
     if IsEmpty droppedPerms then None
     else Some (mk_Rule (node (meta x)) (major (meta x)) (minor (meta x))
                  droppedPerms (defaultAllow target))).
Proof.
  intros Hx. pose proof (orderedEntries_perms _ _ Hx) as Hp.
  destruct (wf_entry_cgroup _ _ (wf_orderedEntries _ _ Ws Hx)) as [Hw Hc].
  cbv zeta. unfold dropped_bits, perm_of. rewrite <- Hp.
  destruct (IsEmpty _) eqn:E; simpl.
  - by apply Difference_empty.
  - split_and!; [apply meta_eta|by rewrite toSet_Difference|done|done
      |by apply Difference_nonempty|apply Bool.eqb_reflx].
Qed.

Lemma gained_emits (old : deviceRules) x :
  x ∈ orderedEntries (rules target) →
  emits false (defaultAllow target) (gained_bits target old) x
    (let oldPerms := rules_get old (meta x) in
     let gainedPerms := Difference (perms x) oldPerms in
     if IsEmpty gainedPerms then None
     else Some (mk_Rule (node (meta x)) (major (meta x)) (minor (meta x))
                  gainedPerms (negb (defaultAllow target)))).
Proof.
  intros Hx. pose proof (orderedEntries_perms _ _ Hx) as Hp.
  destruct (wf_entry_cgroup _ _ (wf_orderedEntries _ _ Wt Hx)) as [Hw Hc].
  cbv zeta. unfold gained_bits, perm_of. rewrite <- Hp.
  destruct (IsEmpty _) eqn:E; simpl.
  - by apply Difference_empty.
  - split_and!; [apply meta_eta|by rewrite toSet_Difference|done|done
      |by apply Difference_nonempty|by destruct (defaultAllow target)].
Qed.

(** The second loop takes a state that holds the bits common to old and new rules to
    the target. *)
Lemma gained_reaches (old : deviceRules) e :
  wf_emu e → defaultAllow e = defaultAllow target →
  (∀ m, perm_of e m = Z.land (toSet (rules_get old m)) (perm_of target m)) →
  ∃ e', foldM Apply e (gainedRules target old) = Ok e' ∧
        defaultAllow e' = defaultAllow target ∧
        rules_map (rules e') = rules_map (rules target).
Proof using Wt.
  intros We Hd He. unfold gainedRules.
  match goal with |- context [omap ?g _] => set (gf := g) end.
  assert (∀ x, x ∈ orderedEntries (rules target) →
    emits false (defaultAllow e) (gained_bits target old) x (gf x)) as Hg
    by (intros x Hx; rewrite Hd; by apply gained_emits).
  pose proof (batch_add_ok _ _ _ _ Hg) as Hok.
  destruct (foldM _ _ _) as [e'|?|?] eqn:Hf; [|done..].
  exists e'. split; [done|].
  destruct (batch_effect _ _ _ _ _ _ (orderedEntries_NoDup _) Hg Hf) as [Hd' He'].
  split; [congruence|].
  apply perm_of_wf_ext; [by eapply batch_wf|done|].
  intros m. rewrite He', He.
  case_decide as Hm.
  - apply lor_land_ldiff.
  - destruct (orderedEntries_get (rules target) m) as [?|Hn]; [done|].
    unfold perm_of. rewrite Hn. apply Z.land_0_r.
Qed.
End Emission.

(** The condition under which the old exceptions can be dropped one by one: no exception
    wider than [m] that both states have overlaps what has to be dropped from [m]. *)
Definition no_hole (source target : Emulator) : Prop :=
  ∀ m pm, pm ∈ partialMetas m → pm ≠ m →
    Z.land (Z.land (perm_of source pm) (perm_of target pm))
           (dropped_bits target (rules source) m) = 0.

(** Device numbers are not below the wildcard -1. *)
Definition numbers_ok (e : Emulator) : Prop :=
  map_Forall (λ m _, -1 ≤ major m ∧ -1 ≤ minor m) (rules_map (rules e)).

#[export] Instance numbers_ok_dec e : Decision (numbers_ok e).
Proof. unfold numbers_ok. apply _. Defined.

Lemma partial_before m pm :
  -1 ≤ major m → -1 ≤ minor m → pm ∈ partialMetas m → pm ≠ m → meta_less pm m = true.
Proof.
  intros Ha Hb Hpm Hne. unfold partialMetas, Wildcard in Hpm.
  rewrite !elem_of_cons, elem_of_nil in Hpm. destruct m as [n a b]; simpl in *.
  unfold meta_less. rewrite !orb_true_iff, !andb_true_iff, !Z.ltb_lt, !Z.eqb_eq.
  destruct_or! Hpm; try done; subst; simpl in *.
  - assert (a ≠ -1) by congruence. lia.
  - assert (b ≠ -1) by congruence. lia.
  - assert (a ≠ -1 ∨ b ≠ -1) by (destruct (Z.eq_dec a (-1)); [right|by left]; congruence). lia.
Qed.

Section Dropping.
Context (source target : Emulator) (Ws : wf_emu source).
Context (Hhole : no_hole source target).

Abbreviation delta := (dropped_bits target (rules source)).

(** The first loop never runs into a wider exception: those it meets come earlier in
    the order, so they are already reduced to what the target keeps. *)
Lemma dropped_ok g L e :
  (∀ x, x ∈ L → emits true (defaultAllow e) delta x (g x)) →
  (∀ x, x ∈ L → -1 ≤ major (meta x) ∧ -1 ≤ minor (meta x)) →
  NoDup (meta <$> L) →
  StronglySorted (λ a b, meta_less (meta b) (meta a) = false) L →
  (∀ m, perm_of e m = if decide (m ∈ meta <$> L) then perm_of source m
                      else Z.land (perm_of source m) (perm_of target m)) →
  is_ok (foldM Apply e (omap g L)) = true.
Proof using Hhole.
  revert e; induction L as [|x L IH]; intros e Hg Hnum Hnd Hsort He; [done|].
  cbn [omap list_omap]. pose proof (Hg x ltac:(by left)) as Hgx.
  rewrite fmap_cons in Hnd, He. apply NoDup_cons in Hnd as [Hx Hnd].
  inversion Hsort as [|? ? Hsort' Hfirst]; subst.
  assert (∀ x0, x0 ∈ L → -1 ≤ major (meta x0) ∧ -1 ≤ minor (meta x0)) as Hnum'
    by (intros y Hy; apply Hnum; by right).
  destruct (g x) as [r|] eqn:Egx.
  - destruct Hgx as (Hm & Hp & Hw & Hc & Hne & Hb). cbn [foldM].
    assert (is_ok (Apply e r) = true) as Hok.
    { apply Apply_ok_iff. intros [Hr|(_ & _ & (pm & Hpm & Hneq & Hland))]; [congruence|].
      rewrite Hm in Hpm, Hneq. rewrite Hp in Hland. apply Hland.
      rewrite He, decide_False; [by apply Hhole|].
      intros Hin. apply elem_of_cons in Hin as [?|Hin]; [done|].
      apply list_elem_of_fmap in Hin as (y & -> & Hy).
      rewrite Forall_forall in Hfirst. apply Hfirst in Hy.
      rewrite partial_before in Hy; [done| apply Hnum; by left..|done|done]. }
    destruct (Apply e r) as [e1|?|?] eqn:H1; [|done..]. cbn [rbind].
    apply Apply_ok_effect in H1. unfold apply_effect in H1.
    rewrite (proj2 (Z.eqb_neq _ _) Hw), Hb, Hm, Hp in H1. destruct H1 as [Hd He1].
    apply IH; [|done..|].
    + intros y Hy. rewrite Hd. apply Hg. by right.
    + intros m. rewrite He1, He. destruct (decide (meta x = m)) as [<-|Hxm].
      * rewrite decide_True by (by left). rewrite decide_False by done.
        apply ldiff_ldiff.
      * apply decide_ext. rewrite elem_of_cons. naive_solver.
  - apply IH; [|done..|].
    + intros y Hy. apply Hg. by right.
    + intros m. rewrite He. destruct (decide (m = meta x)) as [->|Hxm].
      * rewrite decide_True by (by left). rewrite decide_False by done.
        cbn [emits] in Hgx. rewrite <- (Z.ldiff_0_r (perm_of source (meta x))) at 1.
        rewrite <- Hgx. apply ldiff_ldiff.
      * apply decide_ext. rewrite elem_of_cons. naive_solver.
Qed.
End Dropping.

(** After a completed first loop exactly the common bits are left. *)
Lemma dropped_effect source target e' :
  wf_emu source → defaultAllow source = defaultAllow target →
  foldM Apply source (droppedRules target (rules source)) = Ok e' →
  wf_emu e' ∧ defaultAllow e' = defaultAllow target ∧
  ∀ m, perm_of e' m = Z.land (toSet (rules_get (rules source) m)) (perm_of target m).
Proof.
  intros Ws Hd Hf. unfold droppedRules in Hf.
  match type of Hf with context [omap ?g _] => set (gf := g) in Hf end.
  assert (∀ x, x ∈ orderedEntries (rules source) →
    emits true (defaultAllow source) (dropped_bits target (rules source)) x (gf x)) as Hg
    by (intros x Hx; rewrite Hd; by apply dropped_emits).
  destruct (batch_effect _ _ _ _ _ _ (orderedEntries_NoDup _) Hg Hf) as [Hd' He'].
  split_and!; [by eapply batch_wf|congruence|].
  intros m. rewrite He'. case_decide as Hm.
  - apply ldiff_ldiff.
  - destruct (orderedEntries_get (rules source) m) as [?|Hn]; [done|].
    unfold perm_of. by rewrite Hn.
Qed.

Lemma dropped_succeeds source target :
  wf_emu source → numbers_ok source → no_hole source target →
  defaultAllow source = defaultAllow target →
  is_ok (foldM Apply source (droppedRules target (rules source))) = true.
Proof.
  intros Ws Hn Hh Hd. unfold droppedRules. eapply dropped_ok; [done|..].
  - intros x Hx. rewrite Hd. by apply dropped_emits.
  - intros [m p] Hx%orderedEntries_elem. by eapply Hn.
  - apply orderedEntries_NoDup.
  - apply orderedEntries_sorted.
  - intros m. case_decide as Hm; [done|].
    destruct (orderedEntries_get (rules source) m) as [?|Hg]; [done|].
    unfold perm_of. by rewrite Hg.
Qed.

(** The run of a transition: it succeeds exactly when its first part does, and then ends
    in the target. *)
Lemma Transition_run source target rs :
  wf_emu source → wf_emu target → Transition source target = Ok rs →
  (defaultAllow source = false → defaultAllow target = false →
   is_ok (foldM Apply source (droppedRules target (rules source))) = true) →
  ∃ e', foldM Apply source rs = Ok e' ∧ defaultAllow e' = defaultAllow target ∧
        rules_map (rules e') = rules_map (rules target).
Proof.
  intros Ws Wt Ht Hdrop. unfold Transition in Ht. injection Ht as <-.
  rewrite !foldM_app. destruct (IsBlacklist source || _) eqn:Hdis.
  - (* a disruptive rule first *)
    assert (droppedRules target None = []) as -> by done.
    cbn [foldM app]. rewrite Apply_wildcard by done. cbn [rbind].
    apply gained_reaches; [done|apply map_Forall_empty|done|].
    intros m. done.
  - unfold IsBlacklist in Hdis. apply orb_false_iff in Hdis as [Hs Heq].
    apply negb_false_iff, Bool.eqb_prop in Heq.
    cbn [foldM rbind]. rewrite foldM_app. specialize (Hdrop Hs ltac:(congruence)).
    destruct (foldM _ _ (droppedRules _ _)) as [e1|?|?] eqn:H1; [|done..].
    cbn [rbind]. destruct (dropped_effect _ _ _ Ws Heq H1) as (We1 & Hd1 & Hp1).
    by apply gained_reaches.
Qed.

(** ** Printing and parsing rules *)

Fixpoint all_str (P : ascii → bool) (s : string) : bool :=
  match s with
  | EmptyString => true
  | String c s' => P c && all_str P s'
  end.

(** [s] does not start with a character of the class [P]. *)
Definition starts_out (P : ascii → bool) (s : string) : Prop :=
  match s with EmptyString => True | String c _ => P c = false end.

Lemma span_str_app P a b :
  all_str P a = true → starts_out P b → span_str P (a +:+ b) = (a, b).
Proof.
  intros Ha Hb. induction a as [|c a IH]; simpl in *.
  - destruct b as [|c b]; [done|]. simpl in *. by rewrite Hb.
  - apply andb_true_iff in Ha as [-> Ha]. by rewrite IH.
Qed.

Lemma span1_app P a b :
  all_str P a = true → a ≠ "" → starts_out P b → span1 P (a +:+ b) = Some (a, b).
Proof.
  intros. unfold span1. rewrite span_str_app by done. by rewrite bool_decide_eq_false_2.
Qed.

Lemma all_digits_all_str s : all_digits s = true → all_str is_digit s = true.
Proof.
  induction s as [|c s IH]; simpl; [done|]. intros H. unfold is_digit at 1.
  destruct (digit_val c) eqn:E; [|done]. rewrite bool_decide_eq_true_2 by (by eexists).
  by apply IH.
Qed.

(** A device number a rule can carry: the wildcard or an unsigned 32-bit number. *)
Definition number_ok (n : Z) : Prop := n = Wildcard ∨ 0 ≤ n < 2 ^ 32.

Lemma number_nonempty n : number_ok n → num_or_star n ≠ "".
Proof.
  intros [->|H]; [done|]. unfold num_or_star. case_match; [done|].
  destruct (FormatInt_nonneg n) as (c & s & -> & _); [lia|done].
Qed.

Lemma re_number_print n b :
  number_ok n → starts_out is_digit b → re_number (num_or_star n +:+ b) = Some (num_or_star n, b).
Proof.
  intros [->|Hn] Hb; [done|].
  unfold num_or_star. rewrite (proj2 (Z.eqb_neq n Wildcard)) by (unfold Wildcard; lia).
  destruct (FormatInt_nonneg n) as (c & s & Hc & Hd); [lia|].
  assert (c ≠ "*"%char) as Hstar.
  { intros ->. simpl in Hd. by vm_compute in Hd. }
  rewrite Hc. change (String c s +:+ b) with (String c (s +:+ b)). unfold re_number.
  rewrite bool_decide_eq_false_2 by done.
  apply (span1_app is_digit (String c s) b); [by apply all_digits_all_str|done..].
Qed.

Lemma parse_number_print what n : number_ok n → parse_number what (num_or_star n) = Ok n.
Proof.
  intros [->|Hn]; [done|]. unfold parse_number, num_or_star.
  rewrite (proj2 (Z.eqb_neq n Wildcard)) by (unfold Wildcard; lia).
  assert (FormatInt n ≠ "*") as Hs.
  { destruct (FormatInt_nonneg n) as (c & s & -> & Hd); [lia|]. intros [= -> ->].
    by vm_compute in Hd. }
  rewrite bool_decide_eq_false_2 by done. by rewrite ParseUint_FormatInt by lia.
Qed.

Lemma valid_perms_enum p :
  PermIsValid p = true → IsEmpty p = false →
  p ∈ ["r"; "w"; "rw"; "m"; "rm"; "wm"; "rwm"].
Proof.
  unfold PermIsValid. intros H E. apply bool_decide_eq_true in H. rewrite H in E |- *.
  pose proof (toSet_range p) as Hr. enum_set Hr; match goal with Hx : toSet p = _ |- _ => rewrite Hx in E |- * end; first [done | set_solver].
Qed.

(** The text of a rule matches the expression of [parseLine], field by field. *)
Lemma devicesListRegexp_print t n1 n2 p :
  t ∈ ["a"; "b"; "c"]%char → number_ok n1 → number_ok n2 →
  PermIsValid p = true → IsEmpty p = false →
  devicesListRegexp (String t (" " +:+ num_or_star n1 +:+ ":" +:+ num_or_star n2 +:+ " " +:+ p)) =
  Some (t, num_or_star n1, num_or_star n2, p).
Proof.
  intros Ht H1 H2 Hp He. unfold devicesListRegexp. rewrite bool_decide_eq_true_2 by done.
  assert (∀ n b, number_ok n → starts_out is_re_space (num_or_star n +:+ b)) as Hsp.
  { intros n b [->|Hn]; [done|]. unfold num_or_star. case_match; [done|].
    destruct (FormatInt_nonneg n) as (c & s & -> & Hd); [lia|].
    change (String c s +:+ b) with (String c (s +:+ b)). simpl in *.
    apply not_true_iff_false. unfold is_re_space. rewrite bool_decide_eq_true.
    unfold digit_val in Hd. fold (code c) in Hd. intros Hc.
    rewrite !elem_of_cons, elem_of_nil in Hc. destruct_or! Hc; by rewrite ?Hc in Hd. }
  assert (∀ b, starts_out is_re_space b → span1 is_re_space (" " +:+ b) = Some (" ", b)) as Hspace.
  { intros b Hb. by apply span1_app. }
  rewrite Hspace by (by apply Hsp). cbn [mbind option_bind].
  rewrite re_number_print by done. cbn [mbind option_bind].
  match goal with |- context [":" +:+ ?b] => change (":" +:+ b) with (String ":" b) end.
  cbn iota beta. rewrite bool_decide_eq_true_2 by done.
  rewrite re_number_print by done. cbn [mbind option_bind].
  pose proof (valid_perms_enum p Hp He) as Hin.
  rewrite !elem_of_cons, elem_of_nil in Hin. by destruct_or! Hin; subst.
Qed.

(** A rule whose text the kernel's devices.list syntax can carry. *)
Definition printable (r : Rule) : Prop :=
  CanCgroup (rule_type r) = true ∧ number_ok (rule_major r) ∧ number_ok (rule_minor r) ∧
  PermIsValid (rule_perms r) = true ∧ IsEmpty (rule_perms r) = false.

#[export] Instance printable_dec r : Decision (printable r).
Proof. unfold printable, number_ok. apply _. Defined.

Lemma CanCgroup_cases t :
  CanCgroup t = true → t = WildcardDevice ∨ t = BlockDevice ∨ t = CharDevice.
Proof. unfold CanCgroup. rewrite !orb_true_iff, !Z.eqb_eq. tauto. Qed.

Lemma parse_CgroupString r :
  printable r →
  parseLine (CgroupString r) =
    Ok (if rule_type r =? WildcardDevice then None
        else Some (mk_deviceRule (rule_meta r) (rule_perms r))).
Proof.
  intros (Ht & H1 & H2 & Hp & He). unfold CgroupString.
  destruct (CanCgroup_cases _ Ht) as [Hr|[Hr|Hr]]; rewrite Hr;
    match goal with |- context [fmt_rune ?t +:+ _] =>
      let v := eval vm_compute in (fmt_rune t) in change (fmt_rune t) with v end;
    rewrite string_app_cons;
    match goal with |- context ["" +:+ ?x] => change ("" +:+ x) with x end; unfold parseLine;
    rewrite devicesListRegexp_print by (done || set_solver);
    cbn [bool_decide decide_rel]; try reflexivity;
    rewrite !parse_number_print by done; cbn [rbind]; rewrite Hp, He; simpl;
    unfold rule_meta; by rewrite Hr.
Qed.

Lemma num_or_star_line n c :
  number_ok n → digit_val c = None → c ≠ "*"%char → contains_char c (num_or_star n) = false.
Proof.
  intros [->|Hn] Hc Hs; [simpl; by rewrite bool_decide_eq_false_2|].
  unfold num_or_star. case_match; [simpl; by rewrite bool_decide_eq_false_2|].
  destruct (FormatInt_nonneg n) as (d & s & -> & Hd); [lia|]. by apply all_digits_contains.
Qed.

Lemma num_or_star_length n : number_ok n → Z.of_nat (String.length (num_or_star n)) ≤ 33.
Proof.
  intros [->|Hn]; [done|]. unfold num_or_star. case_match; [done|].
  apply (FormatInt_length n 32); lia.
Qed.

Lemma CgroupString_line r : printable r → line_ok (CgroupString r).
Proof.
  intros (Ht & H1 & H2 & Hp & He). unfold CgroupString.
  assert (∀ c, c = LF ∨ c = CR → contains_char c (CgroupString r) = false) as Hc.
  { intros c Hc. unfold CgroupString. rewrite !contains_char_app.
    rewrite !num_or_star_line by (done || (destruct Hc; by subst)).
    pose proof (valid_perms_enum _ Hp He) as Hin.
    rewrite !elem_of_cons, elem_of_nil in Hin.
    destruct (CanCgroup_cases _ Ht) as [Hr|[Hr|Hr]]; rewrite Hr;
      destruct_or! Hin; try done; rewrite Hin; by destruct Hc; subst. }
  split_and!; [apply Hc; by left|apply Hc; by right|].
  rewrite !string_length_app.
  pose proof (num_or_star_length _ H1). pose proof (num_or_star_length _ H2).
  assert (String.length (rule_perms r) ≤ 3)%nat.
  { pose proof (valid_perms_enum _ Hp He) as Hin.
    rewrite !elem_of_cons, elem_of_nil in Hin. destruct_or! Hin; try done; rewrite Hin; simpl; lia. }
  assert (String.length (fmt_rune (rule_type r)) = 1)%nat as ->.
  { by destruct (CanCgroup_cases _ Ht) as [->|[->| ->]]. }
  change (String.length " ") with 1%nat. change (String.length ":") with 1%nat.
  unfold MaxScanTokenSize. lia.
Qed.

(** ** devices.list of a controller *)

Definition entry_rule (m : deviceMeta) (p : Permissions) : Rule :=
  mk_Rule (node m) (major m) (minor m) p true.

(** The lines for a list of exceptions. *)
Definition list_lines (L : list (deviceMeta * Permissions)) : list string :=
  (λ kv, CgroupString (entry_rule kv.1 kv.2)) <$> L.

Definition printable_emu (e : Emulator) : Prop :=
  wf_emu e ∧
  map_Forall (λ m _, number_ok (major m) ∧ number_ok (minor m)) (rules_map (rules e)).

#[export] Instance printable_emu_dec e : Decision (printable_emu e).
Proof. unfold printable_emu, number_ok. apply _. Defined.

Definition printable_entry (kv : deviceMeta * Permissions) : Prop :=
  wf_entry kv.1 kv.2 ∧ number_ok (major kv.1) ∧ number_ok (minor kv.1).

Lemma printable_entry_rule kv : printable_entry kv → printable (entry_rule kv.1 kv.2).
Proof.
  intros ((Hp & He & Hn) & H1 & H2). split_and!; try done. simpl. by destruct Hn as [-> | ->].
Qed.

Lemma Union_nil p : PermIsValid p = true → Union p "" = p.
Proof.
  intros H. apply valid_perms_eq; auto with go. rewrite toSet_Union.
  change (toSet "") with 0. apply Z.lor_0_r.
Qed.

Lemma load_line_entry e kv :
  defaultAllow e = false → printable_entry kv → rules_map (rules e) !! kv.1 = None →
  load_line e (CgroupString (entry_rule kv.1 kv.2)) =
    Ok (mk_Emulator false (Some (<[kv.1 := kv.2]> (rules_map (rules e))))).
Proof.
  destruct kv as [m p]; simpl. intros Hd Hpr Hnone. pose proof Hpr as ((Hv & He & Hn) & _).  simpl in Hn, Hv.
  unfold load_line. rewrite parse_CgroupString by by apply (printable_entry_rule (m, p)).
  simpl rule_type. rewrite (proj2 (Z.eqb_neq (node m) WildcardDevice)) by (by destruct Hn as [-> | ->]).
  cbn [wrap_err rbind emu_allow meta rule_meta]. unfold rule_meta. simpl.
  rewrite (proj2 (Z.eqb_neq (node m) WildcardDevice)) by (by destruct Hn as [-> | ->]).
  rewrite Hd. unfold addRule. cbn [meta perms wrap_err]. rewrite meta_eta.
  unfold rules_get. rewrite Hnone. simpl. by rewrite Union_nil, Hd.
Qed.

Lemma load_lines_entries e L :
  defaultAllow e = false → Forall printable_entry L → NoDup L.*1 →
  (∀ m, m ∈ L.*1 → rules_map (rules e) !! m = None) →
  ∃ e', foldM load_line e (list_lines L) = Ok e' ∧ defaultAllow e' = false ∧
        rules_map (rules e') = list_to_map L ∪ rules_map (rules e) ∧
        (L = [] → e' = e) ∧ (L ≠ [] → rules e' ≠ None).
Proof.
  revert e; induction L as [|kv L IH]; intros e Hd Hpr Hnd Hfresh.
  { exists e. split_and!; try done. simpl. by rewrite (left_id_L ∅ (∪)). }
  apply Forall_cons in Hpr as [Hkv Hpr]. rewrite fmap_cons in Hnd, Hfresh.
  apply NoDup_cons in Hnd as [Hnin Hnd].
  cbn [list_lines fmap list_fmap foldM].
  rewrite load_line_entry by (done || (apply Hfresh; by left)). cbn [rbind].
  destruct (IH (mk_Emulator false (Some (<[kv.1 := kv.2]> (rules_map (rules e))))))
    as (e' & Hf & Hd' & Hm & Hnil & Hcons); [done|done|done|..].
  { intros m Hm. simpl. rewrite lookup_insert_ne by (intros ?; subst; done). apply Hfresh. by right. }
  exists e'. split_and!; try done.
  - rewrite Hm. simpl. destruct kv as [k v]; simpl in *.
    rewrite <- insert_union_r, insert_union_l; [done|]. by apply not_elem_of_list_to_map_1.
  - intros _ Hn. destruct L as [|]; [|by apply Hcons]. by rewrite (Hnil eq_refl) in Hn.
Qed.

Lemma load_entries e L :
  printable_emu e → L ≡ₚ map_to_list (rules_map (rules e)) →
  ∃ e', EmulatorFromList (mk_reader (unlines (list_lines L)) None) = Ok e' ∧
        defaultAllow e' = false ∧ rules_map (rules e') = rules_map (rules e) ∧
        (rules e' = None ↔ rules_map (rules e) = ∅).
Proof.
  intros [We Hnum] HL.
  assert (Forall printable_entry L) as Hpr.
  { rewrite HL. apply Forall_forall. intros [m p] Hin%elem_of_map_to_list.
    split; [by apply We|by eapply Hnum]. }
  assert (Forall line_ok (list_lines L)) as Hlines.
  { unfold list_lines. rewrite Forall_fmap. eapply Forall_impl; [exact Hpr|].
    intros kv Hkv. by apply CgroupString_line, printable_entry_rule. }
  assert (NoDup L.*1) as Hnd by (rewrite HL; apply NoDup_fst_map_to_list).
  destruct (load_lines_entries (mk_Emulator false None) L)
    as (e' & Hf & Hd & Hm & Hnil & Hcons); [done|done|done|by intros; apply lookup_empty|].
  unfold EmulatorFromList. rewrite scan_unlines by done. rewrite Hf. cbn [rbind].
  exists e'. split_and!; try done.
  - rewrite Hm. simpl. rewrite (right_id_L ∅ (∪)), (list_to_map_proper _ _ Hnd HL).
    apply list_to_map_to_list.
  - destruct L as [|kv L].
    + rewrite Hnil by done. apply Permutation_nil in HL.
      split; [|done]. intros _. by apply map_to_list_empty_iff.
    + split; [intros Hn; by apply Hcons in Hn|]. intros Hem. rewrite Hem, map_to_list_empty in HL.
      by apply Permutation_nil_r in HL.
Qed.

Lemma batch_elem sub d delta g (L : list deviceRule) r :
  (∀ x, x ∈ L → emits sub d delta x (g x)) → r ∈ omap g L →
  ∃ x, x ∈ L ∧ rule_meta r = meta x ∧ toSet (rule_perms r) = delta (meta x) ∧
       rule_type r ≠ WildcardDevice ∧ toSet (rule_perms r) ≠ 0 ∧ Bool.eqb (rule_allow r) d = sub.
Proof.
  intros Hg (x & Hx & Hgx)%list_elem_of_omap. specialize (Hg x Hx). rewrite Hgx in Hg.
  destruct Hg as (? & ? & ? & ? & ? & ?). eauto 10.
Qed.

Lemma dropped_elem source target r :
  wf_emu source → r ∈ droppedRules target (rules source) →
  rule_allow r = defaultAllow target ∧ rule_type r ≠ WildcardDevice ∧
  toSet (rule_perms r) = Z.ldiff (perm_of source (rule_meta r)) (perm_of target (rule_meta r)).
Proof.
  intros Ws Hr. unfold droppedRules in Hr. eapply batch_elem in Hr as (x & Hx & Hm & Hp & Hw & _ & Hb);
    [|by apply dropped_emits]. apply Bool.eqb_prop in Hb. by rewrite Hm.
Qed.

Lemma gained_elem target old r :
  wf_emu target → r ∈ gainedRules target old →
  rule_allow r = negb (defaultAllow target) ∧ rule_type r ≠ WildcardDevice ∧
  toSet (rule_perms r) = Z.ldiff (perm_of target (rule_meta r)) (toSet (rules_get old (rule_meta r))).
Proof.
  intros Wt Hr. unfold gainedRules in Hr. eapply batch_elem in Hr as (x & Hx & Hm & Hp & Hw & _ & Hb);
    [|by apply gained_emits]. rewrite Hm. split_and!; [|done..].
  by destruct (rule_allow r), (defaultAllow target).
Qed.

(** ** Properties *)

(** What a rule does to the emulator, on every branch.  [Apply] never panics (in
    particular [rmRule] never assigns to the nil map); it refuses a rule, with an error,
    exactly when the type cannot be in a cgroup rule or when the rule would remove
    permissions that a wider wildcard exception still covers; otherwise a wildcard-type
    rule resets the controller, and any other rule sets, for its own exception only, the
    union or the difference of the permission sets. *)
Theorem Apply_behaviour e r :
  (apply_refused e r → ∃ err, Apply e r = Err err) ∧
  (¬ apply_refused e r → ∃ e', Apply e r = Ok e' ∧ apply_effect e e' r).
Proof.
  pose proof (Apply_ok_iff e r) as Hiff. pose proof (Apply_no_panic e r) as Hp.
  destruct (Apply e r) as [e'|err|s] eqn:E; simpl in Hiff.
  - split; [tauto|]. intros _. eauto using Apply_ok_effect.
  - split; [eauto|]. intros H. apply Hiff in H. done.
  - by destruct (Hp s).
Qed.

(** C20. [Transition] is correct: starting from a well-formed [source] and applying the
    rules it returns, one after the other, no rule is refused and the emulator ends with
    the default policy and the exceptions of [target], which must be well-formed too - as
    long as no exception that has to be dropped lies under a wider one that both have
    ([no_hole]): the kernel and the emulator refuse to punch a hole in a wildcard
    exception. The order of the rules matters for this: wider exceptions are dropped
    before the narrower ones they would hide. *)
Theorem Transition_reaches_target source target rs :
  wf_emu source → wf_emu target → numbers_ok source → no_hole source target →
  Transition source target = Ok rs →
  ∃ e', foldM Apply source rs = Ok e' ∧ defaultAllow e' = defaultAllow target ∧
        rules_map (rules e') = rules_map (rules target).
Proof.
  intros Ws Wt Hn Hh Ht. eapply Transition_run; eauto.
  intros Hs Ht'. apply dropped_succeeds; [done..|congruence].
Qed.

(** [Transition] asks for no more than needed between two allow-lists: no wildcard rule,
    every deny rule takes away exactly the permissions of an exception that the target
    does not have, every allow rule adds exactly those the source does not have, and there
    is nothing to do exactly when the exceptions already agree. *)
Theorem Transition_minimal source target rs :
  wf_emu source → wf_emu target → defaultAllow source = false → defaultAllow target = false →
  Transition source target = Ok rs →
  (∀ r, r ∈ rs → rule_type r ≠ WildcardDevice ∧
     toSet (rule_perms r) =
       if rule_allow r
       then Z.ldiff (perm_of target (rule_meta r)) (perm_of source (rule_meta r))
       else Z.ldiff (perm_of source (rule_meta r)) (perm_of target (rule_meta r))) ∧
  (rs = [] ↔ rules_map (rules source) = rules_map (rules target)).
Proof.
  intros Ws Wt Hs Htd Ht. unfold Transition, IsBlacklist in Ht. rewrite Hs, Htd in Ht.
  simpl in Ht. injection Ht as <-.
  assert (∀ r, r ∈ droppedRules target (rules source) ++ gainedRules target (rules source) →
     rule_type r ≠ WildcardDevice ∧
     toSet (rule_perms r) = if rule_allow r
       then Z.ldiff (perm_of target (rule_meta r)) (perm_of source (rule_meta r))
       else Z.ldiff (perm_of source (rule_meta r)) (perm_of target (rule_meta r))) as Hall.
  { intros r [Hr|Hr]%elem_of_app.
    - apply dropped_elem in Hr as (-> & ? & ?); [|done]. by rewrite Htd.
    - apply gained_elem in Hr as (-> & ? & ?); [|done]. by rewrite Htd. }
  split; [done|]. split.
  - intros [Hd Hg]%app_eq_nil.
    destruct (dropped_effect source target source Ws ltac:(congruence)) as (_ & _ & Hp);
      [by rewrite Hd|].
    destruct (gained_reaches target Wt (rules source) source Ws ltac:(congruence) Hp)
      as (e' & He' & _ & Hm).
    rewrite Hg in He'. by injection He' as <-.
  - intros Heq.
    assert (∀ m, perm_of source m = perm_of target m) as Hp
      by (intros m; unfold perm_of, rules_get; by rewrite Heq).
    assert (∀ r, r ∉ droppedRules target (rules source) ++ gainedRules target (rules source)) as Hno.
    { intros r Hr. assert (toSet (rule_perms r) ≠ 0) as Hne.
      { apply elem_of_app in Hr as [Hr|Hr].
        - eapply batch_elem in Hr as (x & _ & _ & _ & _ & Hne & _); [done|].
          by apply dropped_emits.
        - eapply batch_elem in Hr as (x & _ & _ & _ & _ & Hne & _); [done|].
          by apply gained_emits. }
      apply Hne. destruct (Hall r Hr) as [_ ->]. rewrite Hp. case_match; apply Z.ldiff_diag. }
    destruct (_ ++ _) as [|r l] eqn:E; [done|]. destruct (Hno r). by left.
Qed.

(** C33. devices.list round trip: the exceptions of an allow-list, printed in any order with
    [CgroupString], one per line, are read back by [EmulatorFromList] as the same
    exceptions; the nil map is used exactly when there are none. *)
Theorem devices_list_roundtrip e L :
  printable_emu e → L ≡ₚ map_to_list (rules_map (rules e)) →
  ∃ e', EmulatorFromList (mk_reader (unlines (list_lines L)) None) = Ok e' ∧
        defaultAllow e' = false ∧ rules_map (rules e') = rules_map (rules e) ∧
        (rules e' = None ↔ rules_map (rules e) = ∅).
Proof. apply load_entries. Qed.

(** ** Concrete transitions *)

Definition c_any : deviceMeta := mk_meta CharDevice Wildcard Wildcard.
Definition c_null : deviceMeta := mk_meta CharDevice 1 3.
Definition b_sda : deviceMeta := mk_meta BlockDevice 8 0.

Definition demo_source : Emulator :=
  mk_Emulator false (Some {[c_any := "r"; c_null := "rw"]}).
Definition demo_target : Emulator :=
  mk_Emulator false (Some {[c_null := "w"; b_sda := "rwm"]}).
Definition demo_rules : list Rule :=
  [mk_Rule CharDevice (-1) (-1) "r" false; mk_Rule CharDevice 1 3 "r" false;
   mk_Rule BlockDevice 8 0 "rwm" true].

Lemma demo_no_hole : no_hole demo_source demo_target.
Proof.
  intros m pm Hpm _. assert (perm_of demo_target pm = 0) as ->; [|by rewrite Z.land_0_r].
  unfold perm_of, rules_get. simpl rules_map. rewrite lookup_insert, lookup_singleton.
  unfold partialMetas in Hpm. rewrite !elem_of_cons, elem_of_nil in Hpm.
  repeat case_decide; try done; subst; destruct_or! Hpm; try done; discriminate.
Qed.

Lemma Transition_reaches_target_witness :
  ∃ e', foldM Apply demo_source demo_rules = Ok e' ∧ defaultAllow e' = false ∧
        rules_map (rules e') = {[c_null := "w"; b_sda := "rwm"]}.
Proof.
  apply (Transition_reaches_target demo_source demo_target).
  - apply (bool_decide_unpack (wf_emu demo_source)). vm_compute. exact I.
  - apply (bool_decide_unpack (wf_emu demo_target)). vm_compute. exact I.
  - apply (bool_decide_unpack (numbers_ok demo_source)). vm_compute. exact I.
  - apply demo_no_hole.
  - vm_compute. reflexivity.
Defined.

Lemma Transition_minimal_witness :
  demo_rules = [] ↔ rules_map (rules demo_source) = rules_map (rules demo_target).
Proof.
  apply (Transition_minimal demo_source demo_target).
  - apply (bool_decide_unpack (wf_emu demo_source)). vm_compute. exact I.
  - apply (bool_decide_unpack (wf_emu demo_target)). vm_compute. exact I.
  - reflexivity.
  - reflexivity.
  - vm_compute. reflexivity.
Defined.

Lemma devices_list_roundtrip_witness :
  ∃ e', EmulatorFromList (mk_reader (unlines ["c 1:3 w"; "b 8:0 rwm"]) None) = Ok e' ∧
        defaultAllow e' = false ∧ rules_map (rules e') = {[c_null := "w"; b_sda := "rwm"]} ∧
        (rules e' = None ↔ ({[c_null := "w"; b_sda := "rwm"]} : gmap deviceMeta string) = ∅).
Proof.
  apply (devices_list_roundtrip demo_target [(c_null, "w"); (b_sda, "rwm")]).
  - apply (bool_decide_unpack (printable_emu demo_target)). vm_compute. exact I.
  - vm_compute. first [reflexivity | apply perm_swap].
Defined.
