(* ===== verification/DeviceCgroup.v ===== *)
(** * The devices controller of a cgroup

    Models [libcontainer/cgroups/fs/devices.go] (cgroup v1: [loadEmulator],
    [buildEmulator], [DevicesGroup.Set]) and the decisions of
    [libcontainer/cgroups/fs2/devices.go] (cgroup v2: [isRWM], [canSkipEBPFError]).
    The kernel's controller is an interface: [DevicesController] has the two files the
    code reads and writes, [DevicesControllerLaws] what the kernel documents about them. *)

From S2P Require Import Prelude GoStd DeviceRules DeviceEmulator.

(** ** The kernel's side *)

Class DevicesController (K : Type) := {
  (** [fscommon.ReadFile(path, "devices.list")] *)
  ctl_read : K → result string;
  (** [fscommon.WriteFile(path, file, data)] *)
  ctl_write : K → string → string → result K
}.

Definition rule_file (r : Rule) : string :=
  if rule_allow r then "devices.allow" else "devices.deny".

Definition allow_all_list : string := unlines ["a *:* rwm"].

(** [sim k e]: the controller [k] has the policy and exceptions of [e].  devices.list
    shows the exceptions of an allow-list, in any order, and a single line for a
    deny-list; a rule written to devices.allow or devices.deny that the emulator accepts
    is accepted and has the effect the emulator predicts. *)
Class DevicesControllerLaws (K : Type) `{DevicesController K} (sim : K → Emulator → Prop) := {
  law_read_allowlist k e :
    sim k e → defaultAllow e = false →
    ∃ L, L ≡ₚ map_to_list (rules_map (rules e)) ∧ ctl_read k = Ok (unlines (list_lines L));
  law_read_denylist k e :
    sim k e → defaultAllow e = true → ctl_read k = Ok allow_all_list;
  law_write k e r e' :
    sim k e → printable r → Apply e r = Ok e' →
    ∃ k', ctl_write k (rule_file r) (CgroupString r) = Ok k' ∧ sim k' e'
}.

(** ** cgroup v1 *)

(** The part of [configs.Cgroup] the controller reads. *)
Record DevCgroup := mk_DevCgroup { SkipDevices : bool; cg_devices : list Rule }.

Definition buildEmulator (rs : list Rule) : result Emulator :=
  foldM Apply (mk_Emulator false None) rs.

Section Set_.
Context {K : Type} `{DevicesController K}.

Definition loadEmulator (k : K) : result Emulator :=
  let! list := ctl_read k in EmulatorFromList (mk_reader list None).

(** The write loop of [Set]: the controller after the rules written so far, and the
    error that stopped the loop. *)
Fixpoint write_rules (k : K) (rs : list Rule) : K * result () :=
  match rs with
  | [] => (k, Ok ())
  | r :: rs' =>
      match ctl_write k (rule_file r) (CgroupString r) with
      | Ok k' => write_rules k' rs'
      | Err e => (k, Err e)
      | Panic s => (k, Panic s)
      end
  end.

Definition final_check (k : K) (target : Emulator) : result () :=
  let! currentAfter := loadEmulator k in
  (* reflect.DeepEqual tells the nil map from an empty one, as Leibniz equality does *)
  if negb (IsBlacklist target) && negb (bool_decide (currentAfter = target))
  then Err (ErrNew "resulting devices cgroup doesn't precisely match target")
  else if negb (Bool.eqb (IsBlacklist target) (IsBlacklist currentAfter))
  then Err (ErrNew "resulting devices cgroup doesn't match target mode")
  else Ok ().

(** [DevicesGroup.Set]; [userns] is [system.RunningInUserNS()], [skipCheck] is
    [testingSkipFinalCheck]. *)
Definition DevicesGroup_Set (userns skipCheck : bool) (k : K) (cgroup : DevCgroup) : K * result () :=
  if userns || SkipDevices cgroup then (k, Ok ())
  else
    match (let! current := loadEmulator k in
           let! target := buildEmulator (cg_devices cgroup) in
           let! transitionRules := Transition current target in
           Ok (target, transitionRules)) with
    | Err e => (k, Err e)
    | Panic s => (k, Panic s)
    | Ok (target, transitionRules) =>
        match write_rules k transitionRules with
        | (k', Ok _) => (k', if skipCheck then Ok () else final_check k' target)
        | (k', bad) => (k', bad)
        end
    end.
End Set_.

(** ** cgroup v2 *)

Fixpoint isRWM_loop (r w m : bool) (p : Permissions) : bool :=
  match p with
  | EmptyString => r && w && m
  | String c p' =>
      isRWM_loop (r || bool_decide (c = "r"%char)) (w || bool_decide (c = "w"%char))
                 (m || bool_decide (c = "m"%char)) p'
  end.

Definition isRWM (p : Permissions) : bool := isRWM_loop false false false p.

Definition canSkipEBPFError (userns : bool) (cgroup : DevCgroup) : bool :=
  userns || forallb (λ dev, negb (negb (rule_allow dev) || negb (isRWM (rule_perms dev))))
                    (cg_devices cgroup).

(** ** The emulator as a controller *)

(** A controller that keeps an emulator, renders it as devices.list and parses what is
    written to it: the laws hold of it. *)
#[export] Instance emulator_controller : DevicesController Emulator := {
  ctl_read e := Ok (if defaultAllow e then allow_all_list
                    else unlines (list_lines (map_to_list (rules_map (rules e)))));
  ctl_write e file data :=
    let! r := parseLine data in
    if bool_decide (file = "devices.allow") then emu_allow e r else emu_deny e r
}.

Lemma Apply_dispatch e r :
  CanCgroup (rule_type r) = true →
  Apply e r =
    (if rule_allow r then emu_allow e else emu_deny e)
      (if rule_type r =? WildcardDevice then None
       else Some (mk_deviceRule (rule_meta r) (rule_perms r))).
Proof.
  intros Hc. unfold Apply. rewrite Hc. simpl. fold (rule_meta r).
  by destruct (rule_type r =? WildcardDevice), (rule_allow r).
Qed.

#[export] Instance emulator_laws : DevicesControllerLaws Emulator eq.
Proof.
  split.
  - intros k e -> Hd. simpl. rewrite Hd. eauto.
  - intros k e -> Hd. simpl. by rewrite Hd.
  - intros k e r e' -> Hp Ha. exists e'. split; [|done]. simpl.
    rewrite parse_CgroupString by done. cbn [rbind].
    rewrite Apply_dispatch in Ha by apply Hp. unfold rule_file.
    by destruct (rule_allow r).
Qed.

(** ** Correctness of [Set] *)

Lemma printable_entry_of e x :
  printable_emu e → x ∈ orderedEntries (rules e) →
  number_ok (major (meta x)) ∧ number_ok (minor (meta x)) ∧ CanCgroup (node (meta x)) = true.
Proof.
  intros [We Hn] Hx. pose proof (wf_orderedEntries _ _ We Hx) as Hwf.
  destruct x as [m p]. apply orderedEntries_elem in Hx. destruct (Hn m p Hx).
  split_and!; [done..|]. by eapply wf_entry_cgroup.
Qed.

Lemma Transition_printable source target rs :
  printable_emu source → printable_emu target →
  Transition source target = Ok rs → Forall printable rs.
Proof.
  intros Hs Ht [= <-]. apply Forall_app_2; [|apply Forall_app_2].
  - case_match; [|by apply Forall_nil]. apply Forall_singleton. by repeat split; left.
  - destruct (IsBlacklist source || _).
    { by apply Forall_nil. }
    apply Forall_forall. intros r (x & Hx & Hr)%list_elem_of_omap. cbv beta zeta in Hr.
    destruct (printable_entry_of _ _ Hs Hx) as (? & ? & ?).
    destruct (IsEmpty _) eqn:E; [done|]. injection Hr as <-. unfold printable; simpl. split_and!; auto with go.
  - apply Forall_forall. intros r (x & Hx & Hr)%list_elem_of_omap. cbv beta zeta in Hr.
    destruct (printable_entry_of _ _ Ht Hx) as (? & ? & ?).
    destruct (IsEmpty _) eqn:E; [done|]. injection Hr as <-. unfold printable; simpl. split_and!; auto with go.
Qed.

Lemma printable_perms r : printable r → toSet (rule_perms r) ≠ 0.
Proof.
  intros (_ & _ & _ & Hv & He). rewrite <- valid_empty by done. by rewrite He.
Qed.

(** A rule with printable numbers keeps a printable emulator printable. *)
Lemma Apply_printable e r e' :
  printable r → printable_emu e → Apply e r = Ok e' → printable_emu e'.
Proof.
  intros Hr [We Hn] Ha.
  assert (wf_emu e') as We' by (eapply Apply_wf; eauto using printable_perms).
  split; [done|]. intros m p Hm.
  pose proof (Apply_ok_effect _ _ _ Ha) as Heff. unfold apply_effect in Heff.
  case_match. { subst. simpl in Hm. by rewrite lookup_empty in Hm. }
  destruct Heff as [_ Heff]. specialize (Heff m).
  case_decide as Hmeta; [subst; by destruct Hr as (_ & ? & ? & _)|].
  assert (rules_map (rules e) !! m = Some p) as Hold; [|by eapply Hn].
  assert (toSet p ≠ 0) as Hp.
  { destruct (We' m p Hm) as (Hv & He & _). rewrite <- valid_empty by done. by rewrite He. }
  unfold perm_of, rules_get in Heff. rewrite Hm in Heff. simpl in Heff.
  destruct (rules_map (rules e) !! m) as [q|] eqn:Hq; simpl in Heff; [|done].
  f_equal. apply valid_perms_eq; [apply (We m q Hq)|apply (We' m p Hm)|done].
Qed.

Lemma buildEmulator_printable rs target :
  Forall printable rs → buildEmulator rs = Ok target → printable_emu target.
Proof.
  intros Hrs. apply (foldM_inv Apply printable_emu).
  - intros s r s' Hr. rewrite Forall_forall in Hrs. by apply Apply_printable, Hrs.
  - split; apply map_Forall_empty.
Qed.

(** [Transition] reads its source only through the policy and the exceptions. *)
Lemma Transition_source_ext e1 e2 target :
  defaultAllow e1 = defaultAllow e2 → rules_map (rules e1) = rules_map (rules e2) →
  Transition e1 target = Transition e2 target.
Proof.
  intros Hd Hm. unfold Transition, IsBlacklist. rewrite Hd. case_match; [done|].
  assert (∀ m, rules_get (rules e1) m = rules_get (rules e2) m) as Hg
    by (intros; unfold rules_get; by rewrite Hm).
  assert (orderedEntries (rules e1) = orderedEntries (rules e2)) as Ho
    by (unfold orderedEntries; by rewrite Hm).
  unfold droppedRules, gainedRules. rewrite Ho.
  do 3 f_equal. apply list_omap_ext, Forall2_same_length_lookup_2; [done|].
  intros i x y Hx Hy. simplify_eq. by rewrite Hg.
Qed.

(** The rules of a deny-list source do not depend on its exceptions. *)
Lemma Transition_denylist e target :
  defaultAllow e = true → Transition e target = Transition (mk_Emulator true None) target.
Proof. intros Hd. unfold Transition, IsBlacklist. by rewrite Hd. Qed.

Section SetProof.
Context {K : Type} `{HL : DevicesControllerLaws K sim}.

Lemma write_rules_sim k e rs e' :
  sim k e → Forall printable rs → foldM Apply e rs = Ok e' →
  ∃ k', write_rules k rs = (k', Ok ()) ∧ sim k' e'.
Proof.
  revert k e; induction rs as [|r rs IH]; intros k e Hsim Hp Hf; simpl in *; [naive_solver|].
  apply Forall_cons in Hp as [Hr Hp]. apply rbind_ok in Hf as (e1 & H1 & H2).
  destruct (law_write k e r e1 Hsim Hr H1) as (k1 & -> & Hsim1). by eapply IH.
Qed.

Lemma loadEmulator_sim k e :
  sim k e → printable_emu e →
  ∃ cur, loadEmulator k = Ok cur ∧ defaultAllow cur = defaultAllow e ∧
    if defaultAllow e then rules cur = None
    else rules_map (rules cur) = rules_map (rules e) ∧
         (rules cur = None ↔ rules_map (rules e) = ∅).
Proof.
  intros Hsim Hp. unfold loadEmulator. destruct (defaultAllow e) eqn:Hd.
  - rewrite (law_read_denylist _ _ Hsim Hd). by eexists.
  - destruct (law_read_allowlist _ _ Hsim Hd) as (L & Hperm & ->). cbn [rbind].
    destruct (load_entries e L Hp Hperm) as (cur & ? & ? & ? & ?). eauto 10.
Qed.

Lemma final_check_sim k e target :
  sim k e → printable_emu e → defaultAllow e = defaultAllow target →
  rules_map (rules e) = rules_map (rules target) →
  is_ok (final_check k target) =
    (defaultAllow target || negb (bool_decide (rules target = Some ∅))).
Proof.
  intros Hsim Hp Hd Hm. destruct (loadEmulator_sim k e Hsim Hp) as (cur & Hl & Hdc & Hc).
  unfold final_check. rewrite Hl. cbn [rbind]. unfold IsBlacklist. rewrite Hdc, Hd in *.
  destruct target as [[] rt]; simpl in *; [done|]. destruct Hc as [Hcm Hnil].
  rewrite Hm in Hcm, Hnil. destruct cur as [d rc]; simpl in *; subst d.
  destruct (bool_decide (rt = Some ∅)) eqn:E; bool_to_prop; simpl.
  - subst rt. simpl in *. rewrite (proj2 Hnil eq_refl). done.
  - assert (rc = rt) as ->; [|by rewrite bool_decide_eq_true_2].
    destruct rc as [mc|], rt as [mt|]; simpl in *; try congruence.
    + rewrite Hcm in *. pose proof (proj2 Hnil eq_refl). done.
Qed.
End SetProof.

Section SetTheorems.
Context {K : Type} `{HL : DevicesControllerLaws K sim}.

(** What [Set] does to a controller that follows the kernel's rules: it ends in the
    requested state, and reports an error exactly when the requested allow-list has an
    empty map of exceptions that is not the nil map. *)
Lemma Set_run k e devs target :
  sim k e → printable_emu e → Forall printable devs →
  buildEmulator devs = Ok target →
  (defaultAllow e = false → defaultAllow target = false → no_hole e target) →
  ∃ k' e' r, DevicesGroup_Set false false k (mk_DevCgroup false devs) = (k', r) ∧
    sim k' e' ∧ defaultAllow e' = defaultAllow target ∧
    rules_map (rules e') = rules_map (rules target) ∧
    is_ok r = (defaultAllow target || negb (bool_decide (rules target = Some ∅))).
Proof.
  intros Hsim Hpe Hdevs Hb Hhole.
  pose proof (buildEmulator_printable _ _ Hdevs Hb) as Hpt.
  destruct (loadEmulator_sim k e Hsim Hpe) as (cur & Hl & Hdc & Hc).
  assert (Transition cur target = Transition e target) as Htr.
  { destruct (defaultAllow e) eqn:Hd.
    - by rewrite (Transition_denylist cur), (Transition_denylist e).
    - apply Transition_source_ext; [congruence|apply Hc]. }
  destruct (Transition e target) as [rs|?|?] eqn:Hrs; [|done..].
  destruct (Transition_run e target rs (proj1 Hpe) (proj1 Hpt) Hrs) as (e' & Hf & Hd' & Hm').
  { intros Hd1 Hd2. apply dropped_succeeds; [apply Hpe| |by apply Hhole|congruence].
    intros m p Hm. destruct Hpe as [_ Hn]. destruct (Hn m p Hm) as [H1 H2].
    unfold number_ok, Wildcard in *. lia. }
  pose proof (Transition_printable e target rs Hpe Hpt Hrs) as Hprs.
  destruct (write_rules_sim k e rs e' Hsim Hprs Hf) as (k' & Hw & Hsim').
  exists k', e', (final_check k' target). split_and!; [|done..|].
  - unfold DevicesGroup_Set. cbn [orb SkipDevices cg_devices]. rewrite Hl. cbn [rbind]. rewrite Hb. cbn [rbind]. rewrite Htr. cbn [rbind].
    by rewrite Hw.
  - apply (final_check_sim k' e'); [done| |done|done].
    split; rewrite ?Hm'; [unfold wf_emu; rewrite Hm'; apply Hpt|apply Hpt].
Qed.

(** C22. Setting device rules on a cgroup-v1 controller: for any controller that follows the
    kernel's documented behaviour and any current state (also a deny-list, whose exceptions
    devices.list does not show), [Set] returns no error and leaves the controller with
    exactly the default policy and exceptions of the rules, under these conditions: the
    rules are printable and their emulation succeeds; they do not amount to an allow-list
    from which every exception was removed again, see [Set_rejects_emptied_rules]; and
    from one allow-list to another no exception has to be dropped that lies under a
    wildcard exception which is kept ([no_hole]). *)
Theorem Set_installs_rules k e devs target :
  sim k e → printable_emu e → Forall printable devs →
  buildEmulator devs = Ok target → rules target ≠ Some ∅ →
  (defaultAllow e = false → defaultAllow target = false → no_hole e target) →
  ∃ k' e', DevicesGroup_Set false false k (mk_DevCgroup false devs) = (k', Ok ()) ∧
    sim k' e' ∧ defaultAllow e' = defaultAllow target ∧
    rules_map (rules e') = rules_map (rules target).
Proof.
  intros Hsim Hpe Hdevs Hb Hne Hhole.
  destruct (Set_run k e devs target Hsim Hpe Hdevs Hb Hhole) as (k' & e' & r & -> & ? & ? & ? & Hr).
  rewrite (bool_decide_eq_false_2 _ Hne), orb_true_r in Hr.
  destruct r as [[]|?|?]; [|done..]. eauto 10.
Qed.

(** The exception to the previous property: when the rules amount to an allow-list
    whose exceptions were all removed again (for instance allow, then deny, of one
    device), [Set] brings the controller to exactly the requested, empty, allow-list and
    still returns an error, because the final check compares the nil map that
    [EmulatorFromList] builds from an empty devices.list with the emulator's empty,
    non-nil map. *)
Theorem Set_rejects_emptied_rules k e devs target :
  sim k e → printable_emu e → Forall printable devs →
  buildEmulator devs = Ok target → rules target = Some ∅ → defaultAllow target = false →
  (defaultAllow e = false → no_hole e target) →
  ∃ k' e' r, DevicesGroup_Set false false k (mk_DevCgroup false devs) = (k', r) ∧
    is_ok r = false ∧ sim k' e' ∧ defaultAllow e' = false ∧ rules_map (rules e') = ∅.
Proof.
  intros Hsim Hpe Hdevs Hb Hempty Hd Hhole.
  destruct (Set_run k e devs target Hsim Hpe Hdevs Hb) as (k' & e' & r & -> & ? & Hd' & Hm & Hr);
    [by auto|].
  rewrite Hempty in Hm, Hr. rewrite Hd in Hd', Hr.
  exists k', e', r. split_and!; try done.
Qed.
End SetTheorems.

Definition bits_of (r w m : bool) : Z :=
  (if r then 1 else 0) + (if w then 2 else 0) + (if m then 4 else 0).

Lemma isRWM_loop_bits r w m p :
  isRWM_loop r w m p = (toSet_loop (bits_of r w m) p =? 7).
Proof.
  revert r w m; induction p as [|c p IH]; intros r w m; simpl.
  - by destruct r, w, m.
  - rewrite IH. do 2 f_equal. unfold perm_bit.
    repeat case_decide; subst; repeat case_bool_decide; try congruence; by destruct r, w, m.
Qed.

(** The decision to ignore an eBPF load error outside a user namespace is taken
    exactly when every rule allows and its permissions contain all of r, w and m. *)
Theorem canSkipEBPFError_spec cg :
  canSkipEBPFError false cg = true ↔
  ∀ r, r ∈ cg_devices cg → rule_allow r = true ∧ toSet (rule_perms r) = 7.
Proof.
  unfold canSkipEBPFError. simpl. rewrite forallb_forall. setoid_rewrite list_elem_of_In.
  apply forall_proper. intros r. apply imp_iff_compat_l.
  rewrite negb_true_iff, orb_false_iff, !negb_false_iff. unfold isRWM, toSet.
  rewrite isRWM_loop_bits, Z.eqb_eq. done.
Qed.

(** ** Concrete runs, with the emulator as the controller *)

Definition demo_devs : list Rule :=
  [mk_Rule WildcardDevice (-1) (-1) "rwm" false; mk_Rule CharDevice 1 3 "w" true;
   mk_Rule BlockDevice 8 0 "rwm" true].

Definition emptied_devs : list Rule :=
  [mk_Rule CharDevice 1 3 "rwm" true; mk_Rule CharDevice 1 3 "rwm" false].

Lemma Set_installs_rules_witness :
  ∃ k' e', DevicesGroup_Set false false demo_source (mk_DevCgroup false demo_devs) = (k', Ok ()) ∧
    k' = e' ∧ defaultAllow e' = false ∧ rules_map (rules e') = rules_map (rules demo_target).
Proof.
  apply (Set_installs_rules (sim := eq) demo_source demo_source demo_devs demo_target).
  - reflexivity.
  - apply (bool_decide_unpack (printable_emu demo_source)). vm_compute. exact I.
  - apply (bool_decide_unpack (Forall printable demo_devs)). vm_compute. exact I.
  - vm_compute. reflexivity.
  - apply (bool_decide_unpack (rules demo_target ≠ Some ∅)). vm_compute. exact I.
  - intros _ _. apply demo_no_hole.
Defined.

Lemma Set_rejects_emptied_rules_witness :
  ∃ k' e' r, DevicesGroup_Set false false demo_target (mk_DevCgroup false emptied_devs) = (k', r) ∧
    is_ok r = false ∧ k' = e' ∧ defaultAllow e' = false ∧ rules_map (rules e') = ∅.
Proof.
  apply (Set_rejects_emptied_rules (sim := eq) demo_target demo_target emptied_devs
           (mk_Emulator false (Some ∅))).
  - reflexivity.
  - apply (bool_decide_unpack (printable_emu demo_target)). vm_compute. exact I.
  - apply (bool_decide_unpack (Forall printable emptied_devs)). vm_compute. exact I.
  - vm_compute. reflexivity.
  - reflexivity.
  - reflexivity.
  - intros _ m pm _ _. assert (perm_of (mk_Emulator false (Some ∅)) pm = 0) as -> by done.
    by rewrite Z.land_0_r.
Defined.
