(* ===== verification/DeviceFilter.v ===== *)
(** * The eBPF device filter of cgroup v2

    Models [libcontainer/cgroups/ebpf/devicefilter/devicefilter.go]: the generation
    of the filter program from the OCI device rules, and its execution. The
    instruction set is the kernel's, so it is an interface: [EbpfISA] states the
    documented effect of the seven instruction forms the generator emits, the
    theorems hold for every implementation of it, and [ebpf_reference] is one. *)

From Stdlib Require Import Btauto.
From S2P Require Import Prelude GoStd DeviceRules.

(** ** Instructions, as the builders of [github.com/cilium/ebpf/asm] make them *)

Inductive Register := R0 | R1 | R2 | R3 | R4 | R5.

#[export] Instance Register_eq_dec : EqDecision Register.
Proof. solve_decision. Defined.

Inductive opcode :=
  | LoadMemWord (dst src : Register) (offset : Z)
  | AndImm32 (dst : Register) (value : Z)
  | RShImm32 (dst : Register) (value : Z)
  | MovImm32 (dst : Register) (value : Z)
  | MovReg32 (dst src : Register)
  | JNEImm (dst : Register) (value : Z) (label : string)
  | JNEReg (dst src : Register) (label : string)
  | Return.

Record instruction := mk_instruction { ins_op : opcode; ins_symbol : string }.

Definition ins (o : opcode) : instruction := {| ins_op := o; ins_symbol := "" |}.

(** [Instruction.Sym]. *)
Definition Sym (i : instruction) (name : string) : instruction :=
  {| ins_op := ins_op i; ins_symbol := name |}.

(** ** The generator *)

Definition BPF_DEVCG_ACC_MKNOD : Z := 1.
Definition BPF_DEVCG_ACC_READ : Z := 2.
Definition BPF_DEVCG_ACC_WRITE : Z := 4.
Definition BPF_DEVCG_DEV_BLOCK : Z := 1.
Definition BPF_DEVCG_DEV_CHAR : Z := 2.
Definition MaxUint32 : Z := 4294967295.

Record program := mk_program {
  insts : list instruction;
  hasWildCard : bool;
  blockID : Z
}.

Definition program_init : list instruction :=
  [ ins (LoadMemWord R2 R1 0); ins (AndImm32 R2 0xFFFF);
    ins (LoadMemWord R3 R1 0); ins (RShImm32 R3 16);
    ins (LoadMemWord R4 R1 4);
    ins (LoadMemWord R5 R1 8) ].

Definition acceptBlock (accept : bool) : list instruction :=
  let v := if accept then 1 else 0 in
  [ ins (MovImm32 R0 v); ins Return ].

(** [switch dev.Type]: [None] is [hasType = false]. *)
Definition bpf_type (t : DevType) : result (option Z) :=
  if t =? CharDevice then Ok (Some BPF_DEVCG_DEV_CHAR)
  else if t =? BlockDevice then Ok (Some BPF_DEVCG_DEV_BLOCK)
  else if t =? WildcardDevice then Ok None
  else Err (ErrNew "invalid Type").

(** The loop over [dev.Permissions]. *)
Fixpoint bpf_access (access : Z) (perms : Permissions) : result Z :=
  match perms with
  | EmptyString => Ok access
  | String r rest =>
      if decide (r = "r"%char) then bpf_access (Z.lor access BPF_DEVCG_ACC_READ) rest
      else if decide (r = "w"%char) then bpf_access (Z.lor access BPF_DEVCG_ACC_WRITE) rest
      else if decide (r = "m"%char) then bpf_access (Z.lor access BPF_DEVCG_ACC_MKNOD) rest
      else Err (ErrNew "unknown device access")
  end.

Definition all_access : Z :=
  Z.lor (Z.lor BPF_DEVCG_ACC_READ BPF_DEVCG_ACC_WRITE) BPF_DEVCG_ACC_MKNOD.

Definition block_sym (id : Z) : string := "block-" +:+ Itoa id.

(** [p.insts[prevBlockLastIdx+1] = p.insts[prevBlockLastIdx+1].Sym(blockSym)]. *)
Definition label_first (name : string) (l : list instruction) : list instruction :=
  match l with [] => [] | i :: l' => Sym i name :: l' end.

(** The conditional jumps of one rule. *)
Definition rule_tests (typ : option Z) (access major minor : Z) (next : string)
  : list instruction :=
  match typ with Some t => [ ins (JNEImm R2 t next) ] | None => [] end ++
  (if negb (access =? all_access)
   then [ ins (MovReg32 R1 R3); ins (AndImm32 R1 access); ins (JNEReg R1 R3 next) ] else []) ++
  (if 0 <=? major then [ ins (JNEImm R4 (i32 major) next) ] else []) ++
  (if 0 <=? minor then [ ins (JNEImm R5 (i32 minor) next) ] else []).

Definition appendDevice (p : program) (dev : Rule) : result program :=
  if blockID p <? 0 then Err (ErrNew "the program is finalized")
  else if hasWildCard p then Ok p
  else
    let! typ := bpf_type (rule_type dev) in
    if MaxUint32 <? rule_major dev then Err (ErrNew "invalid major")
    else if MaxUint32 <? rule_minor dev then Err (ErrNew "invalid minor")
    else
      let! access := bpf_access 0 (rule_perms dev) in
      let tests := rule_tests typ access (rule_major dev) (rule_minor dev)
                     (block_sym (blockID p + 1)) in
      let wild := bool_decide (typ = None) && (access =? all_access)
                  && negb (0 <=? rule_major dev) && negb (0 <=? rule_minor dev) in
      Ok {| insts := insts p ++ label_first (block_sym (blockID p))
                                  (tests ++ acceptBlock (rule_allow dev));
            hasWildCard := wild;
            blockID := blockID p + 1 |}.

Definition finalize (p : program) : program :=
  if hasWildCard p then p
  else {| insts := insts p ++ [ Sym (ins (MovImm32 R0 0)) (block_sym (blockID p));
                                ins Return ];
          hasWildCard := hasWildCard p;
          blockID := -1 |}.

Definition license : string := "Apache".

Definition DeviceFilter (devices : list Rule) : result (list instruction * string) :=
  let p := {| insts := program_init; hasWildCard := false; blockID := 0 |} in
  let! p := foldM appendDevice p (rev devices) in
  Ok (insts (finalize p), license).

(** ** Execution *)

Abbreviation regs := (Register → Z) (only parsing).

Definition set_reg (r : Register) (v : Z) (ρ : regs) : regs :=
  λ r', if decide (r' = r) then v else ρ r'.

(** [struct bpf_cgroup_dev_ctx], three u32. *)
Record dev_ctx := mk_dev_ctx { access_type : Z; ctx_major : Z; ctx_minor : Z }.

Definition ctx_ok (c : dev_ctx) : Prop :=
  (0 ≤ access_type c < 2 ^ 32) ∧ (0 ≤ ctx_major c < 2 ^ 32) ∧ (0 ≤ ctx_minor c < 2 ^ 32).

(** What one instruction does: go on, jump to a label, or leave the program. *)
Inductive flow :=
  | Next (ρ : regs)
  | Goto (label : string) (ρ : regs)
  | Exit (r0 : Z).

(** The eBPF instruction set, for the forms the generator uses: 32-bit ALU
    instructions work on the low half of a register and clear the high half; the
    immediate of a 64-bit conditional jump is sign-extended. [ctx_addr] is the
    value of R1 on entry. *)
Class EbpfISA := {
  isa_step : opcode → dev_ctx → regs → flow;
  ctx_addr : Z;
  isa_LoadMem : ∀ dst src off c ρ v, ρ src = ctx_addr →
    (off, v) ∈ [(0, access_type c); (4, ctx_major c); (8, ctx_minor c)] →
    isa_step (LoadMemWord dst src off) c ρ = Next (set_reg dst (u32 v) ρ);
  isa_And : ∀ dst v c ρ,
    isa_step (AndImm32 dst v) c ρ = Next (set_reg dst (Z.land (u32 (ρ dst)) (u32 v)) ρ);
  isa_RSh : ∀ dst v c ρ, 0 ≤ v < 32 →
    isa_step (RShImm32 dst v) c ρ = Next (set_reg dst (Z.shiftr (u32 (ρ dst)) v) ρ);
  isa_MovImm : ∀ dst v c ρ,
    isa_step (MovImm32 dst v) c ρ = Next (set_reg dst (u32 v) ρ);
  isa_MovReg : ∀ dst src c ρ,
    isa_step (MovReg32 dst src) c ρ = Next (set_reg dst (u32 (ρ src)) ρ);
  isa_JNEImm : ∀ dst v l c ρ,
    isa_step (JNEImm dst v l) c ρ = if ρ dst =? u64 v then Next ρ else Goto l ρ;
  isa_JNEReg : ∀ dst src l c ρ,
    isa_step (JNEReg dst src l) c ρ = if ρ dst =? ρ src then Next ρ else Goto l ρ;
  isa_Return : ∀ c ρ, isa_step Return c ρ = Exit (ρ R0)
}.

(** The index of the instruction that carries a symbol. *)
Fixpoint find_label (l : list instruction) (name : string) : option nat :=
  match l with
  | [] => None
  | i :: l' => if decide (ins_symbol i = name) then Some 0%nat
               else S <$> find_label l' name
  end.

Fixpoint run `{EbpfISA} (p : list instruction) (c : dev_ctx) (fuel pc : nat) (ρ : regs)
  : option Z :=
  match fuel with
  | O => None
  | S fuel' =>
      i ← p !! pc;
      match isa_step (ins_op i) c ρ with
      | Next ρ' => run p c fuel' (S pc) ρ'
      | Goto l ρ' => pc' ← find_label p l; run p c fuel' pc' ρ'
      | Exit v => Some v
      end
  end.

(** A reference implementation of the instruction set. *)
Definition ref_step (o : opcode) (c : dev_ctx) (ρ : regs) : flow :=
  match o with
  | LoadMemWord dst src off =>
      let v := if off =? 0 then access_type c
               else if off =? 4 then ctx_major c else ctx_minor c in
      Next (set_reg dst (u32 v) ρ)
  | AndImm32 dst v => Next (set_reg dst (Z.land (u32 (ρ dst)) (u32 v)) ρ)
  | RShImm32 dst v => Next (set_reg dst (Z.shiftr (u32 (ρ dst)) v) ρ)
  | MovImm32 dst v => Next (set_reg dst (u32 v) ρ)
  | MovReg32 dst src => Next (set_reg dst (u32 (ρ src)) ρ)
  | JNEImm dst v l => if ρ dst =? u64 v then Next ρ else Goto l ρ
  | JNEReg dst src l => if ρ dst =? ρ src then Next ρ else Goto l ρ
  | Return => Exit (ρ R0)
  end.

#[export] Instance ebpf_reference : EbpfISA.
Proof.
  refine {| isa_step := ref_step; ctx_addr := 4096 |}; try done.
  intros dst src off c ρ v _ Hin; unfold ref_step; set_unfold.
  destruct Hin as [?|[?|[?|[]]]]; by simplify_eq/=.
Defined.

(** ** Specification: the last rule that matches a device decides *)

Definition ctx_type (c : dev_ctx) : Z := Z.land (access_type c) 0xFFFF.
Definition ctx_access (c : dev_ctx) : Z := Z.shiftr (access_type c) 16.

Definition access_of (perms : Permissions) : Z :=
  Z.lor (Z.lor (if contains_char "r" perms then BPF_DEVCG_ACC_READ else 0)
               (if contains_char "w" perms then BPF_DEVCG_ACC_WRITE else 0))
        (if contains_char "m" perms then BPF_DEVCG_ACC_MKNOD else 0).

(** A number at least [2^31] is compared after sign extension, so it matches no
    device; a negative number matches every device. *)
Definition number_matches (want have : Z) : bool :=
  (want <? 0) || ((want =? have) && (want <? 2 ^ 31)).

Definition type_matches (t : DevType) (have : Z) : bool :=
  (t =? WildcardDevice) || ((t =? CharDevice) && (have =? BPF_DEVCG_DEV_CHAR))
  || ((t =? BlockDevice) && (have =? BPF_DEVCG_DEV_BLOCK)).

(** A rule with all accesses matches whatever the access bits are. *)
Definition access_matches (perms : Permissions) (have : Z) : bool :=
  (access_of perms =? all_access) || (Z.land have (access_of perms) =? have).

Definition rule_matches (c : dev_ctx) (r : Rule) : bool :=
  type_matches (rule_type r) (ctx_type c) && access_matches (rule_perms r) (ctx_access c)
  && number_matches (rule_major r) (ctx_major c)
  && number_matches (rule_minor r) (ctx_minor c).

Fixpoint decision (c : dev_ctx) (newest_first : list Rule) : bool :=
  match newest_first with
  | [] => false
  | r :: rs => if rule_matches c r then rule_allow r else decision c rs
  end.

(** What the generator accepts. *)
Definition rule_ok (r : Rule) : bool :=
  ((rule_type r =? CharDevice) || (rule_type r =? BlockDevice)
   || (rule_type r =? WildcardDevice))
  && (rule_major r <=? MaxUint32) && (rule_minor r <=? MaxUint32)
  && is_ok (bpf_access 0 (rule_perms r)).

(** The rules the generator looks at: up to the first one that matches everything. *)
Definition is_wild (r : Rule) : bool :=
  (rule_type r =? WildcardDevice) && (access_of (rule_perms r) =? all_access)
  && (rule_major r <? 0) && (rule_minor r <? 0).

Fixpoint processed (newest_first : list Rule) : list Rule :=
  match newest_first with
  | [] => []
  | r :: rs => r :: if is_wild r then [] else processed rs
  end.

(** ** The shape of the program *)

Definition type_code (t : DevType) : option Z :=
  if t =? CharDevice then Some BPF_DEVCG_DEV_CHAR
  else if t =? BlockDevice then Some BPF_DEVCG_DEV_BLOCK else None.

Definition rule_code (k : Z) (r : Rule) : list instruction :=
  rule_tests (type_code (rule_type r)) (access_of (rule_perms r)) (rule_major r)
             (rule_minor r) (block_sym (k + 1)) ++ acceptBlock (rule_allow r).

Fixpoint blocks (k : Z) (rs : list Rule) : list instruction :=
  match rs with
  | [] => [ Sym (ins (MovImm32 R0 0)) (block_sym k); ins Return ]
  | r :: rs' => label_first (block_sym k) (rule_code k r) ++
                if is_wild r then [] else blocks (k + 1) rs'
  end.

Lemma bpf_access_spec perms a :
  bpf_access a perms = Err (ErrNew "unknown device access") ∨
  bpf_access a perms = Ok (Z.lor a (access_of perms)).
Proof.
  revert a; induction perms as [|ch perms IH]; intros a; simpl.
  { right. by rewrite Z.lor_0_r. }
  assert (∀ b, Z.lor b (access_of perms) = Z.lor a (access_of (String ch perms)) →
    bpf_access b perms = Err (ErrNew "unknown device access") ∨
    bpf_access b perms = Ok (Z.lor a (access_of (String ch perms)))) as Hb.
  { intros b <-. apply IH. }
  clear IH; repeat case_decide; subst; [apply Hb..|by left];
    unfold access_of; simpl; rewrite ?bool_decide_eq_true_2 by done;
    rewrite ?bool_decide_eq_false_2 by done; simpl;
    repeat case_match; apply Z.bits_inj'; intros i Hi; rewrite !Z.lor_spec, ?Z.bits_0;
    btauto.
Qed.

Lemma rule_ok_access r :
  rule_ok r = true → bpf_access 0 (rule_perms r) = Ok (access_of (rule_perms r)).
Proof.
  unfold rule_ok; intros H; bool_to_prop.
  destruct (bpf_access_spec (rule_perms r) 0) as [E|E]; rewrite E in *; [done|].
  by rewrite Z.lor_0_l.
Qed.

Lemma rule_ok_type r : rule_ok r = true →
  rule_type r = CharDevice ∨ rule_type r = BlockDevice ∨ rule_type r = WildcardDevice.
Proof. unfold rule_ok; rewrite !andb_true_iff, !orb_true_iff, !Z.eqb_eq. tauto. Qed.

Lemma bpf_type_code r : rule_ok r = true → bpf_type (rule_type r) = Ok (type_code (rule_type r)).
Proof. by intros [->|[->| ->]]%rule_ok_type. Qed.

Lemma type_code_None r : rule_ok r = true →
  bool_decide (type_code (rule_type r) = None) = (rule_type r =? WildcardDevice).
Proof. by intros [->|[->| ->]]%rule_ok_type. Qed.

(** One accepted rule adds its block; one that is not accepted is an error. *)
Lemma appendDevice_ok p r : 0 ≤ blockID p → hasWildCard p = false → rule_ok r = true →
  appendDevice p r = Ok {| insts := insts p ++ label_first (block_sym (blockID p))
                                                 (rule_code (blockID p) r);
                           hasWildCard := is_wild r; blockID := blockID p + 1 |}.
Proof.
  intros Hid Hw Hr. unfold appendDevice.
  rewrite (proj2 (Z.ltb_ge (blockID p) 0) Hid), Hw, (bpf_type_code r) by done; simpl.
  pose proof (rule_ok_access r Hr) as Ha. pose proof (type_code_None r Hr) as Ht.
  unfold rule_ok in Hr; bool_to_prop.
  rewrite (proj2 (Z.ltb_ge _ _)) by lia. rewrite (proj2 (Z.ltb_ge _ _)) by lia.
  rewrite Ha; simpl. unfold is_wild, rule_code. rewrite Ht.
  by rewrite !(Z.leb_antisym _ 0), !negb_involutive.
Qed.

Lemma appendDevice_bad p r :
  0 ≤ blockID p → hasWildCard p = false → rule_ok r = false → ∃ e, appendDevice p r = Err e.
Proof.
  intros Hid Hw Hr. unfold appendDevice.
  rewrite (proj2 (Z.ltb_ge (blockID p) 0) Hid), Hw.
  unfold bpf_type, rule_ok in *.
  destruct (rule_type r =? CharDevice), (rule_type r =? BlockDevice),
    (rule_type r =? WildcardDevice); simpl in *; try (by eexists).
  all: case_match; [by eexists|]; case_match; [by eexists|]; bool_to_prop.
  all: destruct (bpf_access_spec (rule_perms r) 0) as [E|E]; rewrite E in *; simpl in *;
    [by eexists|].
  all: exfalso; rewrite ?andb_true_r, andb_false_iff, !Z.leb_gt in Hr; lia.
Qed.

Lemma foldM_wild p rs : 0 ≤ blockID p → hasWildCard p = true → foldM appendDevice p rs = Ok p.
Proof.
  intros Hid Hw; induction rs as [|r rs IH]; [done|]. simpl. unfold appendDevice at 1.
  by rewrite (proj2 (Z.ltb_ge (blockID p) 0) Hid), Hw.
Qed.

Lemma foldM_appendDevice rs : ∀ p, 0 ≤ blockID p → hasWildCard p = false →
  if forallb rule_ok (processed rs)
  then ∃ p', foldM appendDevice p rs = Ok p' ∧
             insts (finalize p') = insts p ++ blocks (blockID p) rs
  else ∃ e, foldM appendDevice p rs = Err e.
Proof.
  induction rs as [|r rs IH]; intros p Hid Hw; simpl.
  { exists p; split; [done|]. unfold finalize; by rewrite Hw. }
  destruct (rule_ok r) eqn:Hr; simpl.
  2: { destruct (appendDevice_bad p r) as [e ->]; eauto. }
  rewrite appendDevice_ok by done; simpl.
  destruct (is_wild r) eqn:Hwild; simpl.
  - eexists; split; [apply foldM_wild; simpl; [lia|done]|].
    unfold finalize; simpl. by rewrite app_nil_r.
  - match goal with |- context [foldM _ ?q rs] => specialize (IH q) end.
    cbn [insts hasWildCard blockID] in IH.
    specialize (IH ltac:(lia) eq_refl). case_match; [|done].
    destruct IH as (p' & -> & IH). exists p'. by rewrite IH, <- app_assoc.
Qed.

Lemma DeviceFilter_shape rules :
  if forallb rule_ok (processed (rev rules))
  then DeviceFilter rules = Ok (program_init ++ blocks 0 (rev rules), license)
  else ∃ e, DeviceFilter rules = Err e.
Proof.
  unfold DeviceFilter.
  pose proof (foldM_appendDevice (rev rules)
    {| insts := program_init; hasWildCard := false; blockID := 0 |}) as H.
  cbn [insts hasWildCard blockID] in H. specialize (H ltac:(lia) eq_refl).
  case_match.
  - destruct H as (p' & -> & Hp'). simpl. by rewrite Hp'.
  - destruct H as (e & ->). by exists e.
Qed.

(** ** Symbols *)

Lemma block_sym_inj k j : block_sym k = block_sym j → k = j.
Proof. unfold block_sym; intros H. apply Itoa_inj. by simplify_eq/=. Qed.

Lemma block_sym_nonempty k : block_sym k ≠ "".
Proof. done. Qed.

Definition unlabelled (l : list instruction) : Prop := ∀ i, i ∈ l → ins_symbol i = "".

Lemma rule_code_unlabelled k r : unlabelled (rule_code k r).
Proof.
  unfold unlabelled, rule_code, rule_tests, acceptBlock. intros i.
  repeat case_match; set_unfold; naive_solver.
Qed.

Lemma rule_code_cons k r : ∃ i l, rule_code k r = i :: l.
Proof.
  unfold rule_code. destruct (rule_tests _ _ _ _ _); simpl; by do 2 eexists.
Qed.

Lemma blocks_head k rs : ∃ i l, blocks k rs = i :: l ∧ ins_symbol i = block_sym k.
Proof.
  destruct rs as [|r rs]; simpl; [by do 2 eexists|].
  destruct (rule_code_cons k r) as (i & l & ->). simpl. by do 2 eexists.
Qed.

Lemma find_label_app_None l1 l2 name :
  find_label l1 name = None →
  find_label (l1 ++ l2) name = (λ n, (length l1 + n)%nat) <$> find_label l2 name.
Proof.
  induction l1 as [|i l1 IH]; simpl; intros H; [by destruct (find_label l2 name)|].
  case_decide; [done|]. destruct (find_label l1 name); [done|].
  rewrite IH by done. by destruct (find_label l2 name).
Qed.

Lemma find_label_None l name :
  (∀ i, i ∈ l → ins_symbol i ≠ name) → find_label l name = None.
Proof.
  induction l as [|i l IH]; simpl; intros H; [done|].
  rewrite decide_False by (apply H; by left). rewrite IH; [done|].
  intros j ?; apply H; by right.
Qed.

Lemma label_first_symbols name l i :
  unlabelled l → i ∈ label_first name l → ins_symbol i = "" ∨ ins_symbol i = name.
Proof.
  intros Hl. destruct l as [|j l]; simpl; [by intros ?%elem_of_nil|].
  intros [->|H]%elem_of_cons; [by right|]. left; apply Hl; by right.
Qed.

(** Labels from [k] on are not used in [pre]. *)
Definition fresh (pre : list instruction) (k : Z) : Prop :=
  ∀ i j, i ∈ pre → k ≤ j → ins_symbol i ≠ block_sym j.

Lemma fresh_init : fresh program_init 0.
Proof.
  intros i j Hi _ Hij. assert (ins_symbol i = "") as Hsym; [|by rewrite Hsym in Hij].
  clear -Hi. unfold program_init in Hi. set_unfold. naive_solver.
Qed.

Lemma fresh_next pre k r :
  fresh pre k → fresh (pre ++ label_first (block_sym k) (rule_code k r)) (k + 1).
Proof.
  intros Hpre i j [Hi|Hi]%elem_of_app Hj; [apply Hpre; [done|lia]|].
  destruct (label_first_symbols _ _ _ (rule_code_unlabelled k r) Hi) as [->| ->]; [done|].
  intros ?%block_sym_inj; lia.
Qed.

(** The next block starts right behind the code of a rule. *)
Lemma find_next_block pre k r rs :
  (∀ i, i ∈ pre → ins_symbol i ≠ block_sym (k + 1)) →
  find_label (pre ++ label_first (block_sym k) (rule_code k r) ++ blocks (k + 1) rs)
             (block_sym (k + 1)) =
  Some (length pre + length (rule_code k r))%nat.
Proof.
  intros Hpre. rewrite app_assoc, find_label_app_None.
  - destruct (blocks_head (k + 1) rs) as (i & l & -> & Hi); simpl.
    rewrite decide_True by done; simpl. rewrite length_app.
    destruct (rule_code_cons k r) as (? & ? & ->); simpl. f_equal; lia.
  - apply find_label_None. intros i [Hi|Hi]%elem_of_app; [by apply Hpre|].
    destruct (label_first_symbols _ _ _ (rule_code_unlabelled k r) Hi) as [->| ->].
    + done.
    + intros ?%block_sym_inj; lia.
Qed.

(** ** Running one rule *)

Lemma lookup_mid {A} (pre l : list A) (n m : nat) x :
  m = (length pre + n)%nat → l !! n = Some x → (pre ++ l) !! m = Some x.
Proof. intros -> ?. rewrite lookup_app_r by lia. by replace (_ + n - _)%nat with n by lia. Qed.

Section Run.
Context `{EbpfISA}.

Lemma run_next P c f pc ρ o ρ' :
  (ins_op <$> P) !! pc = Some o → isa_step o c ρ = Next ρ' →
  run P c (S f) pc ρ = run P c f (S pc) ρ'.
Proof. rewrite list_lookup_fmap. intros (i & Hi & ->)%fmap_Some Hs. simpl. by rewrite Hi; simpl; rewrite Hs. Qed.

Lemma run_goto P c f pc ρ o l ρ' tgt :
  (ins_op <$> P) !! pc = Some o → isa_step o c ρ = Goto l ρ' → find_label P l = Some tgt →
  run P c (S f) pc ρ = run P c f tgt ρ'.
Proof.
  rewrite list_lookup_fmap. intros (i & Hi & ->)%fmap_Some Hs Hl. simpl.
  rewrite Hi; simpl; rewrite Hs; simpl. by rewrite Hl.
Qed.

Lemma run_exit P c f pc ρ o v :
  (ins_op <$> P) !! pc = Some o → isa_step o c ρ = Exit v → run P c (S f) pc ρ = Some v.
Proof. rewrite list_lookup_fmap. intros (i & Hi & ->)%fmap_Some Hs. simpl. by rewrite Hi; simpl; rewrite Hs. Qed.

(** The registers the prologue fills keep their values. *)
Definition good (c : dev_ctx) (ρ : regs) : Prop :=
  ρ R2 = ctx_type c ∧ ρ R3 = ctx_access c ∧ ρ R4 = ctx_major c ∧ ρ R5 = ctx_minor c.

(** [seg] falls through when [b] holds and jumps to [next] otherwise. *)
Definition seg_ok (c : dev_ctx) (seg : list instruction) (b : bool) (next : string) : Prop :=
  ∀ P pre post ρ f tgt,
    ins_op <$> P = pre ++ (ins_op <$> seg) ++ post → find_label P next = Some tgt →
    good c ρ → ∃ ρ' f', good c ρ' ∧ (f ≤ f')%nat ∧
      run P c (length seg + f) (length pre) ρ =
      run P c f' (if b then length pre + length seg else tgt)%nat ρ'.

Lemma seg_nil c next : seg_ok c [] true next.
Proof.
  intros P pre post ρ f tgt _ _ Hg. exists ρ, f. rewrite Nat.add_0_r. done.
Qed.

Lemma seg_app c s1 s2 b1 b2 next :
  seg_ok c s1 b1 next → seg_ok c s2 b2 next → seg_ok c (s1 ++ s2) (b1 && b2) next.
Proof.
  intros H1 H2 P pre post ρ f tgt HP Ht Hg. rewrite fmap_app, <- app_assoc in HP.
  destruct (H1 P pre _ ρ (length s2 + f)%nat tgt HP Ht Hg) as (ρ1 & f1 & Hg1 & Hf1 & E1).
  rewrite length_app, <- Nat.add_assoc, E1. destruct b1; simpl.
  - rewrite app_assoc in HP.
    destruct (H2 P _ _ ρ1 (f1 - length s2)%nat tgt HP Ht Hg1) as (ρ2 & f2 & Hg2 & Hf2 & E2).
    exists ρ2, f2. split; [done|]. split; [lia|].
    rewrite length_app, length_fmap in E2.
    replace (length s2 + (f1 - length s2))%nat with f1 in E2 by lia. rewrite E2.
    by destruct b2; rewrite ?Nat.add_assoc.
  - exists ρ1, f1. split_and!; [done|lia|done].
Qed.

#[local] Arguments run : simpl never.

(** Execute the instruction at index [n] of the segment. *)
Ltac seg_step HP n :=
  rewrite HP; apply (lookup_mid _ _ n); [simpl; lia|reflexivity].

Lemma seg_jne c r v next have :
  (∀ ρ, good c ρ → ρ r = have) →
  seg_ok c [ ins (JNEImm r v next) ] (have =? u64 v) next.
Proof.
  intros Hr P pre post ρ f tgt HP Ht Hg. simpl in *.
  assert (isa_step (JNEImm r v next) c ρ =
          if have =? u64 v then Next ρ else Goto next ρ) as Hs.
  { by rewrite isa_JNEImm, (Hr ρ Hg). }
  exists ρ, f. split; [done|]. split; [done|]. destruct (have =? u64 v).
  - erewrite run_next; [|seg_step HP 0%nat|exact Hs]. f_equal; lia.
  - by erewrite run_goto; [|seg_step HP 0%nat|exact Hs|exact Ht].
Qed.

Lemma ctx_ranges c : ctx_ok c →
  (0 ≤ ctx_type c < 2 ^ 16) ∧ (0 ≤ ctx_access c < 2 ^ 16).
Proof.
  intros [Ha _]. unfold ctx_type, ctx_access. change 0xFFFF with (Z.ones 16).
  rewrite Z.land_ones, Z.shiftr_div_pow2 by lia. split; [apply Z.mod_pos_bound; lia|].
  split; [apply Z.div_pos; lia|apply Z.div_lt_upper_bound; lia].
Qed.

Lemma seg_access c a next : ctx_ok c → 0 ≤ a < 2 ^ 32 →
  seg_ok c [ ins (MovReg32 R1 R3); ins (AndImm32 R1 a); ins (JNEReg R1 R3 next) ]
         (Z.land (ctx_access c) a =? ctx_access c) next.
Proof.
  intros Hc Ha P pre post ρ f tgt HP Ht Hg. simpl in *.
  pose proof (ctx_ranges c Hc) as [_ Hacc].
  set (ρ1 := set_reg R1 (u32 (ρ R3)) ρ).
  set (ρ2 := set_reg R1 (Z.land (u32 (ρ1 R1)) (u32 a)) ρ1).
  assert (good c ρ2) as Hg2 by exact Hg.
  assert (isa_step (JNEReg R1 R3 next) c ρ2 =
          if Z.land (ctx_access c) a =? ctx_access c then Next ρ2 else Goto next ρ2) as Hs.
  { rewrite isa_JNEReg. destruct Hg as (_ & Hr3 & _).
    change (ρ2 R1) with (Z.land (u32 (u32 (ρ R3))) (u32 a)).
    change (ρ2 R3) with (ρ R3). rewrite Hr3. unfold u32.
    by rewrite !(wrapu_small 32) by (rewrite ?(wrapu_small 32); lia). }
  exists ρ2, f. split; [done|]. split; [done|].
  erewrite run_next; [|seg_step HP 0%nat|apply isa_MovReg].
  erewrite run_next; [|seg_step HP 1%nat|apply isa_And].
  fold ρ1. fold ρ2. destruct (Z.land _ _ =? _).
  - erewrite run_next; [|seg_step HP 2%nat|exact Hs]. f_equal; lia.
  - by erewrite run_goto; [|seg_step HP 2%nat|exact Hs|exact Ht].
Qed.

(** The tests of a rule fall through exactly when the rule matches. *)
Lemma u64_i32_matches want have : 0 ≤ want ≤ MaxUint32 → 0 ≤ have < 2 ^ 32 →
  (have =? u64 (i32 want)) = number_matches want have.
Proof.
  intros Hw Hh. unfold number_matches, MaxUint32 in *.
  rewrite (proj2 (Z.ltb_ge want 0)) by lia. cbn [orb].
  unfold i32, u64, wraps, wrapu. change (2 ^ (32 - 1)) with 2147483648.
  change (2 ^ 32) with 4294967296 in *. change (2 ^ 31) with 2147483648.
  destruct (Z.ltb_spec want 2147483648).
  - rewrite andb_true_r. rewrite (Z.mod_small (want + _)) by lia.
    rewrite Z.mod_small by lia. rewrite Z.eqb_sym. f_equal; lia.
  - rewrite andb_false_r. apply Z.eqb_neq.
    replace ((want + 2147483648) mod 4294967296) with (want - 2147483648)
      by (apply (Z.mod_unique _ _ 1); lia).
    replace ((_ - _) mod 2 ^ 64) with (want - 4294967296 + 2 ^ 64)
      by (apply (Z.mod_unique _ _ (-1)); lia). lia.
Qed.

Lemma seg_number c r want next have :
  want ≤ MaxUint32 → 0 ≤ have < 2 ^ 32 → (∀ ρ, good c ρ → ρ r = have) →
  seg_ok c (if 0 <=? want then [ ins (JNEImm r (i32 want) next) ] else [])
         (number_matches want have) next.
Proof.
  intros Hw Hh Hr. destruct (Z.leb_spec 0 want).
  - rewrite <- u64_i32_matches by lia. by apply seg_jne.
  - unfold number_matches. rewrite (proj2 (Z.ltb_lt want 0)) by lia. apply seg_nil.
Qed.

Lemma access_of_range perms : 0 ≤ access_of perms < 2 ^ 32.
Proof. unfold access_of. repeat case_match; by vm_compute. Qed.

Lemma seg_rule c r next : ctx_ok c → rule_ok r = true →
  seg_ok c (rule_tests (type_code (rule_type r)) (access_of (rule_perms r)) (rule_major r)
              (rule_minor r) next) (rule_matches c r) next.
Proof.
  intros Hc Hr. unfold rule_tests, rule_matches. rewrite <- !andb_assoc.
  assert (rule_major r ≤ MaxUint32 ∧ rule_minor r ≤ MaxUint32) as [Hmaj Hmin].
  { unfold rule_ok in Hr. rewrite !andb_true_iff, !Z.leb_le in Hr. tauto. }
  apply seg_app; [|apply seg_app; [|apply seg_app]].
  - unfold type_matches. destruct (rule_ok_type r Hr) as [->|[->| ->]]; simpl;
      rewrite ?orb_false_r; [| |apply seg_nil];
      (apply (seg_jne c R2); by intros ρ []).
  - unfold access_matches. destruct (access_of (rule_perms r) =? all_access); simpl;
      [apply seg_nil|]. apply seg_access; [done|apply access_of_range].
  - apply seg_number; [done|apply Hc|by intros ρ (? & ? & ? & ?)].
  - apply seg_number; [done|apply Hc|by intros ρ (? & ? & ? & ?)].
Qed.

Lemma run_accept P c pre post ρ f v : 
  ins_op <$> P = pre ++ (ins_op <$> acceptBlock v) ++ post →
  run P c (2 + f) (length pre) ρ = Some (Z.b2z v).
Proof.
  intros HP. simpl in *.
  erewrite run_next; [|seg_step HP 0%nat|apply isa_MovImm].
  erewrite run_exit; [|seg_step HP 1%nat|apply isa_Return]. by destruct v.
Qed.

Lemma ops_label_first name l : ins_op <$> label_first name l = ins_op <$> l.
Proof. by destruct l. Qed.

Lemma wild_matches c r : is_wild r = true → rule_matches c r = true.
Proof.
  unfold is_wild, rule_matches, type_matches, access_matches, number_matches.
  rewrite !andb_true_iff. by intros [[[-> ->] ->] ->].
Qed.

Lemma wild_code k r : is_wild r = true → rule_code k r = acceptBlock (rule_allow r).
Proof.
  unfold is_wild. rewrite !andb_true_iff, !Z.ltb_lt. intros [[[Ht Ha] H1] H2].
  unfold rule_code, rule_tests. rewrite Ha. apply Z.eqb_eq in Ht; rewrite Ht.
  by rewrite !(proj2 (Z.leb_gt 0 _)).
Qed.

(** From the first instruction of block [k] the program ends, within as many steps as
    it has instructions left, with the decision of the remaining rules. *)
Lemma run_blocks c rs : ctx_ok c → ∀ k pre ρ f,
  forallb rule_ok (processed rs) = true →
  fresh pre k →
  good c ρ → (length (blocks k rs) ≤ f)%nat →
  run (pre ++ blocks k rs) c f (length pre) ρ = Some (Z.b2z (decision c rs)).
Proof.
  intros Hc. induction rs as [|r rs IH]; intros k pre ρ f Hok Hpre Hg Hf; simpl in *.
  { destruct f as [|[|f]]; [lia|lia|]. rewrite <- (length_fmap ins_op pre).
    apply (run_accept _ _ _ [] _ _ false). by rewrite fmap_app. }
  destruct (rule_ok r) eqn:Hr; [|done]. simpl in Hok.
  destruct (is_wild r) eqn:Hw; rewrite ?app_nil_r in *.
  - rewrite (wild_matches _ _ Hw), <- (length_fmap ins_op pre).
    rewrite (wild_code k r Hw) in *. destruct f as [|[|f]]; simpl in Hf; [lia|lia|].
    apply (run_accept _ _ _ []). by rewrite fmap_app, ops_label_first, app_nil_r.
  - pose proof (seg_rule c r (block_sym (k + 1)) Hc Hr) as Hseg.
    set (tests := rule_tests _ _ _ _ _) in Hseg.
    set (P := pre ++ _).
    assert (ins_op <$> P = (ins_op <$> pre) ++ (ins_op <$> tests) ++
              ((ins_op <$> acceptBlock (rule_allow r)) ++ (ins_op <$> blocks (k + 1) rs)))
      as HP.
    { unfold P, rule_code. fold tests. by rewrite !fmap_app, ops_label_first, fmap_app, !app_assoc. }
    assert (length (label_first (block_sym k) (rule_code k r)) = length tests + 2)%nat as Hlen.
    { rewrite <- (length_fmap ins_op), ops_label_first, length_fmap.
      unfold rule_code. by rewrite length_app. }
    rewrite length_app, Hlen in Hf.
    destruct (Hseg P _ _ ρ (f - length tests)%nat _ HP
      ltac:(apply find_next_block; intros; apply Hpre; [done|lia]) Hg)
      as (ρ' & f' & Hg' & Hf' & E).
    replace (_ + (f - _))%nat with f in E by lia. rewrite length_fmap in E. rewrite E.
    destruct (rule_matches c r).
    + destruct f' as [|[|f']]; [lia|lia|].
      rewrite <- (length_fmap ins_op pre), <- (length_fmap ins_op tests), <- length_app.
      eapply run_accept. by rewrite HP, app_assoc.
    + unfold P. rewrite app_assoc.
      replace (_ + _)%nat with (length (pre ++ label_first (block_sym k) (rule_code k r))).
      2: { rewrite length_app, Hlen. unfold rule_code. rewrite length_app. fold tests. simpl. lia. }
      by apply IH; [|apply fresh_next| |lia].
Qed.

Lemma run_prologue c P f ρ : ctx_ok c → ρ R1 = ctx_addr →
  ∃ ρ', good c ρ' ∧ run (program_init ++ P) c (6 + f) 0 ρ = run (program_init ++ P) c f 6 ρ'.
Proof.
  intros Hc Hr1. pose proof (ctx_ranges c Hc) as [Ht Ha]. destruct Hc as (H1 & H2 & H3).
  assert (ins_op <$> program_init ++ P =
    [] ++ (ins_op <$> program_init) ++ (ins_op <$> P)) as HP by (by rewrite fmap_app).
  change (6 + f)%nat with (S (S (S (S (S (S f)))))).
  eexists; split; cycle 1.
  { erewrite run_next; [|seg_step HP 0%nat|apply isa_LoadMem; [exact Hr1|by left]].
    erewrite run_next; [|seg_step HP 1%nat|apply isa_And].
    erewrite run_next; [|seg_step HP 2%nat|apply isa_LoadMem; [exact Hr1|by left]].
    erewrite run_next; [|seg_step HP 3%nat|apply isa_RSh; lia].
    erewrite run_next; [|seg_step HP 4%nat|apply isa_LoadMem; [exact Hr1|by right; left]].
    erewrite run_next; [|seg_step HP 5%nat|apply isa_LoadMem; [exact Hr1|by right; right; left]].
    reflexivity. }
  unfold good, ctx_type, ctx_access, set_reg; simpl. unfold u32.
  rewrite !(wrapu_small 32) by (rewrite ?(wrapu_small 32); lia). done.
Qed.

(** C9. The generated program terminates within one step per instruction and returns 1
    (allow) or 0 (deny): the verdict of the last rule of the list that matches the
    access, deny when none does. A rule with all three access bits matches any access;
    a negative major or minor is a wildcard; one of at least 2^31 never matches. *)
Theorem DeviceFilter_decides rules P lic c ρ fuel :
  DeviceFilter rules = Ok (P, lic) → ctx_ok c → ρ R1 = ctx_addr →
  (length P ≤ fuel)%nat →
  run P c fuel 0 ρ = Some (Z.b2z (decision c (rev rules))).
Proof.
  intros HF Hc Hr1 Hf. pose proof (DeviceFilter_shape rules) as Hs.
  destruct (forallb rule_ok _) eqn:Hok; [|destruct Hs; congruence].
  assert (P = program_init ++ blocks 0 (rev rules)) as -> by congruence.
  rewrite length_app in Hf. change (length program_init) with 6%nat in Hf.
  destruct (run_prologue c (blocks 0 (rev rules)) (fuel - 6) ρ Hc Hr1) as (ρ' & Hg & E).
  replace (6 + (fuel - 6))%nat with fuel in E by lia. rewrite E.
  apply (run_blocks c (rev rules) Hc 0 program_init); [done|apply fresh_init|done|lia].
Qed.
End Run.

Definition example_rules : list Rule :=
  [ {| rule_type := WildcardDevice; rule_major := -1; rule_minor := -1;
       rule_perms := "rwm"; rule_allow := false |};
    {| rule_type := CharDevice; rule_major := 1; rule_minor := 5;
       rule_perms := "rw"; rule_allow := true |};
    {| rule_type := BlockDevice; rule_major := 8; rule_minor := -1;
       rule_perms := "r"; rule_allow := true |} ].

(** Writing to 1:5 is allowed, although the list starts with a deny-all rule. *)
Definition example_access : dev_ctx :=
  {| access_type := 4 * 65536 + 2; ctx_major := 1; ctx_minor := 5 |}.

Lemma DeviceFilter_decides_witness :
  ∃ P, DeviceFilter example_rules = Ok (P, license) ∧
       run P example_access (length P) 0 (λ _, 4096) = Some 1.
Proof.
  eexists; split; [vm_compute; reflexivity|].
  assert (ctx_ok example_access) as Hc by (by vm_compute).
  exact (DeviceFilter_decides example_rules _ license example_access (λ _, 4096) _
           ltac:(vm_compute; reflexivity) Hc eq_refl (le_n _)).
Defined.

(** The generator refuses a rule list exactly when one of the rules it looks at is
    malformed: those after (in the list, before) a rule that matches everything are
    never looked at. It never panics. *)
Theorem DeviceFilter_total rules :
  match DeviceFilter rules with
  | Ok (_, lic) => forallb rule_ok (processed (rev rules)) = true ∧ lic = "Apache"
  | Err _ => forallb rule_ok (processed (rev rules)) = false
  | Panic _ => False
  end.
Proof.
  pose proof (DeviceFilter_shape rules) as Hs. destruct (forallb rule_ok _).
  - by rewrite Hs.
  - by destruct Hs as [e ->].
Qed.

(** ** Jumps go forward *)

Definition jump_target (o : opcode) : option string :=
  match o with
  | JNEImm _ _ l | JNEReg _ _ l => Some l
  | _ => None
  end.

Lemma rule_code_jumps k r i l :
  i ∈ rule_code k r → jump_target (ins_op i) = Some l →
  l = block_sym (k + 1) ∧ is_wild r = false.
Proof.
  intros Hi Hj. destruct (is_wild r) eqn:Hw.
  { rewrite (wild_code k r Hw) in Hi. unfold acceptBlock in Hi. set_unfold. naive_solver. }
  split; [|done]. unfold rule_code, rule_tests, acceptBlock in Hi. repeat case_match; set_unfold; naive_solver.
Qed.

Lemma blocks_jump_forward rs : ∀ k pre n i l,
  fresh pre k →
  blocks k rs !! n = Some i → jump_target (ins_op i) = Some l →
  ∃ m, find_label (pre ++ blocks k rs) l = Some m ∧ (length pre + n < m)%nat.
Proof.
  induction rs as [|r rs IH]; intros k pre n i l Hpre Hn Hj; simpl in *.
  { destruct n as [|[|n]]; naive_solver. }
  set (B := label_first (block_sym k) (rule_code k r)) in *.
  assert (length B = length (rule_code k r)) as HB by (by unfold B; destruct (rule_code k r)).
  apply lookup_app_Some in Hn as [Hn|[Hlen Hn]].
  - assert (l = block_sym (k + 1) ∧ is_wild r = false) as [-> Hw].
    { assert (ins_op i ∈ ins_op <$> rule_code k r) as Hi.
      { rewrite <- (ops_label_first (block_sym k)). apply list_elem_of_fmap. exists i; split; [done|].
        by eapply list_elem_of_lookup_2. }
      apply list_elem_of_fmap in Hi as (i' & Heq & Hi').
      rewrite Heq in Hj. by eapply rule_code_jumps. }
    rewrite Hw. eexists; split; [apply find_next_block; intros; apply Hpre; [done|lia]|].
    apply lookup_lt_Some in Hn. lia.
  - destruct (is_wild r); [by rewrite lookup_nil in Hn|].
    destruct (IH (k + 1) (pre ++ B) _ i l (fresh_next _ _ _ Hpre) Hn Hj) as (m & Hm & Hlt).
    exists m. rewrite app_assoc. split; [done|]. rewrite length_app in Hlt. lia.
Qed.

(** Every conditional jump of the generated program targets a label that is defined,
    further on in the program: the assembler resolves all of them and the kernel's
    verifier sees no back edge. *)
Theorem DeviceFilter_jumps_forward rules P lic n i l :
  DeviceFilter rules = Ok (P, lic) →
  P !! n = Some i → jump_target (ins_op i) = Some l →
  ∃ m, find_label P l = Some m ∧ (n < m)%nat.
Proof.
  intros HF Hn Hj. pose proof (DeviceFilter_shape rules) as Hs.
  destruct (forallb rule_ok _); [|destruct Hs; congruence].
  assert (P = program_init ++ blocks 0 (rev rules)) as -> by congruence.
  apply lookup_app_Some in Hn as [Hn|[Hlen Hn]].
  { do 6 (destruct n as [|n]; [naive_solver|]). done. }
  destruct (blocks_jump_forward (rev rules) 0 program_init _ i l
    fresh_init Hn Hj)
    as (m & Hm & Hlt).
  exists m. split; [done|]. lia.
Qed.

Definition example_program : list instruction :=
  match DeviceFilter example_rules with Ok (P, _) => P | _ => [] end.

Lemma DeviceFilter_jumps_forward_witness :
  ∃ m, find_label example_program "block-1" = Some m ∧ (6 < m)%nat.
Proof.
  apply (DeviceFilter_jumps_forward example_rules example_program license 6
           (Sym (ins (JNEImm R2 1 "block-1")) "block-0")); vm_compute; reflexivity.
Defined.
