(* ===== verification/DeviceTypes.v ===== *)
(** * Register types of the device filter

    The kernel refuses an eBPF program that may read an unset register, dereference
    something else than its context, leave a value other than 0 or 1 or jump backwards.
    This file has such a verifier, as a single pass over a program whose jumps go forward,
    the proof that what it accepts never gets stuck, and the theorem that everything the
    generator of DeviceFilter.v makes is accepted. *)

From S2P Require Import Prelude.
From S2P Require Import GoStd.
From S2P Require Import DeviceRules.
From S2P Require Import DeviceFilter.

(** ** Types *)

(** [Unset] registers cannot be read; [Ctx] points to the context, [Verdict] is 0 or 1. *)
Inductive rtype := Unset | Ctx | Scalar | Verdict.

#[export] Instance rtype_eq_dec : EqDecision rtype.
Proof. solve_decision. Defined.

Abbreviation rtypes := (Register → rtype) (only parsing).

Definition set_type (r : Register) (t : rtype) (g : rtypes) : rtypes :=
  λ r', if decide (r' = r) then t else g r'.
Definition join (g1 g2 : rtypes) : rtypes := λ r, if decide (g1 r = g2 r) then g1 r else Unset.
Definition is_scalar (t : rtype) : bool := bool_decide (t = Scalar) || bool_decide (t = Verdict).

Definition imm_ok (v : Z) : bool := (- 2 ^ 31 <=? v) && (v <? 2 ^ 31).

(** The types after an instruction that does not leave the program; [None] refuses it. *)
Definition op_type (o : opcode) (g : rtypes) : option rtypes :=
  match o with
  | LoadMemWord dst src off =>
      if bool_decide (g src = Ctx) && bool_decide (off ∈ [0; 4; 8]) then Some (set_type dst Scalar g) else None
  | AndImm32 dst v => if is_scalar (g dst) && imm_ok v then Some (set_type dst Scalar g) else None
  | RShImm32 dst v =>
      if is_scalar (g dst) && (0 <=? v) && (v <? 32) then Some (set_type dst Scalar g) else None
  | MovImm32 dst v =>
      if imm_ok v then Some (set_type dst (if bool_decide (v ∈ [0; 1]) then Verdict else Scalar) g) else None
  | MovReg32 dst src => if is_scalar (g src) then Some (set_type dst Scalar g) else None
  | JNEImm dst v _ => if is_scalar (g dst) && imm_ok v then Some g else None
  | JNEReg dst src _ => if is_scalar (g dst) && is_scalar (g src) then Some g else None
  | Return => if bool_decide (g R0 = Verdict) then Some g else None
  end.

(** ** The verifier *)

(** The jumps that are still to land, with the types they carry. *)
Abbreviation pending := (list (string * (Register → rtype))) (only parsing).

Definition landing (s : string) (pend : pending) : pending := filter (λ e, e.1 = s) pend.
Definition elsewhere (s : string) (pend : pending) : pending := filter (λ e, e.1 ≠ s) pend.

(** The types at a label: those of the jumps that land there and of the instruction before. *)
Definition enter (g : option rtypes) (l : pending) : option rtypes :=
  foldl (λ g e, Some (match g with None => e.2 | Some g => join g e.2 end)) g l.

Fixpoint verify (seen : list string) (pend : pending) (g : option rtypes) (q : list instruction) : bool :=
  match q with
  | [] => match g, pend with None, [] => true | _, _ => false end
  | i :: q =>
      let s := ins_symbol i in
      let fresh := bool_decide (s ≠ "") in
      let seen' := if fresh then s :: seen else seen in
      let pend' := if fresh then elsewhere s pend else pend in
      if fresh && bool_decide (s ∈ seen) then false
      else
        match (if fresh then enter g (landing s pend) else g) with
        | None => false
        | Some g =>
            match op_type (ins_op i) g with
            | None => false
            | Some after =>
                match ins_op i with
                | Return => verify seen' pend' None q
                | JNEImm _ _ l | JNEReg _ _ l =>
                    negb (bool_decide (l ∈ seen')) && verify seen' ((l, after) :: pend') (Some after) q
                | _ => verify seen' pend' (Some after) q
                end
            end
        end
  end.

(** On entry only R1 is set. *)
Definition entry : rtypes := λ r, if decide (r = R1) then Ctx else Unset.

Definition well_typed (p : list instruction) : bool := verify [""] [] (Some entry) p.

(** ** What it accepts does not get stuck *)

Section Sound.
Context `{EbpfISA}.

Definition typed (ρ : Register → Z) (g : rtypes) : Prop :=
  ∀ r, match g r with
       | Ctx => ρ r = ctx_addr
       | Verdict => ρ r = 0 ∨ ρ r = 1
       | _ => True
       end.

Definition verdict (v : option Z) : Prop := v = Some 0 ∨ v = Some 1.

Lemma typed_set ρ g r v t :
  typed ρ g → match t with Ctx => v = ctx_addr | Verdict => v = 0 ∨ v = 1 | _ => True end →
  typed (set_reg r v ρ) (set_type r t g).
Proof. intros Hg Ht r'. unfold set_reg, set_type. case_decide; [done|apply Hg]. Qed.

Lemma typed_join_l ρ g1 g2 : typed ρ g1 → typed ρ (join g1 g2).
Proof. intros Hg r. unfold join. case_decide; [apply Hg|done]. Qed.
Lemma typed_join_r ρ g1 g2 : typed ρ g2 → typed ρ (join g1 g2).
Proof. intros Hg r. unfold join. case_decide as E; [rewrite E; apply Hg|done]. Qed.

Lemma enter_typed ρ l g g' :
  enter g l = Some g' → (∃ g0, g = Some g0 ∧ typed ρ g0) ∨ (∃ e, e ∈ l ∧ typed ρ e.2) → typed ρ g'.
Proof.
  revert g. induction l as [|e l IH]; intros g; simpl.
  - intros -> [(? & [= <-] & ?)|(? & []%elem_of_nil & _)]. done.
  - intros He Hor. apply (IH _ He). destruct Hor as [(g0 & -> & Hg)|(e' & [->|Hin]%elem_of_cons & Ht)].
    + left. eexists; split; [done|]. by apply typed_join_l.
    + left. eexists; split; [done|]. destruct g; [by apply typed_join_r|done].
    + right. by exists e'.
Qed.

(** Preservation: what an accepted instruction does. *)
Lemma op_typed o g g' c ρ :
  op_type o g = Some g' → typed ρ g →
  match isa_step o c ρ with
  | Next ρ' => typed ρ' g' ∧ o ≠ Return
  | Goto l ρ' => typed ρ' g' ∧ jump_target o = Some l
  | Exit v => (v = 0 ∨ v = 1) ∧ o = Return
  end.
Proof.
  intros Ho Hg. destruct o as [dst src off|dst v|dst v|dst v|dst src|dst v l|dst src l|]; simpl in Ho.
  - destruct (bool_decide_reflect (g src = Ctx)) as [Es|]; [|done].
    destruct (bool_decide_reflect (off ∈ [0; 4; 8])) as [Eo|]; [|done]. injection Ho as <-.
    specialize (Hg src) as Hs. rewrite Es in Hs.
    assert (∃ v, (off, v) ∈ [(0, access_type c); (4, ctx_major c); (8, ctx_minor c)]) as [v Hv]
      by (set_unfold; naive_solver).
    rewrite (isa_LoadMem dst src off c ρ v Hs Hv). split; [by apply typed_set|done].
  - case_match; [|done]. injection Ho as <-. rewrite isa_And. split; [by apply typed_set|done].
  - case_match; [|done]. injection Ho as <-. bool_to_prop.
    rewrite isa_RSh by lia. split; [by apply typed_set|done].
  - case_match; [|done]. injection Ho as <-. rewrite isa_MovImm. split; [|done]. apply typed_set; [done|].
    case_bool_decide as Hv; [|done]. set_unfold. destruct Hv as [->|[->|[]]]; [by left|by right].
  - case_match; [|done]. injection Ho as <-. rewrite isa_MovReg. split; [by apply typed_set|done].
  - case_match; [|done]. injection Ho as <-. rewrite isa_JNEImm. by destruct (_ =? _).
  - case_match; [|done]. injection Ho as <-. rewrite isa_JNEReg. by destruct (_ =? _).
  - destruct (bool_decide_reflect (g R0 = Verdict)) as [E|]; [|done]. rewrite isa_Return.
    split; [|done]. specialize (Hg R0). by rewrite E in Hg.
Qed.

(** One verified instruction, given that the rest of the program does its part. *)
Lemma step_verdict P c f pc i g after ρ :
  P !! pc = Some i → op_type (ins_op i) g = Some after → typed ρ g →
  (ins_op i ≠ Return → ∀ ρ', typed ρ' after → verdict (run P c f (S pc) ρ')) →
  (∀ l, jump_target (ins_op i) = Some l →
     ∃ m, find_label P l = Some m ∧ ∀ ρ', typed ρ' after → verdict (run P c f m ρ')) →
  verdict (run P c (S f) pc ρ).
Proof.
  intros Hi Ho Hg Hnext Hjump. simpl. rewrite Hi. simpl.
  pose proof (op_typed _ _ _ c _ Ho Hg) as Hstep. destruct (isa_step (ins_op i) c ρ) as [ρ'|l ρ'|v].
  - destruct Hstep. by apply Hnext.
  - destruct Hstep as [Ht Hl]. destruct (Hjump l Hl) as (m & -> & Hm). by apply Hm.
  - destruct Hstep as [[->| ->] _]; [by left|by right].
Qed.

Lemma verify_sound P c q : ∀ pre seen pend g,
  P = pre ++ q → "" ∈ seen → (∀ i, i ∈ pre → ins_symbol i ∈ seen) → (∀ e, e ∈ pend → e.1 ∉ seen) →
  verify seen pend g q = true →
  (∀ g0 ρ f, g = Some g0 → typed ρ g0 → (length q ≤ f)%nat → verdict (run P c f (length pre) ρ)) ∧
  (∀ e, e ∈ pend → ∃ m, find_label P e.1 = Some m ∧
     ∀ ρ f, typed ρ e.2 → (length q ≤ f)%nat → verdict (run P c f m ρ)).
Proof.
  induction q as [|i q IH]; intros pre seen pend g HP He Hpre Hpend Hv.
  { simpl in Hv. destruct g, pend; try done. split; [done|]. by intros e ?%elem_of_nil. }
  cbn [verify] in Hv. set (s := ins_symbol i) in *. set (fr := bool_decide (s ≠ "")) in *.
  set (seen' := if fr then s :: seen else seen) in *.
  set (pend' := if fr then elsewhere s pend else pend) in *.
  destruct (fr && bool_decide (s ∈ seen)) eqn:Efr; [done|].
  destruct (if fr then enter g (landing s pend) else g) as [g1|] eqn:Eg; [|done].
  destruct (op_type (ins_op i) g1) as [after|] eqn:Eo; [|done].
  assert (P = (pre ++ [i]) ++ q) as HP' by (by rewrite <- app_assoc).
  assert (∀ j, j ∈ pre ++ [i] → ins_symbol j ∈ seen') as Hpre'.
  { intros j [Hj| ->%list_elem_of_singleton]%elem_of_app; unfold seen'.
    - destruct fr; [right|]; by apply Hpre.
    - fold s. unfold fr. destruct (bool_decide_reflect (s ≠ "")) as [|Hs]; [by left|].
      by apply dec_stable in Hs as ->. }
  clearbody fr.
  assert (∀ e, e ∈ pend' → e.1 ∉ seen') as Hpend'.
  { intros e. unfold pend', seen', elsewhere. destruct fr; [|apply Hpend].
    rewrite list_elem_of_filter, not_elem_of_cons. intros [? ?]. split; [done|by apply Hpend]. }
  assert ("" ∈ seen') as He' by (unfold seen'; destruct fr; [by right|done]).
  assert (P !! length pre = Some i) as Hi by (rewrite HP; by apply list_lookup_middle).
  assert (∃ pend2 g2, verify seen' pend2 g2 q = true ∧ (∀ e, e ∈ pend' → e ∈ pend2) ∧
    (∀ e, e ∈ pend2 → e.1 ∉ seen') ∧ (ins_op i ≠ Return → g2 = Some after) ∧
    ∀ l, jump_target (ins_op i) = Some l → (l, after) ∈ pend2) as (pend2 & g2 & Hv2 & Hsub & Hlab & Hg2 & Hjmp).
  { destruct (ins_op i) as [| | | | |? ? l|? ? l|];
      try (by exists pend', (Some after); split_and!);
      try (by exists pend', None; split_and!);
      apply andb_true_iff in Hv as [Hl%negb_true_iff%bool_decide_eq_false Hv];
      exists ((l, after) :: pend'), (Some after);
      (split; [done|]; split; [by right|]; split;
       [intros e [->|?]%elem_of_cons; [done|by apply Hpend']|split; [done|intros l' [= ->]; by left]]). }
  destruct (IH (pre ++ [i]) seen' pend2 g2 HP' He' Hpre' Hlab Hv2) as [IHn IHj].
  rewrite length_app, Nat.add_1_r in IHn.
  assert (∀ ρ f, typed ρ g1 → (length (i :: q) ≤ f)%nat → verdict (run P c f (length pre) ρ)) as Hrun.
  { intros ρ f Hg Hf. destruct f as [|f]; simpl in Hf; [lia|]. eapply step_verdict; [done..| |].
    - intros Hr ρ' Hρ'. eapply IHn; [by apply Hg2|done|lia].
    - intros l Hl. destruct (IHj _ (Hjmp l Hl)) as (m & Hm & Hrunm). exists m. split; [done|].
      intros ρ' Hρ'. apply Hrunm; [done|lia]. }
  split.
  - intros g0 ρ f -> Hg Hf. apply Hrun; [|done]. destruct fr; [|by injection Eg as <-].
    eapply enter_typed; [done|]. left. by exists g0.
  - intros e Hin. destruct (decide (fr = true ∧ e.1 = s)) as [[Hfr Hes]|Hne].
    + exists (length pre). rewrite Hfr in *. simpl in Efr. apply bool_decide_eq_false in Efr. split.
      * rewrite HP, find_label_app_None.
        2: { apply find_label_None. intros j Hj Heq. apply Efr. rewrite <- Hes, <- Heq. by apply Hpre. }
        simpl. fold s. rewrite Hes, decide_True by done. simpl. f_equal. lia.
      * intros ρ f Hg Hf. apply Hrun; [|done]. eapply enter_typed; [done|]. right. exists e. split; [|done].
        unfold landing. apply list_elem_of_filter. done.
    + assert (e ∈ pend') as Hin'.
      { unfold pend', elsewhere. destruct fr; [|done]. apply list_elem_of_filter. naive_solver. }
      destruct (IHj e (Hsub e Hin')) as (m & Hm & Hrunm). exists m. split; [done|].
      intros ρ f Hg Hf. apply Hrunm; [done|simpl in Hf; lia].
Qed.

(** A well-typed program ends with 0 or 1, within one step per instruction. *)
Lemma well_typed_sound p c ρ f :
  well_typed p = true → ρ R1 = ctx_addr → (length p ≤ f)%nat → verdict (run p c f 0 ρ).
Proof.
  intros Hw Hr Hf. destruct (verify_sound p c p [] [""] [] (Some entry)) as [Hrun _]; try done.
  - by left.
  - by intros i ?%elem_of_nil.
  - by intros e ?%elem_of_nil.
  - apply (Hrun entry); [done| |done]. intros r. unfold entry. by case_decide; subst.
Qed.
End Sound.

(** ** The generated programs are accepted *)

(** R2 to R5 hold what the prologue loaded. *)
Definition loaded (g : Register → rtype) : Prop := ∀ r, r ∈ [R2; R3; R4; R5] → g r = Scalar.

Definition bound_for (s : string) (pend : list (string * (Register → rtype))) : Prop :=
  ∀ e, e ∈ pend → e.1 = s ∧ loaded e.2.

Lemma loaded_set g r t : loaded g → r ∈ [R0; R1] → loaded (set_type r t g).
Proof. intros Hg Hr r' Hr'. unfold set_type. case_decide; [set_solver|by apply Hg]. Qed.

Lemma loaded_join g1 g2 : loaded g1 → loaded g2 → loaded (join g1 g2).
Proof. intros H1 H2 r Hr. unfold join. by rewrite (H1 r Hr), (H2 r Hr). Qed.

Lemma enter_loaded s pend : ∀ g,
  bound_for s pend → match g with Some g0 => loaded g0 | None => pend ≠ [] end →
  ∃ g', enter g pend = Some g' ∧ loaded g'.
Proof.
  induction pend as [|e pend IH]; intros g Hb Hg; [destruct g; [eauto|done]|].
  assert (bound_for s pend) as Hb' by (intros e' He'; apply Hb; by right).
  destruct (Hb e ltac:(by left)) as [_ He].
  apply (IH (Some _) Hb'). destruct g; [by apply loaded_join|done].
Qed.

Lemma bound_landing s pend : bound_for s pend → landing s pend = pend ∧ elsewhere s pend = [].
Proof.
  unfold landing, elsewhere. induction pend as [|e pend IH]; intros Hb; [done|].
  destruct (Hb e ltac:(by left)) as [E _]. destruct IH as [IH1 IH2]; [intros ? ?; apply Hb; by right|].
  rewrite filter_cons_True, filter_cons_False by (try done; by intros []). by rewrite IH1.
Qed.

Lemma verify_label s seen pend g g1 i q :
  s ≠ "" → s ∉ seen → bound_for s pend → enter g pend = Some g1 → ins_symbol i = "" →
  verify seen pend g (Sym i s :: q) = verify (s :: seen) [] (Some g1) (i :: q).
Proof.
  intros Hs Hseen Hb He Hi. destruct (bound_landing s pend Hb) as [El Ee]. cbn [verify].
  change (ins_symbol (Sym i s)) with s. change (ins_op (Sym i s)) with (ins_op i).
  rewrite Hi, El, Ee, He. rewrite (bool_decide_eq_true_2 (s ≠ "")), (bool_decide_eq_false_2 (s ∈ seen)) by done.
  by rewrite (bool_decide_eq_false_2 ("" ≠ "")) by tauto.
Qed.

(** An instruction without a label. *)
Lemma verify_ins seen pend g o q :
  verify seen pend (Some g) (ins o :: q) =
    match op_type o g with
    | None => false
    | Some after =>
        match o with
        | Return => verify seen pend None q
        | JNEImm _ _ l | JNEReg _ _ l =>
            negb (bool_decide (l ∈ seen)) && verify seen ((l, after) :: pend) (Some after) q
        | _ => verify seen pend (Some after) q
        end
    end.
Proof. done. Qed.

(** The tests of a rule keep the registers loaded and leave through [next] only. *)
Definition seg_typed (next : string) (seg : list instruction) : Prop :=
  ∀ seen pend g rest, next ∉ seen → bound_for next pend → loaded g →
    (∀ pend' g', bound_for next pend' → loaded g' → (seg ≠ [] ∨ pend ≠ [] → pend' ≠ []) →
       verify seen pend' (Some g') rest = true) →
    verify seen pend (Some g) (seg ++ rest) = true.

Lemma seg_typed_nil next : seg_typed next [].
Proof. intros seen pend g rest _ Hb Hg Hrest. apply Hrest; naive_solver. Qed.

Lemma seg_typed_app next s1 s2 : seg_typed next s1 → seg_typed next s2 → seg_typed next (s1 ++ s2).
Proof.
  intros H1 H2 seen pend g rest Hn Hb Hg Hrest. rewrite <- app_assoc.
  apply H1; [done..|]. intros pend1 g1 Hb1 Hg1 Hne1. apply H2; [done..|].
  intros pend2 g2 Hb2 Hg2 Hne2. apply Hrest; [done..|]. intros Hor. apply Hne2.
  destruct s2; [right|by left]. apply Hne1. by rewrite app_nil_r in Hor.
Qed.

Lemma bound_cons next pend g : bound_for next pend → loaded g → bound_for next ((next, g) :: pend).
Proof. intros Hb Hg e [->|He]%elem_of_cons; [done|by apply Hb]. Qed.

Lemma seg_typed_jne next r v :
  r ∈ [R2; R3; R4; R5] → imm_ok v = true → seg_typed next [ins (JNEImm r v next)].
Proof.
  intros Hr Hv seen pend g rest Hn Hb Hg Hrest. cbn [app].
  rewrite verify_ins. cbn [op_type]. rewrite (Hg r Hr), Hv. cbn [is_scalar andb]. rewrite (bool_decide_eq_false_2 (next ∈ seen)) by done.
  apply Hrest; [by apply bound_cons|done|done].
Qed.

Lemma seg_typed_access next a :
  imm_ok a = true → seg_typed next [ins (MovReg32 R1 R3); ins (AndImm32 R1 a); ins (JNEReg R1 R3 next)].
Proof.
  intros Ha seen pend g rest Hn Hb Hg Hrest. cbn [app].
  assert (R3 ∈ [R2; R3; R4; R5]) as Hr3 by (by right; left).
  rewrite verify_ins. cbn [op_type]. rewrite (Hg R3 Hr3). change (is_scalar Scalar) with true. cbv iota.
  rewrite verify_ins. cbn [op_type]. change (is_scalar (set_type R1 Scalar g R1)) with true. rewrite Ha. cbn [andb].
  assert (loaded (set_type R1 Scalar (set_type R1 Scalar g))) as Hg' by (do 2 (apply loaded_set; [|by right; left]); done).
  rewrite verify_ins. cbn [op_type]. rewrite (Hg' R3 Hr3).
  change (is_scalar (set_type R1 Scalar (set_type R1 Scalar g) R1) && is_scalar Scalar) with true. cbv iota.
  rewrite (bool_decide_eq_false_2 (next ∈ seen)) by done.
  apply Hrest; [by apply bound_cons|done|done].
Qed.

Lemma imm_ok_i32 n : imm_ok (i32 n) = true.
Proof.
  unfold imm_ok, i32, wraps. pose proof (Z.mod_pos_bound (n + 2 ^ (32 - 1)) (2 ^ 32) ltac:(lia)).
  change (2 ^ (32 - 1)) with (2 ^ 31) in *. rewrite andb_true_iff, Z.leb_le, Z.ltb_lt. lia.
Qed.

Lemma seg_typed_rule next r :
  seg_typed next (rule_tests (type_code (rule_type r)) (access_of (rule_perms r)) (rule_major r) (rule_minor r) next).
Proof.
  unfold rule_tests. repeat apply seg_typed_app.
  - unfold type_code. repeat case_match; try apply seg_typed_nil; simplify_eq;
      (apply seg_typed_jne; [by left|by vm_compute]).
  - case_match; [|apply seg_typed_nil]. apply seg_typed_access.
    unfold access_of. repeat case_match; by vm_compute.
  - case_match; [|apply seg_typed_nil]. apply seg_typed_jne; [by right; right; left|apply imm_ok_i32].
  - case_match; [|apply seg_typed_nil]. apply seg_typed_jne; [by right; right; right; left|apply imm_ok_i32].
Qed.

Lemma accept_typed seen pend g b rest :
  verify seen pend (Some g) (acceptBlock b ++ rest) = verify seen pend None rest.
Proof. by destruct b. Qed.

Lemma rule_tests_wild k r :
  rule_ok r = true → is_wild r = false →
  rule_tests (type_code (rule_type r)) (access_of (rule_perms r)) (rule_major r) (rule_minor r) (block_sym k) ≠ [].
Proof.
  intros Hok Hw. unfold rule_tests, is_wild in *. rewrite !(Z.leb_antisym _ 0).
  destruct (rule_ok_type r Hok) as [Et|[Et|Et]]; rewrite Et in *; [done|done|]. change (type_code WildcardDevice) with (@None Z).
  rewrite Z.eqb_refl in Hw. by destruct (access_of _ =? _), (rule_major r <? 0), (rule_minor r <? 0).
Qed.

Lemma blocks_typed rs : ∀ k seen pend g,
  forallb rule_ok (processed rs) = true →
  (∀ l, l ∈ seen → l = "" ∨ ∃ j, j < k ∧ l = block_sym j) → bound_for (block_sym k) pend →
  match g with Some g0 => loaded g0 | None => pend ≠ [] end →
  verify seen pend g (blocks k rs) = true.
Proof.
  assert (∀ k (seen : list string), (∀ l, l ∈ seen → l = "" ∨ ∃ j, j < k ∧ l = block_sym j) →
    ∀ j, k ≤ j → block_sym j ∉ seen) as Hfresh.
  { intros k seen Hseen j Hj [E|(j' & ? & E)]%Hseen; [by apply (block_sym_nonempty j)|].
    apply block_sym_inj in E. lia. }
  induction rs as [|r rs IH]; intros k seen pend g Hok Hseen Hb Hg; cbn [blocks processed forallb] in *;
    destruct (enter_loaded _ _ _ Hb Hg) as (g1 & He & Hg1).
  { rewrite (verify_label _ _ _ _ g1) by (try done; exact (Hfresh k seen Hseen k (Z.le_refl k))).
    change [ins (MovImm32 R0 0); ins Return] with (acceptBlock false ++ []). by rewrite accept_typed. }
  destruct (rule_code_cons k r) as (i & l & Ecode).
  assert (ins_symbol i = "") as Hi by (apply (rule_code_unlabelled k r); rewrite Ecode; by left).
  rewrite Ecode. cbn [label_first app].
  rewrite (verify_label _ _ _ _ g1) by (try done; exact (Hfresh k seen Hseen k (Z.le_refl k))).
  rewrite app_comm_cons, <- Ecode. apply andb_true_iff in Hok as [Hr Hok]. destruct (is_wild r) eqn:Hw.
  { rewrite (wild_code k r Hw), accept_typed. done. }
  assert (∀ l, l ∈ block_sym k :: seen → l = "" ∨ ∃ j, j < k + 1 ∧ l = block_sym j) as Hseen'.
  { intros l' [->|[->|(j & ? & ->)]%Hseen]%elem_of_cons; [right; exists k; split; [lia|done]|by left|].
    right. exists j. split; [lia|done]. }
  unfold rule_code. rewrite <- app_assoc. apply (seg_typed_rule (block_sym (k + 1)) r);
    [exact (Hfresh (k + 1) _ Hseen' (k + 1) (Z.le_refl _))|by intros e ?%elem_of_nil|done|].
  intros pend' g' Hb' Hg' Hne. rewrite accept_typed. apply IH; [done..|].
  apply Hne. left. by apply rule_tests_wild.
Qed.

Lemma prologue_typed :
  ∃ g0, loaded g0 ∧ ∀ rest, verify [""] [] (Some entry) (program_init ++ rest) = verify [""] [] (Some g0) rest.
Proof.
  eexists. split; [|intros rest; reflexivity].
  intros r Hr. set_unfold. by destruct Hr as [->|[->|[->|[->|[]]]]].
Qed.

(** C24. Every generated program is well typed: it reads no register that may be unset,
    loads only from the three words of its context, shifts and compares within the width
    of its immediates, has no unreachable instruction, no backward or dangling jump and no
    duplicate label, and leaves R0 with 0 or 1. Being well typed means, for any
    implementation of the instruction set and any context, that it does end with 0 or 1,
    within one step per instruction. *)
Theorem DeviceFilter_typed rules P lic :
  DeviceFilter rules = Ok (P, lic) →
  well_typed P = true ∧
  ∀ (isa : EbpfISA) c ρ f, ρ R1 = ctx_addr → (length P ≤ f)%nat → verdict (run P c f 0 ρ).
Proof.
  intros HF. assert (well_typed P = true) as Hw; [|split; [done|intros; by apply well_typed_sound]].
  pose proof (DeviceFilter_shape rules) as Hs.
  destruct (forallb rule_ok _) eqn:Hok; [|destruct Hs; congruence].
  assert (P = program_init ++ blocks 0 (rev rules)) as -> by congruence.
  unfold well_typed. destruct prologue_typed as (g0 & Hg0 & ->). apply blocks_typed; [done| |by intros e ?%elem_of_nil|done].
  intros l Hl. left. set_solver.
Qed.

Lemma DeviceFilter_typed_witness :
  well_typed example_program = true ∧ verdict (run example_program example_access 30 0 (λ _, 4096)).
Proof.
  destruct (DeviceFilter_typed example_rules example_program license) as [Hw Hrun]; [by vm_compute|].
  split; [exact Hw|]. apply (Hrun ebpf_reference); [done|]. apply (bool_decide_unpack _). by vm_compute.
Defined.
