(* ===== verification/ShimInit.v ===== *)
(** * The init process of the containerd runc shim

    Models [cmd/containerd-shim-runc-v2/process]: [init.go] (the [Init] object and its
    operations), [init_state.go] and [deleted_state.go] (its state machine) and the
    helpers of [utils.go]. The runtime (runc behind go-runc), the file system and the
    console are the environment: every call to them is a [call], answered by an
    arbitrary handler that may fail at any point. Objects the code only hands on are
    references ([obj]). The methods run under [p.mu], so each is one atomic step. *)

From S2P Require Import Prelude GoStd GoMonad.

Abbreviation obj := Z (only parsing).

(** ** Configurations *)

Record Stdio := mk_Stdio {
  Stdin : string; Stdout : string; Stderr : string; Terminal : bool
}.

Record CreateConfig := mk_CreateConfig {
  cc_ID : string; cc_Bundle : string; cc_Terminal : bool; cc_Stdin : string;
  cc_Stdout : string; cc_Stderr : string; cc_Checkpoint : string;
  cc_ParentCheckpoint : string
}.

Record ExecConfig := mk_ExecConfig {
  ec_ID : string; ec_Terminal : bool; ec_Stdin : string; ec_Stdout : string;
  ec_Stderr : string; ec_Spec : string
}.

Record CheckpointConfig := mk_CheckpointConfig {
  ck_WorkDir : string; ck_Path : string; ck_Exit : bool; ck_AllowOpenTCP : bool;
  ck_AllowExternalUnixSockets : bool; ck_AllowTerminal : bool; ck_FileLocks : bool;
  ck_EmptyNamespaces : list string
}.

(** [runc.CreateOpts], [runc.RestoreOpts] and [runc.CheckpointOpts] of go-runc: the
    fields the shim sets. *)
Record CreateOpts := mk_CreateOpts {
  co_PidFile : string; co_NoPivot : bool; co_NoNewKeyring : bool; co_IO : option obj;
  co_ConsoleSocket : option obj
}.

Record RestoreOpts := mk_RestoreOpts {
  ro_ImagePath : string; ro_WorkDir : string; ro_ParentPath : string;
  ro_PidFile : string; ro_NoPivot : bool; ro_Detach : bool; ro_NoSubreaper : bool;
  ro_IO : option obj; ro_ConsoleSocket : option obj
}.

Record CheckpointOpts := mk_CheckpointOpts {
  cp_WorkDir : string; cp_ImagePath : string; cp_AllowOpenTCP : bool;
  cp_AllowExternalUnixSockets : bool; cp_AllowTerminal : bool; cp_FileLocks : bool;
  cp_EmptyNamespaces : list string
}.

(** [specs.Process], as far as the shim looks into it. *)
Record ProcessSpec := mk_ProcessSpec { ps_rest : obj; ps_Terminal : bool }.

Record ExecOpts := mk_ExecOpts {
  eo_PidFile : string; eo_Detach : bool; eo_IO : option obj; eo_ConsoleSocket : option obj
}.

(** [specs.Mount] and the part of [features.Features] that is examined; every [option]
    is a pointer or a slice that may be nil. *)
Record SpecMount := mk_SpecMount {
  sm_UIDMappings : option (list obj); sm_GIDMappings : option (list obj);
  sm_Options : list string
}.
Record IDMapFeature := mk_IDMapFeature { idm_Enabled : option bool }.
Record MountExtensions := mk_MountExtensions { me_IDMap : option IDMapFeature }.
Record FeaturesLinux := mk_FeaturesLinux { fl_MountExtensions : option MountExtensions }.
Record Features := mk_Features { ft_Linux : option FeaturesLinux }.

(** One record of the runtime's JSON log. *)
Record LogEntry := mk_LogEntry { log_Level : string; log_Msg : string }.

(** ** The environment *)

Inductive call : Type → Type :=
  | RuntimeCreate (id bundle : string) (opts : CreateOpts) : call ()
  | RuntimeStart (id : string) : call ()
  | RuntimeRestore (id bundle : string) (opts : RestoreOpts) : call Z
  | RuntimePause (id : string) : call ()
  | RuntimeResume (id : string) : call ()
  | RuntimeDelete (id : string) : call ()
  | RuntimeKill (id : string) (sig : Z) (all : bool) : call ()
  | RuntimeExec (id : string) (spec : ProcessSpec) (opts : ExecOpts) : call ()
  | RuntimeUpdate (id : string) (resources : obj) : call ()
  | RuntimeCheckpoint (id : string) (opts : CheckpointOpts) (leaveRunning : bool) : call ()
  | RuntimeFeatures : call Features
  | ReadRuntimeLog : call (list LogEntry * option error)
  | NewTempConsoleSocket : call obj
  | SocketClose (socket : obj) : call ()
  | ReceiveMaster (socket : obj) : call obj
  | CopyConsole (console : obj) (id stdin stdout stderr : string) : call obj
  | ShutdownConsole (console : option obj) : call ()
  | ConsoleResize (console : obj) (ws : Z * Z) : call ()
  | CreateIO (id : string) (uid gid : Z) (stdio : Stdio) : call obj
  | IOCopy (pio : obj) : call ()
  | IOClose (pio : obj) : call ()
  | OpenFifo (path : string) : call obj
  | CloseFifo (c : obj) : call ()
  | ReadFile (path : string) : call string
  | ReadConfig (bundle : string) : call (list SpecMount)
  | UnmarshalResources (value : string) : call obj
  | UnmarshalProcess (value : string) : call ProcessSpec
  | UnmountRecursive (path : string) : call ()
  | RemoveAll (path : string) : call ()
  | Remove (path : string) : call ()
  | CopyFile (to from : string) : call ()
  | WaitTimeout : call ()
  | Now : call Z
  | UnixKill (pid sig : Z) : call ().

(** An environment: its state and its answers. [strerror] is the text of an errno. *)
Class Env (W : Type) := {
  handle : ∀ {A}, call A → W → (error + A) * W;
  strerror : Z → string
}.

(** ** Errors *)

(** [err.Error()]. *)
Fixpoint Error `{Env W} (e : error) : string :=
  match e with
  | ErrNew msg => msg
  | ErrWrap msg cause => msg +:+ ": " +:+ Error cause
  | ErrSys n => strerror n
  end.

(** [errdefs.ErrNotFound] and [errdefs.ErrFailedPrecondition]. *)
Definition ErrNotFound : error := ErrNew "not found".
Definition ErrFailedPrecondition : error := ErrNew "failed precondition".

(** [errors.Is]. *)
Fixpoint errors_Is (e target : error) : bool :=
  bool_decide (e = target) ||
  match e with ErrWrap _ cause => errors_Is cause target | _ => false end.

Definition ESRCH : Z := 3.

(** [strings.ToLower] on ASCII text. *)
Definition lower (c : ascii) : ascii :=
  if (65 <=? code c) && (code c <=? 90) then byte_char (code c + 32) else c.
Fixpoint ToLower (s : string) : string :=
  match s with EmptyString => "" | String c s' => String (lower c) (ToLower s') end.

Definition checkKillError `{Env W} (err : option error) : option error :=
  match err with
  | None => None
  | Some err =>
      if Contains (Error err) "os: process already finished"
         || Contains (Error err) "container not running"
         || Contains (ToLower (Error err)) "no such process"
         || bool_decide (err = ErrSys ESRCH)
      then Some (ErrWrap "process already finished" ErrNotFound)
      else if Contains (Error err) "does not exist"
      then Some (ErrWrap "no such container" ErrNotFound)
      else Some (ErrWrap "unknown error after kill" err)
  end.

(** The first line of the message. *)
Definition criuError `{Env W} (err : error) : string :=
  match Split LF (Error err) with l :: _ => l | [] => "" end.

(** ** The object *)

Inductive initState :=
  | createdState
  | createdCheckpointState (opts : RestoreOpts)
  | runningState
  | pausedState
  | stoppedState
  | deletedState.

(** [stateName]. *)
Definition stateName (s : initState) : string :=
  match s with
  | runningState => "running"
  | createdState | createdCheckpointState _ => "created"
  | pausedState => "paused"
  | deletedState => "deleted"
  | stoppedState => "stopped"
  end.

(** [Init]; [p_waitBlock] tells whether the channel is closed, [p_exited] is [None] for
    the zero time. *)
Record Init := mk_Init {
  p_initState : initState;
  p_waitBlock : bool;
  p_WorkDir : string;
  p_id : string;
  p_Bundle : string;
  p_console : option obj;
  p_io : option obj;
  p_pausing : bool;
  p_status : Z;
  p_exited : option Z;
  p_pid : Z;
  p_closers : list obj;
  p_stdin : option obj;
  p_stdio : Stdio;
  p_Rootfs : string;
  p_IoUID : Z;
  p_IoGID : Z;
  p_NoPivotRoot : bool;
  p_NoNewKeyring : bool;
  p_CriuWorkPath : string
}.

(** Field updates. *)
Definition set_initState (v : initState) (p : Init) : Init :=
  mk_Init v (p_waitBlock p) (p_WorkDir p) (p_id p) (p_Bundle p) (p_console p) (p_io p)
    (p_pausing p) (p_status p) (p_exited p) (p_pid p) (p_closers p) (p_stdin p) (p_stdio p)
    (p_Rootfs p) (p_IoUID p) (p_IoGID p) (p_NoPivotRoot p) (p_NoNewKeyring p) (p_CriuWorkPath p).
Definition set_waitBlock (v : bool) (p : Init) : Init :=
  mk_Init (p_initState p) v (p_WorkDir p) (p_id p) (p_Bundle p) (p_console p) (p_io p)
    (p_pausing p) (p_status p) (p_exited p) (p_pid p) (p_closers p) (p_stdin p) (p_stdio p)
    (p_Rootfs p) (p_IoUID p) (p_IoGID p) (p_NoPivotRoot p) (p_NoNewKeyring p) (p_CriuWorkPath p).
Definition set_console (v : option obj) (p : Init) : Init :=
  mk_Init (p_initState p) (p_waitBlock p) (p_WorkDir p) (p_id p) (p_Bundle p) v (p_io p)
    (p_pausing p) (p_status p) (p_exited p) (p_pid p) (p_closers p) (p_stdin p) (p_stdio p)
    (p_Rootfs p) (p_IoUID p) (p_IoGID p) (p_NoPivotRoot p) (p_NoNewKeyring p) (p_CriuWorkPath p).
Definition set_io (v : option obj) (p : Init) : Init :=
  mk_Init (p_initState p) (p_waitBlock p) (p_WorkDir p) (p_id p) (p_Bundle p) (p_console p) v
    (p_pausing p) (p_status p) (p_exited p) (p_pid p) (p_closers p) (p_stdin p) (p_stdio p)
    (p_Rootfs p) (p_IoUID p) (p_IoGID p) (p_NoPivotRoot p) (p_NoNewKeyring p) (p_CriuWorkPath p).
Definition set_pausing (v : bool) (p : Init) : Init :=
  mk_Init (p_initState p) (p_waitBlock p) (p_WorkDir p) (p_id p) (p_Bundle p) (p_console p) (p_io p)
    v (p_status p) (p_exited p) (p_pid p) (p_closers p) (p_stdin p) (p_stdio p)
    (p_Rootfs p) (p_IoUID p) (p_IoGID p) (p_NoPivotRoot p) (p_NoNewKeyring p) (p_CriuWorkPath p).
Definition set_exited (time status : Z) (p : Init) : Init :=
  mk_Init (p_initState p) (p_waitBlock p) (p_WorkDir p) (p_id p) (p_Bundle p) (p_console p) (p_io p)
    (p_pausing p) status (Some time) (p_pid p) (p_closers p) (p_stdin p) (p_stdio p)
    (p_Rootfs p) (p_IoUID p) (p_IoGID p) (p_NoPivotRoot p) (p_NoNewKeyring p) (p_CriuWorkPath p).
Definition set_pid (v : Z) (p : Init) : Init :=
  mk_Init (p_initState p) (p_waitBlock p) (p_WorkDir p) (p_id p) (p_Bundle p) (p_console p) (p_io p)
    (p_pausing p) (p_status p) (p_exited p) v (p_closers p) (p_stdin p) (p_stdio p)
    (p_Rootfs p) (p_IoUID p) (p_IoGID p) (p_NoPivotRoot p) (p_NoNewKeyring p) (p_CriuWorkPath p).
Definition set_stdin (c : obj) (p : Init) : Init :=
  mk_Init (p_initState p) (p_waitBlock p) (p_WorkDir p) (p_id p) (p_Bundle p) (p_console p) (p_io p)
    (p_pausing p) (p_status p) (p_exited p) (p_pid p) (p_closers p ++ [c]) (Some c) (p_stdio p)
    (p_Rootfs p) (p_IoUID p) (p_IoGID p) (p_NoPivotRoot p) (p_NoNewKeyring p) (p_CriuWorkPath p).

(** [New]; the caller then fills in the exported fields. *)
Definition New (id : string) (stdio : Stdio) : Init := {|
  p_initState := createdState; p_waitBlock := false; p_WorkDir := ""; p_id := id;
  p_Bundle := ""; p_console := None; p_io := None; p_pausing := false; p_status := 0;
  p_exited := None; p_pid := 0; p_closers := []; p_stdin := None; p_stdio := stdio;
  p_Rootfs := ""; p_IoUID := 0; p_IoGID := 0; p_NoPivotRoot := false;
  p_NoNewKeyring := false; p_CriuWorkPath := ""
|}.

(** ** Operations *)

Section Ops.
Context `{Env W}.

Abbreviation IO A := (M (Init * W) A).

(** One call to the environment. *)
Definition ext {A} (c : call A) : IO A := λ s,
  match handle c s.2 with
  | (inl e, w) => (Err e, (s.1, w))
  | (inr a, w) => (Ok a, (s.1, w))
  end.

Definition self : IO Init := gets fst.
Definition upd (f : Init → Init) : IO () := modify (λ s, (f s.1, s.2)).

(** [getLastRuntimeError]: the message of the last record of level error. *)
Definition last_error (entries : list LogEntry) : string :=
  foldl (λ msg e, if bool_decide (log_Level e = "error") then TrimSpace (log_Msg e) else msg)
        "" entries.
Definition getLastRuntimeError : IO string :=
  do r ← ext ReadRuntimeLog;
  match r with
  | (_, Some e) => throw e
  | (entries, None) => ret (last_error entries)
  end.

Definition runtimeError (rErr : option error) (msg : string) : IO () :=
  match rErr with
  | None => ret tt
  | Some rErr =>
      do r ← try getLastRuntimeError;
      match r with
      | inl err =>
          throw (ErrWrap (msg +:+ ": unable to retrieve OCI runtime error (" +:+ Error err
                          +:+ ")") rErr)
      | inr rMsg => if bool_decide (rMsg = "") then throw (ErrWrap msg rErr)
                    else throw (ErrNew (msg +:+ ": " +:+ rMsg))
      end
  end.

(** [if err := call; err != nil { return p.runtimeError(err, msg) }] *)
Definition runtime {A} (c : call A) (msg : string) : IO () :=
  do e ← err_of (ext c); runtimeError e msg.

Definition InitPidFile (bundle : string) : string := path_Join bundle "init.pid".

(** [runc.ReadPidFile]. *)
Definition ReadPidFile (path : string) : IO Z :=
  do data ← ext (ReadFile path);
  match Atoi data with
  | (pid, None) => ret pid
  | (_, Some _) => throw (ErrNew ("strconv.Atoi: parsing " +:+ data))
  end.

Definition openStdin (path : string) : IO () :=
  do sc ← map_err (ErrWrap ("failed to open stdin fifo " +:+ path)) (ext (OpenFifo path));
  upd (set_stdin sc).

(** [validateIDMapMounts]: [features.Linux] is dereferenced unchecked. *)
Definition uses_idmap (m : SpecMount) : bool :=
  bool_decide (is_Some (sm_UIDMappings m)) || bool_decide (is_Some (sm_GIDMappings m))
  || bool_decide ("idmap" ∈ sm_Options m) || bool_decide ("ridmap" ∈ sm_Options m).

Definition validateIDMapMounts (mounts : list SpecMount) : IO () :=
  if negb (existsb uses_idmap mounts) then ret tt
  else
    do features ← map_err (ErrWrap "features command failed") (ext RuntimeFeatures);
    match ft_Linux features with
    | None => panic "invalid memory address or nil pointer dereference"
    | Some linux =>
        match fl_MountExtensions linux with
        | Some {| me_IDMap := Some idmap |} =>
            match idm_Enabled idmap with
            | Some true => ret tt
            | _ => throw (ErrNew "idmap mounts not supported")
            end
        | _ => throw (ErrNew "missing `mountExtensions.idmap` entry in `features` command")
        end
    end.

Definition validateRuncFeatures (bundle : string) : IO () :=
  do mounts ← map_err (ErrWrap "failed to read config") (ext (ReadConfig bundle));
  map_err (ErrWrap "OCI runtime doesn't support idmap mounts") (validateIDMapMounts mounts).

Definition createCheckpointedState (r : CreateConfig) (pidFile : string) : IO () :=
  do p ← self;
  upd (set_initState (createdCheckpointState {|
    ro_ImagePath := cc_Checkpoint r; ro_WorkDir := p_CriuWorkPath p;
    ro_ParentPath := cc_ParentCheckpoint r; ro_PidFile := pidFile;
    ro_NoPivot := p_NoPivotRoot p; ro_Detach := true; ro_NoSubreaper := true;
    ro_IO := p_io p; ro_ConsoleSocket := None |})).

(** The console is received and copied, or the pipes are copied. A nil [pio] panics. *)
Definition attach (socket pio : option obj) (stdin stdout stderr : string) : IO () :=
  match socket with
  | Some socket =>
      do console ← map_err (ErrWrap "failed to retrieve console master")
                           (ext (ReceiveMaster socket));
      do p ← self;
      do console ← map_err (ErrWrap "failed to start console copy")
                           (ext (CopyConsole console (p_id p) stdin stdout stderr));
      upd (set_console (Some console))
  | None =>
      match pio with
      | Some pio => map_err (ErrWrap "failed to start io pipe copy") (ext (IOCopy pio))
      | None => panic "invalid memory address or nil pointer dereference"
      end
  end.

(** [defer socket.Close()] *)
Definition close_socket (socket : option obj) : IO () :=
  match socket with Some s => ignore (ext (SocketClose s)) | None => ret tt end.

(** [Create] after the console socket or the pipes are made. *)
Definition create_runtime (r : CreateConfig) (socket : option obj) : IO () :=
  do p ← self;
  let pidFile := InitPidFile (p_Bundle p) in
  if negb (bool_decide (cc_Checkpoint r = "")) then createCheckpointedState r pidFile
  else
    let opts := {| co_PidFile := pidFile; co_NoPivot := p_NoPivotRoot p;
                   co_NoNewKeyring := p_NoNewKeyring p; co_IO := p_io p;
                   co_ConsoleSocket := socket |} in
    map_err (ErrWrap "failed to detect OCI runtime features")
            (validateRuncFeatures (cc_Bundle r)) ;;;
    runtime (RuntimeCreate (cc_ID r) (cc_Bundle r) opts) "OCI runtime create failed" ;;;
    when (negb (bool_decide (cc_Stdin r = ""))) (openStdin (cc_Stdin r)) ;;;
    attach socket (p_io p) (cc_Stdin r) (cc_Stdout r) (cc_Stderr r) ;;;
    do pid ← map_err (ErrWrap "failed to retrieve OCI runtime container pid")
                     (ReadPidFile pidFile);
    upd (set_pid pid).

Definition Create (r : CreateConfig) : IO () :=
  if cc_Terminal r then
    do socket ← map_err (ErrWrap "failed to create OCI runtime console socket")
                        (ext NewTempConsoleSocket);
    defer (close_socket (Some socket)) (create_runtime r (Some socket))
  else
    do p ← self;
    do pio ← map_err (ErrWrap "failed to create init process I/O")
                     (ext (CreateIO (p_id p) (p_IoUID p) (p_IoGID p) (p_stdio p)));
    upd (set_io (Some pio)) ;;;
    create_runtime r None.

(** ** State transitions, one function per state *)

Definition quote (s : string) : string := String "034" (s +:+ String "034" "").

Definition invalid_transition (s : initState) (name : string) : IO () :=
  throw (ErrNew ("invalid state transition " +:+ quote (stateName s) +:+ " to " +:+ quote name)).

(** [createdState.transition] and [createdCheckpointState.transition]. *)
Definition created_transition (name : string) : IO () :=
  if decide (name = "running") then upd (set_initState runningState)
  else if decide (name = "stopped") then upd (set_initState stoppedState)
  else if decide (name = "deleted") then upd (set_initState deletedState)
  else invalid_transition createdState name.

Definition running_transition (name : string) : IO () :=
  if decide (name = "stopped") then upd (set_initState stoppedState)
  else if decide (name = "paused") then upd (set_initState pausedState)
  else invalid_transition runningState name.

Definition paused_transition (name : string) : IO () :=
  if decide (name = "running") then upd (set_initState runningState)
  else if decide (name = "stopped") then upd (set_initState stoppedState)
  else invalid_transition pausedState name.

Definition stopped_transition (name : string) : IO () :=
  if decide (name = "deleted") then upd (set_initState deletedState)
  else invalid_transition stoppedState name.

(** ** The methods of [Init] the states call *)

Definition start : IO () :=
  do p ← self; runtime (RuntimeStart (p_id p)) "OCI runtime start failed".

(** [close(ch)] panics on a closed channel. *)
Definition close_waitBlock : IO () :=
  do p ← self;
  if p_waitBlock p then panic "close of closed channel" else upd (set_waitBlock true).

(** [time.Now()], which cannot fail. *)
Definition now : IO Z :=
  do t ← try (ext Now); ret match t with inr t => t | inl _ => 0 end.

Definition setExited (status : Z) : IO () :=
  do t ← now;
  upd (set_exited t status) ;;;
  do p ← self;
  ignore (ext (ShutdownConsole (p_console p))) ;;;
  close_waitBlock.

Definition delete : IO () :=
  ignore (ext WaitTimeout) ;;;
  do p ← self;
  do e ← err_of (ext (RuntimeDelete (p_id p)));
  do err ← match e with
           | None => ret None
           | Some e => if Contains (Error e) "does not exist" then ret None
                       else err_of (runtimeError (Some e) "failed to delete task")
           end;
  match p_io p with
  | Some pio => for_each (λ c, ignore (ext (CloseFifo c))) (p_closers p) ;;;
                ignore (ext (IOClose pio))
  | None => ret tt
  end ;;;
  do err2 ← err_of (ext (UnmountRecursive (p_Rootfs p)));
  return_err match err, err2 with
             | None, Some e2 => Some (ErrWrap "failed rootfs umount" e2)
             | _, _ => err
             end.

Definition kill (signal : Z) (all : bool) : IO () :=
  do p ← self;
  do e ← err_of (ext (RuntimeKill (p_id p) signal all));
  return_err (checkKillError e).

Definition update (value : string) : IO () :=
  do resources ← ext (UnmarshalResources value);
  do p ← self;
  ext (RuntimeUpdate (p_id p) resources).

Definition checkpoint (r : CheckpointConfig) : IO () :=
  do p ← self;
  let own := bool_decide (ck_WorkDir r = "") in
  let work := if own then path_Join (p_WorkDir p) "criu-work" else ck_WorkDir r in
  defer (when own (ignore (ext (RemoveAll work)))) (
    do e ← err_of (ext (RuntimeCheckpoint (p_id p) {|
             cp_WorkDir := work; cp_ImagePath := ck_Path r;
             cp_AllowOpenTCP := ck_AllowOpenTCP r;
             cp_AllowExternalUnixSockets := ck_AllowExternalUnixSockets r;
             cp_AllowTerminal := ck_AllowTerminal r; cp_FileLocks := ck_FileLocks r;
             cp_EmptyNamespaces := ck_EmptyNamespaces r |} (negb (ck_Exit r))));
    match e with
    | None => ret tt
    | Some err =>
        let dumpLog := path_Join (p_Bundle p) "criu-dump.log" in
        ignore (ext (CopyFile dumpLog (path_Join work "dump.log"))) ;;;
        throw (ErrNew (criuError err +:+ " path= " +:+ dumpLog))
    end).

(** [createdCheckpointState.Start]: the container is restored from its checkpoint. *)
Definition set_ConsoleSocket (o : RestoreOpts) (socket : option obj) : RestoreOpts := {|
  ro_ImagePath := ro_ImagePath o; ro_WorkDir := ro_WorkDir o; ro_ParentPath := ro_ParentPath o;
  ro_PidFile := ro_PidFile o; ro_NoPivot := ro_NoPivot o; ro_Detach := ro_Detach o;
  ro_NoSubreaper := ro_NoSubreaper o; ro_IO := ro_IO o; ro_ConsoleSocket := socket |}.

Definition restore_attached (opts : RestoreOpts) (socket : option obj) : IO () :=
  do p ← self;
  let sio := p_stdio p in
  runtime (RuntimeRestore (p_id p) (p_Bundle p) opts) "OCI runtime restore failed" ;;;
  when (negb (bool_decide (Stdin sio = "")))
    (map_err (ErrWrap ("failed to open stdin fifo " +:+ Stdin sio)) (openStdin (Stdin sio))) ;;;
  attach socket (p_io p) (Stdin sio) (Stdout sio) (Stderr sio) ;;;
  do pid ← map_err (ErrWrap "failed to retrieve OCI runtime container pid")
                   (ReadPidFile (ro_PidFile opts));
  upd (set_pid pid) ;;;
  created_transition "running".

Definition createdCheckpoint_Start (opts : RestoreOpts) : IO () :=
  do p ← self;
  if Terminal (p_stdio p) then
    do socket ← map_err (ErrWrap "failed to create OCI runtime console socket")
                        (ext NewTempConsoleSocket);
    let opts := set_ConsoleSocket opts (Some socket) in
    upd (set_initState (createdCheckpointState opts)) ;;;
    defer (close_socket (Some socket)) (restore_attached opts (Some socket))
  else restore_attached opts None.

(** ** The methods of the states: the Go interface [initState] and its implementations
    ([Exec] is in ShimExec.v) *)

Record initState_methods := {
  m_Start : IO ();
  m_Delete : IO ();
  m_Pause : IO ();
  m_Resume : IO ();
  m_Update : string → IO ();
  m_Checkpoint : CheckpointConfig → IO ();
  m_Kill : Z → bool → IO ();
  m_SetExited : Z → IO ();
  m_Status : string
}.

(** [if err := s.transition("stopped"); err != nil { panic(err) }] *)
Definition must (m : IO ()) : IO () :=
  do e ← err_of m;
  match e with None => ret tt | Some e => panic (Error e) end.

Definition createdState_methods : initState_methods := {|
  m_Pause := throw (ErrNew "cannot pause task in created state");
  m_Resume := throw (ErrNew "cannot resume task in created state");
  m_Update := update;
  m_Checkpoint := λ _, throw (ErrNew "cannot checkpoint a task in created state");
  m_Start := start ;;; created_transition "running";
  m_Delete := delete ;;; created_transition "deleted";
  m_Kill := kill;
  m_SetExited := λ status, setExited status ;;; must (created_transition "stopped");
  m_Status := "created"
|}.

Definition createdCheckpointState_methods (opts : RestoreOpts) : initState_methods := {|
  m_Pause := throw (ErrNew "cannot pause task in created state");
  m_Resume := throw (ErrNew "cannot resume task in created state");
  m_Update := update;
  m_Checkpoint := λ _, throw (ErrNew "cannot checkpoint a task in created state");
  m_Start := createdCheckpoint_Start opts;
  m_Delete := delete ;;; created_transition "deleted";
  m_Kill := kill;
  m_SetExited := λ status, setExited status ;;; must (created_transition "stopped");
  m_Status := "created"
|}.

(** [runningState.Pause], with its deferred reset of [pausing]. *)
Definition running_Pause : IO () :=
  upd (set_pausing true) ;;;
  defer (upd (set_pausing false)) (
    do p ← self;
    runtime (RuntimePause (p_id p)) "OCI runtime pause failed" ;;;
    running_transition "paused").

Definition runningState_methods : initState_methods := {|
  m_Pause := running_Pause;
  m_Resume := throw (ErrNew "cannot resume a running process");
  m_Update := update;
  m_Checkpoint := checkpoint;
  m_Start := throw (ErrNew "cannot start a running process");
  m_Delete := throw (ErrNew "cannot delete a running process");
  m_Kill := kill;
  m_SetExited := λ status, setExited status ;;; must (running_transition "stopped");
  m_Status := "running"
|}.

Definition paused_Resume : IO () :=
  do p ← self;
  runtime (RuntimeResume (p_id p)) "OCI runtime resume failed" ;;;
  paused_transition "running".

(** The frozen cgroup is thawed first; a failure of that is only logged. *)
Definition paused_SetExited (status : Z) : IO () :=
  setExited status ;;;
  do p ← self;
  ignore (ext (RuntimeResume (p_id p))) ;;;
  must (paused_transition "stopped").

Definition pausedState_methods : initState_methods := {|
  m_Pause := throw (ErrNew "cannot pause a paused container");
  m_Resume := paused_Resume;
  m_Update := update;
  m_Checkpoint := checkpoint;
  m_Start := throw (ErrNew "cannot start a paused process");
  m_Delete := throw (ErrNew "cannot delete a paused process");
  m_Kill := kill;
  m_SetExited := paused_SetExited;
  m_Status := "paused"
|}.

Definition stoppedState_methods : initState_methods := {|
  m_Pause := throw (ErrNew "cannot pause a stopped container");
  m_Resume := throw (ErrNew "cannot resume a stopped container");
  m_Update := λ _, throw (ErrNew "cannot update a stopped container");
  m_Checkpoint := λ _, throw (ErrNew "cannot checkpoint a stopped container");
  m_Start := throw (ErrNew "cannot start a stopped process");
  m_Delete := delete ;;; stopped_transition "deleted";
  m_Kill := kill;
  m_SetExited := λ _, ret tt;
  m_Status := "stopped"
|}.

Definition deletedState_methods : initState_methods := {|
  m_Pause := throw (ErrNew "cannot pause a deleted process");
  m_Resume := throw (ErrNew "cannot resume a deleted process");
  m_Update := λ _, throw (ErrNew "cannot update a deleted process");
  m_Checkpoint := λ _, throw (ErrNew "cannot checkpoint a deleted process");
  m_Start := throw (ErrNew "cannot start a deleted process");
  m_Delete := throw (ErrWrap "cannot delete a deleted process" ErrNotFound);
  m_Kill := λ _ _, throw (ErrWrap "cannot kill a deleted process" ErrNotFound);
  m_SetExited := λ _, ret tt;
  m_Status := "stopped"
|}.

(** The dynamic type of [p.initState]. *)
Definition methods (s : initState) : initState_methods :=
  match s with
  | createdState => createdState_methods
  | createdCheckpointState opts => createdCheckpointState_methods opts
  | runningState => runningState_methods
  | pausedState => pausedState_methods
  | stoppedState => stoppedState_methods
  | deletedState => deletedState_methods
  end.

(** ** The public methods *)

Definition dispatch {A} (f : initState_methods → IO A) : IO A :=
  do p ← self; f (methods (p_initState p)).

Definition Start : IO () := dispatch m_Start.
Definition Delete : IO () := dispatch m_Delete.
Definition Pause : IO () := dispatch m_Pause.
Definition Resume : IO () := dispatch m_Resume.
Definition Update (value : string) : IO () := dispatch (λ s, m_Update s value).
Definition Checkpoint (r : CheckpointConfig) : IO () := dispatch (λ s, m_Checkpoint s r).
Definition Kill (signal : Z) (all : bool) : IO () := dispatch (λ s, m_Kill s signal all).
Definition SetExited (status : Z) : IO () := dispatch (λ s, m_SetExited s status).

Definition Status : IO string :=
  do p ← self;
  if p_pausing p then ret "pausing" else dispatch (λ s, ret (m_Status s)).

Definition SIGKILL : Z := 9.
Definition KillAll : IO () :=
  do p ← self;
  runtime (RuntimeKill (p_id p) SIGKILL true) "OCI runtime killall failed".

Definition Resize (ws : Z * Z) : IO () :=
  do p ← self;
  match p_console p with
  | None => ret tt
  | Some console => ext (ConsoleResize console ws)
  end.
End Ops.

(** ** Abstract specification: a life cycle and the exit status *)

Inductive phase := Created | Running | Paused | Stopped | Deleted.

#[export] Instance phase_eq_dec : EqDecision phase.
Proof. solve_decision. Defined.

Inductive op :=
  | OStart | ODelete | OPause | OResume
  | OUpdate (value : string)
  | OCheckpoint (r : CheckpointConfig)
  | OKill (signal : Z) (all : bool)
  | OSetExited (status : Z)
  | OStatus | OKillAll
  | OResize (ws : Z * Z).

Definition run_op `{Env W} (o : op) : M (Init * W) () :=
  match o with
  | OStart => Start | ODelete => Delete | OPause => Pause | OResume => Resume
  | OUpdate v => Update v
  | OCheckpoint r => Checkpoint r
  | OKill s a => Kill s a
  | OSetExited st => SetExited st
  | OStatus => do _ ← Status; ret tt
  | OKillAll => KillAll
  | OResize ws => Resize ws
  end.

(** What a client may rely on: the phase, and the status of the first exit. *)
Record lifecycle := mk_lifecycle { lc_phase : phase; lc_exit : option Z }.

(** Operations that are refused in a phase. *)
Definition enabled (ph : phase) (o : op) : bool :=
  match o, ph with
  | OStart, Created => true
  | OStart, _ => false
  | ODelete, (Created | Stopped) => true
  | ODelete, _ => false
  | OPause, Running => true
  | OPause, _ => false
  | OResume, Paused => true
  | OResume, _ => false
  | OUpdate _, (Stopped | Deleted) => false
  | OCheckpoint _, (Running | Paused) => true
  | OCheckpoint _, _ => false
  | OKill _ _, Deleted => false
  | _, _ => true
  end.

(** The effect of an operation that succeeded ([ok]) or failed. *)
Definition next (a : lifecycle) (o : op) (ok : bool) : lifecycle :=
  match lc_phase a, o, ok with
  | Created, OStart, true => mk_lifecycle Running (lc_exit a)
  | (Created | Stopped), ODelete, true => mk_lifecycle Deleted (lc_exit a)
  | Running, OPause, true => mk_lifecycle Paused (lc_exit a)
  | Paused, OResume, true => mk_lifecycle Running (lc_exit a)
  | (Created | Running | Paused), OSetExited st, _ => mk_lifecycle Stopped (Some st)
  | _, _, _ => a
  end.

Definition phase_of (s : initState) : phase :=
  match s with
  | createdState | createdCheckpointState _ => Created
  | runningState => Running
  | pausedState => Paused
  | stoppedState => Stopped
  | deletedState => Deleted
  end.

(** The object implements the abstract state. *)
Record refines (p : Init) (a : lifecycle) : Prop := {
  ref_phase : lc_phase a = phase_of (p_initState p);
  ref_exit : match lc_exit a with
             | Some st => p_status p = st ∧ is_Some (p_exited p) ∧ p_waitBlock p = true
             | None => p_status p = 0 ∧ p_exited p = None ∧ p_waitBlock p = false
             end;
  ref_live : lc_phase a ∈ [Created; Running; Paused] → lc_exit a = None;
  ref_stopped : lc_phase a = Stopped → is_Some (lc_exit a);
  ref_pausing : p_pausing p = false;
  ref_io : Terminal (p_stdio p) = true ∨ is_Some (p_io p) ∨
           (∀ opts, p_initState p ≠ createdCheckpointState opts)
}.

Section Theorems.
Context `{Env W}.

Abbreviation IO A := (M (Init * W) A).

(** The part of the object the specification looks at. *)
Definition core (s : Init * W) :=
  let p := s.1 in
  (p_initState p, p_waitBlock p, p_status p, p_exited p, p_pausing p, p_io p, p_stdio p).

Lemma quiet_ext {A} (c : call A) : quiet core (ext c).
Proof. intros [p w]. unfold ext; simpl. by destruct (handle c w) as [[]]. Qed.

Lemma quiet_self : quiet core self.
Proof. done. Qed.

Lemma quiet_upd f : (∀ p w, core (f p, w) = core (p, w)) → quiet core (upd f).
Proof. intros Hf [p w]. apply Hf. Qed.

Hint Resolve quiet_ext quiet_self : quiet.

Lemma quiet_runtimeError e msg : quiet core (runtimeError e msg).
Proof. unfold runtimeError, getLastRuntimeError. quiet. Qed.

Lemma quiet_runtime {A} (c : call A) msg : quiet core (runtime c msg).
Proof. unfold runtime. quiet. apply quiet_runtimeError. Qed.

Hint Resolve quiet_runtimeError @quiet_runtime : quiet.

Lemma quiet_openStdin path : quiet core (openStdin path).
Proof. unfold openStdin. quiet. Qed.

Lemma quiet_ReadPidFile path : quiet core (ReadPidFile path).
Proof. unfold ReadPidFile. quiet. Qed.

Lemma quiet_attach socket pio i o e :
  is_Some socket ∨ is_Some pio → quiet core (attach socket pio i o e).
Proof.
  intros Hs. unfold attach. quiet.
  by destruct Hs as [[]|[]].
Qed.

Lemma quiet_close_socket socket : quiet core (close_socket socket).
Proof. unfold close_socket. quiet. Qed.

Lemma quiet_start : quiet core start.
Proof. unfold start. quiet. Qed.
Lemma quiet_delete : quiet core delete.
Proof. unfold delete. quiet. Qed.
Lemma quiet_kill sig all : quiet core (kill sig all).
Proof. unfold kill. quiet. Qed.
Lemma quiet_update v : quiet core (update v).
Proof. unfold update. quiet. Qed.
Lemma quiet_checkpoint r : quiet core (checkpoint r).
Proof. unfold checkpoint. quiet. Qed.
Lemma quiet_KillAll : quiet core KillAll.
Proof. unfold KillAll. quiet. Qed.
Lemma quiet_Resize ws : quiet core (Resize ws).
Proof. unfold Resize. quiet. Qed.

Hint Resolve quiet_start quiet_delete quiet_kill quiet_update quiet_checkpoint quiet_KillAll
  quiet_Resize quiet_attach quiet_openStdin quiet_ReadPidFile quiet_close_socket : quiet.

Lemma quiet_then {A B} (m : IO A) (k : A → IO B) s r s' :
  quiet core m → bind m k s = (r, s') →
  (∃ a s1, core s1 = core s ∧ k a s1 = (r, s')) ∨ (∃ e, r = Err e ∧ core s' = core s).
Proof.
  intros Hm [(a & s1 & E & Hk)|[(e & E & ->)|(x & E & ->)]]%bind_run;
    apply (quiet_run _ _ _ _ _ Hm) in E as [Hc Hp]; [left; eauto|right; eauto|].
  by destruct (Hp x eq_refl).
Qed.

Lemma core_inv s s' : core s = core s' →
  p_initState s.1 = p_initState s'.1 ∧ p_waitBlock s.1 = p_waitBlock s'.1 ∧
  p_status s.1 = p_status s'.1 ∧ p_exited s.1 = p_exited s'.1 ∧
  p_pausing s.1 = p_pausing s'.1 ∧ p_io s.1 = p_io s'.1 ∧ p_stdio s.1 = p_stdio s'.1.
Proof. unfold core. intros E. injection E. tauto. Qed.

Lemma refines_core s s' a : core s' = core s → refines s.1 a → refines s'.1 a.
Proof.
  intros (E1 & E2 & E3 & E4 & E5 & E6 & E7)%core_inv [].
  split; rewrite ?E1, ?E2, ?E3, ?E4, ?E5, ?E6, ?E7; done.
Qed.

(** The outcome promised by the specification, and the refinement afterwards. *)
Definition outcome (a : lifecycle) (o : op) (r : result ()) (s' : Init * W) : Prop :=
  (∀ x, r ≠ Panic x) ∧ refines s'.1 (next a o (is_ok r)).

Lemma outcome_quiet (m : IO ()) a o s r s' :
  quiet core m → refines s.1 a → (∀ b, next a o b = a) → m s = (r, s') → outcome a o r s'.
Proof.
  intros Hm HR Hn E. apply (quiet_run _ _ _ _ _ Hm) in E as [Hc Hp].
  split; [done|]. rewrite Hn. by eapply refines_core.
Qed.

(** A transition to [st] after a quiet computation. *)
Lemma outcome_transition (m : IO ()) st a o s r s' :
  quiet core m → refines s.1 a → next a o false = a →
  next a o true = mk_lifecycle (phase_of st) (lc_exit a) →
  (phase_of st ∈ [Created; Running; Paused] → lc_exit a = None) →
  (phase_of st = Stopped → is_Some (lc_exit a)) →
  (∀ opts, st ≠ createdCheckpointState opts) →
  (m ;;; upd (set_initState st)) s = (r, s') → outcome a o r s'.
Proof.
  intros Hm HR Hf Ht Hlive Hstop Hck E.
  apply (quiet_then _ _ _ _ _ Hm) in E as [(? & [p1 w1] & Hc & E)|(e & -> & Hc)].
  - injection E as <- <-. split; [done|]. rewrite (eq_refl : is_ok (Ok ()) = true), Ht.
    apply core_inv in Hc as (E1 & E2 & E3 & E4 & E5 & E6 & E7). simpl in *.
    destruct HR. split; simpl; rewrite ?E2, ?E3, ?E4, ?E5, ?E6, ?E7; eauto.
  - split; [done|]. simpl. rewrite Hf. by eapply refines_core.
Qed.

Lemma outcome_refused e a o s r s' :
  refines s.1 a → (∀ b, next a o b = a) → throw e s = (r, s') → outcome a o r s'.
Proof. intros. eapply outcome_quiet; [apply quiet_throw|done..]. Qed.

(** The process exits: the status is recorded and the waiters are released. *)
Lemma setExited_run st (p : Init) w r s' :
  p_waitBlock p = false → setExited st (p, w) = (r, s') →
  r = Ok () ∧ ∃ t, p_initState s'.1 = p_initState p ∧ p_waitBlock s'.1 = true ∧
    p_status s'.1 = st ∧ p_exited s'.1 = Some t ∧ p_pausing s'.1 = p_pausing p ∧
    p_io s'.1 = p_io p ∧ p_stdio s'.1 = p_stdio p.
Proof.
  intros Hw. unfold setExited, now, close_waitBlock, ext, ignore, upd, self, gets, modify, try, ret, bind.
  cbn [fst snd]. destruct (handle Now w) as [[e|t] w1]; cbn [fst snd];
    (match goal with |- context [handle (ShutdownConsole ?c) ?v] =>
       destruct (handle (ShutdownConsole c) v) as [[]] end);
    simpl; rewrite Hw; simpl; intros [= <- <-]; (split; [done|]); eexists; split_and!; reflexivity.
Qed.

(** Every state in which the process lives leaves through [stopped]. *)
Lemma outcome_exit (k : IO ()) st a s r s' :
  refines s.1 a → lc_phase a ∈ [Created; Running; Paused] →
  (∀ s1, ∃ p2 w2, core (p2, w2) = core s1 ∧ k s1 = (Ok tt, (set_initState stoppedState p2, w2))) →
  (setExited st ;;; k) s = (r, s') → outcome a (OSetExited st) r s'.
Proof.
  intros HR Hlive Hk E. destruct s as [p w].
  assert (p_waitBlock p = false) as Hw.
  { destruct HR as [_ Hx Hl _ _ _]. rewrite (Hl Hlive) in Hx. tauto. }
  apply bind_run in E as [([] & s1 & E1 & E)|[(e & E1 & ->)|(x & E1 & ->)]];
    apply setExited_run in E1 as (Ho & t & H1 & H2 & H3 & H4 & H5 & H6 & H7); try done.
  destruct (Hk s1) as (p2 & w2 & Hc & Ek). rewrite Ek in E. injection E as <- <-.
  split; [done|].
  assert (next a (OSetExited st) true = mk_lifecycle Stopped (Some st)) as Hn.
  { unfold next. set_unfold. by destruct_or! Hlive; rewrite Hlive. }
  rewrite (eq_refl : is_ok (Ok ()) = true), Hn.
  apply core_inv in Hc as (E1 & E2 & E3 & E4 & E5 & E6 & E7). simpl in *.
  destruct HR. split; simpl; rewrite ?E2, ?E3, ?E4, ?E5, ?E6, ?E7, ?H2, ?H3, ?H4, ?H5, ?H6, ?H7;
    eauto; set_solver.
Qed.

(** A quiet first step; the rest is judged from a state with the same core. *)
Lemma outcome_bind {A} (m : IO A) (k : A → IO ()) a o s r s' :
  quiet core m → refines s.1 a → next a o false = a →
  (∀ x s1, core s1 = core s → refines s1.1 a → k x s1 = (r, s') → outcome a o r s') →
  bind m k s = (r, s') → outcome a o r s'.
Proof.
  intros Hm HR Hf Hk E. apply (quiet_then _ _ _ _ _ Hm) in E as [(x & s1 & Hc & E)|(e & -> & Hc)].
  - apply (Hk x s1); [done|by eapply refines_core|done].
  - split; [done|]. simpl. rewrite Hf. by eapply refines_core.
Qed.

Lemma outcome_defer d (m : IO ()) a o s r s' :
  quiet core d → (∀ r1 s1, m s = (r1, s1) → outcome a o r1 s1) →
  defer d m s = (r, s') → outcome a o r s'.
Proof.
  intros Hd Hm. unfold defer. destruct (m s) as [r1 s1] eqn:E. destruct (Hm r1 s1 eq_refl) as [H1 H2].
  destruct (d s1) as [r2 s2] eqn:E2. apply (quiet_run _ _ _ _ _ Hd) in E2 as [Hc Hp].
  assert (refines s2.1 (next a o (is_ok r1))) by (by eapply refines_core).
  destruct r2 as [[]|e|x]; [..|by destruct (Hp x eq_refl)]; by intros [= <- <-].
Qed.

Lemma live_exit p a : refines p a → lc_phase a ∈ [Created; Running; Paused] → lc_exit a = None.
Proof. intros []; auto. Qed.

Lemma outcome_restore opts socket a s r s' :
  refines s.1 a → lc_phase a = Created → is_Some socket ∨ is_Some (p_io s.1) →
  restore_attached opts socket s = (r, s') → outcome a OStart r s'.
Proof.
  intros HR Hph Hio. unfold restore_attached, self, gets, bind at 1.
  assert (next a OStart false = a) as Hf by (by unfold next; rewrite Hph).
  assert (∀ A (m : IO A) k s1, quiet core m → refines s1.1 a →
    (∀ x s2, core s2 = core s1 → refines s2.1 a → k x s2 = (r, s') → outcome a OStart r s') →
    bind m k s1 = (r, s') → outcome a OStart r s') as Hb.
  { intros; by eapply outcome_bind. }
  apply Hb; [quiet|done|intros _ s1 H1 R1].
  apply Hb; [quiet|done|intros _ s2 H2 R2].
  apply Hb; [by apply quiet_attach|done|intros _ s3 H3 R3].
  apply Hb; [quiet|done|intros pid s4 H4 R4].
  eapply (outcome_transition _ runningState); [quiet|done..|by unfold next; rewrite Hph| |done|done].
  intros _. apply (live_exit _ _ HR). rewrite Hph. by left.
Qed.

Lemma outcome_Start a s r s' : refines s.1 a → Start s = (r, s') → outcome a OStart r s'.
Proof.
  intros HR E. pose proof (ref_phase _ _ HR) as Hph.
  unfold Start, dispatch, self, bind at 1, gets in E.
  destruct (p_initState s.1) as [|opts| | | |] eqn:Hs; simpl in E, Hph.
  3-6: eapply outcome_refused; [exact HR|by unfold next; rewrite Hph|exact E].
  - eapply (outcome_transition start runningState); [apply quiet_start|exact HR|..|exact E];
      try done; try (by unfold next; rewrite Hph).
    intros _; apply (live_exit _ _ HR); rewrite Hph; by left.
  - unfold createdCheckpoint_Start, self, bind at 1, gets in E.
    destruct (Terminal (p_stdio s.1)) eqn:Ht.
    + revert E. apply outcome_bind; [quiet|done|by unfold next; rewrite Hph|].
      intros socket [p1 w1] Hc HR1 E. apply bind_run in E as [([] & s2 & E1 & E)|[(?&[=]&_)|(?&[=]&_)]].
      injection E1 as <-.
      assert (refines (set_initState (createdCheckpointState (set_ConsoleSocket opts (Some socket))) p1) a)
        as HR2.
      { apply core_inv in Hc as (H1 & _ & _ & _ & _ & _ & H7). simpl in *. destruct HR1.
        split; simpl; [|done..|]; [by rewrite Hph|]. left. by rewrite H7. }
      revert E. apply outcome_defer; [apply quiet_close_socket|].
      intros r1 s1. apply outcome_restore; [done|done|by left].
    + eapply outcome_restore; [exact HR|done| |exact E]. right.
      destruct (ref_io _ _ HR) as [?|[?|Hck]]; [congruence|done|by destruct (Hck opts)].
Qed.

Lemma outcome_Delete a s r s' : refines s.1 a → Delete s = (r, s') → outcome a ODelete r s'.
Proof.
  intros HR E. pose proof (ref_phase _ _ HR) as Hph.
  unfold Delete, dispatch, self, bind at 1, gets in E.
  destruct (p_initState s.1) eqn:Hs; simpl in E, Hph.
  3-4,6: eapply outcome_refused; [exact HR|by unfold next; rewrite Hph|exact E].
  all: eapply (outcome_transition delete deletedState); [apply quiet_delete|exact HR|..|exact E];
    try done; try (by unfold next; rewrite Hph); set_solver.
Qed.

(** [pausing] is set only while the pause is in flight. *)
Lemma running_Pause_run p w r s' : running_Pause (p, w) = (r, s') →
  (∀ x, r ≠ Panic x) ∧
  core s' = core (set_pausing false (if is_ok r then set_initState pausedState p else p), w).
Proof.
  unfold running_Pause, self, gets, upd, modify, bind at 1, defer, bind at 1. simpl.
  destruct (bind _ _ _) as [r1 s1] eqn:E.
  apply (quiet_then _ _ _ _ _ (quiet_runtime _ _)) in E as [(? & [p2 w2] & Hc & E)|(e & -> & Hc)].
  - injection E as <- <-. intros [= <- <-]. split; [done|].
    apply core_inv in Hc as (E1 & E2 & E3 & E4 & E5 & E6 & E7). simpl in *.
    unfold core; simpl. congruence.
  - intros [= <- <-]. split; [done|].
    apply core_inv in Hc as (E1 & E2 & E3 & E4 & E5 & E6 & E7). simpl in *.
    unfold core; simpl. congruence.
Qed.

Lemma outcome_Pause a s r s' : refines s.1 a → Pause s = (r, s') → outcome a OPause r s'.
Proof.
  intros HR E. pose proof (ref_phase _ _ HR) as Hph.
  unfold Pause, dispatch, self, bind at 1, gets in E.
  destruct (p_initState s.1) eqn:Hs; simpl in E, Hph.
  1-2,4-6: eapply outcome_refused; [exact HR|by unfold next; rewrite Hph|exact E].
  destruct s as [p w]. apply running_Pause_run in E as [Hp Hc]. split; [done|].
  eapply refines_core; [exact Hc|]. simpl in *. destruct HR.
  unfold next. rewrite Hph.
  destruct r; [..|by destruct (Hp msg)]; simpl; split; simpl; try done; try rewrite Hph; eauto.
  intros _. apply ref_live0. rewrite Hph. set_solver.
Qed.

Lemma outcome_Resume a s r s' : refines s.1 a → Resume s = (r, s') → outcome a OResume r s'.
Proof.
  intros HR E. pose proof (ref_phase _ _ HR) as Hph.
  unfold Resume, dispatch, self, bind at 1, gets in E.
  destruct (p_initState s.1) eqn:Hs; simpl in E, Hph.
  1-3,5-6: eapply outcome_refused; [exact HR|by unfold next; rewrite Hph|exact E].
  unfold paused_Resume, self, gets, bind at 1 in E.
  eapply (outcome_transition _ runningState); [apply (quiet_runtime (RuntimeResume (p_id s.1)))|exact HR|..|exact E];
    try done; try (by unfold next; rewrite Hph).
  intros _. apply (live_exit _ _ HR). rewrite Hph. set_solver.
Qed.

Lemma outcome_SetExited st a s r s' :
  refines s.1 a → SetExited st s = (r, s') → outcome a (OSetExited st) r s'.
Proof.
  intros HR E. pose proof (ref_phase _ _ HR) as Hph.
  unfold SetExited, dispatch, self, bind at 1, gets in E.
  assert (∀ k : IO (), lc_phase a ∈ [Created; Running; Paused] →
    (∀ s1, ∃ p2 w2, core (p2, w2) = core s1 ∧ k s1 = (Ok tt, (set_initState stoppedState p2, w2))) →
    (setExited st ;;; k) s = (r, s') → outcome a (OSetExited st) r s') as Hexit.
  { intros; by eapply outcome_exit. }
  destruct (p_initState s.1) eqn:Hs; simpl in E, Hph.
  5-6: eapply outcome_quiet; [apply (quiet_ret core tt)|exact HR|by unfold next; rewrite Hph|exact E].
  1-3: revert E; apply Hexit; [rewrite Hph; set_solver|]; intros [p1 w1]; by exists p1, w1.
  revert E; apply Hexit; [rewrite Hph; set_solver|]. intros [p1 w1].
  unfold self, gets, ignore, ext, try, bind, must, err_of, ret. cbn [fst snd].
  destruct (handle (RuntimeResume (p_id p1)) w1) as [[e|[]] w2] eqn:Eh; exists p1, w2;
    (split; [done|]); reflexivity.
Qed.

Lemma quiet_Status : quiet core (do _ ← Status; ret ()).
Proof. unfold Status, dispatch. quiet. Qed.

Lemma outcome_any p w a o r s' :
  refines p a → run_op o (p, w) = (r, s') →
  outcome a o r s'.
Proof.
  intros HR E. change (refines (p, w).1 a) in HR.
  pose proof (ref_phase _ _ HR) as Hph.
  destruct o; simpl in E.
  1: by eapply outcome_Start. 1: by eapply outcome_Delete. 1: by eapply outcome_Pause.
  1: by eapply outcome_Resume. 4: by eapply outcome_SetExited.
  all: eapply outcome_quiet; [|exact HR| |exact E];
    [unfold Update, Checkpoint, Kill, dispatch|by unfold next; destruct (lc_phase a)].
  - quiet; match goal with |- context [methods ?st] => destruct st end; simpl; quiet.
  - quiet; match goal with |- context [methods ?st] => destruct st end; simpl; quiet.
  - quiet; match goal with |- context [methods ?st] => destruct st end; simpl; quiet.
  - apply quiet_Status.
  - apply quiet_KillAll.
  - apply quiet_Resize.
Qed.

(** C17. The object implements the life cycle: whatever the environment answers, one
    public operation never panics, changes the abstract state exactly as [next] says and
    preserves the refinement. *)
Theorem Init_refines p w a o r s' :
  refines p a → run_op o (p, w) = (r, s') →
  (∀ x, r ≠ Panic x) ∧ refines s'.1 (next a o (is_ok r)).
Proof. apply outcome_any. Qed.

(** An operation that is not enabled in the current phase is refused with an error
    before anything is done: neither the object nor the environment changes. *)
Theorem Init_refused p w a o :
  refines p a → enabled (lc_phase a) o = false →
  ∃ e, run_op o (p, w) = (Err e, (p, w)) ∧
       (o = ODelete ∨ (∃ sig all, o = OKill sig all) → lc_phase a = Deleted →
        errors_Is e ErrNotFound = true).
Proof.
  intros HR He. rewrite (ref_phase _ _ HR) in *.
  destruct o; simpl;
    unfold Start, Delete, Pause, Resume, Update, Checkpoint, Kill, dispatch, self, gets, bind;
    simpl; destruct (p_initState p); simpl in He; try done; simpl; eexists;
    (split; [reflexivity|]); intros [?|(? & ? & ?)] ?; simplify_eq; done.
Qed.

(** A sequence of operations, each answered. *)
Fixpoint run_ops (os : list op) (s : Init * W) : list (result ()) * (Init * W) :=
  match os with
  | [] => ([], s)
  | o :: os' => let (r, s1) := run_op o s in
                let (rs, s2) := run_ops os' s1 in (r :: rs, s2)
  end.

Fixpoint nexts (a : lifecycle) (os : list op) (rs : list (result ())) : lifecycle :=
  match os, rs with
  | o :: os', r :: rs' => nexts (next a o (is_ok r)) os' rs'
  | _, _ => a
  end.

Lemma run_ops_refine os : ∀ a s rs s',
  refines s.1 a → run_ops os s = (rs, s') →
  Forall (λ r, ∀ x, r ≠ Panic x) rs ∧ refines s'.1 (nexts a os rs).
Proof.
  induction os as [|o os IH]; simpl; intros a s rs s' HR E; [by injection E as <- <-|].
  destruct s as [p w]. destruct (run_op o (p, w)) as [r s1] eqn:E1.
  destruct (run_ops os s1) as [rs1 s2] eqn:E2. injection E as <- <-.
  destruct (outcome_any _ _ _ _ _ _ HR E1) as [Hp HR1].
  destruct (IH _ _ _ _ HR1 E2) as [Hps HR2]. split; [by constructor|done].
Qed.

Lemma run_ops_app os1 : ∀ os2 s, run_ops (os1 ++ os2) s =
  let (rs1, s1) := run_ops os1 s in let (rs2, s2) := run_ops os2 s1 in (rs1 ++ rs2, s2).
Proof.
  induction os1 as [|o os1 IH]; intros os2 s; simpl; [by destruct (run_ops os2 s)|].
  destruct (run_op o s) as [r s1]. rewrite IH. destruct (run_ops os1 s1) as [rs1 s2].
  by destruct (run_ops os2 s2).
Qed.

Definition is_exit (o : op) : bool := match o with OSetExited _ => true | _ => false end.
Definition is_delete (o : op) : bool := match o with ODelete => true | _ => false end.

Lemma nexts_live os : ∀ a rs, lc_phase a ∈ [Created; Running; Paused] →
  forallb (λ o, negb (is_exit o) && negb (is_delete o)) os = true →
  lc_phase (nexts a os rs) ∈ [Created; Running; Paused].
Proof.
  induction os as [|o os IH]; intros a rs Ha Hos; simpl in *; [done|].
  destruct rs as [|r rs]; [done|]. apply andb_true_iff in Hos as [Ho Hos].
  apply IH; [|done]. unfold next. revert Ha; clear -Ho.
  destruct (lc_phase a) eqn:E, o, (is_ok r); simpl in *; rewrite ?E; set_solver.
Qed.

Lemma nexts_exited os : ∀ a rs st, lc_exit a = Some st →
  lc_phase a ∈ [Stopped; Deleted] → lc_exit (nexts a os rs) = Some st.
Proof.
  induction os as [|o os IH]; intros a rs st Ha Hph; simpl; [done|].
  destruct rs as [|r rs]; [done|].
  apply IH; unfold next; set_unfold; destruct_or! Hph; rewrite Hph; by destruct o, (is_ok r); simpl; auto.
Qed.

(** C29. In any run that exits before being deleted, whatever follows (more exits, deletes,
    failures of the runtime), no operation panics, so the wait channel is closed once;
    the waiters are released and the recorded status is the one of the first exit. *)
Theorem Init_exit_once p w pre st post rs s' :
  refines p (mk_lifecycle Created None) →
  forallb (λ o, negb (is_exit o) && negb (is_delete o)) pre = true →
  run_ops (pre ++ OSetExited st :: post) (p, w) = (rs, s') →
  Forall (λ r, ∀ x, r ≠ Panic x) rs ∧
  p_waitBlock s'.1 = true ∧ p_status s'.1 = st ∧ is_Some (p_exited s'.1).
Proof.
  intros HR Hpre E. change (refines (p, w).1 (mk_lifecycle Created None)) in HR.
  split; [by eapply (run_ops_refine _ _ _ _ _ HR E)|].
  rewrite run_ops_app in E. destruct (run_ops pre (p, w)) as [rs1 s1] eqn:E1.
  apply (run_ops_refine _ _ _ _ _ HR) in E1 as [_ HR1].
  pose proof (nexts_live pre (mk_lifecycle Created None) rs1 ltac:(set_solver) Hpre) as Hlive.
  set (a1 := nexts _ pre rs1) in *. simpl in E. destruct s1 as [p1 w1].
  change (SetExited st (p1, w1)) with (run_op (OSetExited st) (p1, w1)) in E.
  destruct (run_op (OSetExited st) (p1, w1)) as [r s2] eqn:E2.
  apply (outcome_any _ _ _ _ _ _ HR1) in E2 as [_ HR2].
  destruct (run_ops post s2) as [rs2 s3] eqn:E3. injection E as <- <-.
  assert (next a1 (OSetExited st) (is_ok r) = mk_lifecycle Stopped (Some st)) as Hn.
  { unfold next. set_unfold. by destruct_or! Hlive; rewrite Hlive. }
  rewrite Hn in HR2. apply (run_ops_refine _ _ _ _ _ HR2) in E3 as [_ HR3].
  pose proof (ref_exit _ _ HR3) as Hx.
  rewrite (nexts_exited _ _ _ st) in Hx; [tauto|done|set_solver].
Qed.

(** ** Creation *)

(** Computations that keep a property of the object, however they end. *)
Definition keeps {A} (P : Init → Prop) (m : IO A) : Prop := ∀ s, P s.1 → P (m s).2.1.

Lemma keeps_bind {A B} P (m : IO A) (k : A → IO B) :
  keeps P m → (∀ a, keeps P (k a)) → keeps P (bind m k).
Proof.
  intros Hm Hk s Hs. unfold bind. specialize (Hm s Hs).
  destruct (m s) as [[a|e|x] s1]; [by apply Hk|done|done].
Qed.

Lemma keeps_self_bind {B} (P : Init → Prop) (k : Init → IO B) :
  (∀ p, P p → keeps P (k p)) → keeps P (do p ← self; k p).
Proof. intros Hk s Hs. by apply Hk. Qed.

Lemma keeps_map_err {A} P f (m : IO A) : keeps P m → keeps P (map_err f m).
Proof. intros Hm s Hs. unfold map_err. specialize (Hm s Hs). by destruct (m s) as [[]]. Qed.

Lemma keeps_defer {A} P d (m : IO A) : keeps P d → keeps P m → keeps P (defer d m).
Proof.
  intros Hd Hm s Hs. unfold defer. specialize (Hm s Hs). destruct (m s) as [r s1].
  specialize (Hd s1 Hm). by destruct (d s1) as [[]].
Qed.

(** Ready to be started: not started yet, and with pipes or a terminal. *)
Definition ready (p : Init) : Prop :=
  refines p (mk_lifecycle Created None) ∧ (Terminal (p_stdio p) = true ∨ is_Some (p_io p)).

Lemma keeps_quiet {A} (m : IO A) : quiet core m → keeps ready m.
Proof.
  intros Hm s [HR Hio]. specialize (Hm s). destruct (m s) as [r s1].
  assert (core s1 = core s) as Hc by (by destruct r). split; [by eapply refines_core|].
  apply core_inv in Hc as (_ & _ & _ & _ & _ & E6 & E7). simpl. by rewrite E6, E7.
Qed.

Lemma keeps_validateRuncFeatures bundle : keeps ready (validateRuncFeatures bundle).
Proof.
  apply keeps_bind; [apply keeps_quiet; quiet|]. intros mounts. apply keeps_map_err.
  unfold validateIDMapMounts. destruct (negb _); [apply keeps_quiet; quiet|].
  apply keeps_bind; [apply keeps_quiet; quiet|]. intros ft.
  destruct (ft_Linux ft) as [linux|]; [apply keeps_quiet; quiet|by intros s].
Qed.

Lemma keeps_create_runtime r socket : keeps ready (create_runtime r socket).
Proof.
  apply keeps_self_bind. intros p [HR Hio]. destruct (negb _).
  - apply keeps_self_bind. intros p1 Hp1 [p2 w2] [HR2 Hio2]; simpl in *.
    split; [|done]. destruct HR2 as [H1 H2 H3 H4 H5 H6]. by split; [..|tauto].
  - apply keeps_bind; [apply keeps_map_err, keeps_validateRuncFeatures|intros _].
    apply keeps_bind; [apply keeps_quiet, quiet_runtime|intros _].
    apply keeps_bind; [apply keeps_quiet; quiet|intros _].
    apply keeps_bind; [|intros _; apply keeps_quiet; quiet].
    destruct socket as [socket|]; [apply keeps_quiet, quiet_attach; eauto|].
    destruct (p_io p) as [pio|]; [apply keeps_quiet, quiet_attach; eauto|by intros s].
Qed.

(** [Create], whatever fails on the way, leaves an object that is in phase [Created]
    and can be started: with the pipes made, or a terminal. *)
Theorem Create_ready p w r res s' :
  refines p (mk_lifecycle Created None) → cc_Terminal r = Terminal (p_stdio p) →
  Create r (p, w) = (res, s') →
  refines s'.1 (mk_lifecycle Created None) ∧
  (is_ok res = true → Terminal (p_stdio s'.1) = true ∨ is_Some (p_io s'.1)).
Proof.
  intros HR Ht E. unfold Create in E. rewrite Ht in E.
  destruct (Terminal (p_stdio p)) eqn:Htm.
  - assert (ready p) as Hready by (split; auto).
    assert (keeps ready (Create r)) as Hk.
    { unfold Create. rewrite Ht.
      apply keeps_bind; [apply keeps_quiet; quiet|intros socket].
      apply keeps_defer; [apply keeps_quiet, quiet_close_socket|apply keeps_create_runtime]. }
    specialize (Hk (p, w) Hready). unfold Create in Hk. rewrite Ht, E in Hk.
    destruct Hk as [? ?]. auto.
  - change (bind (map_err (ErrWrap "failed to create init process I/O")
              (ext (CreateIO (p_id p) (p_IoUID p) (p_IoGID p) (p_stdio p))))
              (λ pio, upd (set_io (Some pio)) ;;; create_runtime r None) (p, w) = (res, s')) in E.
    apply quiet_then in E; [|quiet].
    destruct E as [(pio & [p1 w1] & Hc & E)|(e & -> & Hc)].
    + assert (ready (set_io (Some pio) p1)) as Hready.
      { apply (refines_core (p, w)) with (s' := (p1, w1)) in HR; [|done].
        simpl in HR. destruct HR. split; [by split; simpl; eauto|right; simpl; eauto]. }
      pose proof (keeps_create_runtime r None (set_io (Some pio) p1, w1) Hready) as [H1 H2].
      change (create_runtime r None (set_io (Some pio) p1, w1) = (res, s')) in E.
      rewrite E in H1, H2. auto.
    + split; [|done]. by eapply (refines_core (p, w)).
Qed.

(** A process that has just been made by [New]. *)
Lemma New_refines id stdio : refines (New id stdio) (mk_lifecycle Created None).
Proof. by split; simpl; eauto. Qed.

(** [Create] on a bundle that uses id-mapped mounts panics when the runtime's
    feature report has no linux section. *)
Theorem Create_panics_without_linux_features p w r w1 w2 w3 pio mounts :
  cc_Terminal r = false → cc_Checkpoint r = "" →
  handle (CreateIO (p_id p) (p_IoUID p) (p_IoGID p) (p_stdio p)) w = (inr pio, w1) →
  handle (ReadConfig (cc_Bundle r)) w1 = (inr mounts, w2) →
  existsb uses_idmap mounts = true →
  handle RuntimeFeatures w2 = (inr {| ft_Linux := None |}, w3) →
  ∃ s', Create r (p, w) =
        (Panic "invalid memory address or nil pointer dereference", s').
Proof.
  intros Ht Hck Hio Hcfg Hid Hft. unfold Create. rewrite Ht.
  unfold self, gets, map_err, ext, bind, upd, modify; simpl. rewrite Hio; simpl.
  unfold create_runtime, bind at 1, self, gets; simpl. rewrite bool_decide_true by done. simpl.
  unfold validateRuncFeatures, validateIDMapMounts, ext, map_err, bind; simpl.
  rewrite Hcfg; simpl. rewrite Hid; simpl. rewrite Hft; simpl. by eexists.
Qed.

Lemma bind_self {B} (k : Init → IO B) s : bind self k s = k s.1 s.
Proof. done. Qed.

Lemma ignore_ext {A} (c : call A) p w : ignore (ext c) (p, w) = (Ok tt, (p, snd (handle c w))).
Proof. unfold ignore, try, ext, bind; simpl. by destruct (handle c w) as [[] ?]. Qed.

Lemma close_all_run (l : list obj) p w :
  ∃ w', for_each (λ c, ignore (ext (CloseFifo c))) l (p, w) = (Ok tt, (p, w')).
Proof.
  revert w; induction l as [|c l IH]; intros w; simpl; [by eexists|].
  unfold bind. rewrite ignore_ext. apply IH.
Qed.

Lemma close_io_run (p : Init) w : ∃ w',
  (match p_io p with
   | Some pio => for_each (λ c, ignore (ext (CloseFifo c))) (p_closers p) ;;;
                 ignore (ext (IOClose pio))
   | None => ret tt
   end) (p, w) = (Ok tt, (p, w')).
Proof.
  destruct (p_io p) as [pio|]; [|by eexists]. unfold bind.
  destruct (close_all_run (p_closers p) p w) as [w' ->]. rewrite ignore_ext. by eexists.
Qed.

(** A container that a checkpoint has already removed from the runtime can still be
    deleted: a "does not exist" answer of the runtime is not an error, provided its root
    file system can be unmounted. *)
Theorem Delete_after_checkpoint p w w2 e :
  p_initState p = stoppedState →
  handle (RuntimeDelete (p_id p)) (snd (handle WaitTimeout w)) = (inl e, w2) →
  Contains (Error e) "does not exist" = true →
  (∀ w', fst (handle (UnmountRecursive (p_Rootfs p)) w') = inr ()) →
  ∃ w', Delete (p, w) = (Ok (), (set_initState deletedState p, w')).
Proof.
  intros Hs Hdel He Hun. unfold Delete, dispatch.
  rewrite bind_self; simpl. rewrite Hs; simpl.
  assert (∃ w', delete (p, w) = (Ok (), (p, w'))) as [w' Hd].
  { unfold delete. rewrite (bind_ok _ _ _ _ _ (ignore_ext _ p w)).
    rewrite bind_self; cbn [fst].
    assert (err_of (ext (RuntimeDelete (p_id p))) (p, (handle WaitTimeout w).2) =
            (Ok (Some e), (p, w2))) as E1.
    { unfold err_of, try, ext, bind; simpl. by rewrite Hdel. }
    rewrite (bind_ok _ _ _ _ _ E1), He, bind_ret.
    destruct (close_io_run p w2) as [w3 E2]. rewrite (bind_ok _ _ _ _ _ E2).
    specialize (Hun w3). destruct (handle (UnmountRecursive (p_Rootfs p)) w3) as [u w4] eqn:Eu.
    simpl in Hun; subst u. exists w4. unfold err_of, try, ext, bind; simpl. by rewrite Eu. }
  rewrite (bind_ok _ _ _ _ _ Hd). by eexists.
Qed.
End Theorems.

(** ** A concrete environment: everything succeeds, except that the runtime has already
    forgotten the container when it is asked to delete it *)

Definition ok_answer {A} (c : call A) : A :=
  match c with
  | RuntimeRestore _ _ _ => 0
  | RuntimeFeatures => {| ft_Linux := None |}
  | ReadRuntimeLog => ([{| log_Level := "error"; log_Msg := "failed" |}], None)
  | NewTempConsoleSocket => 1
  | ReceiveMaster _ => 2
  | CopyConsole _ _ _ _ _ => 3
  | CreateIO _ _ _ _ => 4
  | OpenFifo _ => 5
  | ReadFile _ => "42"
  | ReadConfig _ => [{| sm_UIDMappings := None; sm_GIDMappings := None; sm_Options := ["idmap"] |}]
  | UnmarshalResources _ => 6
  | UnmarshalProcess _ => {| ps_rest := 7; ps_Terminal := false |}
  | Now => 1000
  | RuntimeCreate _ _ _ | RuntimeStart _ | RuntimePause _ | RuntimeResume _
  | RuntimeDelete _ | RuntimeKill _ _ _ | RuntimeExec _ _ _ | RuntimeUpdate _ _
  | RuntimeCheckpoint _ _ _ | SocketClose _ | ShutdownConsole _ | ConsoleResize _ _
  | IOCopy _ | IOClose _ | CloseFifo _ | UnmountRecursive _ | RemoveAll _ | Remove _
  | CopyFile _ _ | WaitTimeout | UnixKill _ _ => tt
  end.

Definition forgetful_handle {A} (c : call A) (w : ()) : (error + A) * () :=
  match c with
  | RuntimeDelete id => (inl (ErrNew ("container " +:+ id +:+ " does not exist")), w)
  | c' => (inr (ok_answer c'), w)
  end.

#[export] Instance forgetful : Env () :=
  {| handle := @forgetful_handle; strerror := λ n, Itoa n |}.

Definition example_stdio : Stdio :=
  {| Stdin := ""; Stdout := "/out"; Stderr := "/err"; Terminal := false |}.
Definition example_process : Init := New "c1" example_stdio.
Definition stopped_process : Init :=
  set_initState stoppedState (set_waitBlock true (set_exited 1000 3 example_process)).
Definition example_create : CreateConfig := {|
  cc_ID := "c1"; cc_Bundle := "/b"; cc_Terminal := false; cc_Stdin := ""; cc_Stdout := "/out";
  cc_Stderr := "/err"; cc_Checkpoint := ""; cc_ParentCheckpoint := "" |}.

Lemma Init_refines_witness :
  (∀ x, fst (run_op (W := ()) OStart (example_process, ())) ≠ Panic x) ∧
  refines (fst (snd (run_op (W := ()) OStart (example_process, ()))))
          (mk_lifecycle Running None).
Proof.
  exact (Init_refines example_process () (mk_lifecycle Created None) OStart _ _
           (New_refines "c1" example_stdio) (surjective_pairing _)).
Defined.

Lemma Init_refused_witness :
  ∃ e, run_op (W := ()) OPause (example_process, ()) = (Err e, (example_process, ())) ∧
       (OPause = ODelete ∨ (∃ sig all, OPause = OKill sig all) → Created = Deleted →
        errors_Is e ErrNotFound = true).
Proof.
  exact (Init_refused example_process () (mk_lifecycle Created None) OPause
           (New_refines "c1" example_stdio) eq_refl).
Defined.

Lemma Init_exit_once_witness :
  let s' := snd (run_ops (W := ()) [OStart; OSetExited 3; OSetExited 7; ODelete]
                   (example_process, ())) in
  p_waitBlock s'.1 = true ∧ p_status s'.1 = 3.
Proof.
  pose proof (Init_exit_once example_process () [OStart] 3 [OSetExited 7; ODelete] _ _
    (New_refines "c1" example_stdio) eq_refl (surjective_pairing _)) as (_ & H1 & H2 & _).
  exact (conj H1 H2).
Defined.

Lemma Create_ready_witness :
  refines (fst (snd (Create (W := ()) example_create (example_process, ()))))
          (mk_lifecycle Created None).
Proof.
  exact (proj1 (Create_ready example_process () example_create _ _
           (New_refines "c1" example_stdio) eq_refl (surjective_pairing _))).
Defined.

Lemma Create_panics_without_linux_features_witness :
  ∃ s', Create (W := ()) example_create (example_process, ()) =
        (Panic "invalid memory address or nil pointer dereference", s').
Proof.
  exact (Create_panics_without_linux_features example_process () example_create () () () 4
           _ eq_refl eq_refl eq_refl eq_refl eq_refl eq_refl).
Defined.

Lemma Delete_after_checkpoint_witness :
  ∃ w', Delete (W := ()) (stopped_process, ()) =
        (Ok (), (set_initState deletedState stopped_process, w')).
Proof.
  exact (Delete_after_checkpoint stopped_process () () _ eq_refl eq_refl eq_refl
           (λ _, eq_refl)).
Defined.
