(* ===== verification/ShimExec.v ===== *)
(** * Exec processes of the containerd runc shim

    Models [cmd/containerd-shim-runc-v2/process/exec.go] and [exec_state.go], and the
    [Exec] methods of [init.go] and [init_state.go] that make such processes. An exec
    process reads its parent and calls the same environment; its state is paired with
    the parent's. *)

From S2P Require Import Prelude GoStd GoMonad ShimInit.

Inductive execState := execCreatedState | execRunningState | execStoppedState | execDeletedState.

Record execProcess := mk_execProcess {
  e_execState : execState;
  e_id : string;
  e_console : option obj;
  e_io : option obj;
  e_status : Z;
  e_exited : option Z;
  e_pid : Z;
  e_closers : list obj;
  e_stdin : option obj;
  e_stdio : Stdio;
  e_path : string;
  e_spec : ProcessSpec;
  e_waitBlock : bool
}.

Definition eset_state (v : execState) (e : execProcess) : execProcess :=
  mk_execProcess v (e_id e) (e_console e) (e_io e) (e_status e) (e_exited e) (e_pid e)
    (e_closers e) (e_stdin e) (e_stdio e) (e_path e) (e_spec e) (e_waitBlock e).
Definition eset_console (v : option obj) (e : execProcess) : execProcess :=
  mk_execProcess (e_execState e) (e_id e) v (e_io e) (e_status e) (e_exited e) (e_pid e)
    (e_closers e) (e_stdin e) (e_stdio e) (e_path e) (e_spec e) (e_waitBlock e).
Definition eset_io (v : obj) (e : execProcess) : execProcess :=
  mk_execProcess (e_execState e) (e_id e) (e_console e) (Some v) (e_status e) (e_exited e) (e_pid e)
    (e_closers e) (e_stdin e) (e_stdio e) (e_path e) (e_spec e) (e_waitBlock e).
Definition eset_exited (time status : Z) (e : execProcess) : execProcess :=
  mk_execProcess (e_execState e) (e_id e) (e_console e) (e_io e) status (Some time) (e_pid e)
    (e_closers e) (e_stdin e) (e_stdio e) (e_path e) (e_spec e) (e_waitBlock e).
Definition eset_pid (v : Z) (e : execProcess) : execProcess :=
  mk_execProcess (e_execState e) (e_id e) (e_console e) (e_io e) (e_status e) (e_exited e) v
    (e_closers e) (e_stdin e) (e_stdio e) (e_path e) (e_spec e) (e_waitBlock e).
Definition eset_stdin (c : obj) (e : execProcess) : execProcess :=
  mk_execProcess (e_execState e) (e_id e) (e_console e) (e_io e) (e_status e) (e_exited e) (e_pid e)
    (e_closers e ++ [c]) (Some c) (e_stdio e) (e_path e) (e_spec e) (e_waitBlock e).
Definition eset_waitBlock (v : bool) (e : execProcess) : execProcess :=
  mk_execProcess (e_execState e) (e_id e) (e_console e) (e_io e) (e_status e) (e_exited e) (e_pid e)
    (e_closers e) (e_stdin e) (e_stdio e) (e_path e) (e_spec e) v.

Section Exec.
Context `{Env W}.

(** ** Making an exec process *)

(** [Init.exec]. *)
Definition exec (path : string) (r : ExecConfig) : M (Init * W) execProcess :=
  do spec ← ext (UnmarshalProcess (ec_Spec r));
  ret {| e_execState := execCreatedState; e_id := ec_ID r; e_console := None; e_io := None;
         e_status := 0; e_exited := None; e_pid := 0; e_closers := []; e_stdin := None;
         e_stdio := {| Stdin := ec_Stdin r; Stdout := ec_Stdout r; Stderr := ec_Stderr r;
                       Terminal := ec_Terminal r |};
         e_path := path;
         e_spec := {| ps_rest := ps_rest spec; ps_Terminal := ec_Terminal r |};
         e_waitBlock := false |}.

Definition state_Exec (s : initState) (path : string) (r : ExecConfig)
  : M (Init * W) execProcess :=
  match s with
  | createdState | runningState => exec path r
  | createdCheckpointState _ => throw (ErrNew "cannot exec in a created state")
  | pausedState => throw (ErrNew "cannot exec in a paused state")
  | stoppedState => throw (ErrNew "cannot exec in a stopped state")
  | deletedState => throw (ErrNew "cannot exec in a deleted state")
  end.

Definition Exec (path : string) (r : ExecConfig) : M (Init * W) execProcess :=
  do p ← self; state_Exec (p_initState p) path r.

(** ** The exec process *)

Abbreviation EIO A := (M (execProcess * (Init * W)) A).

(** A computation on the parent and the environment. *)
Definition parent {A} (m : M (Init * W) A) : EIO A := λ s,
  let (r, s') := m s.2 in (r, (s.1, s')).
Definition eext {A} (c : call A) : EIO A := parent (ext c).

Definition eself : EIO execProcess := gets fst.
Definition eparent : EIO Init := parent self.
Definition eupd (f : execProcess → execProcess) : EIO () := modify (λ s, (f s.1, s.2)).

(** [stateName] has no case for [*execStoppedState]. *)
Definition exec_stateName (s : execState) : EIO string :=
  match s with
  | execRunningState => ret "running"
  | execCreatedState => ret "created"
  | execDeletedState => ret "deleted"
  | execStoppedState => panic "invalid state"
  end.

Definition exec_invalid_transition (s : execState) (name : string) : EIO () :=
  do from ← exec_stateName s;
  throw (ErrNew ("invalid state transition " +:+ quote from +:+ " to " +:+ quote name)).

Definition exec_created_transition (name : string) : EIO () :=
  if decide (name = "running") then eupd (eset_state execRunningState)
  else if decide (name = "stopped") then eupd (eset_state execStoppedState)
  else if decide (name = "deleted") then eupd (eset_state execDeletedState)
  else exec_invalid_transition execCreatedState name.

Definition exec_running_transition (name : string) : EIO () :=
  if decide (name = "stopped") then eupd (eset_state execStoppedState)
  else exec_invalid_transition execRunningState name.

Definition exec_stopped_transition (name : string) : EIO () :=
  if decide (name = "deleted") then eupd (eset_state execDeletedState)
  else exec_invalid_transition execStoppedState name.

Definition exec_close_waitBlock : EIO () :=
  do e ← eself;
  if e_waitBlock e then panic "close of closed channel" else eupd (eset_waitBlock true).

Definition exec_setExited (status : Z) : EIO () :=
  do t ← parent now;
  eupd (eset_exited t status) ;;;
  do e ← eself;
  ignore (eext (ShutdownConsole (e_console e))) ;;;
  exec_close_waitBlock.

Definition exec_delete : EIO () :=
  ignore (eext WaitTimeout) ;;;
  do e ← eself;
  match e_io e with
  | Some pio => for_each (λ c, ignore (eext (CloseFifo c))) (e_closers e) ;;;
                ignore (eext (IOClose pio))
  | None => ret tt
  end ;;;
  ignore (eext (Remove (path_Join (e_path e) (e_id e +:+ ".pid")))).

Definition exec_resize (ws : Z * Z) : EIO () :=
  do e ← eself;
  match e_console e with
  | None => ret tt
  | Some console => eext (ConsoleResize console ws)
  end.

Definition exec_kill (sig : Z) : EIO () :=
  do e ← eself;
  if e_pid e =? 0 then throw (ErrWrap "process not created" ErrFailedPrecondition)
  else if bool_decide (is_Some (e_exited e))
  then throw (ErrWrap "process already finished" ErrNotFound)
  else
    do err ← err_of (eext (UnixKill (e_pid e) sig));
    match checkKillError err with
    | None => ret tt
    | Some err => throw (ErrWrap "exec kill error" err)
    end.

Definition exec_openStdin (path : string) : EIO () :=
  do sc ← map_err (ErrWrap ("failed to open stdin fifo " +:+ path)) (eext (OpenFifo path));
  eupd (eset_stdin sc).

Definition exec_attach (socket pio : option obj) : EIO () :=
  do e ← eself;
  match socket with
  | Some socket =>
      do console ← map_err (ErrWrap "failed to retrieve console master")
                           (eext (ReceiveMaster socket));
      do r ← try (eext (CopyConsole console (e_id e) (Stdin (e_stdio e))
                          (Stdout (e_stdio e)) (Stderr (e_stdio e))));
      match r with
      | inl err => eupd (eset_console None) ;;; throw (ErrWrap "failed to start console copy" err)
      | inr console => eupd (eset_console (Some console))
      end
  | None =>
      match pio with
      | Some pio => map_err (ErrWrap "failed to start io pipe copy") (eext (IOCopy pio))
      | None => panic "invalid memory address or nil pointer dereference"
      end
  end.

(** [start] once the socket or the pipes exist. When the runtime refuses the exec, the
    wait channel is closed. *)
Definition exec_runtime (socket pio : option obj) : EIO () :=
  do e ← eself;
  do p ← eparent;
  let pidFile := path_Join (e_path e) (e_id e +:+ ".pid") in
  let opts := {| eo_PidFile := pidFile; eo_Detach := true; eo_IO := pio;
                 eo_ConsoleSocket := socket |} in
  do err ← err_of (eext (RuntimeExec (p_id p) (e_spec e) opts));
  match err with
  | Some err =>
      exec_close_waitBlock ;;;
      parent (runtimeError (Some err) "OCI runtime exec failed")
  | None =>
      when (negb (bool_decide (Stdin (e_stdio e) = ""))) (exec_openStdin (Stdin (e_stdio e))) ;;;
      exec_attach socket pio ;;;
      do pid ← map_err (ErrWrap "failed to retrieve OCI runtime exec pi")
                       (parent (ReadPidFile pidFile));
      eupd (eset_pid pid)
  end.

Definition exec_start : EIO () :=
  do e ← eself;
  do p ← eparent;
  if Terminal (e_stdio e) then
    do socket ← map_err (ErrWrap "failed to create runc console socket")
                        (eext NewTempConsoleSocket);
    defer (parent (close_socket (Some socket))) (exec_runtime (Some socket) None)
  else
    do pio ← map_err (ErrWrap "failed to create init process I/O")
                     (eext (CreateIO (e_id e) (p_IoUID p) (p_IoGID p) (e_stdio e)));
    eupd (eset_io pio) ;;;
    exec_runtime None (Some pio).

(** ** The methods of the states: the Go interface [execState] *)

Record execState_methods := {
  x_Resize : Z * Z → EIO ();
  x_Start : EIO ();
  x_Delete : EIO ();
  x_Kill : Z → EIO ();
  x_SetExited : Z → EIO ();
  x_Status : string
}.

Definition exec_must (m : EIO ()) : EIO () :=
  do e ← err_of m;
  match e with None => ret tt | Some e => panic (Error e) end.

Definition execCreatedState_methods : execState_methods := {|
  x_Resize := exec_resize;
  x_Start := exec_start ;;; exec_created_transition "running";
  x_Delete := exec_delete ;;; exec_created_transition "deleted";
  x_Kill := exec_kill;
  x_SetExited := λ st, exec_setExited st ;;; exec_must (exec_created_transition "stopped");
  x_Status := "created"
|}.

Definition execRunningState_methods : execState_methods := {|
  x_Resize := exec_resize;
  x_Start := throw (ErrNew "cannot start a running process");
  x_Delete := throw (ErrNew "cannot delete a running process");
  x_Kill := exec_kill;
  x_SetExited := λ st, exec_setExited st ;;; exec_must (exec_running_transition "stopped");
  x_Status := "running"
|}.

Definition execStoppedState_methods : execState_methods := {|
  x_Resize := λ _, throw (ErrNew "cannot resize a stopped container");
  x_Start := throw (ErrNew "cannot start a stopped process");
  x_Delete := exec_delete ;;; exec_stopped_transition "deleted";
  x_Kill := exec_kill;
  x_SetExited := λ _, ret tt;
  x_Status := "stopped"
|}.

Definition execDeletedState_methods : execState_methods := {|
  x_Resize := λ _, throw (ErrNew "cannot resize a deleted process");
  x_Start := throw (ErrNew "cannot start a deleted process");
  x_Delete := throw (ErrWrap "cannot delete a deleted process" ErrNotFound);
  x_Kill := λ _, throw (ErrWrap "cannot kill a deleted process" ErrNotFound);
  x_SetExited := λ _, ret tt;
  x_Status := "stopped"
|}.

Definition exec_methods (s : execState) : execState_methods :=
  match s with
  | execCreatedState => execCreatedState_methods
  | execRunningState => execRunningState_methods
  | execStoppedState => execStoppedState_methods
  | execDeletedState => execDeletedState_methods
  end.

(** ** The public methods *)

Definition exec_dispatch {A} (f : execState_methods → EIO A) : EIO A :=
  do e ← eself; f (exec_methods (e_execState e)).

Definition exec_Resize (ws : Z * Z) : EIO () := exec_dispatch (λ s, x_Resize s ws).
Definition exec_Start : EIO () := exec_dispatch x_Start.
Definition exec_Delete : EIO () := exec_dispatch x_Delete.
Definition exec_Kill (sig : Z) (all : bool) : EIO () := exec_dispatch (λ s, x_Kill s sig).
Definition exec_SetExited (status : Z) : EIO () := exec_dispatch (λ s, x_SetExited s status).

(** The container's state wins while it is paused or being paused. *)
Definition exec_Status : EIO string :=
  do s ← parent Status;
  if bool_decide (s = "paused") || bool_decide (s = "pausing") then ret s
  else exec_dispatch (λ s, ret (x_Status s)).
End Exec.

(** ** Correctness *)

Inductive eop :=
  | EStart | EDelete
  | EKill (sig : Z) (all : bool)
  | EResize (ws : Z * Z)
  | ESetExited (status : Z)
  | EStatus.

Definition run_eop `{Env W} (o : eop) : M (execProcess * (Init * W)) () :=
  match o with
  | EStart => exec_Start | EDelete => exec_Delete
  | EKill sig all => exec_Kill sig all
  | EResize ws => exec_Resize ws
  | ESetExited st => exec_SetExited st
  | EStatus => do _ ← exec_Status; ret tt
  end.

Definition enext (s : execState) (o : eop) (ok : bool) : execState :=
  match s, o, ok with
  | execCreatedState, EStart, true => execRunningState
  | (execCreatedState | execStoppedState), EDelete, true => execDeletedState
  | (execCreatedState | execRunningState), ESetExited _, _ => execStoppedState
  | _, _, _ => s
  end.

(** The wait channel is open exactly as long as the process has not exited. *)
Definition healthy (e : execProcess) : Prop :=
  match e_execState e with
  | execCreatedState | execRunningState => e_waitBlock e = false ∧ e_exited e = None
  | execStoppedState => e_waitBlock e = true ∧ is_Some (e_exited e)
  | execDeletedState => True
  end.

(** A start that the runtime refused: still [created], but the channel is closed. *)
Definition half_started (e : execProcess) : Prop :=
  e_execState e = execCreatedState ∧ e_waitBlock e = true ∧ e_exited e = None.

Section Theorems.
Context `{Env W}.

Abbreviation EIO A := (M (execProcess * (Init * W)) A).

Definition ecore (s : execProcess * (Init * W)) :=
  let e := s.1 in (e_execState e, e_waitBlock e, e_status e, e_exited e).

Lemma quiet_parent {A} (m : M (Init * W) A) : quiet core m → quiet ecore (parent m).
Proof.
  intros Hm [e s]. specialize (Hm s). unfold parent; simpl.
  by destruct (m s) as [[] s'].
Qed.

Lemma quiet_eext {A} (c : call A) : quiet ecore (eext c).
Proof. apply quiet_parent, quiet_ext. Qed.
Lemma quiet_eself : quiet ecore eself.
Proof. done. Qed.
Lemma quiet_eparent : quiet ecore eparent.
Proof. done. Qed.

Hint Resolve @quiet_parent @quiet_eext quiet_eself quiet_eparent quiet_ext quiet_runtimeError
  quiet_ReadPidFile quiet_close_socket : quiet.

Lemma quiet_now : quiet ecore (parent now).
Proof. apply quiet_parent. unfold now. quiet. Qed.

Lemma quiet_exec_delete : quiet ecore exec_delete.
Proof. unfold exec_delete. quiet. Qed.
Lemma quiet_exec_kill sig : quiet ecore (exec_kill sig).
Proof. unfold exec_kill. quiet. Qed.
Lemma quiet_exec_resize ws : quiet ecore (exec_resize ws).
Proof. unfold exec_resize. quiet. Qed.
Lemma quiet_exec_Status : quiet ecore (do _ ← exec_Status; ret ()).
Proof.
  unfold exec_Status, exec_dispatch. quiet.
  apply quiet_parent. unfold Status, dispatch. quiet.
Qed.
Lemma quiet_exec_attach socket pio :
  is_Some socket ∨ is_Some pio → quiet ecore (exec_attach socket pio).
Proof. intros Hs. unfold exec_attach. quiet. by destruct Hs as [[]|[]]. Qed.

Lemma equiet_then {A B} (m : EIO A) (k : A → EIO B) s r s' :
  quiet ecore m → bind m k s = (r, s') →
  (∃ a s1, ecore s1 = ecore s ∧ k a s1 = (r, s')) ∨ (∃ e, r = Err e ∧ ecore s' = ecore s).
Proof.
  intros Hm [(a & s1 & E & Hk)|[(e & E & ->)|(x & E & ->)]]%bind_run;
    apply (quiet_run _ _ _ _ _ Hm) in E as [Hc Hp]; [left; eauto|right; eauto|].
  by destruct (Hp x eq_refl).
Qed.

Lemma ecore_inv s s' : ecore s = ecore s' →
  e_execState s.1 = e_execState s'.1 ∧ e_waitBlock s.1 = e_waitBlock s'.1 ∧
  e_status s.1 = e_status s'.1 ∧ e_exited s.1 = e_exited s'.1.
Proof. unfold ecore. intros E. injection E. tauto. Qed.

Lemma healthy_core s s' : ecore s' = ecore s → healthy s.1 → healthy s'.1.
Proof. intros (E1 & E2 & E3 & E4)%ecore_inv. unfold healthy. by rewrite E1, E2, E4. Qed.

(** How a start may end: nothing the state machine sees has changed, or the runtime
    refused and the channel is closed. *)
Definition start_outcome (s : execProcess * (Init * W)) (r : result ()) s' : Prop :=
  (∀ x, r ≠ Panic x) ∧
  (ecore s' = ecore s ∨ (is_ok r = false ∧ ecore s' = ecore (eset_waitBlock true s.1, s.2))).

Lemma start_outcome_core s0 s r s' : ecore s0 = ecore s → start_outcome s0 r s' → start_outcome s r s'.
Proof.
  intros Hc [Hp Ho]. split; [done|]. destruct Ho as [Ho|[Hr Ho]]; [left; congruence|right].
  split; [done|]. rewrite Ho. apply ecore_inv in Hc as (E1 & E2 & E3 & E4).
  unfold ecore; simpl. congruence.
Qed.

Lemma start_outcome_quiet (m : EIO ()) s r s' :
  quiet ecore m → m s = (r, s') → start_outcome s r s'.
Proof. intros Hm E. apply (quiet_run _ _ _ _ _ Hm) in E as [? ?]. split; [done|by left]. Qed.

Lemma start_outcome_bind {A} (m : EIO A) (k : A → EIO ()) s r s' :
  quiet ecore m → (∀ x s1, ecore s1 = ecore s → k x s1 = (r, s') → start_outcome s1 r s') →
  bind m k s = (r, s') → start_outcome s r s'.
Proof.
  intros Hm Hk E. apply (equiet_then _ _ _ _ _ Hm) in E as [(x & s1 & Hc & E)|(e & -> & Hc)].
  - eapply start_outcome_core; [exact Hc|]. by eapply Hk.
  - split; [done|by left].
Qed.

Lemma runtimeError_fails e msg s r s' :
  runtimeError (Some e) msg s = (r, s') → is_ok r = false.
Proof.
  unfold runtimeError. intros [(v & s1 & _ & E)|[(? & _ & ->)|(? & _ & ->)]]%bind_run; [|done..].
  destruct v as [?|rMsg]; [|case_bool_decide]; by injection E as <- _.
Qed.

Lemma exec_runtime_outcome socket pio s r s' :
  is_Some socket ∨ is_Some pio → e_waitBlock s.1 = false →
  exec_runtime socket pio s = (r, s') → start_outcome s r s'.
Proof.
  intros Hio Hw. unfold exec_runtime.
  apply start_outcome_bind; [quiet|]. intros e s1 H1.
  apply start_outcome_bind; [quiet|]. intros p s2 H2.
  apply start_outcome_bind; [quiet|]. intros err s3 H3.
  destruct err as [err|].
  - intros E. unfold exec_close_waitBlock, eself, gets in E. unfold bind at 1 2 in E.
    assert (e_waitBlock s3.1 = false) as Hw3.
    { apply ecore_inv in H1 as (_ & H1 & _), H2 as (_ & H2 & _), H3 as (_ & H3 & _). congruence. }
    rewrite Hw3 in E. unfold eupd, modify in E.
    destruct (quiet_run _ _ _ _ _ (quiet_parent _ (quiet_runtimeError (Some err) _)) E) as [Hc Hp].
    split; [done|right]. split; [|done].
    unfold parent in E. destruct (runtimeError _ _ _) as [r1 s6] eqn:Er.
    injection E as <- _. by eapply runtimeError_fails.
  - apply start_outcome_bind; [unfold exec_openStdin; quiet|]. intros _ s4 H4.
    apply start_outcome_bind; [by apply quiet_exec_attach|]. intros _ s5 H5.
    apply start_outcome_bind; [quiet|]. intros pid s6 H6.
    intros E. by eapply (start_outcome_quiet (eupd (eset_pid pid))); [quiet|].
Qed.

Lemma start_outcome_defer d (m : EIO ()) s r s' :
  quiet ecore d → (∀ r1 s1, m s = (r1, s1) → start_outcome s r1 s1) →
  defer d m s = (r, s') → start_outcome s r s'.
Proof.
  intros Hd Hm. unfold defer. destruct (m s) as [r1 s1] eqn:E. destruct (Hm r1 s1 eq_refl) as [H1 H2].
  destruct (d s1) as [r2 s2] eqn:E2. apply (quiet_run _ _ _ _ _ Hd) in E2 as [Hc Hp].
  destruct r2 as [[]|e|x]; [..|by destruct (Hp x eq_refl)]; intros [= <- <-];
    (split; [done|rewrite Hc; done]).
Qed.

Lemma exec_start_outcome s r s' :
  e_waitBlock s.1 = false → exec_start s = (r, s') → start_outcome s r s'.
Proof.
  intros Hw. unfold exec_start.
  apply start_outcome_bind; [quiet|]. intros e s1 H1.
  apply start_outcome_bind; [quiet|]. intros p s2 H2.
  assert (∀ s3, ecore s3 = ecore s2 → e_waitBlock s3.1 = false) as Hw3.
  { intros s3 H3. apply ecore_inv in H1 as (_ & H1 & _), H2 as (_ & H2 & _), H3 as (_ & H3 & _).
    congruence. }
  destruct (Terminal (e_stdio e)).
  - apply start_outcome_bind; [quiet|]. intros socket s3 H3.
    apply start_outcome_defer; [quiet|]. intros r1 s4.
    apply exec_runtime_outcome; eauto.
  - apply start_outcome_bind; [quiet|]. intros pio s3 H3.
    apply start_outcome_bind; [quiet|]. intros _ s4 H4.
    apply exec_runtime_outcome; [eauto|apply Hw3; congruence].
Qed.

Lemma exec_setExited_run st (e : execProcess) p w r s' :
  e_waitBlock e = false → exec_setExited st (e, (p, w)) = (r, s') →
  r = Ok () ∧ e_execState s'.1 = e_execState e ∧ e_waitBlock s'.1 = true ∧
  e_status s'.1 = st ∧ is_Some (e_exited s'.1).
Proof.
  intros Hw. unfold exec_setExited, parent, now, exec_close_waitBlock, eext, parent, ext, ignore,
    eupd, eself, gets, modify, try, ret, bind.
  cbn [fst snd]. destruct (handle Now w) as [[er|t] w1]; cbn [fst snd];
    (match goal with |- context [handle (ShutdownConsole ?c) ?v] =>
       destruct (handle (ShutdownConsole c) v) as [[]] end);
    simpl; rewrite Hw; simpl; intros [= <- <-]; (split; [done|]); simpl; eauto.
Qed.

(** On a closed channel the exit of the process is a panic. *)
Lemma exec_setExited_closed st (e : execProcess) p w :
  e_waitBlock e = true →
  ∃ s', exec_setExited st (e, (p, w)) = (Panic "close of closed channel", s').
Proof.
  intros Hw. unfold exec_setExited, parent, now, exec_close_waitBlock, eext, parent, ext, ignore,
    eupd, eself, gets, modify, try, ret, bind.
  cbn [fst snd]. destruct (handle Now w) as [[er|t] w1]; cbn [fst snd];
    (match goal with |- context [handle (ShutdownConsole ?c) ?v] =>
       destruct (handle (ShutdownConsole c) v) as [[]] end);
    simpl; rewrite Hw; simpl; by eexists.
Qed.

(** What one operation guarantees on a healthy process. *)
Definition step_outcome (e : execProcess) (o : eop) (r : result ()) (s' : execProcess * (Init * W)) :=
  (∀ x, r ≠ Panic x) ∧
  e_execState s'.1 = enext (e_execState e) o (is_ok r) ∧
  (healthy s'.1 ∨ o = EStart ∧ is_ok r = false ∧ half_started s'.1).

Lemma step_quiet e s o r s' (m : EIO ()) :
  healthy e → quiet ecore m → m (e, s) = (r, s') →
  (∀ b, enext (e_execState e) o b = e_execState e) → step_outcome e o r s'.
Proof.
  intros Hh Hm Em Hn. apply (quiet_run _ _ _ _ _ Hm) in Em as [Hc Hp].
  split; [done|]. split; [|left; by eapply (healthy_core (e, s))].
  apply ecore_inv in Hc as (-> & _). by rewrite Hn.
Qed.

Lemma step_Start e s r s' : healthy e → exec_Start (e, s) = (r, s') → step_outcome e EStart r s'.
Proof.
  intros Hh E. unfold exec_Start, exec_dispatch, eself, gets, bind at 1 in E; simpl in E.
  destruct (e_execState e) eqn:Hs; simpl in E.
  2-4: eapply step_quiet; [done|apply quiet_throw|exact E|by rewrite Hs].
  unfold healthy in Hh; rewrite Hs in Hh; destruct Hh as [Hw Hx].
  apply bind_run in E as [([] & s1 & E1 & E)|[(er & E1 & ->)|(x & E1 & ->)]];
    apply exec_start_outcome in E1 as [Hp Ho]; try done.
  - destruct Ho as [Hc|[? _]]; [|done]. injection E as <- <-.
    apply ecore_inv in Hc as (H1 & H2 & H3 & H4); simpl in *.
    unfold step_outcome, healthy; simpl. rewrite Hs, H2, H4. naive_solver.
  - destruct Ho as [Hc|[_ Hc]]; apply ecore_inv in Hc as (H1 & H2 & H3 & H4); simpl in *;
      unfold step_outcome, healthy, half_started; simpl; rewrite H1, H2, H4, Hs; naive_solver.
  - by destruct (Hp x).
Qed.

Lemma step_Delete e s r s' : healthy e → exec_Delete (e, s) = (r, s') → step_outcome e EDelete r s'.
Proof.
  intros Hh E. unfold exec_Delete, exec_dispatch, eself, gets, bind at 1 in E; simpl in E.
  destruct (e_execState e) eqn:Hs; simpl in E.
  2,4: eapply step_quiet; [done|apply quiet_throw|exact E|by rewrite Hs].
  all: apply (equiet_then _ _ _ _ _ quiet_exec_delete) in E as [([] & s1 & Hc & E)|(er & -> & Hc)];
    [injection E as <- <-; unfold step_outcome, healthy; simpl; rewrite Hs; naive_solver|];
    split; [done|]; split; [|left; by eapply (healthy_core (e, s))];
    apply ecore_inv in Hc as (-> & _); simpl; by rewrite Hs.
Qed.

Lemma step_SetExited st e s r s' :
  healthy e → exec_SetExited st (e, s) = (r, s') → step_outcome e (ESetExited st) r s'.
Proof.
  intros Hh E. unfold exec_SetExited, exec_dispatch, eself, gets, bind at 1 in E; simpl in E.
  destruct s as [p w]. destruct (e_execState e) eqn:Hs; simpl in E.
  3,4: eapply step_quiet; [done|apply (quiet_ret ecore tt)|exact E|by rewrite Hs].
  all: unfold healthy in Hh; rewrite Hs in Hh; destruct Hh as [Hw Hx];
    apply bind_run in E as [([] & s1 & E1 & E)|[(er & E1 & ->)|(x & E1 & ->)]];
    apply exec_setExited_run in E1 as (Ho & H1 & H2 & H3 & H4); try done;
    injection E as <- <-; unfold step_outcome, healthy; simpl; rewrite Hs; naive_solver.
Qed.

(** C32. On a healthy exec process no operation panics, and the state changes exactly as
    [enext] says. The process stays healthy, except in one case: a [Start] that fails
    may leave it in state [created] with its wait channel already closed. *)
Theorem exec_step e s o r s' :
  healthy e → run_eop o (e, s) = (r, s') →
  (∀ x, r ≠ Panic x) ∧
  e_execState s'.1 = enext (e_execState e) o (is_ok r) ∧
  (healthy s'.1 ∨ o = EStart ∧ is_ok r = false ∧ half_started s'.1).
Proof.
  intros Hh E. change (step_outcome e o r s').
  destruct o; simpl in E.
  1: by eapply step_Start. 1: by eapply step_Delete. 3: by eapply step_SetExited.
  all: eapply step_quiet; [done| |exact E|by destruct (e_execState e)].
  - unfold exec_Kill, exec_dispatch.
    quiet; match goal with |- context [exec_methods ?st] => destruct st end; simpl; quiet; apply quiet_exec_kill.
  - unfold exec_Resize, exec_dispatch.
    quiet; match goal with |- context [exec_methods ?st] => destruct st end; simpl; quiet; apply quiet_exec_resize.
  - apply quiet_exec_Status.
Qed.

(** A start that succeeds touches neither the state nor the wait channel. *)
Definition ok_quiet {A} (m : EIO A) : Prop :=
  ∀ s a s', m s = (Ok a, s') → ecore s' = ecore s.

Lemma ok_quiet_quiet {A} (m : EIO A) : quiet ecore m → ok_quiet m.
Proof. intros Hm s a s' E. by apply (quiet_run _ _ _ _ _ Hm) in E as [? _]. Qed.

Lemma ok_quiet_bind {A B} (m : EIO A) (k : A → EIO B) :
  ok_quiet m → (∀ a, ok_quiet (k a)) → ok_quiet (bind m k).
Proof.
  intros Hm Hk s b s' [(a & s1 & E1 & E2)|[(?&_&[=])|(?&_&[=])]]%bind_run.
  rewrite (Hk a _ _ _ E2). by eapply Hm.
Qed.

Lemma ok_quiet_defer {A} d (m : EIO A) : quiet ecore d → ok_quiet m → ok_quiet (defer d m).
Proof.
  intros Hd Hm s a s'. unfold defer. destruct (m s) as [r s1] eqn:E1.
  destruct (d s1) as [r2 s2] eqn:E2. apply (quiet_run _ _ _ _ _ Hd) in E2 as [Hc Hp].
  destruct r2 as [[]|er|x]; [..|done]; intros [= -> <-]; rewrite Hc; by eapply Hm.
Qed.

Lemma ok_quiet_exec_runtime socket pio :
  is_Some socket ∨ is_Some pio → ok_quiet (exec_runtime socket pio).
Proof.
  intros Hio. unfold exec_runtime.
  do 3 (apply ok_quiet_bind; [apply ok_quiet_quiet; quiet|intros ?]).
  destruct a1 as [err|].
  - intros s a' s' [([] & s1 & _ & E)|[(?&_&[=])|(?&_&[=])]]%bind_run.
    unfold parent in E. destruct (runtimeError _ _ _) as [r1 s6] eqn:Er.
    apply runtimeError_fails in Er. by injection E as -> _.
  - apply ok_quiet_quiet, quiet_bind; [unfold exec_openStdin; quiet|intros _].
    apply quiet_bind; [by apply quiet_exec_attach|intros _; quiet].
Qed.

Lemma ok_quiet_exec_start : ok_quiet exec_start.
Proof.
  unfold exec_start. do 2 (apply ok_quiet_bind; [apply ok_quiet_quiet; quiet|intros ?]).
  destruct (Terminal _).
  - apply ok_quiet_bind; [apply ok_quiet_quiet; quiet|intros ?].
    apply ok_quiet_defer; [quiet|]. apply ok_quiet_exec_runtime; eauto.
  - do 2 (apply ok_quiet_bind; [apply ok_quiet_quiet; quiet|intros ?]).
    apply ok_quiet_exec_runtime; eauto.
Qed.

(** Once the runtime has refused the start of an exec process, its wait channel is
    closed: its exit is a panic of the shim, and when it is started again with success
    the exit of the then running process is a panic, too. *)
Theorem exec_half_started_panics e p w st :
  half_started e →
  (∃ s', exec_SetExited st (e, (p, w)) = (Panic "close of closed channel", s')) ∧
  (∀ e2 p2 w2, exec_Start (e, (p, w)) = (Ok (), (e2, (p2, w2))) →
     e_execState e2 = execRunningState ∧
     ∃ s', exec_SetExited st (e2, (p2, w2)) = (Panic "close of closed channel", s')).
Proof.
  intros (Hs & Hw & Hx). split.
  - destruct (exec_setExited_closed st e p w Hw) as [s' E]. exists s'.
    unfold exec_SetExited, exec_dispatch, eself, gets, bind at 1; simpl. rewrite Hs; simpl.
    unfold bind. by rewrite E.
  - intros e2 p2 w2 E. unfold exec_Start, exec_dispatch, eself, gets, bind at 1 in E; simpl in E.
    rewrite Hs in E; simpl in E.
    apply bind_run in E as [([] & [e1 [p1 w1]] & E1 & E)|[(?&_&[=])|(?&_&[=])]].
    apply ok_quiet_exec_start in E1. apply ecore_inv in E1 as (H1 & H2 & _). simpl in *.
    injection E as <- <- <-. split; [done|].
    destruct (exec_setExited_closed st (eset_state execRunningState e1) p1 w1) as [s' E];
      [simpl; congruence|].
    exists s'. unfold exec_SetExited, exec_dispatch, eself, gets, bind at 1; simpl.
    unfold bind. by rewrite E.
Qed.

(** An exec process reports the container's state while the container is paused or
    being paused, and its own state otherwise. *)
Theorem exec_Status_spec e p (w : W) :
  exec_Status (e, (p, w)) =
  (Ok (if p_pausing p then "pausing"
       else match p_initState p with
            | pausedState => "paused"
            | _ => x_Status (exec_methods (e_execState e))
            end), (e, (p, w))).
Proof.
  unfold exec_Status, parent, Status, dispatch, self, gets, bind; simpl.
  destruct (p_pausing p); [done|]. simpl.
  by destruct (p_initState p) eqn:Hs; simpl.
Qed.
End Theorems.

(** ** A runtime that refuses the first exec only *)

Definition flaky_handle {A} (c : call A) (w : bool) : (error + A) * bool :=
  match c with
  | RuntimeExec _ _ _ =>
      if w then (inr tt, w) else (inl (ErrNew "cannot exec in a frozen cgroup"), true)
  | c' => (inr (ok_answer c'), w)
  end.

#[export] Instance flaky : Env bool := {| handle := @flaky_handle; strerror := λ n, Itoa n |}.

Definition example_exec : execProcess := {|
  e_execState := execCreatedState; e_id := "e1"; e_console := None; e_io := None;
  e_status := 0; e_exited := None; e_pid := 0; e_closers := []; e_stdin := None;
  e_stdio := example_stdio; e_path := "/b"; e_spec := {| ps_rest := 7; ps_Terminal := false |};
  e_waitBlock := false |}.

Lemma exec_step_witness :
  e_execState (fst (snd (run_eop (W := bool) EStart (example_exec, (example_process, true))))) =
  execRunningState.
Proof.
  exact (proj1 (proj2 (exec_step example_exec (example_process, true) EStart _ _
    (conj eq_refl eq_refl) (surjective_pairing _)))).
Defined.

(** The first start fails, the second succeeds, the exit panics. *)
Definition refused_exec : execProcess :=
  fst (snd (exec_Start (W := bool) (example_exec, (example_process, false)))).

Lemma exec_half_started_panics_witness :
  half_started refused_exec ∧
  ∃ e2 s' s'', exec_Start (W := bool) (refused_exec, (example_process, true)) = (Ok (), (e2, s')) ∧
    exec_SetExited 137 (e2, s') = (Panic "close of closed channel", s'').
Proof.
  assert (half_started refused_exec) as Hh by (split; [|split]; vm_compute; reflexivity).
  split; [exact Hh|].
  destruct (exec_half_started_panics refused_exec example_process true 137 Hh) as [_ H2].
  destruct (H2 _ _ _ eq_refl) as [_ [s'' Hp]].
  eexists _, _, s''. split; [reflexivity|exact Hp].
Defined.
