(* ===== verification/Container.v ===== *)
(** * Containers of libcontainer: configuration, object and environment

    The data of [libcontainer/container_linux.go] and of the parts of [libcontainer/configs]
    and [utils] it uses, the calls a container makes (cgroup manager, processes, files,
    hooks, CRIU), and the small pure functions on configurations. The state machine is in
    ContainerState.v, checkpoint and restore in Criu.v. *)

From S2P Require Import Prelude GoStd GoMonad.

(** ** Status *)

Inductive Status := Created | Running | Pausing | Paused | Stopped.

#[export] Instance Status_eq_dec : EqDecision Status.
Proof. solve_decision. Defined.

Definition Status_String (s : Status) : string :=
  match s with
  | Created => "created" | Running => "running" | Pausing => "pausing"
  | Paused => "paused" | Stopped => "stopped"
  end.

(** ** Namespaces ([configs/namespaces_linux.go]) *)

Abbreviation NamespaceType := string (only parsing).
Definition NEWNET : NamespaceType := "NEWNET".
Definition NEWPID : NamespaceType := "NEWPID".
Definition NEWNS : NamespaceType := "NEWNS".
Definition NEWUTS : NamespaceType := "NEWUTS".
Definition NEWIPC : NamespaceType := "NEWIPC".
Definition NEWUSER : NamespaceType := "NEWUSER".
Definition NEWCGROUP : NamespaceType := "NEWCGROUP".

Definition NsName (ns : NamespaceType) : string :=
  if decide (ns = NEWNET) then "net"
  else if decide (ns = NEWNS) then "mnt"
  else if decide (ns = NEWPID) then "pid"
  else if decide (ns = NEWIPC) then "ipc"
  else if decide (ns = NEWUSER) then "user"
  else if decide (ns = NEWUTS) then "uts"
  else if decide (ns = NEWCGROUP) then "cgroup"
  else "".

Definition NamespaceTypes : list NamespaceType :=
  [NEWUSER; NEWIPC; NEWUTS; NEWNET; NEWPID; NEWNS; NEWCGROUP].

Record Namespace := mk_Namespace { ns_Type : NamespaceType; ns_Path : string }.

Definition GetPath (ns : Namespace) (pid : Z) : string :=
  "/proc/" +:+ Itoa pid +:+ "/ns/" +:+ NsName (ns_Type ns).

(** [Namespaces.index], with [None] for -1. *)
Fixpoint ns_index (n : list Namespace) (t : NamespaceType) : option nat :=
  match n with
  | [] => None
  | ns :: n' => if decide (ns_Type ns = t) then Some 0%nat else S <$> ns_index n' t
  end.

Definition ns_Contains (n : list Namespace) (t : NamespaceType) : bool :=
  bool_decide (is_Some (ns_index n t)).

Definition ns_PathOf (n : list Namespace) (t : NamespaceType) : string :=
  match ns_index n t with
  | None => ""
  | Some i => match n !! i with Some ns => ns_Path ns | None => "" end
  end.

Definition ns_Remove (n : list Namespace) (t : NamespaceType) : bool * list Namespace :=
  match ns_index n t with
  | None => (false, n)
  | Some i => (true, take i n ++ drop (S i) n)
  end.

Definition ns_Add (n : list Namespace) (t : NamespaceType) (path : string) : list Namespace :=
  match ns_index n t with
  | None => n ++ [{| ns_Type := t; ns_Path := path |}]
  | Some i => match n !! i with
              | Some ns => <[i := {| ns_Type := ns_Type ns; ns_Path := path |}]> n
              | None => n
              end
  end.

(** ** The configuration, as far as it is read *)

Record IDMap := mk_IDMap { im_ContainerID : Z; im_HostID : Z; im_Size : Z }.

#[export] Instance IDMap_eq_dec : EqDecision IDMap.
Proof. solve_decision. Defined.

(** A command is only handed on. *)
Record MountOptions := mk_MountOptions {
  mo_Flags : Z;
  mo_PropagationFlags : list Z;
  mo_Data : string;
  mo_Relabel : string;
  mo_Extensions : Z;
  mo_PremountCmds : list string;
  mo_PostmountCmds : list string
}.

Definition no_options : MountOptions := mk_MountOptions 0 [] "" "" 0 [] [].

Record Mount := mk_Mount {
  mt_Source : string; mt_Destination : string; mt_Device : string; mt_Options : MountOptions
}.

Record Network := mk_Network { nw_Type : string; nw_Name : string; nw_HostInterfaceName : string }.

Record Route := mk_Route {
  rt_Destination : string; rt_Source : string; rt_Gateway : string; rt_InterfaceName : string
}.
Record Rlimit := mk_Rlimit { rl_Type : Z; rl_Hard : Z; rl_Soft : Z }.
Record Capabilities := mk_Capabilities {
  cap_Bounding : list string; cap_Effective : list string; cap_Inheritable : list string;
  cap_Permitted : list string; cap_Ambient : list string
}.

(** The fields that are read only when a process is started; [sg_Seccomp] stands for a
    profile, which is only handed on. *)
Record Settings := mk_Settings {
  sg_NoPivotRoot : bool;
  sg_Umask : option Z;
  sg_Readonlyfs : bool;
  sg_ParentDeathSignal : Z;
  sg_MountLabel : string;
  sg_Hostname : string;
  sg_Capabilities : option Capabilities;
  sg_Routes : list Route;
  sg_AppArmorProfile : string;
  sg_ProcessLabel : string;
  sg_Rlimits : list Rlimit;
  sg_ReadonlyPaths : list string;
  sg_Sysctl : gmap string string;
  sg_Seccomp : option Z;
  sg_NoNewPrivileges : bool;
  sg_NoNewKeyring : bool
}.

Definition no_settings : Settings :=
  mk_Settings false None false 0 "" "" None [] "" "" [] [] ∅ None false false.

(** [cf_Hooks] tells whether the hook map is non-nil; [cf_resources] stands for the
    cgroup resources, which are only handed on. *)
Record Config := mk_Config {
  cf_Rootfs : string;
  cf_Namespaces : list Namespace;
  cf_UidMappings : list IDMap;
  cf_GidMappings : list IDMap;
  cf_RootlessEUID : bool;
  cf_RootlessCgroups : bool;
  cf_OomScoreAdj : option Z;
  cf_Labels : list string;
  cf_Hooks : bool;
  cf_Mounts : list Mount;
  cf_MaskPaths : list string;
  cf_Devices : list string;
  cf_Networks : list Network;
  cf_resources : Z;
  cf_Settings : Settings
}.

(** [configs/config_linux.go]: host ids under the user namespace mappings. Go's nil
    and empty mappings differ only in the text of the error. *)
Definition hostIDFromMapping (containerID : Z) (uMap : list IDMap) : option Z :=
  match list_find (λ m, im_ContainerID m ≤ containerID ∧
                        containerID ≤ wraps 64 (im_ContainerID m + im_Size m - 1)) uMap with
  | Some (_, m) => Some (wraps 64 (im_HostID m + (containerID - im_ContainerID m)))
  | None => None
  end.

Definition HostUID (c : Config) (containerId : Z) : result Z :=
  if ns_Contains (cf_Namespaces c) NEWUSER then
    match hostIDFromMapping containerId (cf_UidMappings c) with
    | Some id => Ok id
    | None => Err (ErrNew "User namespaces enabled, but no user mapping found.")
    end
  else Ok containerId.

Definition HostGID (c : Config) (containerId : Z) : result Z :=
  if ns_Contains (cf_Namespaces c) NEWUSER then
    match hostIDFromMapping containerId (cf_GidMappings c) with
    | Some id => Ok id
    | None => Err (ErrNew "User namespaces enabled, but no group mapping found.")
    end
  else Ok containerId.

(** ** Labels ([utils.Annotations]) *)

(** [strings.SplitN(l, sep, 2)]; [None] when [sep] does not occur. *)
Fixpoint cut (sep : ascii) (s : string) : option (string * string) :=
  match s with
  | EmptyString => None
  | String c s' =>
      if decide (c = sep) then Some ("", s')
      else (λ p, (String c p.1, p.2)) <$> cut sep s'
  end.

Definition annotate (acc : string * gmap string string) (l : string)
  : string * gmap string string :=
  match cut "=" l with
  | None => acc
  | Some (k, v) => if decide (k = "bundle") then (v, acc.2) else (acc.1, <[k := v]> acc.2)
  end.

Definition Annotations (labels : list string) : string * gmap string string :=
  foldl annotate ("", ∅) labels.

(** [network_linux.go]: the only known network type is loopback, whose operations do
    nothing, but [initialize], which sets the device up. *)
Definition getStrategy (tpe : string) : result () :=
  if decide (tpe = "loopback") then Ok tt else Err (ErrNew ("unknown strategy type " +:+ tpe)).

(** ** Errors *)

Inductive ErrorCode :=
  | IdInUse | InvalidIdFormat
  | ContainerNotExists | ContainerPaused | ContainerNotStopped | ContainerNotRunning | ContainerNotPaused
  | NoProcessOps
  | ConfigInvalid | ConsoleExists | SystemError.

Definition code_text (c : ErrorCode) : string :=
  match c with
  | IdInUse => "Id already in use"
  | InvalidIdFormat => "Invalid format"
  | ContainerPaused => "Container paused"
  | ConfigInvalid => "Invalid configuration"
  | SystemError => "System error"
  | ContainerNotExists => "Container does not exist"
  | ContainerNotStopped => "Container is not stopped"
  | ContainerNotRunning => "Container is not running"
  | ConsoleExists => "Console exists for process"
  | ContainerNotPaused => "Container is not paused"
  | NoProcessOps => "No process operations"
  end.

(** [newGenericError]: the code travels with the error. *)
Definition newGenericError (msg : string) (c : ErrorCode) : error :=
  ErrWrap (code_text c) (ErrNew msg).

(** ** Processes *)

(** The implementations of [parentProcess] a container can hold: the init process it
    started, a process CRIU restored, and a process found in a state file. *)
Inductive parentProcess :=
  | initProcess (pid : Z) (fds : list string)
  | restoredProcess (pid startTime : Z) (fds : list string)
  | nonChildProcess (pid startTime : Z) (fds : list string).

Definition pp_pid (p : parentProcess) : Z :=
  match p with
  | initProcess pid _ => pid
  | restoredProcess pid _ _ | nonChildProcess pid _ _ => pid
  end.

Definition pp_externalDescriptors (p : parentProcess) : list string :=
  match p with
  | initProcess _ fds => fds
  | restoredProcess _ _ fds | nonChildProcess _ _ fds => fds
  end.

(** [system.Stat_t], the fields in use; the state is the letter of proc(5). *)
Record Stat_t := mk_Stat_t { st_State : ascii; st_StartTime : Z }.
Definition Zombie : ascii := "Z".
Definition Dead : ascii := "X".

Inductive FreezerState := Undefined | Frozen | Thawed.

#[export] Instance FreezerState_eq_dec : EqDecision FreezerState.
Proof. solve_decision. Defined.

(** [specs.State]. *)
Record OCIState := mk_OCIState {
  os_Version : string; os_ID : string; os_Status : string; os_Pid : Z;
  os_Bundle : string; os_Annotations : gmap string string
}.

(** The FIFO in the directory of a container that its init waits at. *)
Definition execFifoFilename : string := "exec.fifo".

(** [State], what is written to state.json. *)
Record State := mk_State {
  s_ID : string;
  s_Config : Config;
  s_InitProcessPid : Z;
  s_InitProcessStartTime : Z;
  s_Created : Z;
  s_Rootless : bool;
  s_CgroupPaths : gmap string string;
  s_IntelRdtPath : string;
  s_NamespacePaths : gmap string string;
  s_ExternalDescriptors : list string
}.

(** ** CRIU messages ([github.com/checkpoint-restore/go-criu]), the fields in use *)

Inductive CriuReqType :=
  | DUMP | RESTORE | PRE_DUMP | FEATURE_CHECK | NOTIFY | VERSION | OTHER_TYPE.

#[export] Instance CriuReqType_eq_dec : EqDecision CriuReqType.
Proof. solve_decision. Defined.

Record ExtMountMap := mk_ExtMountMap { em_Key : string; em_Val : string }.
Record InheritFd := mk_InheritFd { if_Key : string; if_Fd : Z }.
Record JoinNamespace := mk_JoinNamespace { jn_Ns : string; jn_NsFile : string }.
Record CriuVethPair := mk_CriuVethPair { vp_IfIn : string; vp_IfOut : string }.
Record CgroupRoot := mk_CgroupRoot { cr_Ctrl : string; cr_Path : string }.

(** [criurpc.CriuOpts] in three groups: what is set when the message is made, the
    settings that may be added, and the lists that grow. [None] is a nil pointer. *)
Record RpcBase := mk_RpcBase {
  rb_ImagesDirFd : Z; rb_WorkDirFd : Z; rb_LogFile : string; rb_Root : string;
  rb_Pid : option Z; rb_EvasiveDevices : bool; rb_RstSibling : bool;
  rb_ShellJob : bool; rb_LeaveRunning : bool; rb_TcpEstablished : bool; rb_ExtUnixSk : bool;
  rb_FileLocks : bool; rb_EmptyNs : Z; rb_AutoDedup : bool; rb_LazyPages : bool
}.

Record RpcSettings := mk_RpcSettings {
  ro_ConfigFile : option string; ro_FreezeCgroup : option string;
  ro_Ps : option (string * Z); ro_ParentImg : option string; ro_TrackMem : bool;
  ro_ManageCgroupsMode : option Z; ro_StatusFd : option Z
}.

Record RpcLists := mk_RpcLists {
  ro_External : list string; ro_ExtMnt : list ExtMountMap; ro_InheritFd : list InheritFd;
  ro_JoinNs : list JoinNamespace; ro_Veths : list CriuVethPair; ro_CgRoot : list CgroupRoot
}.

Record RpcOpts := mk_RpcOpts { ro_base : RpcBase; ro_set : RpcSettings; ro_lists : RpcLists }.

(** [criurpc.CriuFeatures]. *)
Record CriuFeatures := mk_CriuFeatures { cf_MemTrack : option bool; cf_LazyPages : option bool }.

Record CriuReq := mk_CriuReq {
  rq_Type : CriuReqType; rq_Opts : option RpcOpts; rq_Features : option CriuFeatures;
  rq_NotifySuccess : bool
}.

Record CriuNotify := mk_CriuNotify { cn_Script : string; cn_Pid : Z }.
Record CriuResp := mk_CriuResp {
  rs_Type : CriuReqType; rs_Success : bool; rs_CrErrno : Z; rs_Notify : option CriuNotify;
  rs_Features : option CriuFeatures
}.

(** [mountinfo.Info] of [github.com/moby/sys], the fields in use. *)
Record MountInfo := mk_MountInfo { mi_Root : string; mi_Mountpoint : string; mi_VFSOptions : string }.

(** ** The calls a container makes *)

Inductive ccall : Type → Type :=
  (* cgroups.Manager and intelrdt.Manager *)
  | Freeze (s : FreezerState) : ccall ()
  | GetFreezerState : ccall FreezerState
  | CgroupDestroy : ccall ()
  | CgroupExists : ccall bool
  | CgroupGetAllPids : ccall (list Z)
  | CgroupGetPaths : ccall (gmap string string)
  | CgroupPath (subsys : string) : ccall string
  | CgroupSet (c : Config) : ccall ()
  | CgroupApply (pid : Z) : ccall ()
  | IsCgroup2UnifiedMode : ccall bool
  | ReadCgroupMountinfo : ccall (list MountInfo)
  | IntelRdtSet (c : Config) : ccall ()
  | IntelRdtDestroy : ccall ()
  | GetIntelRdtPath (id : string) : ccall string
  (* processes *)
  | SystemStat (pid : Z) : ccall Stat_t
  | SignalPid (pid sig : Z) : ccall ()
  | GetSubreaper : ccall Z
  | IsWaitable (pid : Z) : ccall bool
  | WaitPid (pid : Z) : ccall ()
  | RunHooks (hook : string) (s : OCIState) : ccall ()
  (* files *)
  | OsStat (path : string) : ccall bool (* is it a directory? *)
  | StatfsType (path : string) : ccall Z
  | Readlink (path : string) : ccall string
  | OpenRead (path : string) : ccall reader
  | OpenCreate (path : string) : ccall Z
  | Lstat (path : string) : ccall ()
  | StatIno (path : string) : ccall Z
  | OsOpen (path : string) : ccall Z
  | OsClose (fd : Z) : ccall ()
  | OsCreate (path : string) : ccall Z
  | OsMkdir (path : string) (mode : Z) : ccall ()
  | MkdirAll (path : string) : ccall ()
  | OsRemove (path : string) : ccall ()
  | OsRemoveAll (path : string) : ccall ()
  | OsRename (from to : string) : ccall ()
  | TempFile (dir prefix : string) : ccall string
  | WriteJSON (file : string) (s : State) : ccall ()
  | CloseTemp (file : string) : ccall ()
  | WriteFds (path : string) (fds : list string) : ccall ()
  | ReadFds (path : string) : ccall (list string)
  | EvalSymlinks (path : string) : ccall string
  | UnixMount (source target : string) : ccall ()
  | UnixUnmount (target : string) : ccall ()
  | SecureJoin (root path : string) : ccall string
  | FcntlGetFl (fd : Z) : ccall Z
  | WriteStatusFd (fd : Z) : ccall ()
  | ParseSocketControlMessage (oob : string) : ccall (list string)
  | ParseUnixRights (scm : string) : ccall (list Z)
  | SendFd (fd : Z) : ccall ()
  | AwaitExecFifo (path : string) : ccall (option string) (* None: 100ms have passed *)
  | OpenExecFifo (path : string) : ccall string
  (* CRIU *)
  | GetCriuVersion (path : string) : ccall Z
  (* the socket pair and `criu swrk 3`: the pid, and the messages CRIU will send (with
     their out-of-band data) before it closes the socket *)
  | CriuConnect (fds : list Z) : ccall (Z * list (error + (CriuResp * string)))
  | CriuWrite (r : CriuReq) : ccall ()
  | CriuCloseWrite : ccall ()
  | CriuClose : ccall ()
  | CriuWait (pid : Z) : ccall bool
  | TimeNow : ccall Z.

(** ** The container object *)

Inductive containerState :=
  | stoppedState
  | runningState
  | createdState
  | pausedState
  | restoredState (imageDir : string)
  | loadedState (s : Status).

#[export] Instance containerState_eq_dec : EqDecision containerState.
Proof. solve_decision. Defined.

Record linuxContainer := mk_linuxContainer {
  c_id : string;
  c_root : string;
  c_config : Config;
  c_intelRdtManager : bool;
  c_initProcess : option parentProcess;
  c_initProcessStartTime : Z;
  c_criuPath : string;
  c_criuVersion : Z;
  c_state : containerState;
  c_created : Z;
  c_newuidmapPath : string;
  c_newgidmapPath : string
}.

Definition set_config (v : Config) (c : linuxContainer) : linuxContainer :=
  mk_linuxContainer (c_id c) (c_root c) v (c_intelRdtManager c) (c_initProcess c)
    (c_initProcessStartTime c) (c_criuPath c) (c_criuVersion c) (c_state c) (c_created c)
    (c_newuidmapPath c) (c_newgidmapPath c).
Definition set_initProcess (v : option parentProcess) (c : linuxContainer) : linuxContainer :=
  mk_linuxContainer (c_id c) (c_root c) (c_config c) (c_intelRdtManager c) v
    (c_initProcessStartTime c) (c_criuPath c) (c_criuVersion c) (c_state c) (c_created c)
    (c_newuidmapPath c) (c_newgidmapPath c).
Definition set_criuVersion (v : Z) (c : linuxContainer) : linuxContainer :=
  mk_linuxContainer (c_id c) (c_root c) (c_config c) (c_intelRdtManager c) (c_initProcess c)
    (c_initProcessStartTime c) (c_criuPath c) v (c_state c) (c_created c)
    (c_newuidmapPath c) (c_newgidmapPath c).
Definition set_state (v : containerState) (c : linuxContainer) : linuxContainer :=
  mk_linuxContainer (c_id c) (c_root c) (c_config c) (c_intelRdtManager c) (c_initProcess c)
    (c_initProcessStartTime c) (c_criuPath c) (c_criuVersion c) v (c_created c)
    (c_newuidmapPath c) (c_newgidmapPath c).
Definition set_created (v : Z) (c : linuxContainer) : linuxContainer :=
  mk_linuxContainer (c_id c) (c_root c) (c_config c) (c_intelRdtManager c) (c_initProcess c)
    (c_initProcessStartTime c) (c_criuPath c) (c_criuVersion c) (c_state c) v
    (c_newuidmapPath c) (c_newgidmapPath c).

(** The monad of the container methods. *)
Abbreviation CIO W A := (M (linuxContainer * W) A).

(** ** Laws of namespaces lists *)

Lemma ns_index_Some n t i : ns_index n t = Some i →
  ∃ ns, n !! i = Some ns ∧ ns_Type ns = t ∧ (∀ j ns', (j < i)%nat → n !! j = Some ns' → ns_Type ns' ≠ t).
Proof.
  revert i; induction n as [|a n IH]; simpl; intros i Hi; [done|].
  case_decide as Ht.
  { injection Hi as <-. exists a. split_and!; [done|done|]. intros j ? ?; lia. }
  apply fmap_Some in Hi as (i' & Hi' & ->). apply IH in Hi' as (ns & H1 & H2 & H3).
  exists ns. split_and!; [done|done|]. intros [|j] ns' Hj Hl; simpl in Hl.
  - by injection Hl as <-.
  - eapply H3; [|exact Hl]. lia.
Qed.

Lemma ns_index_None n t : ns_index n t = None ↔ t ∉ (ns_Type <$> n).
Proof.
  induction n as [|a n IH]; simpl; [split; [intros _; apply not_elem_of_nil|done]|].
  case_decide as Ht; [split; [done|set_solver]|].
  rewrite fmap_None, IH. set_solver.
Qed.
