(* ===== verification/CgroupUtils.v ===== *)
(** * Cgroup hierarchies of a process

    Models the parts of [libcontainer/cgroups/utils.go] and [v1_utils.go] that find out
    in which cgroup a process is and where the hierarchies are mounted, and the
    conversions of cgroup v1 limits to v2 and of huge page sizes. The mount table comes
    from the [mountinfo] package and files from the kernel, as calls. *)

From S2P Require Import Prelude GoStd GoPath GoMonad Container.

Definition CgroupNamePrefix : string := "name=".
Definition unifiedMountpoint : string := "/sys/fs/cgroup".

Definition NotFoundError (sub : string) : error :=
  ErrNew ("mountpoint for " +:+ sub +:+ " not found").
Definition errUnified : error := ErrNew "not implemented for cgroup v2 unified hierarchy".

(** ** /proc/<pid>/cgroup *)

(** One line: the subsystems of the second field get the path of the third, which may
    hold more colons. *)
Definition parse_entry (cgroups : gmap string string) (text : string)
  : result (gmap string string) :=
  let bad := ErrNew ("invalid cgroup entry: must contain at least two colons: " +:+ text) in
  match cut ":" text with
  | None => Err bad
  | Some (_, rest) =>
      match cut ":" rest with
      | None => Err bad
      | Some (subsystems, path) =>
          Ok (foldl (λ m subs, <[subs := path]> m) cgroups (Split "," subsystems))
      end
  end.

Definition parseCgroupFromReader (r : reader) : result (gmap string string) :=
  let '(lines, err) := scan_lines r in
  let! cgroups := foldM parse_entry ∅ lines in
  match err with Some e => Err e | None => Ok cgroups end.

(** ** Mounts of the hierarchies *)

(** [cgroups.Mount]. *)
Record CgroupMount := mk_CgroupMount {
  cm_Mountpoint : string; cm_Root : string; cm_Subsystems : list string
}.

Definition getControllerPath (v2 : bool) (subsystem : string) (cgroups : gmap string string)
  : result string :=
  if v2 then Err errUnified
  else match cgroups !! subsystem with
       | Some p => Ok p
       | None => match cgroups !! (CgroupNamePrefix +:+ subsystem) with
                 | Some p => Ok p
                 | None => Err (NotFoundError subsystem)
                 end
       end.

(** [Mount.GetOwnCgroup]. *)
Definition Mount_GetOwnCgroup (v2 : bool) (m : CgroupMount) (cgroups : gmap string string)
  : result string :=
  match cm_Subsystems m with
  | [] => Err (ErrNew "no subsystem for mount")
  | s :: _ => getControllerPath v2 s cgroups
  end.

(** One VFS option of a mount: the map of the subsystems seen, the subsystems of the
    mount and the count of those found. *)
Definition opt_step (all : bool) (st : gmap string bool * list string * nat) (opt : string)
  : gmap string bool * list string * nat :=
  let '(ss, subs, numFound) := st in
  match ss !! opt with
  | None => st
  | Some seen =>
      if negb all && seen then st
      else (<[opt := true]> ss, subs ++ [TrimPrefix opt CgroupNamePrefix], S numFound)
  end.

Fixpoint mounts_loop (all : bool) (ss : gmap string bool) (numFound : nat)
  (mounts : list MountInfo) : list CgroupMount :=
  match mounts with
  | [] => []
  | mi :: mounts' =>
      let '(ss, subs, numFound) :=
        foldl (opt_step all) (ss, [], numFound) (Split "," (mi_VFSOptions mi)) in
      let res := if negb (bool_decide (subs = [])) || all
                 then [{| cm_Mountpoint := mi_Mountpoint mi; cm_Root := mi_Root mi;
                          cm_Subsystems := subs |}] else [] in
      if negb all && bool_decide (size ss ≤ numFound)%nat then res
      else res ++ mounts_loop all ss numFound mounts'
  end.

Definition getCgroupMountsHelper (ss : gmap string bool) (mounts : list MountInfo) (all : bool)
  : list CgroupMount := mounts_loop all ss 0 mounts.

Fixpoint findCgroupMountpointAndRootFromMI (mounts : list MountInfo)
  (cgroupPath subsystem : string) : result (string * string) :=
  match mounts with
  | [] => Err (NotFoundError subsystem)
  | mi :: mounts' =>
      if HasPrefix (mi_Mountpoint mi) cgroupPath
         && bool_decide (subsystem ∈ Split "," (mi_VFSOptions mi))
      then Ok (mi_Mountpoint mi, mi_Root mi)
      else findCgroupMountpointAndRootFromMI mounts' cgroupPath subsystem
  end.

Section Calls.
Context {W S : Type} `{Handler ccall W}.

Definition ParseCgroupFile (path : string) : M (S * W) (gmap string string) :=
  do r ← ask (OpenRead path); lift (parseCgroupFromReader r).

Definition getCgroupMountsV1 (all : bool) : M (S * W) (list CgroupMount) :=
  do mi ← ask ReadCgroupMountinfo;
  do allSubsystems ← ParseCgroupFile "/proc/self/cgroup";
  ret (getCgroupMountsHelper ((λ _, false) <$> allSubsystems) mi all).

(** A line of [/proc/cgroups]; an empty line is indexed out of range. *)
Definition proc_cgroups_line (subsystems : list string) (text : string) : result (list string) :=
  match text with
  | EmptyString => Panic "index out of range [0] with length 0"
  | String c _ =>
      if decide (c = "#"%char) then Ok subsystems
      else match Fields text with
           | name :: _ :: _ :: enabled :: _ =>
               Ok (if decide (enabled = "0") then subsystems else subsystems ++ [name])
           | _ => Ok subsystems
           end
  end.

Definition GetAllSubsystems : M (S * W) (list string) :=
  do v2 ← ask IsCgroup2UnifiedMode;
  if (v2 : bool) then
    do r ← ask (OpenRead "/sys/fs/cgroup/cgroup.controllers");
    match rd_err r with
    | Some e => throw e
    | None => ret (["devices"; "freezer"] ++ Fields (rd_data r))
    end
  else
    do r ← ask (OpenRead "/proc/cgroups");
    let '(lines, err) := scan_lines r in
    do subsystems ← lift (foldM proc_cgroups_line [] lines);
    match err with Some e => throw e | None => ret subsystems end.

Definition GetCgroupMounts (all : bool) : M (S * W) (list CgroupMount) :=
  do v2 ← ask IsCgroup2UnifiedMode;
  if (v2 : bool) then
    do availableControllers ← GetAllSubsystems;
    ret [{| cm_Mountpoint := unifiedMountpoint; cm_Root := unifiedMountpoint;
            cm_Subsystems := availableControllers |}]
  else getCgroupMountsV1 all.

(** [GetOwnCgroup] and [GetInitCgroup] differ in the file they read. *)
Definition cgroup_of (file subsystem : string) : M (S * W) string :=
  do v2 ← ask IsCgroup2UnifiedMode;
  if (v2 : bool) then throw errUnified
  else do cgroups ← ParseCgroupFile file; lift (getControllerPath v2 subsystem cgroups).
Definition GetOwnCgroup (subsystem : string) : M (S * W) string :=
  cgroup_of "/proc/self/cgroup" subsystem.
Definition GetInitCgroup (subsystem : string) : M (S * W) string :=
  cgroup_of "/proc/1/cgroup" subsystem.

Definition FindCgroupMountpointAndRoot (cgroupPath subsystem : string)
  : M (S * W) (string * string) :=
  do v2 ← ask IsCgroup2UnifiedMode;
  if (v2 : bool) then throw errUnified
  else do mi ← ask ReadCgroupMountinfo;
       lift (findCgroupMountpointAndRootFromMI mi cgroupPath subsystem).

Definition getCgroupPathHelper (subsystem cgroup : string) : M (S * W) string :=
  do p ← FindCgroupMountpointAndRoot "" subsystem;
  do relCgroup ← lift (Rel p.2 cgroup);
  ret (path_Join p.1 relCgroup).

Definition GetOwnCgroupPath (subsystem : string) : M (S * W) string :=
  do cgroup ← GetOwnCgroup subsystem; getCgroupPathHelper subsystem cgroup.
Definition GetInitCgroupPath (subsystem : string) : M (S * W) string :=
  do cgroup ← GetInitCgroup subsystem; getCgroupPathHelper subsystem cgroup.
End Calls.

(** ** Values *)

Definition ConvertCPUSharesToCgroupV2Value (cpuShares : Z) : Z :=
  if cpuShares =? 0 then 0
  else u64 (1 + u64 (u64 (cpuShares - 2) * 9999) / 262142).

Definition ConvertMemorySwapToCgroupV2Value (memorySwap memory : Z) : result Z :=
  if (memory =? -1) && (memorySwap =? 0) then Ok (-1)
  else if (memorySwap =? -1) || (memorySwap =? 0) then Ok memorySwap
  else if (memory =? 0) || (memory =? -1)
  then Err (ErrNew "unable to set swap limit without memory limit")
  else if memory <? 0 then Err (ErrNew ("invalid memory value: " +:+ FormatInt memory))
  else if memorySwap <? memory
  then Err (ErrNew "memory+swap limit should be >= memory limit")
  else Ok (wraps 64 (memorySwap - memory)).

Definition HasSuffix (s suffix : string) : bool :=
  bool_decide (String.length suffix ≤ String.length s)%nat &&
  bool_decide (drop_str (String.length s - String.length suffix) s = suffix).
Definition TrimSuffix (s suffix : string) : string :=
  if HasSuffix s suffix then String.substring 0 (String.length s - String.length suffix) s else s.

(** One file name of [/sys/kernel/mm/hugepages]; [None] when it is skipped. *)
Definition huge_page_size (file : string) : result (option string) :=
  let val := TrimPrefix file "hugepages-" in
  if bool_decide (String.length val = String.length file) then Ok None
  else
    let val' := TrimSuffix val "kB" in
    if bool_decide (Z.of_nat (String.length val') ≠ Z.of_nat (String.length val) - 2) then Ok None
    else
      match Atoi val' with
      | (_, Some _) => Err (ErrNew ("strconv.Atoi: parsing " +:+ val'))
      | (size, None) =>
          Ok (Some (if 1048576 <=? size then Itoa (Z.shiftr size 20) +:+ "GB"
                    else if 1024 <=? size then Itoa (Z.shiftr size 10) +:+ "MB"
                    else val' +:+ "KB"))
      end.

Definition getHugePageSizeFromFilenames (fileNames : list string) : result (list string) :=
  foldM (λ pageSizes file, let! s := huge_page_size file in
                           Ok (pageSizes ++ option_list s)) [] fileNames.

(** ** Which mount a subsystem is attributed to

    The specification has no early end of the loop and no counter: every mount gets the
    subsystems it offers that no earlier mount (and no earlier option) offered. *)

Fixpoint fresh (unseen : gset string) (opts : list string) : list string :=
  match opts with
  | [] => []
  | o :: opts' => if decide (o ∈ unseen) then o :: fresh (unseen ∖ {[o]}) opts'
                  else fresh unseen opts'
  end.

Definition subsystem_name (opt : string) : string := TrimPrefix opt CgroupNamePrefix.

Fixpoint attribute (unseen : gset string) (mounts : list MountInfo) : list CgroupMount :=
  match mounts with
  | [] => []
  | mi :: mounts' =>
      let found := fresh unseen (Split "," (mi_VFSOptions mi)) in
      let rest := attribute (unseen ∖ list_to_set found) mounts' in
      if decide (found = []) then rest
      else {| cm_Mountpoint := mi_Mountpoint mi; cm_Root := mi_Root mi;
              cm_Subsystems := subsystem_name <$> found |} :: rest
  end.

(** The subsystems that are still to be found. *)
Definition unseen (ss : gmap string bool) : gset string := dom (filter (λ kv, kv.2 = false) ss).

Lemma elem_of_unseen ss o : o ∈ unseen ss ↔ ss !! o = Some false.
Proof.
  unfold unseen. rewrite elem_of_dom. split.
  - intros [b Hb]. apply map_lookup_filter_Some in Hb as [Hb Hf]. simpl in Hf. by subst.
  - intros Hb. exists false. by apply map_lookup_filter_Some.
Qed.

Lemma unseen_insert ss o : unseen (<[o := true]> ss) = unseen ss ∖ {[o]}.
Proof.
  apply set_eq. intros x. rewrite elem_of_difference, !elem_of_unseen, elem_of_singleton.
  rewrite lookup_insert_Some. naive_solver.
Qed.

Lemma unseen_false (m : gmap string string) : unseen ((λ _, false) <$> m) = dom m.
Proof.
  apply set_eq. intros x. rewrite elem_of_unseen, lookup_fmap, elem_of_dom.
  destruct (m !! x); simpl; split; naive_solver.
Qed.

(** The counter counts what has been found. *)
Definition counted (ss : gmap string bool) (n : nat) : Prop := (n + size (unseen ss) = size ss)%nat.

Lemma opt_step_false ss subs n o :
  counted ss n →
  ∃ ss' n', opt_step false (ss, subs, n) o =
    (ss', subs ++ (if decide (o ∈ unseen ss) then [subsystem_name o] else []), n') ∧
    counted ss' n' ∧
    unseen ss' = if decide (o ∈ unseen ss) then unseen ss ∖ {[o]} else unseen ss.
Proof.
  unfold counted. intros Hc. unfold opt_step. case_decide as Ho.
  - pose proof (proj1 (elem_of_unseen _ _) Ho) as El. rewrite El. cbv [negb andb]. cbv iota.
    exists (<[o := true]> ss), (S n). rewrite unseen_insert, map_size_insert_Some by done.
    split_and!; [done| |done].
    rewrite size_difference, size_singleton by set_solver.
    assert (size (unseen ss) ≠ 0%nat) by (intros H0; apply size_empty_inv in H0; set_solver).
    lia.
  - exists ss, n. rewrite app_nil_r. split_and!; [|done|done].
    destruct (ss !! o) as [[]|] eqn:El; [done| |done]. by rewrite elem_of_unseen in Ho.
Qed.

Lemma opts_false ss subs n opts :
  counted ss n →
  ∃ ss' n', foldl (opt_step false) (ss, subs, n) opts =
    (ss', subs ++ (subsystem_name <$> fresh (unseen ss) opts), n') ∧
    counted ss' n' ∧ unseen ss' = unseen ss ∖ list_to_set (fresh (unseen ss) opts).
Proof.
  revert ss subs n; induction opts as [|o opts IH]; intros ss subs n Hc; cbn [foldl fresh].
  { exists ss, n. simpl. rewrite app_nil_r. split_and!; [done|done|set_solver]. }
  destruct (opt_step_false ss subs n o Hc) as (ss1 & n1 & -> & Hc1 & Hu1).
  destruct (IH ss1 (subs ++ (if decide (o ∈ unseen ss) then [subsystem_name o] else [])) n1 Hc1)
    as (ss' & n' & -> & Hc' & Hu').
  exists ss', n'. rewrite Hu', Hu1, <- app_assoc. case_decide; split_and!; [done|done| |done|done|done].
  simpl. set_solver.
Qed.

Lemma attribute_empty mounts : attribute ∅ mounts = [].
Proof.
  induction mounts as [|mi mounts IH]; [done|]. simpl.
  assert (∀ opts, fresh ∅ opts = []) as Hf.
  { induction opts as [|o opts IHo]; [done|]. simpl. by rewrite decide_False by set_solver. }
  rewrite Hf. simpl. by rewrite difference_empty_L.
Qed.

Lemma mounts_loop_attribute ss n mounts :
  counted ss n → mounts_loop false ss n mounts = attribute (unseen ss) mounts.
Proof.
  revert ss n; induction mounts as [|mi mounts IH]; intros ss n Hc; [done|].
  cbn [mounts_loop attribute].
  destruct (opts_false ss [] n (Split "," (mi_VFSOptions mi)) Hc) as (ss' & n' & -> & Hc' & <-).
  rewrite app_nil_l, orb_false_r. rewrite IH by done.
  assert ((size ss' ≤ n')%nat → attribute (unseen ss') mounts = []) as Hend.
  { intros Hle. unfold counted in Hc'. assert (size (unseen ss') = 0%nat) as H0 by lia.
    apply size_empty_inv, leibniz_equiv in H0. rewrite H0. apply attribute_empty. }
  simpl andb. case_decide as Hf.
  - rewrite Hf. simpl. case_bool_decide; [by rewrite Hend|done].
  - destruct (fresh _ _) as [|o found]; [done|]. simpl.
    case_bool_decide; [by rewrite Hend|done].
Qed.

Lemma fresh_complete u opts o : o ∈ u → o ∈ opts → o ∈ fresh u opts.
Proof.
  revert u; induction opts as [|x opts IH]; intros u Hu Ho; [set_solver|]. simpl.
  apply elem_of_cons in Ho as [->|Ho]; [rewrite decide_True by done; by left|].
  destruct (decide (o = x)) as [->|Hx]; [rewrite decide_True by done; by left|].
  case_decide; [right|]; apply IH; set_solver.
Qed.

Lemma fresh_sound u opts o : o ∈ fresh u opts → o ∈ opts.
Proof.
  revert u; induction opts as [|x opts IH]; intros u Ho; [done|]. simpl in Ho.
  case_decide; [apply elem_of_cons in Ho as [->|Ho]; [by left|]|]; right; by eapply IH.
Qed.

Lemma attribute_first u pre mi post o :
  o ∈ u → o ∈ Split "," (mi_VFSOptions mi) →
  (∀ mi', mi' ∈ pre → o ∉ Split "," (mi_VFSOptions mi')) →
  ∃ m, m ∈ attribute u (pre ++ mi :: post) ∧ cm_Mountpoint m = mi_Mountpoint mi ∧
       cm_Root m = mi_Root mi ∧ subsystem_name o ∈ cm_Subsystems m.
Proof.
  revert u; induction pre as [|mi0 pre IH]; intros u Hu Ho Hpre; simpl.
  - pose proof (fresh_complete u _ o Hu Ho) as Hf.
    case_decide as Hn; [rewrite Hn in Hf; by apply not_elem_of_nil in Hf|].
    eexists; split_and!; [by left|done|done|]. simpl. by apply list_elem_of_fmap_2.
  - destruct (IH (u ∖ list_to_set (fresh u (Split "," (mi_VFSOptions mi0))))) as (m & Hm & Hr).
    { apply elem_of_difference. split; [done|]. rewrite elem_of_list_to_set.
      intros ?%fresh_sound. by apply (Hpre mi0); [left|]. }
    { done. }
    { intros mi' Hmi'. apply Hpre. by right. }
    exists m. split; [|done]. case_decide; [done|by right].
Qed.

(** [getCgroupMountsHelper] (with [all] false), which counts the subsystems it has
    found to stop early and marks them in the map it was given, computes the attribution
    without counter and marks: every mount is listed with the subsystems nobody before
    it offered, mounts that offer nothing new are left out, and a subsystem of the
    process ends up with the first mount of the table that offers it. *)
Theorem getCgroupMountsHelper_first (allSubsystems : gmap string string) (mounts : list MountInfo) :
  let found := getCgroupMountsHelper ((λ _, false) <$> allSubsystems) mounts false in
  found = attribute (dom allSubsystems) mounts ∧
  ∀ pre mi post o, mounts = pre ++ mi :: post → is_Some (allSubsystems !! o) →
    o ∈ Split "," (mi_VFSOptions mi) →
    (∀ mi', mi' ∈ pre → o ∉ Split "," (mi_VFSOptions mi')) →
    ∃ m, m ∈ found ∧ cm_Mountpoint m = mi_Mountpoint mi ∧ cm_Root m = mi_Root mi ∧
         subsystem_name o ∈ cm_Subsystems m.
Proof.
  assert (getCgroupMountsHelper ((λ _, false) <$> allSubsystems) mounts false =
          attribute (dom allSubsystems) mounts) as Heq.
  { unfold getCgroupMountsHelper. rewrite mounts_loop_attribute; [by rewrite unseen_false|].
    unfold counted. rewrite unseen_false, map_size_fmap. apply size_dom. }
  simpl. rewrite Heq. split; [done|].
  intros pre mi post o -> Ho Hin Hpre. apply attribute_first; [|done|done].
  by apply elem_of_dom.
Qed.

(** ** Reading what the kernel writes *)

(** An entry of [/proc/<pid>/cgroup]: hierarchy, subsystems and path. *)
Record entry := mk_entry { en_id : string; en_subs : list string; en_path : string }.

Definition entry_line (e : entry) : string :=
  en_id e +:+ String ":" (Join "," (en_subs e) +:+ String ":" (en_path e)).

(** No separator where it would be taken for one; the path may hold colons. *)
Definition entry_ok (e : entry) : Prop :=
  contains_char ":" (en_id e) = false ∧ en_subs e ≠ [] ∧
  Forall (λ s, contains_char ":" s = false ∧ contains_char "," s = false) (en_subs e) ∧
  line_ok (entry_line e).

Lemma cut_app sep a b : contains_char sep a = false → cut sep (a +:+ String sep b) = Some (a, b).
Proof.
  induction a as [|c a IH]; intros Ha; [simpl; by rewrite decide_True|].
  rewrite string_app_cons. simpl in *. apply orb_false_iff in Ha as [Hc Ha]. bool_to_prop.
  rewrite decide_False by done. by rewrite IH.
Qed.

Lemma Join_contains c sep l :
  contains_char c sep = false → Forall (λ s, contains_char c s = false) l →
  contains_char c (Join sep l) = false.
Proof.
  intros Hs. induction 1 as [|x l Hx Hl IH]; [done|].
  destruct l as [|y l]; [done|].
  change (Join sep (x :: y :: l)) with (x +:+ sep +:+ Join sep (y :: l)).
  by rewrite !contains_char_app, Hx, Hs, IH.
Qed.

Lemma parse_entry_line m e :
  entry_ok e →
  parse_entry m (entry_line e) = Ok (foldl (λ m s, <[s := en_path e]> m) m (en_subs e)).
Proof.
  intros (Hid & Hne & Hsubs & _). unfold parse_entry, entry_line.
  rewrite cut_app by done. rewrite cut_app.
  - rewrite Split_Join; [done|done|]. intros x Hx. rewrite Forall_forall in Hsubs. by apply Hsubs.
  - apply Join_contains; [done|]. eapply Forall_impl; [exact Hsubs|]. by intros ? [].
Qed.

(** Parsing what the kernel writes gives back its entries: each subsystem gets the
    path of the last entry that names it, paths with colons in them included, and an
    error of the reader is not lost. *)
Theorem parseCgroupFromReader_entries es err :
  Forall entry_ok es →
  parseCgroupFromReader (mk_reader (unlines (entry_line <$> es)) err) =
    match err with
    | Some e => Err e
    | None => Ok (foldl (λ m e, foldl (λ m s, <[s := en_path e]> m) m (en_subs e)) ∅ es)
    end.
Proof.
  intros Hes. unfold parseCgroupFromReader. rewrite scan_unlines.
  2: { apply Forall_fmap. eapply Forall_impl; [exact Hes|]. by intros e (_ & _ & _ & ?). }
  assert (∀ m, foldM parse_entry m (entry_line <$> es) =
    Ok (foldl (λ m e, foldl (λ m s, <[s := en_path e]> m) m (en_subs e)) m es)) as ->; [|done].
  induction Hes as [|e es He _ IH]; intros m; [done|]. rewrite fmap_cons. cbn [foldM].
  rewrite parse_entry_line by done. simpl. apply IH.
Qed.

(** ** At work *)

Definition systemd_cgroups : list entry := [
  mk_entry "4" ["cpu"; "cpuacct"] "/system.slice/sshd@126-10.240.0.15:22";
  mk_entry "1" ["name=systemd"] "/user.slice" ].

Lemma parseCgroupFromReader_entries_witness :
  parseCgroupFromReader (mk_reader (unlines (entry_line <$> systemd_cgroups)) None) =
  Ok (foldl (λ m e, foldl (λ m s, <[s := en_path e]> m) m (en_subs e)) ∅ systemd_cgroups).
Proof.
  apply (parseCgroupFromReader_entries systemd_cgroups None).
  repeat constructor; done.
Defined.

Definition two_cpu_mounts : list MountInfo := [
  mk_MountInfo "/" "/sys/fs/cgroup/cpu,cpuacct" "rw,cpu,cpuacct";
  mk_MountInfo "/" "/other/cpu" "rw,cpu" ].

Lemma getCgroupMountsHelper_first_witness :
  ∃ m, m ∈ getCgroupMountsHelper
             ((λ _, false) <$> ({["cpu" := "/a"; "cpuacct" := "/a"; "pids" := "/b"]} : gmap string string))
             two_cpu_mounts false ∧
    cm_Mountpoint m = "/sys/fs/cgroup/cpu,cpuacct" ∧ cm_Root m = "/" ∧
    subsystem_name "cpuacct" ∈ cm_Subsystems m.
Proof.
  apply (proj2 (getCgroupMountsHelper_first {["cpu" := "/a"; "cpuacct" := "/a"; "pids" := "/b"]}
                  two_cpu_mounts) [] (mk_MountInfo "/" "/sys/fs/cgroup/cpu,cpuacct" "rw,cpu,cpuacct")
                [mk_MountInfo "/" "/other/cpu" "rw,cpu"] "cpuacct").
  - done.
  - by exists "/a".
  - apply (bool_decide_unpack _). by vm_compute.
  - by intros mi' ?%not_elem_of_nil.
Defined.

(** One share, which cgroup v1 does not know and v2 maps from 2 on, wraps around. *)
Lemma ConvertCPUShares_one :
  ConvertCPUSharesToCgroupV2Value 1 = 70369281052672 ∧
  ∀ n, 2 ≤ n ≤ 262144 → 1 ≤ ConvertCPUSharesToCgroupV2Value n ≤ 10000.
Proof.
  split; [by vm_compute|]. intros n Hn. unfold ConvertCPUSharesToCgroupV2Value, u64.
  destruct (Z.eqb_spec n 0); [lia|].
  rewrite (wrapu_small 64 (n - 2)) by lia. rewrite (wrapu_small 64 ((n - 2) * 9999)) by lia.
  assert (0 ≤ (n - 2) * 9999 / 262142 ≤ 9999) as Hd.
  { split; [apply Z.div_pos; lia|]. apply Z.div_le_upper_bound; lia. }
  rewrite wrapu_small by lia. lia.
Qed.
