(* ===== verification/Rootfs.v ===== *)
(** * Mount points of a container root

    Models the helpers of [libcontainer/rootfs_linux.go] that prepare mount points and of
    [process_linux.go] that read the descriptors of a process, for any object the calls
    are made for. [checkProcMount] decides what may be mounted over [/proc]. *)

From S2P Require Import Prelude GoStd GoPath GoMonad Container CgroupUtils.

(** [utils.CleanPath]. *)
Definition IsAbs (path : string) : bool := HasPrefix path "/".

Definition CleanPath (path : string) : string :=
  if decide (path = "") then ""
  else
    let path := Clean path in
    Clean (if IsAbs path then path
           else match Rel "/" (Clean ("/" +:+ path)) with Ok p => p | _ => "" end).

Definition PROC_SUPER_MAGIC : Z := 0x9fa0.

Section Rootfs.
Context {W S : Type} `{Handler ccall W}.

Definition isProc (path : string) : M (S * W) bool :=
  do t ← ask (StatfsType path); ret (t =? PROC_SUPER_MAGIC).

Definition validProcMounts : list string := [
  "/proc/cpuinfo"; "/proc/diskstats"; "/proc/meminfo"; "/proc/stat"; "/proc/swaps";
  "/proc/uptime"; "/proc/loadavg"; "/proc/slabinfo"; "/proc/net/dev" ].

(** The loop over the entries that may be mounted: is [dest] one of them? *)
Fixpoint check_valid (rootfs dest : string) (valid : list string) : result () :=
  match valid with
  | [] => Err (ErrNew (dest +:+ " cannot be mounted because it is inside /proc"))
  | v :: valid' =>
      let! path := Rel (path_Join rootfs v) dest in
      if decide (path = ".") then Ok tt else check_valid rootfs dest valid'
  end.

Definition checkProcMount (rootfs dest source : string) : M (S * W) () :=
  do path ← lift (Rel (path_Join rootfs "/proc") dest);
  if HasPrefix path ".." then ret tt
  else if decide (path = ".") then
    if decide (source = "") then ret tt
    else
      do isproc ← isProc source;
      if (isproc : bool) then ret tt
      else throw (ErrNew (dest +:+ " cannot be mounted because it is not of type proc"))
  else lift (check_valid rootfs dest validProcMounts).

Definition createIfNotExists (path : string) (isDir : bool) : M (S * W) () :=
  do r ← try (ask (OsStat path));
  match r with
  | inl e =>
      if IsNotExist e then
        if isDir then ask (MkdirAll path)
        else
          ask (MkdirAll (Dir path)) ;;;
          do f ← ask (OpenCreate path);
          ignore (ask (OsClose f))
      else ret tt
  | inr _ => ret tt
  end.

Definition MS_BIND : Z := 4096.
Definition MS_REC : Z := 16384.

Definition cgroup_bind_options (m : Mount) : MountOptions :=
  let o := mt_Options m in
  mk_MountOptions (Z.lor (Z.lor MS_BIND MS_REC) (mo_Flags o)) (mo_PropagationFlags o) "" "" 0 [] [].

(** The loop of [getCgroupMounts]. *)
Fixpoint cgroup_binds (v2 : bool) (m : Mount) (cgroupPaths : gmap string string)
  (mounts : list CgroupMount) : result (list Mount) :=
  match mounts with
  | [] => Ok []
  | mm :: mounts' =>
      let! dir := Mount_GetOwnCgroup v2 mm cgroupPaths in
      let! relDir := Rel (cm_Root mm) dir in
      let! binds := cgroup_binds v2 m cgroupPaths mounts' in
      Ok ({| mt_Source := path_Join (cm_Mountpoint mm) relDir;
             mt_Destination := path_Join (mt_Destination m) (Base (cm_Mountpoint mm));
             mt_Device := "bind"; mt_Options := cgroup_bind_options m |} :: binds)
  end.

Definition getCgroupMounts (m : Mount) : M (S * W) (list Mount) :=
  do mounts ← GetCgroupMounts false;
  do cgroupPaths ← ParseCgroupFile "/proc/self/cgroup";
  do v2 ← ask IsCgroup2UnifiedMode;
  lift (cgroup_binds v2 m cgroupPaths mounts).

(** The targets of descriptors 0, 1 and 2; empty where they may not be read. *)
Definition getPipeFds (pid : Z) : M (S * W) (list string) :=
  let read i :=
    do r ← try (ask (Readlink (path_Join (path_Join (path_Join "/proc" (Itoa pid)) "/fd") i)));
    match r with
    | inl e => if IsPermission e then ret "" else throw e
    | inr target => ret target
    end in
  do a ← read "0"; do b ← read "1"; do c ← read "2"; ret [a; b; c].
End Rootfs.

(** ** What may be mounted over /proc *)

(** The decision in terms of path elements: [rest] is what [dest] has below
    [rootfs/proc], and nothing is known of a destination elsewhere. *)
Definition below_proc (rootfs dest : string) : option (list string) :=
  match strip_common (elems rootfs ++ ["proc"]) (elems dest) with
  | ([], rest) => Some rest
  | _ => None
  end.

Definition emulated : list (list string) := [
  ["cpuinfo"]; ["diskstats"]; ["meminfo"]; ["stat"]; ["swaps"]; ["uptime"]; ["loadavg"];
  ["slabinfo"]; ["net"; "dev"] ].

(** A loop of comparisons is a membership test. *)
Lemma check_valid_run rootfs dest valid ls :
  rooted rootfs → rooted dest →
  Forall2 (λ v l, Split "/" v = "" :: l ∧ clean_elems l) valid ls →
  check_valid rootfs dest valid =
    if bool_decide (elems dest ∈ app (elems rootfs) <$> ls) then Ok tt
    else Err (ErrNew (dest +:+ " cannot be mounted because it is inside /proc")).
Proof.
  intros Hr Hd. induction 1 as [|v l valid ls [Hv Hl] _ IH].
  { rewrite bool_decide_eq_false_2; [done|]. apply not_elem_of_nil. }
  destruct (elems_below rootfs v l Hr Hv Hl) as [Hj He].
  destruct (Rel_dot (path_Join rootfs v) dest Hj Hd) as (r & E & Hdot). rewrite He in Hdot.
  cbn [check_valid]. rewrite E. simpl rbind. rewrite fmap_cons.
  destruct (decide (r = ".")) as [Hp|Hp].
  - rewrite bool_decide_eq_true_2; [done|]. rewrite elem_of_cons. left. by apply Hdot.
  - rewrite IH. erewrite bool_decide_ext; [reflexivity|]. rewrite elem_of_cons. tauto.
Qed.

Lemma valid_elems :
  Forall2 (λ v l, Split "/" v = "" :: l ∧ clean_elems l) validProcMounts (cons "proc" <$> emulated).
Proof.
  unfold validProcMounts, emulated. rewrite !fmap_cons.
  repeat (apply Forall2_cons; split; [split; [done|compute_done]|]).
  constructor.
Qed.

Lemma valid_below rootfs dest rest :
  elems dest = (elems rootfs ++ ["proc"]) ++ rest →
  elems dest ∈ app (elems rootfs) <$> (cons "proc" <$> emulated) ↔ rest ∈ emulated.
Proof.
  intros ->. rewrite list_elem_of_fmap. setoid_rewrite list_elem_of_fmap. split.
  - intros (l & H1 & l' & -> & H2). rewrite <- app_assoc in H1. simplify_list_eq. done.
  - intros Hr. exists ("proc" :: rest). split; [by rewrite <- app_assoc|]. by exists rest.
Qed.

Section Spec.
Context {W S : Type} `{Handler ccall W}.

(** [checkProcMount] decides by the place of the destination relative to
    [rootfs/proc] (both paths rooted): elsewhere everything may be mounted; exactly on
    it only a proc file system, or no source at all (restore); below it only the nine
    files that lxcfs emulates and, because the code tests the relative path with the
    prefix [..], whatever lies below an element whose name begins with two dots. *)
Theorem checkProcMount_spec rootfs dest source (s : S * W) :
  rooted rootfs → rooted dest →
  checkProcMount rootfs dest source s =
    match below_proc rootfs dest with
    | None => (Ok tt, s)
    | Some [] =>
        if decide (source = "") then (Ok tt, s)
        else match handle_call (StatfsType source) s.2 with
             | (inr t, w) =>
                 (if t =? PROC_SUPER_MAGIC then Ok tt
                  else Err (ErrNew (dest +:+ " cannot be mounted because it is not of type proc")),
                  (s.1, w))
             | (inl e, w) => (Err e, (s.1, w))
             end
    | Some rest =>
        (if HasPrefix (Join "/" rest) ".." || bool_decide (rest ∈ emulated) then Ok tt
         else Err (ErrNew (dest +:+ " cannot be mounted because it is inside /proc")), s)
    end.
Proof.
  intros Hr Hd. unfold checkProcMount, below_proc.
  destruct (elems_below rootfs "/proc" ["proc"] Hr eq_refl ltac:(compute_done)) as [Hj He].
  pose proof (Rel_cases (path_Join rootfs "/proc") dest Hj Hd) as Hcases. rewrite He in Hcases.
  pose proof (elems_ok dest) as Hok.
  destruct Hcases as [[H1 H2]|[(t & H1 & H2 & H3)|(x & b & t & H1 & H2)]].
  - rewrite (bind_ok _ _ _ "." s) by (unfold lift; by rewrite H2). simpl.
    rewrite H1, strip_common_self. case_decide; [done|].
    unfold isProc, bind, ask, ret, throw. destruct s as [x w]; simpl.
    destruct (handle_call (StatfsType source) w) as [[e|v] w']; simpl; [done|].
    by destruct (v =? _).
  - rewrite (bind_ok _ _ _ (Join "/" t) s) by (unfold lift; by rewrite H3).
    rewrite H2 in Hok. apply Forall_app in Hok as [_ Hok].
    rewrite H2, strip_common_prefix. destruct t as [|y t]; [done|].
    destruct (HasPrefix (Join "/" (y :: t)) ".."); [done|].
    rewrite decide_False by (by apply Join_not_dot). simpl orb. unfold lift. f_equal.
    rewrite (check_valid_run _ _ _ _ Hr Hd valid_elems).
    by rewrite (bool_decide_ext _ _ (valid_below rootfs dest (y :: t) H2)).
  - rewrite (bind_ok _ _ _ _ s) by (unfold lift; by rewrite H2).
    destruct (Join_cons ".." (replicate (length b) ".." ++ t)) as [s' ->].
    rewrite HasPrefix_app. by rewrite H1.
Qed.
End Spec.

(** ** At work: a kernel that answers nothing *)

#[export] Instance nowhere : Handler ccall () := λ A c w, (inl (ErrSys ENOENT), w).

Lemma checkProcMount_spec_witness :
  checkProcMount (S := ()) "/rootfs" "/rootfs/proc/sys" "/etc" (tt, tt) =
  (Err (ErrNew "/rootfs/proc/sys cannot be mounted because it is inside /proc"), (tt, tt)).
Proof. exact (checkProcMount_spec "/rootfs" "/rootfs/proc/sys" "/etc" (tt, tt) eq_refl eq_refl). Defined.

(** Inside [/proc], and accepted. *)
Lemma checkProcMount_two_dots :
  below_proc "/rootfs" "/rootfs/proc/..data" = Some ["..data"] ∧
  checkProcMount (S := ()) "/rootfs" "/rootfs/proc/..data" "/etc" (tt, tt) = (Ok tt, (tt, tt)).
Proof. split; by vm_compute. Qed.
