(* ===== verification/ContainerState.v ===== *)
(** * The state machine of a libcontainer container

    Models [libcontainer/state_linux.go] and the methods of [container_linux.go] that go
    through it: the six container states and their transitions, the refresh of the state
    from what the kernel shows, pause, resume, signal, destroy, set and the exec fifo,
    and the OCI state and state file built from it. Every method runs under [c.m], so it
    is one atomic step of the object; the world answers through [Handler ccall]. *)

From S2P Require Import Prelude GoStd GoMonad Container.

Section Methods.
Context `{Handler ccall W}.

Abbreviation CIO A := (M (linuxContainer * W) A).

(** A log line: the error is dropped. *)
Definition warn {A} (m : CIO A) : CIO () := ignore m.

(** ** Observing the kernel *)

(** [parentProcess.startTime]; an init process asks the kernel. *)
Definition pp_startTime (p : parentProcess) : CIO Z :=
  match p with
  | initProcess pid _ => do st ← ask (SystemStat pid); ret (st_StartTime st)
  | restoredProcess _ t _ | nonChildProcess _ t _ => ret t
  end.

Definition isPaused : CIO bool :=
  do state ← ask GetFreezerState;
  ret (bool_decide (state = Frozen)).

Definition stateFilename : string := "state.json".

Definition runType : CIO Status :=
  do c ← this;
  match c_initProcess c with
  | None => ret Stopped
  | Some p =>
      do stat ← try (ask (SystemStat (pp_pid p)));
      match stat with
      | inl _ => ret Stopped
      | inr stat =>
          if negb (st_StartTime stat =? c_initProcessStartTime c)
             || bool_decide (st_State stat = Zombie) || bool_decide (st_State stat = Dead)
          then ret Stopped
          else
            do fifo ← try (ask (OsStat (path_Join (c_root c) execFifoFilename)));
            match fifo with inr _ => ret Created | inl _ => ret Running end
      end
  end.

(** ** States and transitions *)

Definition status (s : containerState) : Status :=
  match s with
  | stoppedState => Stopped
  | runningState => Running
  | createdState => Created
  | pausedState => Paused
  | restoredState _ => Running
  | loadedState s => s
  end.

Definition newStateTransitionError (from to : containerState) : error :=
  ErrNew ("invalid state transition from " +:+ Status_String (status from) +:+ " to "
          +:+ Status_String (status to)).

Definition stopped_transition (s : containerState) : CIO () :=
  match s with
  | runningState | restoredState _ => change (set_state s)
  | stoppedState => ret tt
  | _ => throw (newStateTransitionError stoppedState s)
  end.

Definition running_transition (s : containerState) : CIO () :=
  match s with
  | stoppedState =>
      do t ← runType;
      if decide (t = Running)
      then throw (newGenericError "container still running" ContainerNotStopped)
      else change (set_state s)
  | pausedState => change (set_state s)
  | runningState => ret tt
  | _ => throw (newStateTransitionError runningState s)
  end.

Definition created_transition (s : containerState) : CIO () :=
  match s with
  | runningState | pausedState | stoppedState => change (set_state s)
  | createdState => ret tt
  | _ => throw (newStateTransitionError createdState s)
  end.

Definition paused_transition (s : containerState) : CIO () :=
  match s with
  | runningState | stoppedState => change (set_state s)
  | pausedState => ret tt
  | _ => throw (newStateTransitionError pausedState s)
  end.

(** A restored container accepts these two, but stays restored. *)
Definition restored_transition (r s : containerState) : CIO () :=
  match s with
  | stoppedState | runningState => ret tt
  | _ => throw (newStateTransitionError r s)
  end.

Definition loaded_transition (s : containerState) : CIO () := change (set_state s).

(** [c.state.transition(s)]: the dynamic type of [c.state] decides. *)
Definition transition (s : containerState) : CIO () :=
  do c ← this;
  match c_state c with
  | stoppedState => stopped_transition s
  | runningState => running_transition s
  | createdState => created_transition s
  | pausedState => paused_transition s
  | restoredState d => restored_transition (restoredState d) s
  | loadedState _ => loaded_transition s
  end.

Definition refreshState : CIO () :=
  do paused ← isPaused;
  if (paused : bool) then transition pausedState
  else
    do t ← runType;
    match t with
    | Created => transition createdState
    | Running => transition runningState
    | _ => transition stoppedState
    end.

Definition currentStatus : CIO Status :=
  refreshState ;;;
  do c ← this;
  ret (status (c_state c)).

(** ** The OCI state and the state file *)

Definition specs_Version : string := "1.0.2-dev".

Definition currentOCIState : CIO OCIState :=
  do c ← this;
  let '(bundle, annotations) := Annotations (cf_Labels (c_config c)) in
  do st ← currentStatus;
  do c ← this;
  let pid := match c_initProcess c with
             | Some p => if decide (st = Stopped) then 0 else pp_pid p
             | None => 0
             end in
  ret {| os_Version := specs_Version; os_ID := c_id c; os_Status := Status_String st;
         os_Pid := pid; os_Bundle := bundle; os_Annotations := annotations |}.

(** [configs.IsNamespaceSupported], which caches the answer of its first question. *)
Definition IsNamespaceSupported (ns : NamespaceType) : CIO bool :=
  if decide (NsName ns = "") then ret false
  else
    do r ← try (ask (OsStat ("/proc/self/ns/" +:+ NsName ns)));
    ret match r with inr _ => true | inl _ => false end.

(** The paths of the namespaces the configuration does not name. *)
Fixpoint add_supported (pid : Z) (types : list NamespaceType) (paths : gmap string string)
  : CIO (gmap string string) :=
  match types with
  | [] => ret paths
  | t :: types' =>
      do ok ← IsNamespaceSupported t;
      if (ok : bool) && bool_decide (paths !! t = None)
      then add_supported pid types' (<[t := GetPath {| ns_Type := t; ns_Path := "" |} pid]> paths)
      else add_supported pid types' paths
  end.

Definition currentState : CIO State :=
  do c ← this;
  do started ← match c_initProcess c with
               | None => ret (-1, 0, [])
               | Some p =>
                   do t ← try (pp_startTime p);
                   ret (pp_pid p, match t with inr t => t | inl _ => 0 end,
                        pp_externalDescriptors p)
               end;
  let '(pid, startTime, fds) := started in
  do rdt ← try (ask (GetIntelRdtPath (c_id c)));
  do paths ← ask CgroupGetPaths;
  let nss := cf_Namespaces (c_config c) in
  do nspaths ← (if 0 <? pid then
                  add_supported pid NamespaceTypes
                    (foldl (λ m ns, <[ns_Type ns := GetPath ns pid]> m) ∅ nss)
                else ret ∅);
  ret {| s_ID := c_id c; s_Config := c_config c; s_InitProcessPid := pid;
         s_InitProcessStartTime := startTime; s_Created := c_created c;
         s_Rootless := cf_RootlessEUID (c_config c) && cf_RootlessCgroups (c_config c);
         s_CgroupPaths := paths;
         s_IntelRdtPath := match rdt with inr p => p | inl _ => "" end;
         s_NamespacePaths := nspaths; s_ExternalDescriptors := fds |}.

(** The temporary file is closed and removed when anything fails. *)
Definition saveState (s : State) : CIO () :=
  do c ← this;
  do tmp ← ask (TempFile (c_root c) "state-");
  do e ← err_of (ask (WriteJSON tmp s) ;;;
                 ask (CloseTemp tmp) ;;;
                 ask (OsRename tmp (path_Join (c_root c) stateFilename)));
  match e with
  | None => ret tt
  | Some e => ignore (ask (CloseTemp tmp)) ;;; ignore (ask (OsRemove tmp)) ;;; throw e
  end.

Definition updateState (process : option parentProcess) : CIO State :=
  match process with Some p => change (set_initProcess (Some p)) | None => ret tt end ;;;
  do state ← currentState;
  saveState state ;;;
  ret state.

(** ** Signals *)

Definition SIGKILL : Z := 9.

(** The wait for one signalled process. *)
Definition reap (subreaper : Z) (s pid : Z) : CIO () :=
  do skip ← (if s =? SIGKILL then ret false
             else do ok ← try (ask (IsWaitable pid));
                  ret match ok with inr true => false | _ => true end);
  if (skip : bool) then ret tt
  else when (subreaper =? 0) (warn (ask (WaitPid pid))).

Definition signalAllProcesses (s : Z) : CIO () :=
  warn (ask (Freeze Frozen)) ;;;
  do pids ← try (ask CgroupGetAllPids);
  match pids with
  | inl e => warn (ask (Freeze Thawed)) ;;; throw e
  | inr pids =>
      for_each (λ pid, warn (ask (SignalPid pid s))) pids ;;;
      warn (ask (Freeze Thawed)) ;;;
      do sub ← try (ask GetSubreaper);
      for_each (reap (match sub with inr n => n | inl _ => 0 end) s) pids
  end.

(** [c.initProcess.signal(s)]: a nil interface panics. *)
Definition signal_init (s : Z) : CIO () :=
  do c ← this;
  match c_initProcess c with
  | None => panic "invalid memory address or nil pointer dereference"
  | Some p => ask (SignalPid (pp_pid p) s)
  end.

Definition Signal (s : Z) (all : bool) : CIO () :=
  do st ← currentStatus;
  if all then
    do exists_ ← (if decide (st = Stopped) then ask CgroupExists else ret true);
    if (exists_ : bool) then signalAllProcesses s else ret tt
  else if bool_decide (st = Running) || bool_decide (st = Created) || bool_decide (st = Paused)
  then map_err (ErrWrap "signaling init process") (signal_init s)
  else throw (newGenericError "container not running" ContainerNotRunning).

(** ** Destruction *)

Definition first_error (e1 e2 : option error) : option error :=
  match e1 with Some _ => e1 | None => e2 end.

Definition runPoststopHooks : CIO () :=
  do c ← this;
  if cf_Hooks (c_config c) then
    do s ← currentOCIState;
    ask (RunHooks "poststop" {| os_Version := os_Version s; os_ID := os_ID s;
                                os_Status := "stopped"; os_Pid := os_Pid s;
                                os_Bundle := os_Bundle s; os_Annotations := os_Annotations s |})
  else ret tt.

Definition destroy : CIO () :=
  do c ← this;
  let ns := cf_Namespaces (c_config c) in
  when (negb (ns_Contains ns NEWPID) || negb (bool_decide (ns_PathOf ns NEWPID = "")))
    (warn (signalAllProcesses SIGKILL)) ;;;
  do e1 ← err_of (ask CgroupDestroy);
  do e2 ← (if c_intelRdtManager c then err_of (ask IntelRdtDestroy) else ret None);
  do e3 ← err_of (ask (OsRemoveAll (c_root c)));
  change (set_initProcess None) ;;;
  do e4 ← err_of runPoststopHooks;
  change (set_state stoppedState) ;;;
  return_err (first_error (first_error (first_error e1 e2) e3) e4).

Definition running_destroy : CIO () :=
  do t ← runType;
  if decide (t = Running)
  then throw (newGenericError "container is not destroyed" ContainerNotStopped)
  else destroy.

Definition created_destroy : CIO () :=
  ignore (signal_init SIGKILL) ;;; destroy.

Definition paused_destroy : CIO () :=
  do t ← runType;
  if bool_decide (t = Running) || bool_decide (t = Created)
  then throw (newGenericError "container is paused" ContainerPaused)
  else ask (Freeze Thawed) ;;; destroy.


Definition restored_destroy : CIO () :=
  do c ← this;
  do st ← try (ask (OsStat (path_Join (c_root c) "checkpoint")));
  match st with
  | inl e => if IsNotExist e then destroy else throw e
  | inr _ => destroy
  end.

(** [c.state.destroy()]. A loaded state refreshes itself and asks again; the fuel bounds
    that recursion. *)
Fixpoint state_destroy (fuel : nat) : CIO () :=
  do c ← this;
  match c_state c with
  | stoppedState => destroy
  | runningState => running_destroy
  | createdState => created_destroy
  | pausedState => paused_destroy
  | restoredState _ => restored_destroy
  | loadedState _ =>
      match fuel with
      | O => panic "stack overflow"
      | S fuel' => refreshState ;;; state_destroy fuel'
      end
  end.

Definition Destroy : CIO () := state_destroy 1.

(** ** Pause and resume *)

Definition Pause : CIO () :=
  do st ← currentStatus;
  match st with
  | Running | Created => ask (Freeze Frozen) ;;; transition pausedState
  | _ => throw (newGenericError ("container not running or created: " +:+ Status_String st)
                  ContainerNotRunning)
  end.

Definition Resume : CIO () :=
  do st ← currentStatus;
  if decide (st = Paused) then ask (Freeze Thawed) ;;; transition runningState
  else throw (newGenericError "container not paused" ContainerNotPaused).

(** ** Resources *)

Definition Processes : CIO (list Z) :=
  do st ← currentStatus;
  do exists_ ← (if decide (st = Stopped) then ask CgroupExists else ret true);
  if (exists_ : bool)
  then map_err (ErrWrap "getting all container pids from cgroups") (ask CgroupGetAllPids)
  else ret [].

Definition Set_ (config : Config) : CIO () :=
  do st ← currentStatus;
  if decide (st = Stopped)
  then throw (newGenericError "container not running" ContainerNotRunning)
  else
    do c ← this;
    do e ← err_of (ask (CgroupSet config));
    match e with
    | Some e => warn (ask (CgroupSet (c_config c))) ;;; throw e
    | None =>
        do e ← (if c_intelRdtManager c then err_of (ask (IntelRdtSet config)) else ret None);
        match e with
        | Some e =>
            warn (ask (CgroupSet (c_config c))) ;;;
            warn (ask (IntelRdtSet (c_config c))) ;;;
            throw e
        | None => change (set_config config) ;;; do _ ← updateState None; ret tt
        end
    end.

(** ** The exec fifo *)

Definition readFromExecFifo (data : string) : CIO () :=
  if decide (data = "") then throw (ErrNew "cannot start an already running container")
  else ret tt.

Definition handleFifoResult (path : string) (open : CIO string) : CIO () :=
  do data ← map_err (ErrWrap "open exec fifo for reading") open;
  readFromExecFifo data ;;;
  ask (OsRemove path).

(** The select loop of [exec]: [AwaitExecFifo] answers the opened fifo, or nothing when
    the 100ms timer fires first. The fuel counts the timer ticks. *)
Fixpoint exec_loop (fuel : nat) (path : string) (pid : Z) : CIO bool :=
  match fuel with
  | O => ret false
  | S fuel' =>
      do r ← try (ask (AwaitExecFifo path));
      match r with
      | inl e => handleFifoResult path (throw e) ;;; ret true
      | inr (Some data) => handleFifoResult path (ret data) ;;; ret true
      | inr None =>
          do stat ← try (ask (SystemStat pid));
          let dead := match stat with
                      | inl _ => true
                      | inr stat => bool_decide (st_State stat = Zombie)
                      end in
          if dead then
            do e ← err_of (handleFifoResult path (ask (OpenExecFifo path)));
            match e with
            | Some _ => throw (ErrNew "container process is already dead")
            | None => ret true
            end
          else exec_loop fuel' path pid
      end
  end.

(** [exec], for [fuel] ticks; the answer tells whether the loop was left. *)
Definition exec (fuel : nat) : CIO bool :=
  do c ← this;
  match c_initProcess c with
  | None => panic "invalid memory address or nil pointer dereference"
  | Some p => exec_loop fuel (path_Join (c_root c) execFifoFilename) (pp_pid p)
  end.

(** ** Joining namespaces *)

(** One namespace type of [orderNamespacePaths]. *)
Fixpoint order_paths (nss : list Namespace) (namespaces : gmap string string)
  (types : list NamespaceType) : CIO (list string) :=
  match types with
  | [] => ret []
  | ns :: types' =>
      if negb (ns_Contains nss ns) then order_paths nss namespaces types'
      else
        match namespaces !! ns with
        | None => order_paths nss namespaces types'
        | Some p =>
            if decide (p = "") then order_paths nss namespaces types'
            else
              do ok ← IsNamespaceSupported ns;
              if negb ok then
                throw (newGenericError ("namespace " +:+ ns +:+ " is not supported") SystemError)
              else
                map_err (ErrWrap ("running lstat on namespace path " +:+ p)) (ask (Lstat p)) ;;;
                if contains_char "," p
                then throw (newGenericError ("invalid path " +:+ p) SystemError)
                else
                  do rest ← order_paths nss namespaces types';
                  ret ((NsName ns +:+ ":" +:+ p) :: rest)
        end
  end.

Definition orderNamespacePaths (namespaces : gmap string string) : CIO (list string) :=
  do c ← this;
  order_paths (cf_Namespaces (c_config c)) namespaces NamespaceTypes.

Definition encodeIDMapping (idMap : list IDMap) : string :=
  foldr (λ im rest, Itoa (im_ContainerID im) +:+ " " +:+ Itoa (im_HostID im) +:+ " " +:+
                    Itoa (im_Size im) +:+ String LF rest) "" idMap.

Definition requiresRootOrMappingTool (egid : Z) (c : Config) : bool :=
  negb (bool_decide (cf_GidMappings c =
                     [{| im_ContainerID := 0; im_HostID := egid; im_Size := 1 |}])).

(** The netlink attributes sent to the bootstrap program. *)
Inductive nlattr :=
  | CloneFlagsAttr (flags : Z)
  | NsPathsAttr (paths : string)
  | UidmapAttr (map : string)
  | GidmapAttr (map : string)
  | SetgroupAttr (b : bool)
  | OomScoreAdjAttr (score : string)
  | RootlessEUIDAttr (b : bool)
  | UidmapPathAttr (path : string)
  | GidmapPathAttr (path : string).

Definition uid_attrs (c : linuxContainer) : list nlattr :=
  let cf := c_config c in
  match cf_UidMappings cf with
  | [] => []
  | m => (if cf_RootlessEUID cf && negb (bool_decide (c_newuidmapPath c = ""))
          then [UidmapPathAttr (c_newuidmapPath c)] else [])
         ++ [UidmapAttr (encodeIDMapping m)]
  end.

Definition gid_attrs (egid : Z) (c : linuxContainer) : list nlattr :=
  let cf := c_config c in
  match cf_GidMappings cf with
  | [] => []
  | m => [GidmapAttr (encodeIDMapping m)]
         ++ (if cf_RootlessEUID cf && negb (bool_decide (c_newgidmapPath c = ""))
             then [GidmapPathAttr (c_newgidmapPath c)] else [])
         ++ (if requiresRootOrMappingTool egid cf then [SetgroupAttr true] else [])
  end.

Definition bootstrapData (egid cloneFlags : Z) (nsMaps : gmap string string)
  : CIO (list nlattr) :=
  do c ← this;
  do paths ← (if decide (nsMaps = ∅) then ret []
              else do ps ← orderNamespacePaths nsMaps; ret [NsPathsAttr (Join "," ps)]);
  ret ([CloneFlagsAttr (u32 cloneFlags)] ++ paths ++
       (if decide (is_Some (nsMaps !! NEWUSER)) then []
        else uid_attrs c ++ gid_attrs egid c) ++
       match cf_OomScoreAdj (c_config c) with
       | Some n => [OomScoreAdjAttr (Itoa n)]
       | None => []
       end ++
       [RootlessEUIDAttr (cf_RootlessEUID (c_config c))]).
End Methods.

(** ** What the kernel shows

    Reading the freezer state, a process's stat file or the existence of a file answers a
    question about the world and does not change it. *)

Class KernelView (W : Type) `{Handler ccall W} := {
  kv_freezer : W → error + FreezerState;
  kv_stat : W → Z → error + Stat_t;
  kv_path : W → string → error + bool;
  kv_GetFreezerState : ∀ w, handle_call GetFreezerState w = (kv_freezer w, w);
  kv_SystemStat : ∀ pid w, handle_call (SystemStat pid) w = (kv_stat w pid, w);
  kv_OsStat : ∀ path w, handle_call (OsStat path) w = (kv_path w path, w)
}.

Section Spec.
Context `{KernelView W}.

Abbreviation CIO A := (M (linuxContainer * W) A).

(** The init process is the one that was started, and alive: same start time (so the pid
    has not been reused), neither zombie nor dead. *)
Definition alive (c : linuxContainer) (w : W) : bool :=
  match c_initProcess c with
  | None => false
  | Some p =>
      match kv_stat w (pp_pid p) with
      | inl _ => false
      | inr st => (st_StartTime st =? c_initProcessStartTime c)
                  && negb (bool_decide (st_State st = Zombie))
                  && negb (bool_decide (st_State st = Dead))
      end
  end.

Definition fifo_exists (c : linuxContainer) (w : W) : bool :=
  match kv_path w (path_Join (c_root c) execFifoFilename) with inr _ => true | inl _ => false end.

Definition observed_type (c : linuxContainer) (w : W) : Status :=
  if alive c w then if fifo_exists c w then Created else Running else Stopped.

Definition observed (c : linuxContainer) (w : W) : error + Status :=
  match kv_freezer w with
  | inl e => inl e
  | inr Frozen => inr Paused
  | inr _ => inr (observed_type c w)
  end.

Definition state_for (st : Status) : containerState :=
  match st with
  | Paused => pausedState | Created => createdState | Running => runningState
  | _ => stoppedState
  end.

(** The transitions to an observed state each state accepts. *)
Definition accepts (s : containerState) (st : Status) : bool :=
  match s, st with
  | loadedState _, _ => true
  | stoppedState, (Running | Stopped) => true
  | runningState, (Running | Stopped | Paused) => true
  | createdState, (Running | Stopped | Paused | Created) => true
  | pausedState, (Running | Stopped | Paused) => true
  | restoredState _, (Running | Stopped) => true
  | _, _ => false
  end.

Definition refreshed (s : containerState) (st : Status) : containerState :=
  match s with restoredState d => restoredState d | _ => state_for st end.

Lemma runType_run c w : runType (c, w) = (Ok (observed_type c w), (c, w)).
Proof.
  unfold runType, observed_type, alive, fifo_exists. rewrite bind_this; cbn [fst].
  destruct (c_initProcess c) as [p|]; [|done].
  unfold bind, try, ask; cbn [fst snd]. rewrite kv_SystemStat.
  destruct (kv_stat w (pp_pid p)) as [e|st]; [done|].
  destruct (st_StartTime st =? _); simpl; [|done].
  case_bool_decide; simpl; [done|]. case_bool_decide; simpl; [done|].
  unfold ret. rewrite kv_OsStat. by destruct (kv_path _ _).
Qed.

Lemma isPaused_run c w :
  isPaused (c, w) = (match kv_freezer w with
                     | inl e => Err e
                     | inr s => Ok (bool_decide (s = Frozen))
                     end, (c, w)).
Proof. unfold isPaused, bind, ask; simpl. rewrite kv_GetFreezerState. by destruct (kv_freezer w). Qed.

Lemma observed_type_cases c w :
  observed_type c w = Created ∨ observed_type c w = Running ∨ observed_type c w = Stopped.
Proof. unfold observed_type. destruct (alive c w), (fifo_exists c w); auto. Qed.

Lemma observed_type_state c w s : observed_type (set_state s c) w = observed_type c w.
Proof. done. Qed.

(** One transition to an observed state. *)
Lemma transition_run c w st :
  st ≠ Pausing → (st = Stopped → observed_type c w = Stopped) →
  transition (state_for st) (c, w) =
  if accepts (c_state c) st
  then (Ok tt, (set_state (refreshed (c_state c) st) c, w))
  else (Err (newStateTransitionError (c_state c) (state_for st)), (c, w)).
Proof.
  intros Hst Hobs. unfold transition. rewrite bind_this; cbn [fst].
  destruct c as [? ? ? ? ? ? ? ? s ? ? ?], s, st; try done; simpl in *.
  unfold running_transition. simpl.
  rewrite (bind_ok _ _ _ _ _ (runType_run _ _)). by rewrite Hobs.
Qed.

(** The refresh of the state, in full. *)
Lemma refreshState_run c w :
  refreshState (c, w) =
  match observed c w with
  | inl e => (Err e, (c, w))
  | inr st =>
      if accepts (c_state c) st
      then (Ok tt, (set_state (refreshed (c_state c) st) c, w))
      else (Err (newStateTransitionError (c_state c) (state_for st)), (c, w))
  end.
Proof.
  unfold refreshState, observed. pose proof (isPaused_run c w) as E.
  destruct (kv_freezer w) as [e|f]; [by rewrite (bind_err _ _ _ _ _ E)|].
  rewrite (bind_ok _ _ _ _ _ E). case_bool_decide as Hf.
  - subst f. by apply (transition_run c w Paused).
  - rewrite (bind_ok _ _ _ _ _ (runType_run c w)).
    destruct f; try done;
      destruct (observed_type_cases c w) as [Ho|[Ho|Ho]]; rewrite Ho;
      by rewrite <- transition_run.
Qed.

Lemma currentStatus_run c w :
  currentStatus (c, w) =
  match observed c w with
  | inl e => (Err e, (c, w))
  | inr st =>
      if accepts (c_state c) st
      then (Ok (status (refreshed (c_state c) st)), (set_state (refreshed (c_state c) st) c, w))
      else (Err (newStateTransitionError (c_state c) (state_for st)), (c, w))
  end.
Proof.
  unfold currentStatus. pose proof (refreshState_run c w) as E.
  destruct (observed c w) as [e|st]; [by rewrite (bind_err _ _ _ _ _ E)|].
  destruct (accepts (c_state c) st); [|by rewrite (bind_err _ _ _ _ _ E)].
  by rewrite (bind_ok _ _ _ _ _ E).
Qed.

(** C23. The status of a container is the one the kernel shows (frozen cgroup, live init
    process with the recorded start time, exec fifo), for every state that accepts the
    transition; a loaded container accepts every one. Otherwise the state is unchanged
    and the error names the transition. *)
Theorem currentStatus_spec c w :
  (∀ d, c_state c ≠ restoredState d) →
  currentStatus (c, w) =
  match observed c w with
  | inl e => (Err e, (c, w))
  | inr st =>
      if accepts (c_state c) st then (Ok st, (set_state (state_for st) c, w))
      else (Err (newStateTransitionError (c_state c) (state_for st)), (c, w))
  end.
Proof.
  intros Hr. rewrite currentStatus_run.
  assert (∀ st, refreshed (c_state c) st = state_for st) as Href.
  { intros st. unfold refreshed. by destruct (c_state c) eqn:E; [..|destruct (Hr imageDir)|]. }
  unfold observed. destruct (kv_freezer w) as [e|f]; [done|].
  destruct f; rewrite ?Href; try done;
    destruct (observed_type_cases c w) as [Ho|[Ho|Ho]]; by rewrite Ho, ?Href.
Qed.

(** ** Pause and resume *)

(** A successful freeze or thaw: the freezer state is what was asked for, and processes
    and files are as before. *)
Definition froze (s : FreezerState) (w w' : W) : Prop :=
  handle_call (Freeze s) w = (inr tt, w') ∧ kv_freezer w' = inr s ∧
  (∀ pid, kv_stat w' pid = kv_stat w pid) ∧ (∀ path, kv_path w' path = kv_path w path).

Lemma froze_observed_type s w w' c : froze s w w' → observed_type c w' = observed_type c w.
Proof.
  intros (_ & _ & H1 & H2). unfold observed_type, alive, fifo_exists.
  rewrite H2. destruct (c_initProcess c); [|done]. by rewrite H1.
Qed.

Lemma ask_freeze s (c : linuxContainer) (w w' : W) : froze s w w' → ask (Freeze s) (c, w) = (Ok tt, (c, w')).
Proof. intros (E & _). unfold ask; simpl. by rewrite E. Qed.

Lemma set_state_set_state a b c : set_state a (set_state b c) = set_state a c.
Proof. done. Qed.

Lemma Pause_run c w w' st :
  currentStatus (c, w) = (Ok st, (set_state (state_for st) c, w)) →
  st = Running ∨ st = Created → froze Frozen w w' →
  Pause (c, w) = (Ok tt, (set_state pausedState c, w')).
Proof.
  intros Es Hst Hf. unfold Pause. rewrite (bind_ok _ _ _ _ _ Es).
  by destruct Hst as [->| ->]; rewrite (bind_ok _ _ _ _ _ (ask_freeze _ _ _ _ Hf)).
Qed.

Lemma Resume_run c w w' :
  currentStatus (c, w) = (Ok Paused, (set_state pausedState c, w)) →
  froze Thawed w w' → Resume (c, w) = (Ok tt, (set_state runningState c, w')).
Proof.
  intros Es Hf. unfold Resume. rewrite (bind_ok _ _ _ _ _ Es). simpl.
  by rewrite (bind_ok _ _ _ _ _ (ask_freeze _ _ _ _ Hf)).
Qed.

Lemma currentStatus_paused c w :
  kv_freezer w = inr Frozen → accepts (c_state c) Paused = true →
  currentStatus (c, w) = (Ok Paused, (set_state pausedState c, w)).
Proof.
  intros Hf Ha. rewrite currentStatus_run. unfold observed. rewrite Hf, Ha.
  unfold refreshed. by destruct (c_state c).
Qed.

(** Pausing a running container freezes its cgroup, and resuming it thaws it: the
    container is running again, and in between its status is paused. *)
Theorem Pause_Resume c w w1 w2 :
  (∀ d, c_state c ≠ restoredState d) → accepts (c_state c) Running = true →
  observed c w = inr Running → froze Frozen w w1 → froze Thawed w1 w2 →
  ∃ c1 c2, Pause (c, w) = (Ok tt, (c1, w1)) ∧
    currentStatus (c1, w1) = (Ok Paused, (c1, w1)) ∧
    Resume (c1, w1) = (Ok tt, (c2, w2)) ∧
    currentStatus (c2, w2) = (Ok Running, (c2, w2)) ∧ kv_freezer w2 = inr Thawed.
Proof.
  intros Hr Ha Ho Hf1 Hf2.
  assert (observed_type c w = Running) as Hot.
  { unfold observed in Ho. destruct (kv_freezer w) as [|[]]; congruence. }
  assert (currentStatus (c, w) = (Ok Running, (set_state runningState c, w))) as Es.
  { rewrite currentStatus_run, Ho, Ha. unfold refreshed.
    by destruct (c_state c) eqn:E; [..|destruct (Hr imageDir)|]. }
  exists (set_state pausedState c), (set_state runningState c).
  assert (currentStatus (set_state pausedState c, w1) =
          (Ok Paused, (set_state pausedState c, w1))) as Ep.
  { apply (currentStatus_paused (set_state pausedState c)); [apply Hf1|done]. }
  split_and!.
  - apply (Pause_run c w w1 Running Es); auto.
  - exact Ep.
  - by apply (Resume_run (set_state pausedState c) w1 w2).
  - rewrite currentStatus_run. unfold observed.
    pose proof (froze_observed_type Thawed w1 w2 (set_state runningState c) Hf2) as E.
    destruct Hf2 as (_ & -> & _ & _). rewrite E, observed_type_state.
    by rewrite (froze_observed_type Frozen w w1 c Hf1), Hot.
  - apply Hf2.
Qed.

(** A container that has been created but not started can be paused, but resuming it
    leaves the object in state running while the exec fifo still shows it as created:
    from then on every status query fails with an invalid transition. *)
Theorem Pause_Resume_created c w w1 w2 :
  c_state c = createdState → observed c w = inr Created →
  froze Frozen w w1 → froze Thawed w1 w2 →
  ∃ c2, Pause (c, w) = (Ok tt, (set_state pausedState c, w1)) ∧
    Resume (set_state pausedState c, w1) = (Ok tt, (c2, w2)) ∧
    currentStatus (c2, w2) =
      (Err (ErrNew "invalid state transition from running to created"), (c2, w2)).
Proof.
  intros Hs Ho Hf1 Hf2.
  assert (observed_type c w = Created) as Hot.
  { unfold observed in Ho. destruct (kv_freezer w) as [|[]]; congruence. }
  exists (set_state runningState c). split_and!.
  - apply (Pause_run c w w1 Created); [|auto|done].
    rewrite currentStatus_run, Ho, Hs. done.
  - apply (Resume_run (set_state pausedState c) w1 w2); [|done].
    apply (currentStatus_paused (set_state pausedState c)); [apply Hf1|done].
  - rewrite currentStatus_run. unfold observed.
    pose proof (froze_observed_type Thawed w1 w2 (set_state runningState c) Hf2) as E.
    destruct Hf2 as (_ & -> & _ & _). rewrite E, observed_type_state.
    by rewrite (froze_observed_type Frozen w w1 c Hf1), Hot.
Qed.

(** ** Restored containers *)

Lemma restored_status_run c d w f :
  c_state c = restoredState d → kv_freezer w = inr f → f ≠ Frozen →
  observed_type c w ≠ Created → currentStatus (c, w) = (Ok Running, (c, w)).
Proof.
  intros Hs Hf Hnf Hot. rewrite currentStatus_run. unfold observed. rewrite Hf, Hs.
  assert (set_state (restoredState d) c = c) as Hc by (destruct c; simpl in *; by subst).
  destruct f; try done;
    destruct (observed_type_cases c w) as [Ho|[Ho|Ho]]; try done; rewrite Ho; simpl; by rewrite Hc.
Qed.

(** The object that restored a container never leaves the restored state: it reports
    running also when the init process has died. *)
Theorem restored_status_stale c d w f :
  c_state c = restoredState d → kv_freezer w = inr f → f ≠ Frozen →
  alive c w = false → currentStatus (c, w) = (Ok Running, (c, w)).
Proof.
  intros Hs Hf Hnf Ha. apply (restored_status_run c d w f); try done.
  unfold observed_type. by rewrite Ha.
Qed.

(** Pausing a container through the object that restored it freezes the container
    and then returns an error; its status cannot be queried any more. *)
Theorem Pause_restored c d w w1 f :
  c_state c = restoredState d → kv_freezer w = inr f → f ≠ Frozen →
  observed_type c w ≠ Created → froze Frozen w w1 →
  Pause (c, w) = (Err (ErrNew "invalid state transition from running to paused"), (c, w1)) ∧
  kv_freezer w1 = inr Frozen ∧
  currentStatus (c, w1) =
    (Err (ErrNew "invalid state transition from running to paused"), (c, w1)).
Proof.
  intros Hs Hf Hnf Hot Hfr.
  assert (currentStatus (c, w) = (Ok Running, (c, w))) as Es by (by eapply restored_status_run).
  split_and!; [|apply Hfr|].
  - unfold Pause. rewrite (bind_ok _ _ _ _ _ Es), (bind_ok _ _ _ _ _ (ask_freeze _ _ _ _ Hfr)).
    unfold transition. rewrite bind_this; simpl. by rewrite Hs.
  - rewrite currentStatus_run. unfold observed. destruct Hfr as (_ & -> & _ & _). by rewrite Hs.
Qed.

(** ** Signals *)

Lemma Signal_stopped_run s c w c' :
  currentStatus (c, w) = (Ok Stopped, (c', w)) →
  Signal s false (c, w) =
    (Err (newGenericError "container not running" ContainerNotRunning), (c', w)).
Proof. intros E. unfold Signal. by rewrite (bind_ok _ _ _ _ _ E). Qed.

(** C34. No signal to the container process ([all] is false) reaches a process that took over
    the pid of a dead init process: when the start time differs, or the process is dead,
    the request is refused and the world is left as it is - provided that the freezer can
    be read and does not say Frozen, and that the state is not restored. A container that
    is taken for paused is signalled without a look at the process, and so is a restored
    one, see [Signal_restored_reuses_pid]. *)
Theorem Signal_no_pid_reuse s c w f :
  (∀ d, c_state c ≠ restoredState d) → kv_freezer w = inr f → f ≠ Frozen →
  alive c w = false →
  ∃ c', Signal s false (c, w) =
        (Err (newGenericError "container not running" ContainerNotRunning), (c', w)).
Proof.
  intros Hr Hf Hnf Ha.
  assert (observed c w = inr Stopped) as Ho.
  { unfold observed, observed_type. rewrite Hf, Ha. by destruct f. }
  exists (set_state stoppedState c). apply Signal_stopped_run.
  rewrite currentStatus_run, Ho.
  by destruct (c_state c) eqn:E; [..|destruct (Hr imageDir)|].
Qed.

(** Through the object that restored the container, the signal is sent even when the
    pid now belongs to another process. *)
Theorem Signal_restored_reuses_pid s c d w w' f p :
  c_state c = restoredState d → kv_freezer w = inr f → f ≠ Frozen →
  c_initProcess c = Some p → alive c w = false →
  handle_call (SignalPid (pp_pid p) s) w = (inr tt, w') →
  Signal s false (c, w) = (Ok tt, (c, w')).
Proof.
  intros Hs Hf Hnf Hp Ha Hsig.
  assert (currentStatus (c, w) = (Ok Running, (c, w))) as Es.
  { eapply restored_status_run; [done..|]. unfold observed_type. by rewrite Ha. }
  unfold Signal. rewrite (bind_ok _ _ _ _ _ Es). simpl.
  unfold map_err, signal_init. rewrite bind_this; simpl. rewrite Hp.
  unfold ask; simpl. by rewrite Hsig.
Qed.
End Spec.

Section Destruction.
Context `{Handler ccall W}.

Abbreviation CIO A := (M (linuxContainer * W) A).

(** No panic, whatever happens to the object. *)
Definition any (s : linuxContainer * W) : () := tt.
(** The init process is kept. *)
Definition init_of (s : linuxContainer * W) : option parentProcess := c_initProcess s.1.

Lemma quiet_init_ask {A} (c : ccall A) : quiet init_of (ask c).
Proof. apply (quiet_ask c_initProcess). Qed.

Hint Resolve @quiet_init_ask : quiet.

Lemma quiet_init_change f : (∀ c, c_initProcess (f c) = c_initProcess c) → quiet init_of (change f).
Proof. intros Hf [c w]. apply Hf. Qed.

Lemma quiet_runType : quiet init_of runType.
Proof. unfold runType. quiet. Qed.

Hint Resolve quiet_runType : quiet.

Lemma quiet_transition s : quiet init_of (transition s).
Proof.
  unfold transition. apply quiet_bind; [quiet|]. intros c.
  destruct (c_state c), s; simpl; quiet.
Qed.

Hint Resolve quiet_transition : quiet.

Lemma quiet_refreshState : quiet init_of refreshState.
Proof. unfold refreshState, isPaused. quiet. Qed.

Hint Resolve quiet_refreshState : quiet.

Lemma quiet_currentStatus : quiet init_of currentStatus.
Proof. unfold currentStatus. quiet. Qed.

Hint Resolve quiet_currentStatus : quiet.

Lemma quiet_runPoststopHooks : quiet init_of runPoststopHooks.
Proof. unfold runPoststopHooks, currentOCIState. quiet. Qed.

Lemma quiet_signalAllProcesses s : quiet init_of (signalAllProcesses s).
Proof. unfold signalAllProcesses, warn. quiet; unfold reap, warn; quiet. Qed.

(** [destroy] always goes through to the end. *)
Lemma destroy_run s : ∃ r s', destroy s = (r, s') ∧ (∀ x, r ≠ Panic x) ∧
  c_state s'.1 = stoppedState ∧ c_initProcess s'.1 = None.
Proof.
  unfold destroy. rewrite bind_this.
  match goal with |- context [when ?b ?m] =>
    assert (∃ s1, when b m s = (Ok tt, s1)) as [s1 E1] end.
  { destruct (negb _ || _); simpl; [|by eexists].
    destruct (ignore_run init_of _ s (quiet_signalAllProcesses SIGKILL)) as (s1 & ? & _).
    by exists s1. }
  rewrite (bind_ok _ _ _ _ _ E1).
  destruct (err_of_run init_of (ask CgroupDestroy) s1 ltac:(quiet)) as (e1 & s2 & E2 & _).
  rewrite (bind_ok _ _ _ _ _ E2).
  assert (∃ e2 s3, (if c_intelRdtManager s.1 then err_of (ask IntelRdtDestroy) else ret None) s2 =
                   (Ok e2, s3)) as (e2 & s3 & E3).
  { destruct (c_intelRdtManager s.1); [|by do 2 eexists].
    destruct (err_of_run init_of (ask IntelRdtDestroy) s2 ltac:(quiet)) as (e2 & s3 & ? & _); eauto. }
  rewrite (bind_ok _ _ _ _ _ E3).
  destruct (err_of_run init_of (ask (OsRemoveAll (c_root s.1))) s3 ltac:(quiet))
    as (e3 & s4 & E4 & _).
  rewrite (bind_ok _ _ _ _ _ E4), bind_change.
  destruct (err_of_run init_of runPoststopHooks (set_initProcess None s4.1, s4.2)
              quiet_runPoststopHooks) as (e4 & s5 & E5 & Hi).
  rewrite (bind_ok _ _ _ _ _ E5), bind_change.
  destruct (first_error _ _); do 2 eexists; (split; [reflexivity|]); by split_and!.
Qed.

(** What a destruction may end in. *)
Definition destroyed (s : linuxContainer * W) (r : result ()) (s' : linuxContainer * W) : Prop :=
  (∀ x, r ≠ Panic x) ∧
  (c_state s'.1 = stoppedState ∧ c_initProcess s'.1 = None ∨
   is_ok r = false ∧ c_initProcess s'.1 = c_initProcess s.1).

Lemma destroyed_destroy s0 s r s' : destroy s = (r, s') → destroyed s0 r s'.
Proof. destruct (destroy_run s) as (r1 & s1 & -> & Hp & H1 & H2). intros [= <- <-]. split; auto. Qed.

(** After a step that keeps the init process, or its failure. *)
Lemma destroyed_bind {A} (m : CIO A) k s r s' :
  quiet init_of m → (∀ a s1, m s = (Ok a, s1) → init_of s1 = init_of s → k a s1 = (r, s') → destroyed s1 r s') →
  bind m k s = (r, s') → destroyed s r s'.
Proof.
  intros Hm Hk E. apply bind_run in E as [(a & s1 & E1 & E)|[(e & E1 & ->)|(x & E1 & ->)]];
    pose proof (quiet_run _ _ _ _ _ Hm E1) as [Hi Hp].
  - destruct (Hk a s1 E1 Hi E) as [Hp' Ho]. split; [done|]. unfold init_of in Hi.
    destruct Ho as [?|[? Ho]]; [by left|right]. split; [done|]. congruence.
  - split; [done|]. right. by split.
  - by destruct (Hp x eq_refl).
Qed.

(** [created] is shown only for a live init process. *)
Lemma runType_created s s' : runType s = (Ok Created, s') → is_Some (c_initProcess s.1).
Proof. unfold runType. rewrite bind_this. by destruct (c_initProcess s.1). Qed.

Definition created_has_init (s : linuxContainer * W) : Prop :=
  c_state s.1 = createdState → is_Some (c_initProcess s.1).

(** Looking at the kernel does not touch the object. *)
Definition object (s : linuxContainer * W) : linuxContainer := s.1.
Lemma quiet_obj_ask {A} (c : ccall A) : quiet object (ask c).
Proof. apply (quiet_ask (λ x, x)). Qed.

Lemma quiet_obj_isPaused : quiet object isPaused.
Proof. unfold isPaused. apply quiet_bind; [apply quiet_obj_ask|intros; apply quiet_ret]. Qed.

Lemma quiet_obj_runType : quiet object runType.
Proof.
  unfold runType. apply quiet_bind; [quiet|intros c].
  destruct (c_initProcess c); [|quiet].
  apply quiet_bind; [apply quiet_try, quiet_obj_ask|intros []]; [quiet|].
  destruct (_ || _ : bool); [quiet|].
  apply quiet_bind; [apply quiet_try, quiet_obj_ask|intros []]; quiet.
Qed.

(** The refresh of a loaded container leaves one of the four observable states. *)
Lemma refresh_loaded s st s' :
  c_state s.1 = loadedState st → refreshState s = (Ok tt, s') →
  created_has_init s' ∧ ∀ st', c_state s'.1 ≠ loadedState st'.
Proof.
  intros Hs E. unfold created_has_init. unfold refreshState in E.
  apply bind_run in E as [(p & s1 & E1 & E)|[(?&_&[=])|(?&_&[=])]].
  apply (quiet_run _ _ _ _ _ quiet_obj_isPaused) in E1 as [Ho1 _]. unfold object in Ho1.
  assert (∀ x s2, object s2 = s.1 → transition x s2 = (Ok tt, s') → s'.1 = set_state x s.1) as Htr.
  { intros x s2 Ho. unfold transition, object in *. rewrite bind_this, Ho, Hs.
    unfold loaded_transition, change, modify. rewrite Ho. by intros [= <-]. }
  destruct (p : bool).
  { rewrite (Htr _ _ Ho1 E). by split. }
  apply bind_run in E as [(t & s2 & E2 & E)|[(?&_&[=])|(?&_&[=])]].
  pose proof (quiet_run _ _ _ _ _ quiet_obj_runType E2) as [Ho2 _]. unfold object in Ho2.
  assert (object s2 = s.1) as Ho by (unfold object; congruence).
  destruct t; rewrite (Htr _ _ Ho E); (split; [|done]); intros Hc; try done.
  simpl. rewrite <- Ho1. by eapply runType_created.
Qed.

Lemma destroyed_throw {s} e r s' : throw e s = (r, s') → destroyed s r s'.
Proof. intros [= <- <-]. split; [done|by right]. Qed.

Lemma running_destroy_outcome s r s' : running_destroy s = (r, s') → destroyed s r s'.
Proof.
  apply destroyed_bind; [quiet|]. intros t s1 _ _.
  case_decide; [apply destroyed_throw|apply destroyed_destroy].
Qed.

Lemma created_destroy_outcome s r s' :
  is_Some (c_initProcess s.1) → created_destroy s = (r, s') → destroyed s r s'.
Proof.
  intros [p Hp]. unfold created_destroy, signal_init.
  assert (ignore (do c ← this; match c_initProcess c with
                  | Some p => ask (SignalPid (pp_pid p) SIGKILL)
                  | None => panic "invalid memory address or nil pointer dereference"
                  end) s = ignore (ask (SignalPid (pp_pid p) SIGKILL)) s) as E.
  { unfold ignore, try, bind at 1 3. rewrite bind_this, Hp. done. }
  unfold bind at 1. rewrite E.
  change (bind (ignore (ask (SignalPid (pp_pid p) SIGKILL))) (λ _, destroy) s = (r, s') →
          destroyed s r s').
  apply destroyed_bind; [quiet|]. intros ? ? _ _. apply destroyed_destroy.
Qed.

Lemma paused_destroy_outcome s r s' : paused_destroy s = (r, s') → destroyed s r s'.
Proof.
  apply destroyed_bind; [quiet|]. intros t s1 _ _.
  destruct (_ || _ : bool); [apply destroyed_throw|].
  apply destroyed_bind; [quiet|]. intros ? ? _ _. apply destroyed_destroy.
Qed.

Lemma restored_destroy_outcome s r s' : restored_destroy s = (r, s') → destroyed s r s'.
Proof.
  apply destroyed_bind; [quiet|]. intros c s1 _ _.
  apply destroyed_bind; [quiet|]. intros [e|] s2 _ _; [|apply destroyed_destroy].
  destruct (IsNotExist e); [apply destroyed_destroy|apply destroyed_throw].
Qed.

Lemma state_destroy_outcome fuel : ∀ s r s',
  created_has_init s → (∀ st, c_state s.1 = loadedState st → (0 < fuel)%nat) →
  state_destroy fuel s = (r, s') → destroyed s r s'.
Proof.
  assert (∀ s r s', created_has_init s → (∀ st, c_state s.1 ≠ loadedState st) →
    ∀ k, (match c_state s.1 with
     | stoppedState => destroy | runningState => running_destroy
     | createdState => created_destroy | pausedState => paused_destroy
     | restoredState _ => restored_destroy | loadedState _ => k
     end) s = (r, s') → destroyed s r s') as Hbase.
  { intros s r s' Hc Hl k. destruct (c_state s.1) eqn:Hs.
    - apply destroyed_destroy.
    - apply running_destroy_outcome.
    - apply created_destroy_outcome. by apply Hc.
    - apply paused_destroy_outcome.
    - apply restored_destroy_outcome.
    - by destruct (Hl s0). }
  induction fuel as [|fuel IH]; intros s r s' Hc Hfuel; simpl; rewrite bind_this.
  { apply Hbase; [done|]. intros st Hst. specialize (Hfuel st Hst). lia. }
  assert ((∃ st, c_state s.1 = loadedState st) ∨ (∀ st, c_state s.1 ≠ loadedState st))
    as [[st Hst]|Hnl] by (destruct (c_state s.1); eauto).
  - rewrite Hst. apply destroyed_bind; [quiet|]. intros [] s1 E1 Hi.
    destruct (refresh_loaded _ _ _ Hst E1) as [Hc1 Hl1].
    apply IH; [done|]. intros st' Hst'. by destruct (Hl1 st').
  - by apply Hbase.
Qed.

(** C31. [Destroy], whatever fails on the way, ends either with a refusal that keeps the
    init process or with a stopped container that has none; it never panics, and the
    recursion of a loaded container ends after one refresh. *)
Theorem Destroy_outcome c w r c' w' :
  (c_state c = createdState → is_Some (c_initProcess c)) →
  Destroy (c, w) = (r, (c', w')) →
  (∀ x, r ≠ Panic x) ∧
  (c_state c' = stoppedState ∧ c_initProcess c' = None ∨
   is_ok r = false ∧ c_initProcess c' = c_initProcess c).
Proof.
  intros Hc E. by apply (state_destroy_outcome 1) in E; [|done|lia].
Qed.

(** ** Joining namespaces *)

(** The entry of one namespace in the list sent to the bootstrap program. *)
Definition join_entry (namespaces : gmap string string) (t : NamespaceType) : string :=
  NsName t +:+ ":" +:+ default "" (namespaces !! t).

Definition joins (c : linuxContainer) (namespaces : gmap string string) (t : NamespaceType) : Prop :=
  ns_Contains (cf_Namespaces (c_config c)) t = true ∧
  ∃ p, namespaces !! t = Some p ∧ p ≠ "" ∧ contains_char "," p = false.

Lemma order_paths_run nss namespaces types : ∀ s ps s',
  order_paths nss namespaces types s = (Ok ps, s') →
  ∃ ts, ts `sublist_of` types ∧ ps = join_entry namespaces <$> ts ∧
    (∀ t, t ∈ ts → ns_Contains nss t = true ∧
       ∃ p, namespaces !! t = Some p ∧ p ≠ "" ∧ contains_char "," p = false) ∧
    (∀ t p, t ∈ types → ns_Contains nss t = true → namespaces !! t = Some p → p ≠ "" → t ∈ ts).
Proof.
  induction types as [|t types IH]; simpl; intros s ps s' E.
  { injection E as <- <-. exists []. split_and!; try done; set_solver. }
  assert (∀ s1, order_paths nss namespaces types s1 = (Ok ps, s') →
    (ns_Contains nss t = true → ∀ p, namespaces !! t = Some p → p = "") →
    ∃ ts, ts `sublist_of` t :: types ∧ ps = join_entry namespaces <$> ts ∧
    (∀ t, t ∈ ts → ns_Contains nss t = true ∧
       ∃ p, namespaces !! t = Some p ∧ p ≠ "" ∧ contains_char "," p = false) ∧
    (∀ t' p, t' ∈ t :: types → ns_Contains nss t' = true → namespaces !! t' = Some p → p ≠ "" →
       t' ∈ ts)) as Hskip.
  { intros s1 E1 Hno. destruct (IH _ _ _ E1) as (ts & H1 & H2 & H3 & H4).
    exists ts. split_and!; [by constructor|done..|].
    intros t' p [->|Ht]%elem_of_cons Hc Hp Hne; [by destruct Hne; eapply Hno|eauto]. }
  destruct (ns_Contains nss t) eqn:Hc; cbn [negb] in E; [|by eapply Hskip].
  destruct (namespaces !! t) as [p|] eqn:Hp; [|by eapply Hskip].
  case_decide as Hne; [eapply Hskip; [exact E|]; intros _ ? [= <-]; done|].
  apply bind_run in E as [(ok & s1 & _ & E)|[(?&_&[=])|(?&_&[=])]].
  destruct ok; cbn [negb] in E; [|done].
  apply bind_run in E as [(? & s2 & _ & E)|[(?&_&[=])|(?&_&[=])]].
  destruct (contains_char "," p) eqn:Hcomma; [done|].
  apply bind_run in E as [(rest & s3 & E & E')|[(?&_&[=])|(?&_&[=])]].
  injection E' as <- <-. destruct (IH _ _ _ E) as (ts & H1 & -> & H3 & H4).
  exists (t :: ts). split_and!; [by constructor| |set_solver|set_solver].
  simpl. unfold join_entry at 2. by rewrite Hp.
Qed.

Lemma join_entry_no_comma c namespaces t :
  joins c namespaces t → contains_char "," (join_entry namespaces t) = false.
Proof.
  intros (_ & p & Hp & _ & Hc). unfold join_entry. rewrite Hp. simpl.
  rewrite !contains_char_app, Hc, orb_false_r.
  unfold NsName. by repeat case_decide.
Qed.

(** The list of namespaces to join, when it is made, holds exactly the configured
    namespace types with a non-empty path, in the fixed order that joins the user
    namespace first; joined with commas, as it is sent to the bootstrap program, it can
    be split again without loss. *)
Theorem orderNamespacePaths_spec c w namespaces ps s' :
  orderNamespacePaths namespaces (c, w) = (Ok ps, s') →
  ∃ ts, ts `sublist_of` NamespaceTypes ∧ ps = join_entry namespaces <$> ts ∧
    (∀ t, t ∈ NamespaceTypes → (t ∈ ts ↔ joins c namespaces t)) ∧
    (ps ≠ [] → Split "," (Join "," ps) = ps).
Proof.
  unfold orderNamespacePaths. rewrite bind_this; cbn [fst]. intros E.
  apply order_paths_run in E as (ts & Hsub & -> & Hts & Hall). exists ts.
  assert (∀ t, t ∈ ts → joins c namespaces t) as Hj.
  { intros t Ht. by apply Hts. }
  split_and!; [done|done| |].
  - intros t Ht. split; [apply Hj|]. intros (Hc & p & Hp & Hne & _). by eapply Hall.
  - intros Hne. apply (Split_Join ","); [done|].
    intros x (t & -> & Ht)%list_elem_of_fmap. by apply join_entry_no_comma with c, Hj.
Qed.

(** ** The exec loop *)

(** [exec] does not wait for a process that is dead: when the fifo stays shut and
    the process is gone, the first tick of the timer ends the loop. *)
Theorem exec_dead_process c w w1 p fuel :
  c_initProcess c = Some p →
  handle_call (AwaitExecFifo (path_Join (c_root c) execFifoFilename)) w = (inr None, w1) →
  (∃ e w2, handle_call (SystemStat (pp_pid p)) w1 = (inl e, w2)) →
  ∃ r s', exec (S fuel) (c, w) = (r, s') ∧
    (r = Ok true ∨ r = Err (ErrNew "container process is already dead")).
Proof.
  intros Hp Hf (e & w2 & Hs). unfold exec. rewrite bind_this; cbn [fst]. rewrite Hp. simpl.
  assert (try (ask (AwaitExecFifo (path_Join (c_root c) execFifoFilename))) (c, w) =
          (Ok (inr None), (c, w1))) as E1.
  { unfold try, ask; simpl. by rewrite Hf. }
  rewrite (bind_ok _ _ _ _ _ E1).
  assert (try (ask (SystemStat (pp_pid p))) (c, w1) = (Ok (inl e), (c, w2))) as E2.
  { unfold try, ask; simpl. by rewrite Hs. }
  rewrite (bind_ok _ _ _ _ _ E2).
  assert (quiet any (handleFifoResult (path_Join (c_root c) execFifoFilename)
            (ask (OpenExecFifo (path_Join (c_root c) execFifoFilename))))) as Hq.
  { unfold handleFifoResult, readFromExecFifo.
    apply quiet_bind; [apply quiet_map_err, (quiet_ask (λ _, tt))|intros data].
    apply quiet_bind; [|intros _; apply (quiet_ask (λ _, tt))].
    case_decide; [apply quiet_throw|apply quiet_ret]. }
  destruct (err_of_run any _ (c, w2) Hq) as (e' & s3 & E3 & _).
  rewrite (bind_ok _ _ _ _ _ E3). destruct e'; do 2 eexists; split; [reflexivity|by right|reflexivity|by left].
Qed.
End Destruction.

(** ** A simulated kernel, for concrete inputs *)

Record sim := mk_sim {
  sim_freezer : FreezerState;
  sim_stat : list (Z * Stat_t);
  sim_files : list string;
  sim_signals : list (Z * Z)
}.

Definition sim_lookup (w : sim) (pid : Z) : error + Stat_t :=
  match list_find (λ e, e.1 = pid) (sim_stat w) with
  | Some (_, (_, st)) => inr st
  | None => inl (ErrSys ENOENT)
  end.

Definition sim_path (w : sim) (path : string) : error + bool :=
  if decide (path ∈ sim_files w) then inr false else inl (ErrSys ENOENT).

Definition sim_handle {A} (c : ccall A) (w : sim) : (error + A) * sim :=
  match c with
  | Freeze s => (inr tt, mk_sim s (sim_stat w) (sim_files w) (sim_signals w))
  | GetFreezerState => (inr (sim_freezer w), w)
  | SystemStat pid => (sim_lookup w pid, w)
  | OsStat path => (sim_path w path, w)
  | Lstat path => (inr tt, w)
  | CgroupDestroy => (inr tt, w)
  | OsRemoveAll path => (inr tt, w)
  | AwaitExecFifo path => (inr None, w)
  | SignalPid pid s =>
      (inr tt, mk_sim (sim_freezer w) (sim_stat w) (sim_files w) (sim_signals w ++ [(pid, s)]))
  | _ => (inl (ErrSys ENOENT), w)
  end.

#[export] Instance sim_handler : Handler ccall sim := @sim_handle.

#[export] Instance sim_view : KernelView sim.
Proof. by refine {| kv_freezer w := inr (sim_freezer w); kv_stat := sim_lookup; kv_path := sim_path |}. Defined.

Lemma sim_froze s w :
  froze s w (mk_sim s (sim_stat w) (sim_files w) (sim_signals w)).
Proof. by split_and!. Defined.

Definition example_config : Config := {|
  cf_Rootfs := "/rootfs"; cf_Namespaces := [{| ns_Type := NEWPID; ns_Path := "" |};
    {| ns_Type := NEWNET; ns_Path := "/run/netns/a" |}];
  cf_UidMappings := []; cf_GidMappings := []; cf_RootlessEUID := false;
  cf_RootlessCgroups := false; cf_OomScoreAdj := None; cf_Labels := ["bundle=/b"];
  cf_Hooks := false; cf_Mounts := []; cf_MaskPaths := []; cf_Devices := [];
  cf_Networks := []; cf_resources := 0; cf_Settings := no_settings |}.

Definition example_container (s : containerState) : linuxContainer := {|
  c_id := "c1"; c_root := "/run/runc/c1"; c_config := example_config;
  c_intelRdtManager := false; c_initProcess := Some (nonChildProcess 100 77 []);
  c_initProcessStartTime := 77; c_criuPath := "criu"; c_criuVersion := 0; c_state := s;
  c_created := 0; c_newuidmapPath := ""; c_newgidmapPath := "" |}.

(** Running, created (the exec fifo is there), and dead with its pid reused. *)
Definition running_world : sim :=
  mk_sim Thawed [(100, {| st_State := "S"; st_StartTime := 77 |})] [] [].
Definition created_world : sim :=
  mk_sim Thawed [(100, {| st_State := "S"; st_StartTime := 77 |})]
    ["/run/runc/c1/exec.fifo"] [].
Definition reused_world : sim :=
  mk_sim Thawed [(100, {| st_State := "S"; st_StartTime := 99 |})] [] [].
Definition empty_world : sim := mk_sim Thawed [] [] [].

Lemma currentStatus_spec_witness :
  currentStatus (example_container (loadedState Created), running_world) =
  (Ok Running, (example_container runningState, running_world)).
Proof.
  exact (@currentStatus_spec sim sim_handler sim_view (example_container (loadedState Created)) running_world
           (λ _, ltac:(discriminate))).
Defined.

Lemma Pause_Resume_witness :
  ∃ c1 c2 w1 w2, Pause (example_container runningState, running_world) = (Ok tt, (c1, w1)) ∧
    Resume (c1, w1) = (Ok tt, (c2, w2)) ∧ kv_freezer w2 = inr Thawed.
Proof.
  destruct (@Pause_Resume sim sim_handler sim_view (example_container runningState) running_world _ _
    (λ _, ltac:(discriminate)) eq_refl eq_refl (sim_froze Frozen _) (sim_froze Thawed _))
    as (c1 & c2 & E1 & _ & E2 & _ & E3).
  exact (ex_intro _ c1 (ex_intro _ c2 (ex_intro _ _ (ex_intro _ _ (conj E1 (conj E2 E3)))))).
Defined.

Lemma Pause_Resume_created_witness :
  ∃ c2 w1 w2, Pause (example_container createdState, created_world) =
      (Ok tt, (example_container pausedState, w1)) ∧
    Resume (example_container pausedState, w1) = (Ok tt, (c2, w2)) ∧
    currentStatus (c2, w2) =
      (Err (ErrNew "invalid state transition from running to created"), (c2, w2)).
Proof.
  destruct (@Pause_Resume_created sim sim_handler sim_view (example_container createdState) created_world _ _
    eq_refl ltac:(vm_compute; reflexivity) (sim_froze Frozen _) (sim_froze Thawed _)) as (c2 & E1 & E2 & E3).
  exact (ex_intro _ c2 (ex_intro _ _ (ex_intro _ _ (conj E1 (conj E2 E3))))).
Defined.

Lemma restored_status_stale_witness :
  currentStatus (example_container (restoredState "/img"), empty_world) =
  (Ok Running, (example_container (restoredState "/img"), empty_world)).
Proof.
  exact (@restored_status_stale sim sim_handler sim_view (example_container (restoredState "/img")) "/img" empty_world
           Thawed eq_refl eq_refl ltac:(discriminate) eq_refl).
Defined.

Lemma Pause_restored_witness :
  ∃ w1, Pause (example_container (restoredState "/img"), running_world) =
    (Err (ErrNew "invalid state transition from running to paused"),
     (example_container (restoredState "/img"), w1)) ∧ kv_freezer w1 = inr Frozen.
Proof.
  destruct (@Pause_restored sim sim_handler sim_view (example_container (restoredState "/img")) "/img" running_world _
    Thawed eq_refl eq_refl ltac:(discriminate) ltac:(discriminate) (sim_froze Frozen _))
    as (E1 & E2 & _).
  exact (ex_intro _ _ (conj E1 E2)).
Defined.

Lemma Signal_no_pid_reuse_witness :
  ∃ c', Signal 9 false (example_container runningState, reused_world) =
    (Err (newGenericError "container not running" ContainerNotRunning), (c', reused_world)).
Proof.
  exact (@Signal_no_pid_reuse sim sim_handler sim_view 9 (example_container runningState) reused_world Thawed
           (λ _, ltac:(discriminate)) eq_refl ltac:(discriminate) eq_refl).
Defined.

Lemma Signal_restored_reuses_pid_witness :
  ∃ w', Signal 9 false (example_container (restoredState "/img"), reused_world) =
    (Ok tt, (example_container (restoredState "/img"), w')) ∧ sim_signals w' = [(100, 9)].
Proof.
  eexists. split; [|shelve].
  exact (@Signal_restored_reuses_pid sim sim_handler sim_view 9 (example_container (restoredState "/img")) "/img"
           reused_world _ Thawed (nonChildProcess 100 77 []) eq_refl eq_refl
           ltac:(discriminate) eq_refl eq_refl eq_refl).
  Unshelve. reflexivity.
Defined.

Lemma Destroy_outcome_witness :
  let s' := snd (Destroy (example_container (loadedState Created), empty_world)) in
  c_state s'.1 = stoppedState ∧ c_initProcess s'.1 = None ∨
  is_ok (fst (Destroy (example_container (loadedState Created), empty_world))) = false ∧
  c_initProcess s'.1 = c_initProcess (example_container (loadedState Created)).
Proof.
  exact (proj2 (@Destroy_outcome sim sim_handler (example_container (loadedState Created)) empty_world _ _ _
           ltac:(discriminate) eq_refl)).
Defined.

(** Of the two requested namespaces only the network one is configured. *)
Definition joining_world : sim := mk_sim Thawed [] ["/proc/self/ns/net"] [].
Definition joined_namespaces : gmap string string :=
  {[ NEWNET := "/run/netns/a"; NEWUSER := "/run/userns/a" ]}.

Lemma orderNamespacePaths_spec_witness :
  Split "," (Join "," ["net:/run/netns/a"]) = ["net:/run/netns/a"].
Proof.
  destruct (@orderNamespacePaths_spec sim sim_handler (example_container runningState) joining_world
    joined_namespaces ["net:/run/netns/a"] (example_container runningState, joining_world)
    ltac:(vm_compute; reflexivity)) as (ts & _ & _ & _ & Hs).
  apply Hs. discriminate.
Defined.

Lemma exec_dead_process_witness :
  ∃ r s', exec 1 (example_container createdState, empty_world) = (r, s') ∧
    (r = Ok true ∨ r = Err (ErrNew "container process is already dead")).
Proof.
  exact (@exec_dead_process sim sim_handler (example_container createdState) empty_world empty_world
           (nonChildProcess 100 77 []) 0 eq_refl eq_refl
           (ex_intro _ _ (ex_intro _ _ eq_refl))).
Defined.
