(* ===== verification/Criu.v ===== *)
(** * Checkpoint and restore with CRIU

    Models the CRIU half of [libcontainer/container_linux.go]: version and feature
    checks, the options of a dump and of a restore, external namespaces, mount points,
    the conversation with [criu swrk] and the handling of its notifications. CRIU, the
    kernel and the file system are the world behind [Handler ccall]; what CRIU is going
    to say is part of its answer to [CriuConnect], so the conversation is finite. *)

From S2P Require Import Prelude GoStd GoMonad Container CgroupUtils Rootfs ContainerState.

(** [CriuOpts] of [criu_opts_linux.go]. *)
Record CriuOpts := mk_CriuOpts {
  co_ImagesDirectory : string;
  co_WorkDirectory : string;
  co_ParentImage : string;
  co_LeaveRunning : bool;
  co_TcpEstablished : bool;
  co_ExternalUnixConnections : bool;
  co_ShellJob : bool;
  co_FileLocks : bool;
  co_PreDump : bool;
  co_PageServer : string * Z;
  co_VethPairs : list (string * string); (* container interface, host interface *)
  co_ManageCgroupsMode : Z;
  co_EmptyNs : Z;
  co_AutoDedup : bool;
  co_LazyPages : bool;
  co_StatusFd : Z
}.

Definition set_WorkDirectory (v : string) (o : CriuOpts) : CriuOpts :=
  mk_CriuOpts (co_ImagesDirectory o) v (co_ParentImage o) (co_LeaveRunning o)
    (co_TcpEstablished o) (co_ExternalUnixConnections o) (co_ShellJob o) (co_FileLocks o)
    (co_PreDump o) (co_PageServer o) (co_VethPairs o) (co_ManageCgroupsMode o) (co_EmptyNs o)
    (co_AutoDedup o) (co_LazyPages o) (co_StatusFd o).
Definition set_OptsStatusFd (v : Z) (o : CriuOpts) : CriuOpts :=
  mk_CriuOpts (co_ImagesDirectory o) (co_WorkDirectory o) (co_ParentImage o) (co_LeaveRunning o)
    (co_TcpEstablished o) (co_ExternalUnixConnections o) (co_ShellJob o) (co_FileLocks o)
    (co_PreDump o) (co_PageServer o) (co_VethPairs o) (co_ManageCgroupsMode o) (co_EmptyNs o)
    (co_AutoDedup o) (co_LazyPages o) v.

(** Growing the message. *)
Definition rpc_set (f : RpcSettings → RpcSettings) (o : RpcOpts) : RpcOpts :=
  mk_RpcOpts (ro_base o) (f (ro_set o)) (ro_lists o).
Definition set_ConfigFile (v : string) (o : RpcSettings) : RpcSettings :=
  mk_RpcSettings (Some v) (ro_FreezeCgroup o) (ro_Ps o) (ro_ParentImg o) (ro_TrackMem o)
    (ro_ManageCgroupsMode o) (ro_StatusFd o).
Definition set_FreezeCgroup (v : string) (o : RpcSettings) : RpcSettings :=
  mk_RpcSettings (ro_ConfigFile o) (Some v) (ro_Ps o) (ro_ParentImg o) (ro_TrackMem o)
    (ro_ManageCgroupsMode o) (ro_StatusFd o).
Definition set_Ps (v : string * Z) (o : RpcSettings) : RpcSettings :=
  mk_RpcSettings (ro_ConfigFile o) (ro_FreezeCgroup o) (Some v) (ro_ParentImg o) (ro_TrackMem o)
    (ro_ManageCgroupsMode o) (ro_StatusFd o).
Definition set_ParentImg (v : string) (o : RpcSettings) : RpcSettings :=
  mk_RpcSettings (ro_ConfigFile o) (ro_FreezeCgroup o) (ro_Ps o) (Some v) true
    (ro_ManageCgroupsMode o) (ro_StatusFd o).
Definition set_ManageCgroupsMode (v : Z) (o : RpcSettings) : RpcSettings :=
  mk_RpcSettings (ro_ConfigFile o) (ro_FreezeCgroup o) (ro_Ps o) (ro_ParentImg o) (ro_TrackMem o)
    (Some v) (ro_StatusFd o).
Definition set_StatusFd (v : option Z) (o : RpcSettings) : RpcSettings :=
  mk_RpcSettings (ro_ConfigFile o) (ro_FreezeCgroup o) (ro_Ps o) (ro_ParentImg o) (ro_TrackMem o)
    (ro_ManageCgroupsMode o) v.

Definition rpc_list (f : RpcLists → RpcLists) (o : RpcOpts) : RpcOpts :=
  mk_RpcOpts (ro_base o) (ro_set o) (f (ro_lists o)).
Definition add_External (v : string) (o : RpcLists) : RpcLists :=
  mk_RpcLists (ro_External o ++ [v]) (ro_ExtMnt o) (ro_InheritFd o) (ro_JoinNs o) (ro_Veths o)
    (ro_CgRoot o).
Definition add_ExtMnt (v : ExtMountMap) (o : RpcLists) : RpcLists :=
  mk_RpcLists (ro_External o) (ro_ExtMnt o ++ [v]) (ro_InheritFd o) (ro_JoinNs o) (ro_Veths o)
    (ro_CgRoot o).
Definition add_InheritFd (v : InheritFd) (o : RpcLists) : RpcLists :=
  mk_RpcLists (ro_External o) (ro_ExtMnt o) (ro_InheritFd o ++ [v]) (ro_JoinNs o) (ro_Veths o)
    (ro_CgRoot o).
Definition add_JoinNs (v : JoinNamespace) (o : RpcLists) : RpcLists :=
  mk_RpcLists (ro_External o) (ro_ExtMnt o) (ro_InheritFd o) (ro_JoinNs o ++ [v]) (ro_Veths o)
    (ro_CgRoot o).
Definition add_Veth (v : CriuVethPair) (o : RpcLists) : RpcLists :=
  mk_RpcLists (ro_External o) (ro_ExtMnt o) (ro_InheritFd o) (ro_JoinNs o) (ro_Veths o ++ [v])
    (ro_CgRoot o).
Definition add_CgRoot (v : CgroupRoot) (o : RpcLists) : RpcLists :=
  mk_RpcLists (ro_External o) (ro_ExtMnt o) (ro_InheritFd o) (ro_JoinNs o) (ro_Veths o)
    (ro_CgRoot o ++ [v]).

Definition empty_settings : RpcSettings := mk_RpcSettings None None None None false None None.
Definition empty_lists : RpcLists := mk_RpcLists [] [] [] [] [] [].

(** What the CRIU code changes: the container, the options it was called with, the
    package variable [criuFeatures] and the operations of the restored process. *)
Record CriuState := mk_CriuState {
  k_container : linuxContainer;
  k_opts : CriuOpts;
  k_features : option CriuFeatures;
  k_ops : option parentProcess
}.

Definition set_container (v : linuxContainer) (k : CriuState) : CriuState :=
  mk_CriuState v (k_opts k) (k_features k) (k_ops k).
Definition set_opts (f : CriuOpts → CriuOpts) (k : CriuState) : CriuState :=
  mk_CriuState (k_container k) (f (k_opts k)) (k_features k) (k_ops k).
Definition set_features (v : option CriuFeatures) (k : CriuState) : CriuState :=
  mk_CriuState (k_container k) (k_opts k) v (k_ops k).
Definition set_ops (v : parentProcess) (k : CriuState) : CriuState :=
  mk_CriuState (k_container k) (k_opts k) (k_features k) (Some v).

Definition set_mounts (mounts : list Mount) (c : linuxContainer) : linuxContainer :=
  let cf := c_config c in
  set_config (mk_Config (cf_Rootfs cf) (cf_Namespaces cf) (cf_UidMappings cf) (cf_GidMappings cf)
    (cf_RootlessEUID cf) (cf_RootlessCgroups cf) (cf_OomScoreAdj cf) (cf_Labels cf) (cf_Hooks cf)
    mounts (cf_MaskPaths cf) (cf_Devices cf) (cf_Networks cf) (cf_resources cf) (cf_Settings cf)) c.

Section Criu.
Context `{Handler ccall W}.

Abbreviation K A := (M (CriuState * W) A).

(** A method of the container. *)
Definition on_container {A} (m : M (linuxContainer * W) A) : K A := λ s,
  let (r, s') := m (k_container s.1, s.2) in (r, (set_container s'.1 s.1, s'.2)).

Definition container : K linuxContainer := gets (λ s, k_container s.1).

(** [if err := os.Mkdir(...); err != nil && !os.IsExist(err) { return err }] *)
Definition mkdir_exist (path : string) (mode : Z) : K () :=
  do e ← err_of (ask (OsMkdir path mode));
  match e with
  | Some e => if IsExist e then ret tt else throw e
  | None => ret tt
  end.

(** ** Version *)

Definition compareCriuVersion (criuVersion minVersion : Z) : option error :=
  if criuVersion <? minVersion
  then Some (ErrNew ("CRIU version " +:+ Itoa criuVersion +:+ " must be " +:+ Itoa minVersion
                     +:+ " or higher"))
  else None.

(** The version is asked for once; a failure of the question clears it. *)
Definition checkCriuVersion (minVersion : Z) : K () :=
  do c ← container;
  if negb (c_criuVersion c =? 0) then return_err (compareCriuVersion (c_criuVersion c) minVersion)
  else
    do v ← try (ask (GetCriuVersion (c_criuPath c)));
    match v with
    | inl e => on_container (change (set_criuVersion 0)) ;;;
               throw (ErrWrap "CRIU version check failed" e)
    | inr v => on_container (change (set_criuVersion v)) ;;;
               return_err (compareCriuVersion v minVersion)
    end.

Definition criuSupportsExtNS (t : NamespaceType) : K bool :=
  let check min := do e ← err_of (checkCriuVersion min); ret (bool_decide (e = None)) in
  if decide (t = NEWNET) then check 31100
  else if decide (t = NEWPID) then check 31500
  else ret false.

(** ** Options *)

Definition handleCriuConfigurationFile (c : linuxContainer) (o : RpcOpts) : RpcOpts :=
  match snd (Annotations (cf_Labels (c_config c))) !! "org.criu.config" with
  | Some f => if decide (f = "") then o else rpc_set (set_ConfigFile f) o
  | None => rpc_set (set_ConfigFile "/etc/criu/runc.conf") o
  end.

(** [strings.Title] of the file name of a namespace. *)
Definition upper (c : ascii) : ascii :=
  if (97 <=? code c) && (code c <=? 122) then byte_char (code c - 32) else c.
Definition Title (s : string) : string :=
  match s with EmptyString => "" | String c s' => String (upper c) s' end.
Definition criuNsToKey (t : NamespaceType) : string := "extRoot" +:+ Title (NsName t) +:+ "NS".

(** The entry of an external namespace in a dump. *)
Definition external_entry (t : NamespaceType) (ino : Z) : string :=
  NsName t +:+ "[" +:+ Itoa ino +:+ "]:" +:+ criuNsToKey t.

Definition handleCheckpointingExternalNamespaces (o : RpcOpts) (t : NamespaceType) : K RpcOpts :=
  do ok ← criuSupportsExtNS t;
  if negb ok then ret o
  else
    do c ← container;
    let nsPath := ns_PathOf (cf_Namespaces (c_config c)) t in
    if decide (nsPath = "") then ret o
    else
      do ino ← ask (StatIno nsPath);
      ret (rpc_list (add_External (external_entry t ino)) o).

Definition handleRestoringExternalNamespaces (o : RpcOpts) (extraFiles : list Z)
  (t : NamespaceType) : K (RpcOpts * list Z) :=
  do ok ← criuSupportsExtNS t;
  if negb ok then ret (o, extraFiles)
  else
    do c ← container;
    let nsPath := ns_PathOf (cf_Namespaces (c_config c)) t in
    if decide (nsPath = "") then ret (o, extraFiles)
    else
      do fd ← map_err (λ _, ErrNew ("Requested network namespace " +:+ nsPath +:+
                                    " does not exist")) (ask (OsOpen nsPath));
      ret (rpc_list (add_InheritFd {| if_Key := criuNsToKey t;
                                      if_Fd := i32 (4 + Z.of_nat (length extraFiles)) |}) o,
           extraFiles ++ [fd]).

(** The loop over [c.config.Namespaces]. *)
Fixpoint restore_namespaces (nss : list Namespace) (o : RpcOpts) (extraFiles : list Z)
  : K (RpcOpts * list Z) :=
  match nss with
  | [] => ret (o, extraFiles)
  | ns :: nss' =>
      if bool_decide (ns_Type ns = NEWNET) || bool_decide (ns_Type ns = NEWPID) then
        do p ← handleRestoringExternalNamespaces o extraFiles (ns_Type ns);
        restore_namespaces nss' p.1 p.2
      else
        do c ← container;
        let nsPath := ns_PathOf (cf_Namespaces (c_config c)) (ns_Type ns) in
        if decide (nsPath = "") then restore_namespaces nss' o extraFiles
        else if decide (ns_Type ns = NEWCGROUP)
        then throw (ErrNew ("Do not know how to handle namespace " +:+ ns_Type ns))
        else restore_namespaces nss'
               (rpc_list (add_JoinNs {| jn_Ns := NsName (ns_Type ns); jn_NsFile := nsPath |}) o)
               extraFiles
  end.

Definition handleRestoringNamespaces (o : RpcOpts) (extraFiles : list Z)
  : K (RpcOpts * list Z) :=
  do c ← container; restore_namespaces (cf_Namespaces (c_config c)) o extraFiles.

Definition criuDumpMount (rootfs : string) (m : Mount) : ExtMountMap :=
  let d := TrimPrefix (mt_Destination m) rootfs in {| em_Key := d; em_Val := d |}.
Definition addCriuDumpMount (rootfs : string) (o : RpcOpts) (m : Mount) : RpcOpts :=
  rpc_list (add_ExtMnt (criuDumpMount rootfs m)) o.

Definition criuRestoreMount (rootfs : string) (m : Mount) : ExtMountMap :=
  {| em_Key := TrimPrefix (mt_Destination m) rootfs; em_Val := mt_Source m |}.
Definition addCriuRestoreMount (rootfs : string) (o : RpcOpts) (m : Mount) : RpcOpts :=
  rpc_list (add_ExtMnt (criuRestoreMount rootfs m)) o.

Definition initPid (c : linuxContainer) : K Z :=
  match c_initProcess c with
  | Some p => ret (pp_pid p)
  | None => panic "invalid memory address or nil pointer dereference"
  end.

Fixpoint addMaskPaths (paths : list string) (o : RpcOpts) : K RpcOpts :=
  match paths with
  | [] => ret o
  | path :: paths' =>
      do c ← container;
      do pid ← initPid c;
      do fi ← try (ask (OsStat ("/proc/" +:+ Itoa pid +:+ "/root/" +:+ path)));
      match fi with
      | inl e => if IsNotExist e then addMaskPaths paths' o else throw e
      | inr true => addMaskPaths paths' o
      | inr false =>
          addMaskPaths paths'
            (rpc_list (add_ExtMnt {| em_Key := path; em_Val := "/dev/null" |}) o)
      end
  end.

Definition restoreNetwork (c : linuxContainer) (opts : CriuOpts) (o : RpcOpts) : RpcOpts :=
  let o := foldl (λ o n, if decide (nw_Type n = "veth")
                         then rpc_list (add_Veth {| vp_IfIn := nw_Name n;
                                                    vp_IfOut := nw_HostInterfaceName n |}) o
                         else o) o (cf_Networks (c_config c)) in
  foldl (λ o p, rpc_list (add_Veth {| vp_IfIn := p.1; vp_IfOut := p.2 |}) o) o
        (co_VethPairs opts).

(** ** Mount points of a restore *)

Definition set_Destination (m : Mount) (d : string) : Mount :=
  {| mt_Source := mt_Source m; mt_Destination := d; mt_Device := mt_Device m; mt_Options := mt_Options m |}.

(** [m.Destination = dest] for the [i]-th mount of the configuration. *)
Definition store_mount (i : nat) (m : Mount) : K () :=
  on_container (change (λ c, set_mounts (<[i := m]> (cf_Mounts (c_config c))) c)).

(** Of [rootfs_linux.go]. *)
Definition prepareBindMount (i : nat) (m : Mount) (rootfs : string) : K () :=
  do isDir ← ask (OsStat (mt_Source m));
  do dest ← ask (SecureJoin rootfs (mt_Destination m));
  checkProcMount rootfs dest (mt_Source m) ;;;
  store_mount i (set_Destination m dest) ;;;
  createIfNotExists dest isDir.

Definition makeCriuRestoreMountpoints (i : nat) (m : Mount) : K () :=
  do c ← container;
  let rootfs := cf_Rootfs (c_config c) in
  if decide (mt_Device m = "cgroup") then ret tt
  else if decide (mt_Device m = "bind") then prepareBindMount i m rootfs
  else
    do dest ← ask (SecureJoin rootfs (mt_Destination m));
    checkProcMount rootfs dest "" ;;;
    store_mount i (set_Destination m dest) ;;;
    ask (MkdirAll dest).

Definition isPathInPrefixList (path : string) (prefix : list string) : bool :=
  existsb (λ p, HasPrefix path (p +:+ "/")) prefix.

(** One mount: its mount point is made unless a tmpfs covers it, and a bind mount is
    mounted; the answer is the target to unmount at the end. *)
Definition prepare_mount (tmpfs : list string) (i : nat) (m : Mount) : K (list string) :=
  if isPathInPrefixList (mt_Destination m) tmpfs then ret []
  else
    makeCriuRestoreMountpoints i m ;;;
    if decide (mt_Device m = "bind") then
      do c ← container;
      let m := default m (cf_Mounts (c_config c) !! i) in
      map_err (ErrWrap "unable to bind mount") (ask (UnixMount (mt_Source m) (mt_Destination m))) ;;;
      ret [mt_Destination m]
    else ret [].

(** The loop; what has been mounted is known also when a mount fails. *)
Fixpoint prepare_mounts (tmpfs : list string) (i : nat) (mounts : list Mount)
  (umounts : list string) : K (option error * list string) :=
  match mounts with
  | [] => ret (None, umounts)
  | m :: mounts' =>
      do r ← try (prepare_mount tmpfs i m);
      match r with
      | inl e => ret (Some e, umounts)
      | inr u => prepare_mounts tmpfs (S i) mounts' (umounts ++ u)
      end
  end.

Definition prepareCriuRestoreMounts : K () :=
  do c ← container;
  let mounts := cf_Mounts (c_config c) in
  let tmpfs := mt_Destination <$> filter (λ m, mt_Device m = "tmpfs") mounts in
  do r ← prepare_mounts tmpfs 0 mounts [];
  for_each (λ u, ignore (ask (UnixUnmount u))) r.2 ;;;
  return_err r.1.

(** ** Notifications *)

Definition lockNetwork (c : Config) : result () :=
  foldM (λ _ n, getStrategy (nw_Type n)) tt (cf_Networks c).
Definition unlockNetwork (c : Config) : result () :=
  foldM (λ _ n, getStrategy (nw_Type n)) tt (cf_Networks c).

(** The hooks see the pid of the restored process. *)
Definition run_restore_hooks (pid : Z) : K () :=
  do c ← container;
  if cf_Hooks (c_config c) then
    do s ← try (on_container currentOCIState);
    match s with
    | inl _ => ret tt
    | inr s =>
        let s := {| os_Version := os_Version s; os_ID := os_ID s; os_Status := os_Status s;
                    os_Pid := pid; os_Bundle := os_Bundle s;
                    os_Annotations := os_Annotations s |} in
        ask (RunHooks "prestart" s) ;;; ask (RunHooks "createRuntime" s)
    end
  else ret tt.

Definition post_restore (process : bool) (pid : Z) (fds : list string) : K () :=
  do stat ← ask (SystemStat pid);
  let r := restoredProcess pid (st_StartTime stat) fds in
  if negb process then panic "invalid memory address or nil pointer dereference"
  else
    change (set_ops r) ;;;
    do k ← this;
    on_container (transition (restoredState (co_ImagesDirectory (k_opts k)))) ;;;
    do t ← ask TimeNow;
    on_container (change (set_created t)) ;;;
    do _ ← on_container (updateState (Some r));
    do c ← container;
    ignore (ask (OsRemove (path_Join (c_root c) "checkpoint"))).

Definition status_ready : K () :=
  do k ← this;
  let fd := co_StatusFd (k_opts k) in
  if fd =? -1 then ret tt
  else
    ignore (ask (WriteStatusFd fd)) ;;;
    ignore (ask (OsClose fd)) ;;;
    change (set_opts (set_OptsStatusFd (-1))).

(** The master of the restored console goes to the console socket of the process. *)
Definition orphan_pts_master (process : bool) (oob : string) : K () :=
  do scm ← ask (ParseSocketControlMessage oob);
  match scm with
  | [] => panic "index out of range"
  | m :: _ =>
      do fds ← ask (ParseUnixRights m);
      match fds with
      | [] => panic "index out of range"
      | fd :: _ =>
          defer (ignore (ask (OsClose fd))) (
            if process then ask (SendFd fd)
            else panic "invalid memory address or nil pointer dereference")
      end
  end.

Definition criuNotifications (resp : CriuResp) (process : bool) (fds : list string)
  (oob : string) : K () :=
  match rs_Notify resp with
  | None => throw (ErrNew "invalid response")
  | Some notify =>
      let script := cn_Script notify in
      do c ← container;
      if decide (script = "post-dump") then
        do f ← ask (OsCreate (path_Join (c_root c) "checkpoint"));
        ignore (ask (OsClose f))
      else if decide (script = "network-unlock") then lift (unlockNetwork (c_config c))
      else if decide (script = "network-lock") then lift (lockNetwork (c_config c))
      else if decide (script = "setup-namespaces") then run_restore_hooks (cn_Pid notify)
      else if decide (script = "post-restore") then post_restore process (cn_Pid notify) fds
      else if decide (script = "orphan-pts-master") then orphan_pts_master process oob
      else if decide (script = "status-ready") then status_ready
      else ret tt
  end.

(** ** The conversation *)

Definition criuApplyCgroups (pid : Z) (req : CriuReq) : K CriuReq :=
  match rq_Type req, rq_Opts req with
  | RESTORE, Some o =>
      do c ← container;
      ask (CgroupApply pid) ;;;
      map_err (ErrWrap "System error") (ask (CgroupSet (c_config c))) ;;;
      do v2 ← ask IsCgroup2UnifiedMode;
      if (v2 : bool) then ret req
      else
        do paths ← ParseCgroupFile ("/proc/" +:+ Itoa pid +:+ "/cgroup");
        let o := foldl (λ o p, rpc_list (add_CgRoot {| cr_Ctrl := p.1; cr_Path := p.2 |}) o)
                       o (map_to_list paths) in
        ret {| rq_Type := rq_Type req; rq_Opts := Some o; rq_Features := rq_Features req;
               rq_NotifySuccess := rq_NotifySuccess req |}
  | _, _ => ret req
  end.

(** The status fd is closed as soon as CRIU has said something. *)
Definition close_status_fd (req : CriuReq) : K CriuReq :=
  match rq_Opts req with
  | Some o =>
      match ro_StatusFd (ro_set o) with
      | Some fd =>
          ignore (ask (OsClose fd)) ;;;
          ret {| rq_Type := rq_Type req; rq_Opts := Some (rpc_set (set_StatusFd None) o);
                 rq_Features := rq_Features req; rq_NotifySuccess := rq_NotifySuccess req |}
      | None => ret req
      end
  | None => ret req
  end.

Definition notify_req : CriuReq :=
  {| rq_Type := NOTIFY; rq_Opts := None; rq_Features := None; rq_NotifySuccess := true |}.

Definition type_name (t : CriuReqType) : string :=
  match t with
  | DUMP => "DUMP" | RESTORE => "RESTORE" | PRE_DUMP => "PRE_DUMP"
  | FEATURE_CHECK => "FEATURE_CHECK" | NOTIFY => "NOTIFY" | VERSION => "VERSION"
  | OTHER_TYPE => "OTHER"
  end.

(** The receive loop; the answer is the last request that was sent. *)
Fixpoint swrk_loop (msgs : list (error + (CriuResp * string))) (req : CriuReq)
  (process : bool) (fds : list string) : K CriuReq :=
  do req ← close_status_fd req;
  match msgs with
  | [] => throw (ErrNew "unexpected EOF")
  | inl e :: _ => throw e
  | inr (resp, oob) :: msgs' =>
      if negb (rs_Success resp) then
        throw (ErrNew ("criu failed: type " +:+ type_name (rq_Type req) +:+ " errno "
                       +:+ Itoa (rs_CrErrno resp)))
      else
        match rs_Type resp with
        | FEATURE_CHECK => change (set_features (rs_Features resp)) ;;; ret req
        | NOTIFY =>
            criuNotifications resp process fds oob ;;;
            ask (CriuWrite notify_req) ;;;
            swrk_loop msgs' notify_req process fds
        | RESTORE | DUMP | PRE_DUMP => ret req
        | _ => throw (ErrNew "unable to parse the response")
        end
  end.

(** [process] tells whether a process was passed (restore) or nil. When the function is
    left before CRIU has been waited for, the connection is closed and CRIU reaped. *)
Definition criuSwrk (process : bool) (req : CriuReq) (extraFiles : list Z) : K () :=
  do conn ← ask (CriuConnect extraFiles);
  let '(pid, msgs) := conn in
  defer (ignore (ask CriuClose)) (
    do p ← on_failure (ignore (ask CriuClose) ;;; ignore (ask (CriuWait pid))) (
      do req ← criuApplyCgroups pid req;
      do fds ← (if process then getPipeFds pid else ret []);
      ask (CriuWrite req) ;;;
      do last ← swrk_loop msgs req process fds;
      ignore (ask CriuCloseWrite) ;;;
      do ok ← ask (CriuWait pid);
      ret (ok : bool, last));
    let '(ok, last) := p in
    if negb ok && negb (bool_decide (rq_Type last = PRE_DUMP))
    then throw (ErrNew "criu failed")
    else ret tt).

(** ** Features *)

(** Is a required feature missing? The reported features are dereferenced only when the
    feature is asked for. *)
Definition missing (want have : option bool) : bool :=
  match want, have with Some true, Some false => true | _, _ => false end.

Definition checkCriuFeatures (rpcOpts : RpcOpts) (feat : CriuFeatures) : K () :=
  change (set_features None) ;;;
  do e ← err_of (criuSwrk false {| rq_Type := FEATURE_CHECK; rq_Opts := Some rpcOpts;
                                   rq_Features := Some feat; rq_NotifySuccess := false |} []);
  match e with
  | Some _ => throw (ErrNew "CRIU feature check failed")
  | None =>
      do k ← this;
      match k_features k with
      | None =>
          if bool_decide (cf_MemTrack feat = None) && bool_decide (cf_LazyPages feat = None)
          then ret tt else panic "invalid memory address or nil pointer dereference"
      | Some have =>
          if missing (cf_MemTrack feat) (cf_MemTrack have)
             || missing (cf_LazyPages feat) (cf_LazyPages have)
          then throw (ErrNew "CRIU is missing features") else ret tt
      end
  end.

(** ** Checkpoint *)

(** The options of the dump message. *)
Definition dump_base (c : linuxContainer) (pid imageDir workDir : Z) (opts : CriuOpts) : RpcBase := {|
  rb_ImagesDirFd := i32 imageDir; rb_WorkDirFd := i32 workDir; rb_LogFile := "dump.log";
  rb_Root := cf_Rootfs (c_config c); rb_Pid := Some (i32 pid); rb_EvasiveDevices := false;
  rb_RstSibling := false; rb_ShellJob := co_ShellJob opts; rb_LeaveRunning := co_LeaveRunning opts;
  rb_TcpEstablished := co_TcpEstablished opts; rb_ExtUnixSk := co_ExternalUnixConnections opts;
  rb_FileLocks := co_FileLocks opts; rb_EmptyNs := co_EmptyNs opts;
  rb_AutoDedup := co_AutoDedup opts; rb_LazyPages := co_LazyPages opts |}.

Definition set_freezer_path (o : RpcOpts) : K RpcOpts :=
  do v2 ← ask IsCgroup2UnifiedMode;
  do use ← (if (v2 : bool) then do e ← err_of (checkCriuVersion 31400); ret (bool_decide (e = None))
            else ret true);
  if (use : bool) then
    do fcg ← ask (CgroupPath "freezer");
    ret (if decide (fcg = "") then o else rpc_set (set_FreezeCgroup fcg) o)
  else ret o.

(** Page server, parent image and cgroups mode. *)
Definition append_options (opts : CriuOpts) (o : RpcOpts) : RpcOpts :=
  let o := if negb (bool_decide (fst (co_PageServer opts) = "")) && negb (snd (co_PageServer opts) =? 0)
           then rpc_set (set_Ps (co_PageServer opts)) o else o in
  let o := if decide (co_ParentImage opts = "") then o
           else rpc_set (set_ParentImg (co_ParentImage opts)) o in
  if co_ManageCgroupsMode opts =? 0 then o
  else rpc_set (set_ManageCgroupsMode (co_ManageCgroupsMode opts)) o.

Definition O_WRONLY : Z := 1.

(** The [--status-fd] argument of a lazy migration. *)
Definition check_status_fd (fd : Z) (o : RpcOpts) : K RpcOpts :=
  if fd =? -1 then ret o
  else
    do flags ← map_err (ErrWrap ("invalid --status-fd argument " +:+ Itoa fd)) (ask (FcntlGetFl fd));
    if Z.land flags O_WRONLY =? 0
    then throw (ErrNew ("invalid --status-fd argument " +:+ Itoa fd +:+ ": not writable"))
    else
      do e ← err_of (checkCriuVersion 31500);
      ret match e with
          | Some _ => rpc_set (set_StatusFd (Some (i32 fd))) o
          | None => o
          end.

(** The mounts of a dump: bind mounts, and the bind mounts that make up cgroup v1. *)
Fixpoint dump_mounts (rootfs : string) (hasCgroupns : bool) (mounts : list Mount) (o : RpcOpts)
  : K RpcOpts :=
  match mounts with
  | [] => ret o
  | m :: mounts' =>
      if decide (mt_Device m = "bind")
      then dump_mounts rootfs hasCgroupns mounts' (addCriuDumpMount rootfs o m)
      else if decide (mt_Device m = "cgroup") then
        do v2 ← ask IsCgroup2UnifiedMode;
        if (v2 : bool) || hasCgroupns then dump_mounts rootfs hasCgroupns mounts' o
        else
          do binds ← getCgroupMounts m;
          dump_mounts rootfs hasCgroupns mounts' (foldl (addCriuDumpMount rootfs) o binds)
      else dump_mounts rootfs hasCgroupns mounts' o
  end.

Definition device_mount (path : string) : Mount :=
  {| mt_Source := path; mt_Destination := path; mt_Device := ""; mt_Options := no_options |}.

Definition descriptorsFilename : string := "descriptors.json".

(** What only a full dump needs. *)
Definition dump_extras (opts : CriuOpts) (o : RpcOpts) : K RpcOpts :=
  do c ← container;
  let cf := c_config c in
  do o ← dump_mounts (cf_Rootfs cf) (ns_Contains (cf_Namespaces cf) NEWCGROUP) (cf_Mounts cf) o;
  do o ← addMaskPaths (cf_MaskPaths cf) o;
  let o := foldl (addCriuDumpMount (cf_Rootfs cf)) o (device_mount <$> cf_Devices cf) in
  match c_initProcess c with
  | None => panic "invalid memory address or nil pointer dereference"
  | Some p =>
      ask (WriteFds (path_Join (co_ImagesDirectory opts) descriptorsFilename)
             (pp_externalDescriptors p)) ;;;
      ret o
  end.

(** [Checkpoint] with the two directories open. *)
Definition checkpoint_dirs (workDir imageDir : Z) : K () :=
  do k ← this;
  let opts := k_opts k in
  let c := k_container k in
  do pid ← initPid c;
  let o := handleCriuConfigurationFile c
             (mk_RpcOpts (dump_base c pid imageDir workDir opts) empty_settings empty_lists) in
  do o ← handleCheckpointingExternalNamespaces o NEWNET;
  do o ← handleCheckpointingExternalNamespaces o NEWPID;
  do o ← set_freezer_path o;
  let o := append_options opts o in
  when (co_PreDump opts)
    (checkCriuFeatures o {| cf_MemTrack := Some true; cf_LazyPages := None |}) ;;;
  do o ← (if co_LazyPages opts then
            checkCriuFeatures o {| cf_MemTrack := None; cf_LazyPages := Some true |} ;;;
            check_status_fd (co_StatusFd opts) o
          else ret o);
  do o ← (if co_PreDump opts then ret o else dump_extras opts o);
  criuSwrk false {| rq_Type := if co_PreDump opts then PRE_DUMP else DUMP; rq_Opts := Some o;
                    rq_Features := None; rq_NotifySuccess := false |} [].

Definition default_work_dir : K () :=
  do k ← this;
  when (bool_decide (co_WorkDirectory (k_opts k) = ""))
    (change (set_opts (set_WorkDirectory (path_Join (c_root (k_container k)) "criu.work")))).

Definition Checkpoint : K () :=
  checkCriuVersion 30000 ;;;
  do k ← this;
  if decide (co_ImagesDirectory (k_opts k) = "")
  then throw (ErrNew "invalid directory to save checkpoint")
  else
    mkdir_exist (co_ImagesDirectory (k_opts k)) 448 ;;;
    default_work_dir ;;;
    do k ← this;
    mkdir_exist (co_WorkDirectory (k_opts k)) 448 ;;;
    do workDir ← ask (OsOpen (co_WorkDirectory (k_opts k)));
    defer (ignore (ask (OsClose workDir))) (
      do imageDir ← ask (OsOpen (co_ImagesDirectory (k_opts k)));
      defer (ignore (ask (OsClose imageDir))) (checkpoint_dirs workDir imageDir)).

(** ** Restore *)

Definition restore_base (root : string) (imageDir workDir : Z) (opts : CriuOpts) : RpcBase := {|
  rb_ImagesDirFd := i32 imageDir; rb_WorkDirFd := i32 workDir; rb_LogFile := "restore.log";
  rb_Root := root; rb_Pid := None; rb_EvasiveDevices := true; rb_RstSibling := true;
  rb_ShellJob := co_ShellJob opts; rb_LeaveRunning := false;
  rb_TcpEstablished := co_TcpEstablished opts; rb_ExtUnixSk := co_ExternalUnixConnections opts;
  rb_FileLocks := co_FileLocks opts; rb_EmptyNs := co_EmptyNs opts;
  rb_AutoDedup := co_AutoDedup opts; rb_LazyPages := co_LazyPages opts |}.

Fixpoint restore_mounts (rootfs : string) (hasCgroupns : bool) (mounts : list Mount) (o : RpcOpts)
  : K RpcOpts :=
  match mounts with
  | [] => ret o
  | m :: mounts' =>
      if decide (mt_Device m = "bind")
      then restore_mounts rootfs hasCgroupns mounts' (addCriuRestoreMount rootfs o m)
      else if decide (mt_Device m = "cgroup") then
        do v2 ← ask IsCgroup2UnifiedMode;
        if (v2 : bool) || hasCgroupns then restore_mounts rootfs hasCgroupns mounts' o
        else
          do binds ← getCgroupMounts m;
          restore_mounts rootfs hasCgroupns mounts' (foldl (addCriuRestoreMount rootfs) o binds)
      else restore_mounts rootfs hasCgroupns mounts' o
  end.

(** The descriptors of the dumped process that were pipes are inherited. *)
Definition inherit_pipes (fds : list string) (o : RpcOpts) : RpcOpts :=
  foldl (λ o p, if Contains (p.2 : string) "pipe:"
                then rpc_list (add_InheritFd {| if_Key := p.2; if_Fd := i32 (Z.of_nat p.1) |}) o
                else o) o (zip (seq 0 (length fds)) fds).

Definition CLONE_NEWNET : Z := 0x40000000.

(** [Restore] with the root mounted and the directories open. *)
Definition restore_rooted (root : string) (workDir imageDir : Z) : K () :=
  do k ← this;
  let opts := k_opts k in
  let o := handleCriuConfigurationFile (k_container k)
             (mk_RpcOpts (restore_base root imageDir workDir opts) empty_settings empty_lists) in
  do p ← handleRestoringNamespaces o [];
  let '(o, extraFiles) := p in
  prepareCriuRestoreMounts ;;;
  do c ← container;
  let cf := c_config c in
  do o ← restore_mounts (cf_Rootfs cf) (ns_Contains (cf_Namespaces cf) NEWCGROUP) (cf_Mounts cf) o;
  let o := if bool_decide (cf_MaskPaths cf = []) then o
           else addCriuRestoreMount (cf_Rootfs cf) o (device_mount "/dev/null") in
  let o := foldl (addCriuRestoreMount (cf_Rootfs cf)) o (device_mount <$> cf_Devices cf) in
  let o := if Z.land (co_EmptyNs opts) CLONE_NEWNET =? 0 then restoreNetwork c opts o else o in
  let o := if co_ManageCgroupsMode opts =? 0 then o
           else rpc_set (set_ManageCgroupsMode (co_ManageCgroupsMode opts)) o in
  do fds ← ask (ReadFds (path_Join (co_ImagesDirectory opts) descriptorsFilename));
  let o := inherit_pipes fds o in
  do e ← err_of (criuSwrk true {| rq_Type := RESTORE; rq_Opts := Some o; rq_Features := None;
                                  rq_NotifySuccess := false |} extraFiles);
  for_each (λ fd, ignore (ask (OsClose fd))) extraFiles ;;;
  return_err e.

(** The root file system is bind-mounted below the state directory. *)
Definition restore_dirs (workDir imageDir : Z) : K () :=
  do c ← container;
  let dir := path_Join (c_root c) "criu-root" in
  ask (OsMkdir dir 493) ;;;
  defer (ignore (ask (OsRemove dir))) (
    do root ← ask (EvalSymlinks dir);
    ask (UnixMount (cf_Rootfs (c_config c)) root) ;;;
    defer (ignore (ask (UnixUnmount root))) (restore_rooted root workDir imageDir)).

Definition Restore : K () :=
  checkCriuVersion 30000 ;;;
  default_work_dir ;;;
  do k ← this;
  mkdir_exist (co_WorkDirectory (k_opts k)) 448 ;;;
  do workDir ← ask (OsOpen (co_WorkDirectory (k_opts k)));
  defer (ignore (ask (OsClose workDir))) (
    if decide (co_ImagesDirectory (k_opts k) = "")
    then throw (ErrNew "invalid directory to restore checkpoint")
    else
      do imageDir ← ask (OsOpen (co_ImagesDirectory (k_opts k)));
      defer (ignore (ask (OsClose imageDir))) (restore_dirs workDir imageDir)).
End Criu.
