(* ===== verification/CriuSim.v ===== *)
(** * A simulated host for checkpoint and restore

    A concrete world for the calls of the CRIU code: a mount table in which some sources
    cannot be mounted, descriptors that count up, and a CRIU that says what it is told to
    say. The theorems of CriuSpec.v and CriuMounts.v are shown to apply in it. *)

From stdpp Require Import gmultiset.
From S2P Require Import Prelude GoStd GoMonad Container ContainerState Criu.

Record host := mk_host {
  h_mounts : gmultiset string;
  h_unmountable : list string;
  h_version : Z;
  h_said : list (error + (CriuResp * string)); (* by CRIU *)
  h_success : bool; (* the exit status of CRIU *)
  h_flags : Z; (* of the status descriptor *)
  h_fd : Z; (* the next descriptor *)
  h_open : list Z;
  h_hooks : list string; (* that have been run *)
  h_sent : list CriuReqType (* to CRIU *)
}.

Definition with_mounts (m : gmultiset string) (w : host) : host :=
  mk_host m (h_unmountable w) (h_version w) (h_said w) (h_success w) (h_flags w) (h_fd w)
    (h_open w) (h_hooks w) (h_sent w).
Definition with_fds (fd : Z) (l : list Z) (w : host) : host :=
  mk_host (h_mounts w) (h_unmountable w) (h_version w) (h_said w) (h_success w) (h_flags w) fd
    l (h_hooks w) (h_sent w).
Definition with_hook (h : string) (w : host) : host :=
  mk_host (h_mounts w) (h_unmountable w) (h_version w) (h_said w) (h_success w) (h_flags w)
    (h_fd w) (h_open w) (h_hooks w ++ [h]) (h_sent w).
Definition with_sent (r : CriuReq) (w : host) : host :=
  mk_host (h_mounts w) (h_unmountable w) (h_version w) (h_said w) (h_success w) (h_flags w)
    (h_fd w) (h_open w) (h_hooks w) (h_sent w ++ [rq_Type r]).

Definition host_handle {A} (c : ccall A) (w : host) : (error + A) * host :=
  match c with
  | UnixMount source target =>
      if decide (source ∈ h_unmountable w) then (inl (ErrSys ENOENT), w)
      else (inr tt, with_mounts ({[+ target +]} ⊎ h_mounts w) w)
  | UnixUnmount target => (inr tt, with_mounts (h_mounts w ∖ {[+ target +]}) w)
  | GetCriuVersion _ => (inr (h_version w), w)
  | CriuConnect _ => (inr (42, h_said w), w)
  | CriuWrite r => (inr tt, with_sent r w)
  | CriuWait _ => (inr (h_success w), w)
  | CriuCloseWrite | CriuClose => (inr tt, w)
  | FcntlGetFl _ => (inr (h_flags w), w)
  | OsOpen _ => (inr (h_fd w), with_fds (h_fd w + 1) (h_open w ++ [h_fd w]) w)
  | OsClose fd => (inr tt, with_fds (h_fd w) (filter (λ x, x ≠ fd) (h_open w)) w)
  | OsMkdir _ _ | MkdirAll _ | OsRemove _ => (inr tt, w)
  | EvalSymlinks p => (inr p, w)
  | SecureJoin root p => (inr (root +:+ p), w)
  | OsStat _ => (inr true, w)
  | StatIno _ => (inr 4026531840, w)
  | ReadFds _ => (inr [], w)
  | Readlink _ => (inr "/dev/null", w)
  | IsCgroup2UnifiedMode => (inr true, w)
  | CgroupApply _ | CgroupSet _ => (inr tt, w)
  | RunHooks h _ => (inr tt, with_hook h w)
  | SystemStat _ => (inr {| st_State := "S"; st_StartTime := 77 |}, w)
  | _ => (inl (ErrSys ENOENT), w)
  end.

#[export] Instance host_handler : Handler ccall host := @host_handle.

(** A host on which CRIU says [said] and exits with [ok]. *)
Definition a_host (said : list (error + (CriuResp * string))) (ok : bool) : host :=
  mk_host ∅ ["/missing"] 31500 said ok 2 10 [] [] [].

Definition says (t : CriuReqType) : error + (CriuResp * string) :=
  inr ({| rs_Type := t; rs_Success := true; rs_CrErrno := 0; rs_Notify := None;
          rs_Features := None |}, "").
Definition notifies (script : string) : error + (CriuResp * string) :=
  inr ({| rs_Type := NOTIFY; rs_Success := true; rs_CrErrno := 0;
          rs_Notify := Some {| cn_Script := script; cn_Pid := 100 |}; rs_Features := None |}, "").

Definition example_opts : CriuOpts := {|
  co_ImagesDirectory := "/images"; co_WorkDirectory := ""; co_ParentImage := "";
  co_LeaveRunning := false; co_TcpEstablished := false; co_ExternalUnixConnections := false;
  co_ShellJob := false; co_FileLocks := false; co_PreDump := false; co_PageServer := ("", 0);
  co_VethPairs := []; co_ManageCgroupsMode := 0; co_EmptyNs := 0; co_AutoDedup := false;
  co_LazyPages := false; co_StatusFd := -1 |}.

Definition example_mount (source dest : string) : Mount :=
  {| mt_Source := source; mt_Destination := dest; mt_Device := "bind"; mt_Options := no_options |}.

(** A container to restore, with these mounts. *)
Definition example_criu (mounts : list Mount) : CriuState := {|
  k_container := set_mounts mounts (example_container stoppedState);
  k_opts := example_opts; k_features := None; k_ops := None |}.
