(* ===== verification/CriuMounts.v ===== *)
(** * What a restore leaves mounted

    A restore mounts things on the host: the root of the container below its state
    directory, and the bind mounts under which mount points have to be made. Against the
    behaviour of mount(2) and umount(2) ([MountView]) a restore leaves the mount table as
    it found it, however it ends. *)

From stdpp Require Import gmultiset.
From S2P Require Import Prelude GoStd GoPath GoMonad Container CgroupUtils Rootfs ContainerState Criu CriuSim.

Definition mount_call {A} (c : ccall A) : bool :=
  match c with UnixMount _ _ | UnixUnmount _ => true | _ => false end.

(** The targets that are mounted, as a multiset: mounting adds the target when it
    succeeds; unmounting (with MNT_DETACH) takes one mount away from a target that has
    one; nothing else a container does changes the table. *)
Class MountView (W : Type) `{Handler ccall W} := {
  mv : W → gmultiset string;
  mv_mount : ∀ source target w,
    mv (handle_call (UnixMount source target) w).2 =
      match (handle_call (UnixMount source target) w).1 with
      | inr _ => {[+ target +]} ⊎ mv w
      | inl _ => mv w
      end;
  mv_unmount : ∀ target w, target ∈ mv w →
    mv (handle_call (UnixUnmount target) w).2 = mv w ∖ {[+ target +]};
  mv_other : ∀ A (c : ccall A) w, mount_call c = false → mv (handle_call c w).2 = mv w
}.

Section Frames.
Context `{MountView W}.

(** The mount table, whatever the object is. *)
Abbreviation table := (λ s, mv s.2).

Lemma frame_ask {S A} (c : ccall A) :
  mount_call c = false → frame (λ s : S * W, mv s.2) (ask c).
Proof.
  intros Hc [x w]. rewrite ask_this. simpl. by apply mv_other.
Qed.

Lemma frame_change {S} (f : S → S) : frame (λ s : S * W, mv s.2) (change f).
Proof. done. Qed.

Lemma frame_on_container {A} (m : M (linuxContainer * W) A) :
  frame (λ s, mv s.2) m → frame (λ s : CriuState * W, mv s.2) (on_container m).
Proof.
  intros Hm s. unfold on_container. specialize (Hm (k_container s.1, s.2)).
  by destruct (m (k_container s.1, s.2)).
Qed.
End Frames.

#[export] Hint Extern 1 (frame _ (ask _)) => apply frame_ask; reflexivity : frame.
#[export] Hint Extern 1 (frame _ (change _)) => apply frame_change : frame.
#[export] Hint Extern 1 (frame _ (on_container _)) => apply frame_on_container; frame : frame.
#[export] Hint Extern 1 (frame _ container) => apply frame_gets : frame.

Section Container.
Context `{MountView W}.

(** ** The methods of the container mount nothing *)

Lemma frame_runType : frame (λ s : linuxContainer * W, mv s.2) runType.
Proof. unfold runType. frame. Qed.
#[local] Hint Resolve frame_runType : frame.

Lemma frame_transition st : frame (λ s : linuxContainer * W, mv s.2) (transition st).
Proof.
  unfold transition, stopped_transition, running_transition, created_transition,
    paused_transition, restored_transition, loaded_transition. frame.
Qed.
#[local] Hint Resolve frame_transition : frame.

Lemma frame_currentOCIState : frame (λ s : linuxContainer * W, mv s.2) currentOCIState.
Proof. unfold currentOCIState, currentStatus, refreshState, isPaused. frame. Qed.

Lemma frame_add_supported pid types paths :
  frame (λ s : linuxContainer * W, mv s.2) (add_supported pid types paths).
Proof.
  revert paths; induction types as [|t types IH]; intros paths; simpl; [frame|].
  unfold IsNamespaceSupported. frame.
Qed.
#[local] Hint Resolve frame_add_supported : frame.

Lemma frame_updateState p : frame (λ s : linuxContainer * W, mv s.2) (updateState p).
Proof. unfold updateState, currentState, saveState, pp_startTime. frame. Qed.
End Container.

#[export] Hint Resolve frame_transition frame_currentOCIState frame_updateState : frame.

Section Criu.
Context `{MountView W}.

Lemma frame_Rootfs_reads {S} pid path : 
  frame (λ s : S * W, mv s.2) (getPipeFds pid) ∧ frame (λ s : S * W, mv s.2) (ParseCgroupFile path).
Proof. split; unfold getPipeFds, ParseCgroupFile; frame. Qed.

(** ** The conversation mounts nothing *)

Lemma frame_criuNotifications resp process fds oob :
  frame (λ s : CriuState * W, mv s.2) (criuNotifications resp process fds oob).
Proof.
  unfold criuNotifications, run_restore_hooks, post_restore, orphan_pts_master, status_ready.
  frame.
Qed.
#[local] Hint Resolve frame_criuNotifications : frame.

Lemma frame_swrk_loop msgs req process fds :
  frame (λ s : CriuState * W, mv s.2) (swrk_loop msgs req process fds).
Proof.
  revert req; induction msgs as [|[e|[resp oob]] msgs IH]; intros req; cbn [swrk_loop];
    unfold close_status_fd; frame.
Qed.
#[local] Hint Resolve frame_swrk_loop : frame.

Lemma frame_criuSwrk process req extraFiles :
  frame (λ s : CriuState * W, mv s.2) (criuSwrk process req extraFiles).
Proof.
  unfold criuSwrk, criuApplyCgroups, getPipeFds, ParseCgroupFile. frame.
Qed.

Lemma frame_checkCriuVersion minVersion :
  frame (λ s : CriuState * W, mv s.2) (checkCriuVersion minVersion).
Proof. unfold checkCriuVersion. frame. Qed.
#[local] Hint Resolve frame_checkCriuVersion : frame.

Lemma frame_restore_namespaces nss o files :
  frame (λ s : CriuState * W, mv s.2) (restore_namespaces nss o files).
Proof.
  revert o files; induction nss as [|ns nss IH]; intros o files; cbn [restore_namespaces];
    unfold handleRestoringExternalNamespaces, criuSupportsExtNS; frame.
Qed.

Lemma frame_GetCgroupMounts {S} all : frame (λ s : S * W, mv s.2) (GetCgroupMounts all).
Proof. unfold GetCgroupMounts, GetAllSubsystems, getCgroupMountsV1, ParseCgroupFile. frame. Qed.
#[local] Hint Resolve frame_GetCgroupMounts : frame.

Lemma frame_restore_mounts rootfs cgns mounts o :
  frame (λ s : CriuState * W, mv s.2) (restore_mounts rootfs cgns mounts o).
Proof.
  revert o; induction mounts as [|m mounts IH]; intros o; cbn [restore_mounts];
    unfold getCgroupMounts, ParseCgroupFile; frame.
Qed.

Lemma frame_makeCriuRestoreMountpoints i m :
  frame (λ s : CriuState * W, mv s.2) (makeCriuRestoreMountpoints i m).
Proof.
  unfold makeCriuRestoreMountpoints, prepareBindMount, checkProcMount, isProc,
    createIfNotExists, store_mount. frame.
Qed.
End Criu.

#[export] Hint Resolve frame_criuSwrk frame_checkCriuVersion frame_restore_namespaces
  frame_restore_mounts frame_makeCriuRestoreMountpoints : frame.

(** ** Mounts and unmounts balance *)

Section Balance.
Context `{MountView W}.

Lemma Rel_no_panic p q x : Rel p q ≠ Panic x.
Proof. unfold Rel. repeat case_match; done. Qed.

Lemma check_valid_no_panic rootfs dest valid x : check_valid rootfs dest valid ≠ Panic x.
Proof.
  induction valid as [|v valid IH]; simpl; [done|]. pose proof (Rel_no_panic (path_Join rootfs v) dest).
  destruct (Rel _ _); simpl; [by case_match|done|naive_solver].
Qed.

Lemma mkpoints_no_panic i m s x : (makeCriuRestoreMountpoints i m s).1 ≠ Panic x.
Proof.
  assert (quiet (λ _, tt) (makeCriuRestoreMountpoints i m : M (CriuState * W) ())) as Hq.
  { assert (∀ A (c : ccall A), quiet (λ _ : CriuState * W, tt) (ask c)) as Ha.
    { intros A c. apply (quiet_ask (λ _, tt)). }
    assert (∀ p q, quiet (λ _ : CriuState * W, tt) (lift (Rel p q))) as Hr.
    { intros p q. apply quiet_lift. intros y. apply Rel_no_panic. }
    unfold makeCriuRestoreMountpoints, prepareBindMount, checkProcMount, isProc,
      createIfNotExists, store_mount, container. quiet; try apply Ha; try apply Hr;
      apply quiet_lift; intros y; apply check_valid_no_panic. }
  specialize (Hq s). intros E. by destruct (makeCriuRestoreMountpoints i m s) as [[] ?].
Qed.

(** One mount: what it reports is what it has added. *)
Lemma prepare_mount_table tmpfs i m s :
  match prepare_mount tmpfs i m s with
  | (Ok us, s') => mv s'.2 = list_to_set_disj us ⊎ mv s.2
  | (Err _, s') => mv s'.2 = mv s.2
  | (Panic _, _) => False
  end.
Proof.
  unfold prepare_mount. destruct (isPathInPrefixList _ _); [simpl; multiset_solver|].
  pose proof (frame_makeCriuRestoreMountpoints i m s) as Hf.
  pose proof (mkpoints_no_panic i m s) as Hp.
  unfold bind at 1. destruct (makeCriuRestoreMountpoints i m s) as [[[]|e|x] s1];
    simpl in Hf, Hp; [|done|naive_solver].
  case_decide; [|simpl; multiset_solver].
  unfold bind at 1, container, gets.
  destruct s1 as [k1 w1]; simpl in Hf. set (m' := default m _).
  pose proof (mv_mount (mt_Source m') (mt_Destination m') w1) as Hm.
  unfold bind, map_err. rewrite ask_this. simpl.
  destruct (handle_call (UnixMount _ _) w1) as [[e|[]] w2]; simpl in *; [congruence|].
  rewrite Hm, Hf. multiset_solver.
Qed.

Lemma prepare_mounts_table tmpfs i mounts us s :
  ∃ e new s', prepare_mounts tmpfs i mounts us s = (Ok (e, us ++ new), s') ∧
    mv s'.2 = list_to_set_disj new ⊎ mv s.2.
Proof.
  revert i us s; induction mounts as [|m mounts IH]; intros i us s; cbn [prepare_mounts].
  { exists None, [], s. rewrite app_nil_r. split; [done|multiset_solver]. }
  pose proof (prepare_mount_table tmpfs i m s) as Ht. unfold bind, try.
  destruct (prepare_mount tmpfs i m s) as [[u|e|x] s1]; [| |done].
  - destruct (IH (S i) (us ++ u) s1) as (e & new & s' & E & Hs').
    exists e, (u ++ new), s'. rewrite E, app_assoc. split; [done|].
    rewrite Hs', Ht, list_to_set_disj_app. multiset_solver.
  - exists (Some e), [], s1. rewrite app_nil_r. split; [done|]. rewrite Ht. multiset_solver.
Qed.

(** The deferred clean-up takes away what is listed. *)
Lemma unmount_all us (s : CriuState * W) X :
  mv s.2 = list_to_set_disj us ⊎ X →
  ∃ s', for_each (λ u, ignore (ask (UnixUnmount u))) us s = (Ok tt, s') ∧ mv s'.2 = X.
Proof.
  revert s; induction us as [|u us IH]; intros s Hs; simpl in *.
  { exists s. split; [done|]. rewrite Hs. multiset_solver. }
  unfold bind at 1, ignore, bind, try. destruct s as [k w]; simpl in *. rewrite ask_this.
  pose proof (mv_unmount u w ltac:(rewrite Hs; multiset_solver)) as Hu.
  destruct (IH (k, (handle_call (UnixUnmount u) w).2)) as (s' & E & Hs').
  { simpl. rewrite Hu, Hs. multiset_solver. }
  exists s'. split; [|done]. by destruct (handle_call (UnixUnmount u) w) as [[e|[]] w'].
Qed.

Lemma frame_prepareCriuRestoreMounts :
  frame (λ s : CriuState * W, mv s.2) prepareCriuRestoreMounts.
Proof.
  intros s. unfold prepareCriuRestoreMounts. unfold bind at 1, container, gets.
  destruct (prepare_mounts_table (mt_Destination <$> filter (λ m, mt_Device m = "tmpfs")
              (cf_Mounts (c_config (k_container s.1)))) 0
              (cf_Mounts (c_config (k_container s.1))) [] s) as (e & new & s1 & E & H1).
  rewrite (bind_ok _ _ _ _ _ E). rewrite app_nil_l.
  destruct (unmount_all new s1 _ H1) as (s2 & E2 & H2).
  rewrite (bind_ok _ _ _ _ _ E2). by destruct e.
Qed.
#[local] Hint Resolve frame_prepareCriuRestoreMounts : frame.

Lemma frame_restore_rooted root workDir imageDir :
  frame (λ s : CriuState * W, mv s.2) (restore_rooted root workDir imageDir).
Proof. unfold restore_rooted, handleRestoringNamespaces. frame. Qed.

(** [defer unmount(t)] after a successful mount of [t]. *)
Lemma frame_mounted {A} source target (m : M (CriuState * W) A) :
  frame (λ s, mv s.2) m →
  frame (λ s : CriuState * W, mv s.2)
    (ask (UnixMount source target) ;;; defer (ignore (ask (UnixUnmount target))) m).
Proof.
  intros Hm [k w]. unfold bind. rewrite ask_this. simpl.
  pose proof (mv_mount source target w) as Hw.
  destruct (handle_call (UnixMount source target) w) as [[e|[]] w1]; simpl in *; [done|].
  unfold defer. specialize (Hm (k, w1)). destruct (m (k, w1)) as [r [k2 w2]]; simpl in *.
  unfold ignore, bind, try. rewrite ask_this.
  pose proof (mv_unmount target w2 ltac:(rewrite Hm, Hw; multiset_solver)) as Hu.
  destruct (handle_call (UnixUnmount target) w2) as [[e|[]] w3]; simpl in *;
    rewrite Hu, Hm, Hw; multiset_solver.
Qed.

Lemma frame_restore_dirs workDir imageDir :
  frame (λ s : CriuState * W, mv s.2) (restore_dirs workDir imageDir).
Proof.
  unfold restore_dirs. apply frame_bind; [frame|intros c].
  apply frame_bind; [frame|intros _]. apply frame_defer; [frame|].
  apply frame_bind; [frame|intros root]. apply frame_mounted, frame_restore_rooted.
Qed.
#[local] Hint Resolve frame_restore_dirs : frame.

(** What is mounted on the host. *)
Definition mounted (s : CriuState * W) : gmultiset string := mv s.2.

(** C18. Whatever becomes of a [Restore] (success, an error at any step, a panic): the
    mounts of the host are afterwards what they were before. The bind mount of the root
    and the bind mounts made so that mount points can be created are all taken down,
    also when one of the later ones cannot be made. *)
Theorem Restore_unmounts (s : CriuState * W) : mounted (Restore s).2 = mounted s.
Proof.
  assert (frame (λ s : CriuState * W, mv s.2) Restore) as Hf; [|apply Hf].
  unfold Restore, default_work_dir, mkdir_exist. frame.
Qed.
End Balance.

(** ** A restore whose second bind mount fails *)

#[export] Instance host_view : MountView host.
Proof.
  refine {| mv := h_mounts |}.
  - intros source target w. unfold handle_call, host_handler, host_handle. by case_decide.
  - done.
  - intros A c w Hc. destruct c; simpl in *; done || by case_decide.
Defined.

Definition failing_restore : CriuState * host :=
  (example_criu [example_mount "/data" "/data"; example_mount "/missing" "/data/x"], a_host [] true).

Lemma Restore_unmounts_witness :
  (Restore failing_restore).1 = Err (ErrWrap "unable to bind mount" (ErrSys ENOENT)) ∧
  mounted (Restore failing_restore).2 = ∅.
Proof.
  split; [vm_compute; reflexivity|]. exact (@Restore_unmounts host host_handler host_view failing_restore).
Defined.

(** The namespace file opened for the restore (descriptor 12, after the two directories)
    is not closed when the restore ends before CRIU is started. *)
Lemma Restore_leaks_namespace : h_open (Restore failing_restore).2.2 = [12].
Proof. by vm_compute. Qed.
