(* ===== verification/CriuSpec.v ===== *)
(** * What checkpoint and restore promise

    Theorems on Criu.v: when a conversation with CRIU is a success, how the namespaces of
    a dump and of a restore agree, and what happens on the edges of the protocol. *)

From S2P Require Import Prelude GoStd GoPath GoMonad Container CgroupUtils Rootfs.
From S2P Require Import ContainerState Criu CriuSim.

Section Conversation.
Context `{Handler ccall W}.

(** A notification, and a message that ends a conversation. *)
Definition notification (m : error + (CriuResp * string)) : Prop :=
  match m with inr (r, _) => rs_Success r = true ∧ rs_Type r = NOTIFY | inl _ => False end.
Definition final_type (t : CriuReqType) : Prop :=
  match t with FEATURE_CHECK | RESTORE | DUMP | PRE_DUMP => True | _ => False end.

Lemma close_status_fd_type req s req' s' :
  close_status_fd req s = (Ok req', s') → rq_Type req' = rq_Type req.
Proof.
  unfold close_status_fd. intros E.
  destruct (rq_Opts req) as [o|]; [|by inv_run]. destruct (ro_StatusFd (ro_set o)); by inv_run.
Qed.

Lemma criuApplyCgroups_type pid req s req' s' :
  criuApplyCgroups pid req s = (Ok req', s') → rq_Type req' = rq_Type req.
Proof.
  unfold criuApplyCgroups. intros E.
  destruct (rq_Type req) eqn:Et, (rq_Opts req) as [o|]; inv_run; try done.
  match type of E with (if ?b then _ else _) _ = _ => destruct b end; by inv_run.
Qed.

Lemma swrk_loop_ok msgs req process fds s last s' :
  swrk_loop msgs req process fds s = (Ok last, s') →
  ∃ notes final oob rest, msgs = notes ++ inr (final, oob) :: rest ∧
    Forall notification notes ∧ rs_Success final = true ∧ final_type (rs_Type final) ∧
    rq_Type last = match notes with [] => rq_Type req | _ => NOTIFY end.
Proof.
  revert req s; induction msgs as [|[e|[resp oob]] msgs IH]; intros req s E; cbn [swrk_loop] in E;
    apply bind_ok_inv in E as (req1 & s1 & E1 & E); [by inv_run..|].
  apply close_status_fd_type in E1.
  destruct (rs_Success resp) eqn:Es; [|by inv_run]. cbn [negb] in E.
  assert (final_type (rs_Type resp) → rq_Type last = rq_Type req → ∃ notes final oob' rest,
    (inr (resp, oob) :: msgs : list (error + _)) = notes ++ inr (final, oob') :: rest ∧
    Forall notification notes ∧ rs_Success final = true ∧ final_type (rs_Type final) ∧
    rq_Type last = match notes with [] => rq_Type req | _ => NOTIFY end) as Hend.
  { intros Hf Hl. exists [], resp, oob, msgs. by split_and!. }
  destruct (rs_Type resp) eqn:Et; inv_run; try (apply Hend; simpl; done || congruence).
  destruct (IH _ _ E) as (notes & final & oob' & rest & -> & Hn & Hs & Hf & Hl).
  exists (inr (resp, oob) :: notes), final, oob', rest. split_and!; try done.
  - by constructor.
  - rewrite Hl. by destruct notes.
Qed.

(** C21. A conversation with CRIU is a success only if CRIU sent a run of successful
    notifications followed by a successful answer of a final type, and CRIU was waited
    for: it exited well, or else the request was a pre-dump that had no notification at
    all (the exemption of the pre-dump tests the last request, and the answer to a
    notification replaces it). *)
Theorem criuSwrk_ok process req extraFiles k w s' pid msgs w1 :
  handle_call (CriuConnect extraFiles) w = (inr (pid, msgs), w1) →
  criuSwrk process req extraFiles (k, w) = (Ok tt, s') →
  ∃ notes final oob rest, msgs = notes ++ inr (final, oob) :: rest ∧
    Forall notification notes ∧ rs_Success final = true ∧ final_type (rs_Type final) ∧
    ∃ ok w2 w3, handle_call (CriuWait pid) w2 = (inr ok, w3) ∧
      (ok = true ∨ (notes = [] ∧ rq_Type req = PRE_DUMP)).
Proof.
  intros Hc E. unfold criuSwrk in E. rewrite (bind_ok _ _ _ _ _ (ask_ok _ k w _ _ Hc)) in E.
  inv_run.
  match goal with
  | Hs : swrk_loop _ _ _ _ _ = (Ok ?last, _), Ha : criuApplyCgroups _ _ _ = _,
    Hw : handle_call (CriuWait _) _ = (inr ?ok, _) |- _ =>
      apply criuApplyCgroups_type in Ha;
      destruct (swrk_loop_ok _ _ _ _ _ _ _ Hs) as (notes & final & oob & rest & Hm & Hn & Hf & Ht & Hl);
      exists notes, final, oob, rest; split_and!; try done;
      eexists ok, _, _; split; [exact Hw|];
      destruct ok; [by left|right]; simpl in E;
      destruct (bool_decide (rq_Type last = PRE_DUMP)) eqn:Hd; [|done]
  end.
  bool_to_prop. destruct notes; simpl in *; [split; congruence|congruence].
Qed.
End Conversation.

(** ** External namespaces *)

Section Namespaces.
Context `{Handler ccall W}.

(** A namespace CRIU leaves to runc: its type is one CRIU (by its version) supports as
    external, and the configuration has a path for it. *)
Definition supports (c : linuxContainer) (t : NamespaceType) : bool :=
  if decide (t = NEWNET) then 31100 <=? c_criuVersion c
  else if decide (t = NEWPID) then 31500 <=? c_criuVersion c
  else false.
Definition external_ns (c : linuxContainer) (t : NamespaceType) : bool :=
  supports c t && negb (bool_decide (ns_PathOf (cf_Namespaces (c_config c)) t = "")).

Definition externals (c : linuxContainer) (ts : list NamespaceType) : list NamespaceType :=
  filter (λ t, external_ns c t = true) ts.

Lemma externals_cons c t ts :
  externals c (t :: ts) = if external_ns c t then t :: externals c ts else externals c ts.
Proof. unfold externals. rewrite filter_cons. by destruct (external_ns c t). Qed.

Lemma criuSupportsExtNS_run k w t :
  c_criuVersion (k_container k) ≠ 0 →
  criuSupportsExtNS t (k, w) = (Ok (supports (k_container k) t), (k, w)).
Proof.
  intros Hv. unfold criuSupportsExtNS, supports, checkCriuVersion, compareCriuVersion.
  apply Z.eqb_neq in Hv.
  assert (∀ v min, v <? min = negb (min <=? v)) as Hlt by (intros; by rewrite Z.leb_antisym, negb_involutive).
  assert (∀ min, (do e ← err_of (do c ← container;
    if negb (c_criuVersion c =? 0) then return_err (compareCriuVersion (c_criuVersion c) min)
    else throw (ErrNew "")); ret (bool_decide (e = None))) (k, w) =
    (Ok (min <=? c_criuVersion (k_container k)), (k, w))) as Hcheck.
  { intros min. unfold compareCriuVersion, err_of, try, bind, container, gets. simpl.
    rewrite Hv, Hlt. simpl. by destruct (min <=? _). }
  unfold compareCriuVersion in *.
  case_decide; [|case_decide; [|done]];
    (etrans; [|apply Hcheck]); unfold err_of, try, bind, container, gets; simpl; by rewrite Hv.
Qed.

Definition opened (path : string) (fd : Z) : Prop :=
  ∃ w1 w2, handle_call (OsOpen path) w1 = (inr fd, w2).

Lemma dump_external o t k w o' s' :
  c_criuVersion (k_container k) ≠ 0 →
  handleCheckpointingExternalNamespaces o t (k, w) = (Ok o', s') →
  s'.1 = k ∧ ∃ inos, length inos = length (externals (k_container k) [t]) ∧
    ro_External (ro_lists o') =
      ro_External (ro_lists o) ++ zip_with external_entry (externals (k_container k) [t]) inos.
Proof.
  intros Hv E. unfold handleCheckpointingExternalNamespaces in E.
  rewrite (bind_ok _ _ _ _ _ (criuSupportsExtNS_run k w t Hv)) in E.
  rewrite externals_cons. unfold external_ns, externals. rewrite filter_nil.
  destruct (supports (k_container k) t) eqn:Hs; cbn [negb andb] in *.
  - unfold bind at 1, container, gets in E. simpl in E. case_decide as Hp.
    + rewrite bool_decide_eq_true_2 by done. inv_run. split; [done|]. exists []. by rewrite app_nil_r.
    + rewrite bool_decide_eq_false_2 by done. inv_run. split; [by simplify_eq/=|]. by eexists [_].
  - inv_run. split; [done|]. exists []. by rewrite app_nil_r.
Qed.

(** The descriptor CRIU inherits for the [i]-th external namespace. *)
Definition inherited (base : nat) (ts : list NamespaceType) : list InheritFd :=
  imap (λ i t, {| if_Key := criuNsToKey t; if_Fd := i32 (4 + Z.of_nat (base + i)) |}) ts.

Lemma restore_external nss o files k w o' files' s' :
  c_criuVersion (k_container k) ≠ 0 →
  restore_namespaces nss o files (k, w) = (Ok (o', files'), s') →
  let ts := externals (k_container k) (ns_Type <$> nss) in
  s'.1 = k ∧ ∃ fds, files' = files ++ fds ∧
    Forall2 (λ t fd, opened (ns_PathOf (cf_Namespaces (c_config (k_container k))) t) fd) ts fds ∧
    ro_InheritFd (ro_lists o') = ro_InheritFd (ro_lists o) ++ inherited (length files) ts.
Proof.
  intros Hv. revert o files w; induction nss as [|ns nss IH]; intros o files w E.
  { cbn [restore_namespaces] in E. inv_run. split; [done|]. exists [].
    rewrite !app_nil_r. split_and!; done. }
  cbn [restore_namespaces] in E. cbv zeta. rewrite fmap_cons. rewrite externals_cons.
  set (t := ns_Type ns) in *. unfold external_ns.
  destruct (bool_decide (t = NEWNET) || bool_decide (t = NEWPID)) eqn:Ht.
  - apply bind_ok_inv in E as ([o1 files1] & s1 & E1 & E).
    unfold handleRestoringExternalNamespaces in E1.
    rewrite (bind_ok _ _ _ _ _ (criuSupportsExtNS_run k w t Hv)) in E1.
    destruct (supports (k_container k) t) eqn:Hs; cbn [negb] in E1.
    + unfold bind at 1, container, gets in E1. simpl in E1. case_decide as Hp.
      * inv_run. rewrite bool_decide_eq_true_2 by done. cbn [negb andb]. by apply (IH o1 files1 w).
      * rewrite bool_decide_eq_false_2 by done. cbn [negb andb].
        inv_run. destruct s1 as [k1 w1]. simpl in *. subst k1. simpl in E.
        destruct (IH _ _ _ E) as (Hk & fds & -> & Hf & Hi). split; [done|].
        eexists (_ :: fds). split_and!.
        -- by rewrite <- app_assoc.
        -- constructor; [eexists _, _; eassumption|done].
        -- rewrite Hi. unfold rpc_list, add_InheritFd, inherited. simpl. rewrite <- app_assoc. simpl.
           rewrite length_app, Nat.add_0_r. f_equal. f_equal. apply imap_ext. intros i y _. simpl.
           do 2 f_equal. lia.
    + inv_run. by apply (IH o1 files1 w).
  - apply orb_false_iff in Ht as [H1 H2]. bool_to_prop.
    assert (supports (k_container k) t = false) as ->.
    { unfold supports. by rewrite !decide_False. }
    cbn [andb]. unfold bind at 1, container, gets in E. simpl in E.
    case_decide; [by apply (IH o files w)|]. case_decide; [by inv_run|].
    apply (IH (rpc_list (add_JoinNs {| jn_Ns := NsName t; jn_NsFile := ns_PathOf (cf_Namespaces (c_config (k_container k))) t |}) o) files w E).
Qed.

Lemma externals_agree c :
  NoDup (ns_Type <$> cf_Namespaces (c_config c)) →
  externals c [NEWNET; NEWPID] ≡ₚ externals c (ns_Type <$> cf_Namespaces (c_config c)).
Proof.
  intros Hnd. unfold externals. apply NoDup_Permutation.
  - apply NoDup_filter. by repeat (constructor; [set_solver|]); constructor.
  - by apply NoDup_filter.
  - intros t. rewrite !list_elem_of_filter. split; intros [He Ht]; (split; [done|]).
    + unfold external_ns in He. bool_to_prop. unfold ns_PathOf in *.
      destruct (ns_index (cf_Namespaces (c_config c)) t) as [i|] eqn:Ei; [|done].
      apply ns_index_Some in Ei as (ns & Hi & <- & _). apply list_elem_of_fmap_2.
      by eapply list_elem_of_lookup_2.
    + unfold external_ns, supports in He. bool_to_prop.
      destruct (decide (t = NEWNET)) as [->|]; [by left|].
      destruct (decide (t = NEWPID)) as [->|]; [by right; left|done].
Qed.

(** C28. Dump and restore agree on the external namespaces. For a container whose CRIU
    version is known and whose configuration names every namespace once: the network and
    PID namespaces a dump declares external are the ones a restore hands to CRIU, each
    under the key of the dump, as the descriptor of the file that was opened at its
    path: the [i]-th file handed over is announced as descriptor [4 + i], which is where
    it ends up behind the three standard descriptors and the socket. *)
Theorem external_namespaces_agree kd wd kr wr o1 o1' sd o2 o2' sr files :
  let c := k_container kr in
  k_container kd = c → c_criuVersion c ≠ 0 →
  NoDup (ns_Type <$> cf_Namespaces (c_config c)) →
  (do o ← handleCheckpointingExternalNamespaces o1 NEWNET;
   handleCheckpointingExternalNamespaces o NEWPID) (kd, wd) = (Ok o1', sd) →
  handleRestoringNamespaces o2 [] (kr, wr) = (Ok (o2', files), sr) →
  ∃ dumped restored inos, dumped ≡ₚ restored ∧ length inos = length dumped ∧
    ro_External (ro_lists o1') = ro_External (ro_lists o1) ++ zip_with external_entry dumped inos ∧
    ro_InheritFd (ro_lists o2') = ro_InheritFd (ro_lists o2) ++ inherited 0 restored ∧
    Forall2 (λ t fd, opened (ns_PathOf (cf_Namespaces (c_config c)) t) fd) restored files.
Proof.
  intros c Hc Hv Hnd Hd Hr. subst c.
  apply bind_ok_inv in Hd as (o & [k1 w1] & E1 & E2).
  apply dump_external in E1 as (Hk1 & inos1 & Hl1 & Hx1); [|by rewrite Hc]. simpl in Hk1. subst k1.
  apply dump_external in E2 as (_ & inos2 & Hl2 & Hx2); [|by rewrite Hc]. rewrite Hc in *.
  unfold handleRestoringNamespaces in Hr. unfold bind at 1, container, gets in Hr.
  apply restore_external in Hr as (_ & fds & -> & Hf & Hi); [|done].
  eexists _, _, (inos1 ++ inos2). split_and!; [by apply externals_agree| | |exact Hi|exact Hf].
  - change [NEWNET; NEWPID] with ([NEWNET] ++ [NEWPID]). unfold externals. rewrite filter_app.
    rewrite !length_app. by f_equal.
  - rewrite Hx2, Hx1, <- app_assoc. f_equal.
    change [NEWNET; NEWPID] with ([NEWNET] ++ [NEWPID]). unfold externals. rewrite filter_app.
    by rewrite zip_with_app.
Qed.
End Namespaces.

(** ** The edges of the protocol *)

Section Edges.
Context `{Handler ccall W}.

Lemma quiet_checkCriuVersion minVersion :
  quiet (λ _ : CriuState * W, tt) (checkCriuVersion minVersion).
Proof.
  assert (∀ A (c : ccall A), quiet (λ _ : CriuState * W, tt) (ask c)) as Ha.
  { intros A c. apply (quiet_ask (λ _, tt)). }
  assert (∀ v, quiet (λ _ : CriuState * W, tt) (on_container (change (set_criuVersion v)))) as Hc.
  { by intros v s. }
  unfold checkCriuVersion, container. quiet; done || apply Ha || apply Hc.
Qed.

(** O_ACCMODE, and the access modes of open(2): 0 reading, 1 writing, 2 both. *)
Definition access_mode (flags : Z) : Z := Z.land flags 3.

Lemma access_bit flags : Z.land flags O_WRONLY = Z.land (access_mode flags) 1.
Proof. unfold access_mode. rewrite <- Z.land_assoc. done. Qed.

(** The status descriptor of a lazy migration is accepted when it was opened for
    writing only. A descriptor that was opened for reading and writing is writable, but
    is rejected as "not writable": the test looks at the bit of O_WRONLY, which O_RDWR
    does not have. *)
Theorem check_status_fd_access fd o k w flags w1 :
  fd ≠ -1 → handle_call (FcntlGetFl fd) w = (inr flags, w1) →
  (access_mode flags = 1 → ∃ o' s', check_status_fd fd o (k, w) = (Ok o', s')) ∧
  (access_mode flags = 0 ∨ access_mode flags = 2 →
   check_status_fd fd o (k, w) =
     (Err (ErrNew ("invalid --status-fd argument " +:+ Itoa fd +:+ ": not writable")), (k, w1))).
Proof.
  intros Hfd Hc. unfold check_status_fd. rewrite (proj2 (Z.eqb_neq _ _) Hfd).
  rewrite (bind_ok _ _ (k, w) flags (k, w1)) by (unfold map_err; by rewrite (ask_ok _ _ _ _ _ Hc)).
  rewrite access_bit. split; intros Hm.
  - rewrite Hm. change (Z.land 1 1 =? 0) with false. cbv iota.
    destruct (err_of_run _ _ (k, w1) (quiet_checkCriuVersion 31500)) as (e & s1 & E & _).
    rewrite (bind_ok _ _ _ _ _ E). by eexists _, _.
  - by destruct Hm as [-> | ->].
Qed.

Definition notify_resp (script : string) (pid : Z) : CriuResp := {|
  rs_Type := NOTIFY; rs_Success := true; rs_CrErrno := 0;
  rs_Notify := Some {| cn_Script := script; cn_Pid := pid |}; rs_Features := None |}.

(** The state hooks see is the one of the container, with the pid CRIU reports. *)
Definition with_pid (s : OCIState) (pid : Z) : OCIState := {|
  os_Version := os_Version s; os_ID := os_ID s; os_Status := os_Status s; os_Pid := pid;
  os_Bundle := os_Bundle s; os_Annotations := os_Annotations s |}.

Lemma restore_hooks_run pid k w :
  run_restore_hooks pid (k, w) =
  if cf_Hooks (c_config (k_container k)) then
    match currentOCIState (k_container k, w) with
    | (Ok st, (c', w')) => (ask (RunHooks "prestart" (with_pid st pid)) ;;;
                            ask (RunHooks "createRuntime" (with_pid st pid))) (set_container c' k, w')
    | (Err _, (c', w')) => (Ok tt, (set_container c' k, w'))
    | (Panic x, (c', w')) => (Panic x, (set_container c' k, w'))
    end
  else (Ok tt, (k, w)).
Proof.
  unfold run_restore_hooks. rewrite (bind_ok _ _ (k, w) (k_container k) (k, w)) by done.
  destruct (cf_Hooks _); [|done]. unfold bind at 1, try, on_container. cbn [fst snd].
  by destruct (currentOCIState (k_container k, w)) as [[st|e|x] [c' w']].
Qed.

(** When CRIU has set up the namespaces of a restored container, the prestart hooks
    and then the createRuntime hooks are run on the state of the container with the pid
    CRIU gives, and the restore goes on only if they succeed; but when the state of the
    container cannot be read, no hook is run and the notification is still answered
    with success. *)
Theorem setup_namespaces_hooks pid process fds oob k w :
  let run := criuNotifications (notify_resp "setup-namespaces" pid) process fds oob (k, w) in
  match currentOCIState (k_container k, w) with
  | (Ok st, (c', w')) =>
      run = if cf_Hooks (c_config (k_container k)) then
              (ask (RunHooks "prestart" (with_pid st pid)) ;;;
               ask (RunHooks "createRuntime" (with_pid st pid))) (set_container c' k, w')
            else (Ok tt, (k, w))
  | (Err _, (c', w')) =>
      run = (Ok tt, if cf_Hooks (c_config (k_container k)) then (set_container c' k, w') else (k, w))
  | (Panic x, (c', w')) =>
      run = if cf_Hooks (c_config (k_container k)) then (Panic x, (set_container c' k, w'))
            else (Ok tt, (k, w))
  end.
Proof.
  assert (criuNotifications (notify_resp "setup-namespaces" pid) process fds oob (k, w) =
          run_restore_hooks pid (k, w)) as -> by done.
  cbv zeta. rewrite restore_hooks_run.
  destruct (cf_Hooks _), (currentOCIState (k_container k, w)) as [[st|e|x] [c' w']]; done.
Qed.
End Edges.

(** ** The theorems at work *)

Definition dump_req (t : CriuReqType) : CriuReq :=
  {| rq_Type := t; rq_Opts := None; rq_Features := None; rq_NotifySuccess := false |}.
Definition k0 : CriuState := example_criu [].

Definition dump_host : host :=
  a_host [notifies "pre-dump"; notifies "network-lock"; says DUMP] true.

Lemma criuSwrk_ok_witness :
  ∃ notes final oob rest,
    [notifies "pre-dump"; notifies "network-lock"; says DUMP] = notes ++ inr (final, oob) :: rest ∧
    Forall notification notes ∧ rs_Success final = true ∧ final_type (rs_Type final) ∧
    ∃ ok (w2 w3 : host), handle_call (CriuWait 42) w2 = (inr ok, w3) ∧
      (ok = true ∨ (notes = [] ∧ DUMP = PRE_DUMP)).
Proof.
  apply (criuSwrk_ok false (dump_req DUMP) [] k0 dump_host (criuSwrk false (dump_req DUMP) [] (k0, dump_host)).2
           42 [notifies "pre-dump"; notifies "network-lock"; says DUMP] dump_host).
  - vm_compute; reflexivity.
  - vm_compute; reflexivity.
Defined.

(** A pre-dump on which CRIU exits with an error after its answer: a success without
    notifications, a failure with one. *)
Lemma pre_dump_exemption_lost :
  (criuSwrk false (dump_req PRE_DUMP) [] (k0, a_host [says PRE_DUMP] false)).1 = Ok tt ∧
  (criuSwrk false (dump_req PRE_DUMP) [] (k0, a_host [notifies "pre-dump"; says PRE_DUMP] false)).1 =
    Err (ErrNew "criu failed").
Proof. split; by vm_compute. Qed.

(** CRIU that answers a feature check without features is dereferenced. *)
Lemma feature_check_without_features :
  (checkCriuFeatures (mk_RpcOpts (dump_base (example_container runningState) 100 11 10 example_opts)
                        empty_settings empty_lists)
     {| cf_MemTrack := Some true; cf_LazyPages := None |}
     (k0, a_host [says FEATURE_CHECK] true)).1 =
  Panic "invalid memory address or nil pointer dereference".
Proof. by vm_compute. Qed.

Definition known_version : CriuState := set_container (set_criuVersion 31500 (k_container k0)) k0.
Definition no_opts : RpcOpts :=
  mk_RpcOpts (restore_base "/r" 11 10 example_opts) empty_settings empty_lists.

Lemma external_namespaces_agree_witness :
  ∃ dumped restored inos, dumped ≡ₚ restored ∧ length inos = length dumped ∧
    ["net[4026531840]:extRootNetNS"] = [] ++ zip_with external_entry dumped inos ∧
    [{| if_Key := "extRootNetNS"; if_Fd := 4 |}] = [] ++ inherited 0 restored ∧
    Forall2 (λ t fd, opened (W := host)
               (ns_PathOf (cf_Namespaces (c_config (k_container known_version))) t) fd) restored [10].
Proof.
  refine (external_namespaces_agree known_version (a_host [] true) known_version (a_host [] true)
    no_opts (rpc_list (add_External "net[4026531840]:extRootNetNS") no_opts) _ no_opts
    (rpc_list (add_InheritFd {| if_Key := "extRootNetNS"; if_Fd := 4 |}) no_opts) _ [10]
    eq_refl _ _ _ _).
  - done.
  - apply (bool_decide_unpack _). by vm_compute.
  - vm_compute; reflexivity.
  - vm_compute; reflexivity.
Defined.

Lemma check_status_fd_access_witness :
  check_status_fd 7 no_opts (k0, a_host [] true) =
    (Err (ErrNew "invalid --status-fd argument 7: not writable"), (k0, a_host [] true)).
Proof.
  exact (proj2 (check_status_fd_access 7 no_opts k0 (a_host [] true) 2 (a_host [] true)
                  ltac:(discriminate) eq_refl) (or_intror eq_refl)).
Defined.
