(* ===== verification/Gc.v ===== *)
(** * Garbage collection of containerd

    Models [containerd/gc/gc.go]: the tri-color marking [Tricolor] and [Sweep]. The
    references of a node come from the caller (the metadata store), so they are a
    parameter; as the documentation of the code requires, they do not change during a
    run. The concurrent marking is in GcConcurrent.v. *)

From S2P Require Import Prelude.

(** [ResourceMax]; the upper three bits of a type belong to the caller. *)
Definition ResourceMax : Z := 0x1F.

Record Node := mk_Node { nd_Type : Z; nd_Namespace : string; nd_Key : string }.

#[export] Instance Node_eq_dec : EqDecision Node.
Proof. solve_decision. Defined.
#[export] Instance Node_countable : Countable Node.
Proof.
  by refine (inj_countable' (λ n, (nd_Type n, nd_Namespace n, nd_Key n))
               (λ t, mk_Node t.1.1 t.1.2 t.2) _); intros [].
Defined.

(** [id.Type = id.Type & ResourceMax]. *)
Definition strip (n : Node) : Node :=
  mk_Node (Z.land (nd_Type n) ResourceMax) (nd_Namespace n) (nd_Key n).

(** Two answers to one question are the same. *)
Ltac same_answer :=
  match goal with
  | H1 : ?x = inr ?a, H2 : ?x = inr ?b |- _ => rewrite H1 in H2; injection H2 as <-
  end.

Section Mark.
(** What a node refers to, or the error of finding out. *)
Variable refs : Node → error + list Node.

(** The gray stack, with its top first; [append(grays, target)] for the targets that
    have not been seen. *)
Definition push (seen : gset Node) (grays : list Node) (rs : list Node) : list Node :=
  foldl (λ g t, if decide (t ∈ seen) then g else t :: g) grays rs.

(** The loop; [None] when the fuel is used up. *)
Fixpoint tricolor_loop (fuel : nat) (grays : list Node) (seen reachable : gset Node)
  : option (result (gset Node)) :=
  match fuel with
  | O => None
  | S fuel' =>
      match grays with
      | [] => Some (Ok reachable)
      | id :: grays =>
          let seen := {[id]} ∪ seen in
          match refs id with
          | inl e => Some (Err e)
          | inr rs => tricolor_loop fuel' (push seen grays rs) seen ({[strip id]} ∪ reachable)
          end
      end
  end.

Definition Tricolor (fuel : nat) (roots : list Node) : option (result (gset Node)) :=
  tricolor_loop fuel (reverse roots) ∅ ∅.

(** ** Reachability *)

Definition refers (m n : Node) : Prop := ∃ rs, refs m = inr rs ∧ n ∈ rs.

Inductive reach (roots : list Node) : Node → Prop :=
  | reach_root n : n ∈ roots → reach roots n
  | reach_ref m n : reach roots m → refers m n → reach roots n.

(** A set that contains the roots and what its members refer to contains everything
    that is reachable. *)
Lemma closed_reach roots (P : Node → Prop) :
  (∀ n, n ∈ roots → P n) → (∀ m n, P m → refers m n → P n) → ∀ n, reach roots n → P n.
Proof. intros Hr Hc. induction 1; eauto. Qed.

Lemma reach_mono roots roots' n :
  (∀ m, m ∈ roots → m ∈ roots') → reach roots n → reach roots' n.
Proof. intros Hm. induction 1; [apply reach_root; auto|eapply reach_ref; eauto]. Qed.

Lemma push_app seen grays rs :
  push seen grays rs = reverse (filter (λ t, t ∉ seen) rs) ++ grays.
Proof.
  unfold push. revert grays; induction rs as [|t rs IH]; intros grays; [done|]. simpl.
  rewrite IH, filter_cons. case_decide; case_decide; try done.
  by rewrite reverse_cons, <- app_assoc.
Qed.

Lemma elem_of_push seen grays rs t :
  t ∈ push seen grays rs ↔ (t ∈ rs ∧ t ∉ seen) ∨ t ∈ grays.
Proof. rewrite push_app, elem_of_app, elem_of_reverse, list_elem_of_filter. tauto. Qed.

(** ** What holds at the head of the loop *)

Record marking (roots grays : list Node) (seen reachable : gset Node) : Prop := {
  mk_sound : ∀ n, n ∈ grays ∨ n ∈ seen → reach roots n;
  mk_roots : ∀ n, n ∈ roots → n ∈ seen ∨ n ∈ grays;
  mk_closed : ∀ m, m ∈ seen → ∃ rs, refs m = inr rs ∧ ∀ n, n ∈ rs → n ∈ seen ∨ n ∈ grays;
  mk_black : reachable = set_map strip seen
}.

Lemma marking_start roots : marking roots (reverse roots) ∅ ∅.
Proof.
  split.
  - intros n [Hn|Hn]; [|set_solver]. constructor. by rewrite elem_of_reverse in Hn.
  - intros n Hn. right. by rewrite elem_of_reverse.
  - set_solver.
  - by rewrite set_map_empty.
Qed.

Lemma marking_step roots id grays seen reachable rs :
  marking roots (id :: grays) seen reachable → refs id = inr rs →
  marking roots (push ({[id]} ∪ seen) grays rs) ({[id]} ∪ seen) ({[strip id]} ∪ reachable).
Proof.
  intros [Hs Hr Hc Hb] Hid.
  assert (reach roots id) as Hrid by (apply Hs; left; by left).
  split.
  - intros n [[[Hn _]|Hn]%elem_of_push|Hn].
    + eapply reach_ref; [done|]. by exists rs.
    + apply Hs. left. by right.
    + apply elem_of_union in Hn as [->%elem_of_singleton|Hn]; [done|]. apply Hs. by right.
  - intros n Hn. rewrite elem_of_push. destruct (Hr n Hn) as [|Hg]; [set_solver|].
    apply elem_of_cons in Hg as [->|]; set_solver.
  - intros m Hm. apply elem_of_union in Hm as [->%elem_of_singleton|Hm].
    + exists rs. split; [done|]. intros n Hn. rewrite elem_of_push.
      destruct (decide (n ∈ ({[id]} ∪ seen : gset Node))); tauto.
    + destruct (Hc m Hm) as (rs' & Hrs & Hn). exists rs'. split; [done|]. intros n Hin.
      rewrite elem_of_push. destruct (Hn n Hin) as [|Hg]; [set_solver|].
      apply elem_of_cons in Hg as [->|]; set_solver.
  - rewrite Hb. rewrite set_map_union_L, set_map_singleton_L. done.
Qed.

(** Whatever comes out is right: the stripped reachable nodes, or the error of a node
    that is reachable. *)
Definition tricolor_result (roots : list Node) (r : result (gset Node)) : Prop :=
  match r with
  | Ok R => (∀ n, n ∈ R ↔ ∃ m, reach roots m ∧ n = strip m) ∧ (∀ m, reach roots m → ∃ rs, refs m = inr rs)
  | Err e => ∃ m, reach roots m ∧ refs m = inl e
  | Panic _ => False
  end.

Lemma tricolor_loop_right fuel roots grays seen reachable r :
  marking roots grays seen reachable →
  tricolor_loop fuel grays seen reachable = Some r → tricolor_result roots r.
Proof.
  revert grays seen reachable; induction fuel as [|fuel IH]; intros grays seen reachable Hm E; [done|].
  cbn [tricolor_loop] in E. destruct grays as [|id grays].
  - simplify_eq. destruct Hm as [Hs Hr Hc Hb].
    assert (∀ m, reach roots m → m ∈ seen) as Hin.
    { apply closed_reach.
      - intros n Hn. destruct (Hr n Hn) as [|H]; [done|]. by apply not_elem_of_nil in H.
      - intros m n Hm (rs & Hrs & Hn). destruct (Hc m Hm) as (rs' & Hrs' & Hcl). same_answer.
        destruct (Hcl n Hn) as [|H]; [done|]. by apply not_elem_of_nil in H. }
    split.
    + intros n. rewrite Hb, elem_of_map. split.
      * intros (m & -> & Hm). exists m. split; [|done]. apply Hs. by right.
      * intros (m & Hm & ->). exists m. split; [done|]. by apply Hin.
    + intros m Hm. destruct (Hc m (Hin m Hm)) as (rs & ? & _). by exists rs.
  - destruct (refs id) as [e|rs] eqn:Hid.
    + simplify_eq. exists id. split; [|done]. apply (mk_sound _ _ _ _ Hm). left. by left.
    + eapply IH; [|exact E]. by apply marking_step.
Qed.

(** ** Termination

    The stack is depth first: when a node that was seen before is popped again, all it
    refers to has been seen, because its references lay above it. So a node is expanded
    once, and the work is bounded by the roots and the references of the nodes. *)

Definition depth_first (grays : list Node) (seen : gset Node) : Prop :=
  ∀ above x below rs t, grays = above ++ x :: below → x ∈ seen → refs x = inr rs → t ∈ rs →
    t ∈ seen ∨ t ∈ above.

Lemma depth_first_step id grays seen rs :
  depth_first (id :: grays) seen → refs id = inr rs →
  depth_first (push ({[id]} ∪ seen) grays rs) ({[id]} ∪ seen).
Proof.
  intros Hd Hid above x below rs' t Hsplit Hx Hrs Ht. rewrite push_app in Hsplit.
  set (new := reverse (filter (λ t, t ∉ ({[id]} ∪ seen : gset Node)) rs)) in *.
  apply app_eq_inv in Hsplit as [(k & Hnew & Hk)|(k & -> & Hg)].
  - assert (∀ t, t ∈ new ↔ t ∈ rs ∧ t ∉ ({[id]} ∪ seen : gset Node)) as Hin.
    { intros t'. unfold new. rewrite elem_of_reverse, list_elem_of_filter. tauto. }
    destruct k as [|y k]; simpl in Hk.
    + subst grays. rewrite app_nil_r in Hnew. rewrite <- Hnew, Hin.
      destruct (decide (x = id)) as [->|Hne].
      * same_answer. destruct (decide (t ∈ ({[id]} ∪ seen : gset Node))); tauto.
      * assert (x ∈ seen) as Hxs by set_solver.
        destruct (Hd [id] x below rs' t eq_refl Hxs Hrs Ht) as [|Ht']; [set_solver|].
        apply list_elem_of_singleton in Ht' as ->. set_solver.
    + exfalso. injection Hk as <- Hk. assert (x ∈ new) as Hy by (rewrite Hnew; set_solver). apply Hin in Hy. set_solver.
  - destruct (decide (x = id)) as [->|Hne].
    + same_answer. destruct (decide (t ∈ ({[id]} ∪ seen : gset Node))); [by left|right].
      apply elem_of_app. left. unfold new. rewrite elem_of_reverse, list_elem_of_filter. done.
    + assert (x ∈ seen) as Hxs by set_solver.
      destruct (Hd (id :: k) x below rs' t ltac:(by rewrite Hg) Hxs Hrs Ht) as [|Hin]; [set_solver|].
      apply elem_of_cons in Hin as [->|Hin]; [set_solver|]. right. apply elem_of_app. by right.
Qed.

(** The number of references of a node, and of a set of nodes. *)
Definition degree (n : Node) : nat := match refs n with inr rs => length rs | inl _ => 0 end.
Definition degrees (X : gset Node) : nat := sum_list (degree <$> elements X).

Lemma degrees_remove X n : n ∈ X → degrees X = (degree n + degrees (X ∖ {[n]}))%nat.
Proof.
  intros Hn. unfold degrees.
  rewrite (union_difference_singleton_L n X) at 1 by done.
  rewrite elements_disj_union, elements_singleton by set_solver. done.
Qed.

(** A finite world: it contains the roots and what its members refer to. *)
Definition world (all : gset Node) (roots : list Node) : Prop :=
  (∀ n, n ∈ roots → n ∈ all) ∧ ∀ m n, m ∈ all → refers m n → n ∈ all.

Lemma length_push seen grays rs : (length (push seen grays rs) ≤ length rs + length grays)%nat.
Proof.
  rewrite push_app, length_app, length_reverse. pose proof (length_filter (λ t, t ∉ seen) rs). lia.
Qed.

Lemma tricolor_loop_ends all fuel grays seen reachable :
  (∀ n, n ∈ grays → n ∈ all) → (∀ m n, m ∈ all → refers m n → n ∈ all) →
  depth_first grays seen →
  (length grays + degrees (all ∖ seen) < fuel)%nat →
  is_Some (tricolor_loop fuel grays seen reachable).
Proof.
  intros Hg Hw. revert grays seen reachable Hg; induction fuel as [|fuel IH];
    intros grays seen reachable Hg Hd Hf; [lia|].
  cbn [tricolor_loop]. destruct grays as [|id grays]; [by eexists|].
  destruct (refs id) as [e|rs] eqn:Hid; [by eexists|].
  assert (id ∈ all) as Hall by (apply Hg; by left).
  apply IH.
  - intros n [[Hn _]|Hn]%elem_of_push; [|apply Hg; by right]. eapply Hw; [done|]. by exists rs.
  - by apply depth_first_step.
  - simpl in Hf. destruct (decide (id ∈ seen)) as [Hin|Hin].
    + assert (({[id]} ∪ seen : gset Node) = seen) as -> by set_solver.
      assert (filter (λ t, t ∉ seen) rs = []) as Hnil.
      { destruct (filter (λ t, t ∉ seen) rs) as [|t l] eqn:Ef; [done|exfalso].
        assert (t ∈ filter (λ t, t ∉ seen) rs) as Ht by (rewrite Ef; by left).
        apply list_elem_of_filter in Ht as [Hn Ht].
        destruct (Hd [] id grays rs t eq_refl Hin Hid Ht) as [|H]; [tauto|]. by apply not_elem_of_nil in H. }
      rewrite push_app, Hnil. simpl. lia.
    + rewrite (degrees_remove (all ∖ seen) id) in Hf by set_solver.
      assert (all ∖ ({[id]} ∪ seen) = all ∖ seen ∖ {[id]}) as -> by set_solver.
      pose proof (length_push ({[id]} ∪ seen) grays rs).
      unfold degree in Hf. rewrite Hid in Hf. lia.
Qed.

Lemma Tricolor_ends all roots fuel :
  world all roots → (length roots + degrees all < fuel)%nat → is_Some (Tricolor fuel roots).
Proof.
  intros [Hr Hw] Hf. apply (tricolor_loop_ends all).
  - intros n Hn. apply Hr. by rewrite elem_of_reverse in Hn.
  - done.
  - intros above x below rs t _ Hx. set_solver.
  - rewrite length_reverse, difference_empty_L. done.
Qed.

(** ** Theorems *)

(** C35. On a finite world [Tricolor] ends: one step for every root and every reference
    of the world, and one for the end, are enough, cycles and shared nodes included. Its
    result is the set of all nodes that are reachable from the roots, with the bits above
    [ResourceMax] stripped from their types; an error is returned exactly when the
    references of some reachable node cannot be read, and it is that error. *)
Theorem Tricolor_reachable all roots fuel :
  world all roots → (length roots + degrees all < fuel)%nat →
  ∃ r, Tricolor fuel roots = Some r ∧ tricolor_result roots r.
Proof.
  intros Hw Hf. destruct (Tricolor_ends all roots fuel Hw Hf) as [r E].
  exists r. split; [done|]. eapply tricolor_loop_right; [apply marking_start|done].
Qed.
End Mark.

(** ** Sweep *)

Section Sweep.
Variables (S : Type) (remove : Node → S → option error * S).

Fixpoint Sweep (reachable : gset Node) (all : list Node) (s : S) : option error * S :=
  match all with
  | [] => (None, s)
  | node :: all' =>
      if decide (node ∈ reachable) then Sweep reachable all' s
      else match remove node s with
           | (None, s) => Sweep reachable all' s
           | (Some e, s) => (Some e, s)
           end
  end.
End Sweep.

(** Only white nodes are removed, in the order of the list, until one fails. *)
Lemma Sweep_filter S (remove : Node → S → option error * S) reachable all s :
  Sweep S remove reachable all s = Sweep S remove ∅ (filter (λ n, n ∉ reachable) all) s.
Proof.
  revert s; induction all as [|node all IH]; intros s; [done|]. cbn [Sweep].
  rewrite filter_cons. case_decide as Hin; case_decide as Hn; try tauto; [apply IH|].
  cbn [Sweep]. rewrite decide_False by set_solver. destruct (remove node s) as [[e|] s']; [done|apply IH].
Qed.

(** ** Marking and sweeping a store *)

(** A store in which removing a node cannot fail. *)
Definition remove_node (n : Node) (s : gset Node) : option error * gset Node := (None, s ∖ {[n]}).

Lemma Sweep_store reachable all (s : gset Node) :
  Sweep (gset Node) remove_node reachable all s = (None, s ∖ (list_to_set all ∖ reachable)).
Proof.
  revert s; induction all as [|n all IH]; intros s; cbn [Sweep].
  { f_equal. set_solver. }
  case_decide as Hn; [|simpl]; rewrite IH; f_equal; set_solver.
Qed.

(** A collection of a store: marking from the roots and sweeping over everything that
    is stored leaves exactly the stored nodes that are reachable, whatever caller bits
    the types of the roots and of the references carry. *)
Theorem collect_keeps_reachable refs world_nodes roots fuel (store : gset Node) R :
  world refs world_nodes roots → (length roots + degrees refs world_nodes < fuel)%nat →
  Tricolor refs fuel roots = Some (Ok R) →
  ∃ store', Sweep (gset Node) remove_node R (elements store) store = (None, store') ∧
    ∀ n, n ∈ store' ↔ n ∈ store ∧ ∃ m, reach refs roots m ∧ n = strip m.
Proof.
  intros Hw Hf E. exists (store ∖ (list_to_set (elements store) ∖ R)).
  rewrite Sweep_store. split; [done|]. intros n.
  destruct (tricolor_loop_right refs fuel roots _ _ _ _ (marking_start refs roots) E) as [HR _].
  rewrite <- HR, elem_of_difference, elem_of_difference, elem_of_list_to_set, elem_of_elements.
  destruct (decide (n ∈ R)); tauto.
Qed.

(** ** At work: a graph with a cycle, a shared node and caller bits in a type *)

Definition nd (t : Z) (k : string) : Node := mk_Node t "ns" k.
Definition demo_refs (n : Node) : error + list Node :=
  if decide (n = nd 1 "a") then inr [nd 2 "b"; nd 0x23 "c"]
  else if decide (n = nd 2 "b") then inr [nd 1 "a"; nd 0x23 "c"]
  else if decide (n = nd 9 "bad") then inl (ErrNew "broken")
  else inr [].
Definition demo_world : gset Node := {[nd 1 "a"; nd 2 "b"; nd 0x23 "c"]}.

Lemma demo_is_world : world demo_refs demo_world [nd 1 "a"].
Proof.
  split.
  - intros n ->%list_elem_of_singleton. set_solver.
  - intros m n Hm (rs & Hrs & Hn). unfold demo_refs in Hrs. unfold demo_world.
    repeat case_decide; simplify_eq; set_solver.
Defined.

Lemma Tricolor_reachable_witness :
  ∃ r, Tricolor demo_refs 7 [nd 1 "a"] = Some r ∧ tricolor_result demo_refs [nd 1 "a"] r.
Proof.
  apply (Tricolor_reachable demo_refs demo_world [nd 1 "a"] 7 demo_is_world). apply Nat.ltb_lt. by vm_compute.
Defined.

Lemma collect_keeps_reachable_witness :
  ∃ store', Sweep (gset Node) remove_node {[nd 1 "a"; nd 2 "b"; nd 3 "c"]}
      (elements ({[nd 3 "c"; nd 4 "d"]} : gset Node)) {[nd 3 "c"; nd 4 "d"]} = (None, store') ∧
    ∀ n, n ∈ store' ↔ n ∈ ({[nd 3 "c"; nd 4 "d"]} : gset Node) ∧
      ∃ m, reach demo_refs [nd 1 "a"] m ∧ n = strip m.
Proof.
  apply (collect_keeps_reachable demo_refs demo_world [nd 1 "a"] 7 {[nd 3 "c"; nd 4 "d"]}
           {[nd 1 "a"; nd 2 "b"; nd 3 "c"]} demo_is_world).
  - apply Nat.ltb_lt. by vm_compute.
  - compute_done.
Defined.
