(* ===== verification/GcConcurrent.v ===== *)
(** * Concurrent marking of containerd

    Models [ConcurrentMark] of [containerd/gc/gc.go] as a step relation: the goroutine of
    the caller, the dispatcher that reads the channel [grays], and one goroutine for
    every node that is seen first. The channel is unbuffered, so a send is one step
    together with the receive of the dispatcher. The caller's [refs] is a parameter: the
    nodes it passes to [send], in order, and the error it returns; when the context is
    done it may return early with any error. The context of the caller can be cancelled
    at any moment. *)

From stdpp Require Import relations.
From S2P Require Import Prelude.
From S2P Require Import Gc.
#[local] Open Scope Z_scope.

(** Where the goroutine of the caller is: at [range root], in the [select] with a root,
    in [wg.Wait], behind [close(grays)], returned. *)
Inductive main_pc :=
  | Ranging
  | Offering (r : Node)
  | Waiting
  | Closed
  | Returned (res : result (gset Node)).

(** The dispatcher: at [range grays], with a node it received, behind the loop. *)
Inductive disp_pc :=
  | Receiving
  | Got (n : Node)
  | Ended.

(** The goroutine of a node: inside [refs] with calls of [send] to come, in the [select]
    of [send], behind [refs] with the deferred [wg.Done()] to come. *)
Inductive work_pc :=
  | Sends (n : Node) (rest : list Node)
  | Offers (n x : Node) (rest : list Node)
  | Ending (n : Node).

Record state := St {
  st_roots : list Node;       (* what the caller still sends through [root] *)
  st_main : main_pc;
  st_disp : disp_pc;
  st_work : list work_pc;
  st_seen : gset Node;
  st_wg : Z;                  (* the counter of the wait group *)
  st_refErr : option error;
  st_ctx : option error;      (* [ctx.Err()] *)
  st_parent : bool            (* the context of the caller is cancelled *)
}.

Definition Canceled : error := ErrNew "context canceled".

Definition start (roots : list Node) : state := St roots Ranging Receiving [] ∅ 0 None None false.

(** [errOnce.Do(func() { refErr = err; cancel() })] when [refs] returned an error. *)
Definition errOnce (err refErr : option error) : option error :=
  match err with Some _ => match refErr with None => err | _ => refErr end | None => refErr end.
Definition cancel (err ctx : option error) : option error :=
  match err with Some _ => match ctx with None => Some Canceled | _ => ctx end | None => ctx end.

(** What is returned behind [close(grays)]. *)
Definition outcome (refErr ctx : option error) (seen : gset Node) : result (gset Node) :=
  match refErr with
  | Some e => Err e
  | None => match ctx with Some e => Err e | None => Ok seen end
  end.

Section Concurrent.
(** The calls of [send] that [refs] makes for a node, and the error it returns. *)
Variable sent : Node → list Node.
Variable fails : Node → option error.

(** A step of the program. *)
Inductive step : state → state → Prop :=
  | main_take r rs d ws sn wg er cx pa :
      step (St (r :: rs) Ranging d ws sn wg er cx pa) (St rs (Offering r) d ws sn (wg + 1) er cx pa)
  | main_send r rs ws sn wg er cx pa :
      step (St rs (Offering r) Receiving ws sn wg er cx pa) (St rs Ranging (Got r) ws sn wg er cx pa)
  | main_drop r rs d ws sn wg er e pa :
      step (St rs (Offering r) d ws sn wg er (Some e) pa) (St rs Ranging d ws sn (wg - 1) er (Some e) pa)
  | main_wait d ws sn wg er cx pa :
      step (St [] Ranging d ws sn wg er cx pa) (St [] Waiting d ws sn wg er cx pa)
  | main_close rs d ws sn er cx pa :
      step (St rs Waiting d ws sn 0 er cx pa) (St rs Closed d ws sn 0 er cx pa)
  | main_return rs d ws sn wg er cx pa :
      step (St rs Closed d ws sn wg er cx pa)
           (St rs (Returned (outcome er cx sn)) d ws sn wg er (cancel (Some Canceled) cx) pa)
  | disp_seen n rs m ws sn wg er cx pa :
      n ∈ sn →
      step (St rs m (Got n) ws sn wg er cx pa) (St rs m Receiving ws sn (wg - 1) er cx pa)
  | disp_new n rs m ws sn wg er cx pa :
      n ∉ sn →
      step (St rs m (Got n) ws sn wg er cx pa)
           (St rs m Receiving (ws ++ [Sends n (sent n)]) ({[n]} ∪ sn) wg er cx pa)
  | disp_end rs m ws sn wg er cx pa :
      m = Closed ∨ (∃ res, m = Returned res) →
      step (St rs m Receiving ws sn wg er cx pa) (St rs m Ended ws sn wg er cx pa)
  | work_add n x rest rs m d l1 l2 sn wg er cx pa :
      step (St rs m d (l1 ++ Sends n (x :: rest) :: l2) sn wg er cx pa)
           (St rs m d (l1 ++ Offers n x rest :: l2) sn (wg + 1) er cx pa)
  | work_send n x rest rs m l1 l2 sn wg er cx pa :
      step (St rs m Receiving (l1 ++ Offers n x rest :: l2) sn wg er cx pa)
           (St rs m (Got x) (l1 ++ Sends n rest :: l2) sn wg er cx pa)
  | work_drop n x rest rs m d l1 l2 sn wg er e pa :
      step (St rs m d (l1 ++ Offers n x rest :: l2) sn wg er (Some e) pa)
           (St rs m d (l1 ++ Sends n rest :: l2) sn (wg - 1) er (Some e) pa)
  | work_return n rs m d l1 l2 sn wg er cx pa :
      step (St rs m d (l1 ++ Sends n [] :: l2) sn wg er cx pa)
           (St rs m d (l1 ++ Ending n :: l2) sn wg (errOnce (fails n) er) (cancel (fails n) cx) pa)
  | work_abandon n rest err rs m d l1 l2 sn wg er e pa :
      step (St rs m d (l1 ++ Sends n rest :: l2) sn wg er (Some e) pa)
           (St rs m d (l1 ++ Ending n :: l2) sn wg (errOnce err er) (Some e) pa)
  | work_done n rs m d l1 l2 sn wg er cx pa :
      step (St rs m d (l1 ++ Ending n :: l2) sn wg er cx pa)
           (St rs m d (l1 ++ l2) sn (wg - 1) er cx pa).

(** The caller's context is cancelled, or its deadline passes, before the return. *)
Inductive outside : state → state → Prop :=
  | parent_cancel e rs m d ws sn wg er cx :
      (∀ res, m ≠ Returned res) →
      outside (St rs m d ws sn wg er cx false)
              (St rs m d ws sn wg er (match cx with None => Some e | _ => cx end) true).

Definition next (s t : state) : Prop := step s t ∨ outside s t.

(** ** The wait group counts what is under way *)

Definition main_count (m : main_pc) : Z := match m with Offering _ => 1 | _ => 0 end.
Definition disp_count (d : disp_pc) : Z := match d with Got _ => 1 | _ => 0 end.
Definition work_count (w : work_pc) : Z := match w with Offers _ _ _ => 2 | _ => 1 end.
Fixpoint work_counts (ws : list work_pc) : Z :=
  match ws with [] => 0 | w :: ws => work_count w + work_counts ws end.

Lemma work_counts_app l1 l2 : work_counts (l1 ++ l2) = work_counts l1 + work_counts l2.
Proof. induction l1; simpl; lia. Qed.

Lemma work_counts_pos ws : 0 ≤ work_counts ws ∧ (work_counts ws = 0 → ws = []).
Proof.
  induction ws as [|w ws [IH1 IH2]]; [done|]. simpl.
  assert (0 < work_count w) by (destruct w; simpl; lia). split; [lia|]. intros. lia.
Qed.

(** Behind [range root] nothing is left in the channel; behind [wg.Wait] nothing is left
    at all; the dispatcher ends after the channel is closed. *)
Definition closed (m : main_pc) : Prop := m = Closed ∨ ∃ res, m = Returned res.

Record counted (s : state) : Prop := {
  ct_wg : st_wg s = main_count (st_main s) + disp_count (st_disp s) + work_counts (st_work s);
  ct_drained : st_main s = Waiting ∨ closed (st_main s) → st_roots s = [];
  ct_closed : closed (st_main s) → st_wg s = 0;
  ct_ended : st_disp s = Ended → closed (st_main s)
}.

(** The counter is never negative, and no send finds the channel closed. *)
Lemma counted_idle s :
  counted s → closed (st_main s) → st_work s = [] ∧ (∀ n, st_disp s ≠ Got n) ∧ ∀ r, st_main s ≠ Offering r.
Proof.
  intros [Hw _ Hc _] Hcl. specialize (Hc Hcl). rewrite Hw in Hc.
  destruct (work_counts_pos (st_work s)) as [Hp Hn].
  assert (0 ≤ main_count (st_main s)) by (destruct (st_main s); simpl; lia).
  assert (0 ≤ disp_count (st_disp s)) by (destruct (st_disp s); simpl; lia).
  split; [apply Hn; lia|]. split; intros ? E; rewrite E in *; simpl in *; lia.
Qed.

Lemma counted_start roots : counted (start roots).
Proof. split; simpl; unfold closed; naive_solver. Qed.

Lemma counted_next s t : counted s → next s t → counted t.
Proof.
  intros Hs [H|H].
  - pose proof (counted_idle s Hs) as Hidle. destruct Hs as [Hw Hd Hc He].
    destruct H; split; simpl in *; try rewrite !work_counts_app in *; simpl in *; unfold closed in *;
      try lia; try naive_solver;
      intros Hcl; destruct (Hidle Hcl) as [E _]; by destruct l1.
  - destruct Hs as [Hw Hd Hc He]. destruct H; split; simpl in *; auto.
Qed.

(** ** What is marked *)

Definition srefs (n : Node) : error + list Node := inr (sent n).

Lemma srefs_reach roots m n : reach srefs roots m → n ∈ sent m → reach srefs roots n.
Proof. intros Hm Hn. eapply reach_ref; [done|]. by exists (sent m). Qed.

(** The node of a goroutine and what it has still to send; whether it is in [refs]. *)
Definition owner (w : work_pc) : Node :=
  match w with Sends n _ => n | Offers n _ _ => n | Ending n => n end.
Definition todo (w : work_pc) : list Node :=
  match w with Sends _ rest => rest | Offers _ x rest => x :: rest | Ending _ => [] end.
Definition busy (w : work_pc) : Prop := match w with Ending _ => False | _ => True end.

(** The nodes that are in play are reachable. *)
Record sound (roots : list Node) (s : state) : Prop := {
  so_roots : ∀ n, n ∈ st_roots s → reach srefs roots n;
  so_main : ∀ n, st_main s = Offering n → reach srefs roots n;
  so_disp : ∀ n, st_disp s = Got n → reach srefs roots n;
  so_seen : ∀ n, n ∈ st_seen s → reach srefs roots n;
  so_work : Forall (λ w, reach srefs roots (owner w) ∧ ∀ n, n ∈ todo w → n ∈ sent (owner w)) (st_work s)
}.

Lemma sound_start roots : sound roots (start roots).
Proof. split; simpl; try set_solver. intros n Hn. by apply reach_root. Qed.

Lemma sound_next roots s t : sound roots s → next s t → sound roots t.
Proof.
  intros [H1 H2 H3 H4 H5] [H|H]; destruct H; split; simpl in *; try assumption; try (by intros ?);
    try (rewrite ?Forall_app, ?Forall_cons in *; simpl in *; destruct_and?; split_and?; try assumption).
  - intros. apply H1. by right.
  - intros ? [= <-]. apply H1. by left.
  - intros ? [= <-]. by apply H2.
  - intros ? [->%elem_of_singleton|?]%elem_of_union; [by apply H3|by apply H4].
  - by apply H3.
  - done.
  - constructor.
  - intros ? [= <-]. apply (srefs_reach _ n); [done|]. set_solver.
  - set_solver.
  - set_solver.
  - set_solver.
Qed.

(** As long as the context is not done, every root and every reference of a node that
    was seen is seen or on its way, and an error of [refs] is not lost. *)
Definition on_its_way (s : state) (n : Node) : Prop :=
  n ∈ st_seen s ∨ st_disp s = Got n.

Record complete (roots : list Node) (s : state) : Prop := {
  co_roots : ∀ n, n ∈ roots → n ∈ st_roots s ∨ st_main s = Offering n ∨ on_its_way s n;
  co_refs : ∀ m n, m ∈ st_seen s → n ∈ sent m →
    on_its_way s n ∨ Exists (λ w, n ∈ todo w) (st_work s);
  co_fails : ∀ m, m ∈ st_seen s →
    fails m = None ∨ Exists (λ w, owner w = m ∧ busy w) (st_work s)
}.

Lemma complete_start roots : complete roots (start roots).
Proof. split; simpl; set_solver. Qed.

Lemma complete_next roots s t :
  complete roots s → next s t → st_ctx t = None → complete roots t.
Proof.
  intros [H1 H2 H3] [H|H] Hctx; split; unfold on_its_way in *.
  - intros a Ha. specialize (H1 a Ha).
    destruct H; simpl in *; try done; try intuition congruence.
    + destruct H1 as [[->|?]%elem_of_cons|?]; intuition congruence.
    + set_solver.
  - intros a b Ha Hb. specialize (H2 a b).
    destruct H; simpl in *; try discriminate; try (by apply H2);
      rewrite ?Exists_app, ?Exists_cons in *; simpl in *.
    + destruct (H2 Ha Hb) as [[?|?]|?]; [by left; left|done|by right].
    + destruct (H2 Ha Hb) as [[?|[= <-]]|?]; [by left; left|by left; left|by right].
    + apply elem_of_union in Ha as [->%elem_of_singleton|Ha]; [tauto|].
      destruct (H2 Ha Hb) as [[?|[= <-]]|?]; [left; left; set_solver|left; left; set_solver|right; by left].
    + destruct (H2 Ha Hb) as [[?|?]|?]; [by left; left|done|by right].
    + tauto.
    + rewrite elem_of_cons in H2. destruct (H2 Ha Hb) as [[?|?]|[?|[[->|?]|?]]]; first [tauto|by left; right].
    + tauto.
    + pose proof (not_elem_of_nil b). tauto.
  - intros a Ha. specialize (H3 a).
    destruct H; simpl in *; try discriminate; try (by apply H3);
      rewrite ?Exists_app, ?Exists_cons in *; simpl in *.
    + apply elem_of_union in Ha as [->%elem_of_singleton|Ha]; [right; right; by left|].
      destruct (H3 Ha); tauto.
    + tauto.
    + tauto.
    + destruct (decide (n = a)) as [->|Hn]; [left; by destruct (fails a), cx|tauto].
    + tauto.
  - destruct H; simpl in *; auto.
  - destruct H; simpl in *; auto.
  - destruct H; simpl in *; auto.
Qed.

(** What may be returned: all the reachable nodes, when [refs] fails for none of them;
    or the error of a reachable node; or, when the caller cancelled, any error. *)
Definition right_result (roots : list Node) (parent : bool) (res : result (gset Node)) : Prop :=
  match res with
  | Ok R => (∀ n, n ∈ R ↔ reach srefs roots n) ∧ ∀ n, reach srefs roots n → fails n = None
  | Err e => parent = true ∨ ∃ m, reach srefs roots m ∧ fails m = Some e
  | Panic _ => False
  end.

Record inv (roots : list Node) (s : state) : Prop := {
  in_counted : counted s;
  in_sound : sound roots s;
  in_complete : st_ctx s = None → complete roots s;
  in_err : ∀ e, st_refErr s = Some e →
    st_ctx s ≠ None ∧ (st_parent s = true ∨ ∃ m, reach srefs roots m ∧ fails m = Some e);
  in_ctx : st_ctx s ≠ None →
    st_refErr s ≠ None ∨ st_parent s = true ∨ ∃ res, st_main s = Returned res;
  in_result : ∀ res, st_main s = Returned res → right_result roots (st_parent s) res
}.

Lemma inv_start roots : inv roots (start roots).
Proof.
  split; simpl; try done; [apply counted_start|apply sound_start|]. intros _. apply complete_start.
Qed.

Lemma ctx_next s t : next s t → st_ctx t = None → st_ctx s = None.
Proof.
  intros [H|H] Ht; destruct H; simpl in *; try done; try (by destruct cx).
  unfold cancel in Ht. by destruct (fails n), cx.
Qed.

(** When the wait is over with the context not done, what was seen is what is reachable. *)
Lemma outcome_right roots rs d ws sn wg er cx pa :
  inv roots (St rs Closed d ws sn wg er cx pa) → right_result roots pa (outcome er cx sn).
Proof.
  intros [Hct Hso Hco Her Hcx _]. simpl in *. unfold outcome.
  destruct er as [e|]; [by apply Her|].
  destruct cx as [e|].
  { destruct Hcx as [?|[?|(? & ?)]]; [done|done|by left|done]. }
  destruct (Hco eq_refl) as [H1 H2 H3].
  destruct (counted_idle _ Hct) as (Hw & Hd & _); [by left|]. simpl in *. subst ws.
  assert (rs = []) as Hrs by (apply (ct_drained _ Hct); right; by left). subst rs.
  assert (∀ n, on_its_way (St [] Closed d [] sn wg None None pa) n → n ∈ sn) as Hin.
  { intros n [?|E]; [done|]. by destruct (Hd n). }
  assert (∀ n, reach srefs roots n → n ∈ sn) as Hall.
  { apply closed_reach.
    - intros n Hn. destruct (H1 n Hn) as [?%not_elem_of_nil|[?|?]]; [done|done|by apply Hin].
    - intros m n Hm (rs' & [= <-] & Hn). destruct (H2 m n Hm Hn) as [?|?%Exists_nil]; [by apply Hin|done]. }
  split.
  - intros n. split; [apply (so_seen _ _ Hso)|apply Hall].
  - intros n Hn. by destruct (H3 n (Hall n Hn)) as [?|?%Exists_nil].
Qed.


Lemma inv_next roots s t : inv roots s → next s t → inv roots t.
Proof.
  intros Hi Hn. pose proof Hi as [Hct Hso Hco Her Hcx Hres].
  pose proof (counted_idle s Hct) as Hidle.
  split; [by eapply counted_next|by eapply sound_next| | | |].
  - intros Ht. eapply complete_next; [|done|done]. apply Hco. by eapply ctx_next.
  - destruct Hn as [H|H]; destruct H; simpl in *; try assumption.
    + intros e He. split; [by destruct cx|by apply Her].
    + intros e He. destruct er as [e'|].
      * destruct (Her e' eq_refl) as [Hc Hb]. unfold errOnce, cancel in *.
        by destruct (fails n), cx; simplify_eq.
      * unfold errOnce, cancel in *. destruct (fails n) as [e'|] eqn:Ef; [|done]. simplify_eq.
        split; [by destruct cx|]. right. exists n. split; [|done].
        pose proof (so_work _ _ Hso) as Hw. simpl in Hw. by apply Forall_app in Hw as [_ [[? _] _]%Forall_cons].
    + intros e' He. split; [done|]. destruct er as [e0|].
      * unfold errOnce in He. apply Her. by destruct err; simplify_eq.
      * destruct Hcx as [?|[->|Hr]]; [done|done|by left|].
        destruct Hidle as [Hnil _]; [by right|by destruct l1].
    + intros e' He. split; [by destruct cx|by left].
  - destruct Hn as [H|H]; destruct H; simpl in *; try assumption; try (by eauto);
      try (intros Hc; destruct (Hcx Hc) as [?|[?|(? & ?)]]; by eauto).
    + intros Hc. unfold errOnce, cancel in *.
      destruct (fails n); [left; by destruct er|]. by apply Hcx.
    + intros Hc. destruct (Hcx Hc) as [?|?]; [left; by destruct err, er|by right].
  - destruct Hn as [H|H]; destruct H; simpl in *; try assumption; try (by intros).
    + intros res [= <-]. by eapply outcome_right.
    + naive_solver.
Qed.

Lemma inv_reachable roots s : rtc next (start roots) s → inv roots s.
Proof.
  intros H. remember (start roots) as s0 eqn:E. assert (inv roots s0) as Hi by (subst; apply inv_start).
  clear E. induction H; eauto using inv_next.
Qed.

(** ** Progress and termination *)

(** Everybody has ended, or there is a step. *)
Lemma ended_or_step s :
  counted s →
  (∃ t, step s t) ∨ (∃ res, st_main s = Returned res) ∧ st_disp s = Ended ∧ st_work s = [].
Proof.
  intros Hct. pose proof (counted_idle s Hct) as Hidle. destruct Hct as [Hwg _ _ Hend].
  destruct s as [rs m d ws sn wg er cx pa]; simpl in *. destruct d as [|n|].
  - left. destruct ws as [|w ws].
    + destruct m as [|r| | |res]; simpl in *.
      * destruct rs; eexists; constructor.
      * eexists; constructor.
      * subst wg. eexists; constructor.
      * eexists; constructor.
      * eexists. apply disp_end. right. by eexists.
    + destruct w as [n [|x rest]|n x rest|n]; eexists.
      * apply (work_return n rs m Receiving [] ws).
      * apply (work_add n x rest rs m Receiving [] ws).
      * apply (work_send n x rest rs m [] ws).
      * apply (work_done n rs m Receiving [] ws).
  - left. destruct (decide (n ∈ sn)); eexists; [by apply disp_seen|by apply disp_new].
  - destruct (Hend eq_refl) as [->|[res ->]]; [left; eexists; constructor|right].
    destruct Hidle as (? & _); [right; by eexists|]. split; [by eexists|done].
Qed.

(** What is left to do. A root or a call of [send] costs at most four steps, a node that
    was not seen four steps for everything it refers to and its own end. *)
Definition main_left (m : main_pc) : nat :=
  match m with Ranging => 3 | Offering _ => 6 | Waiting => 2 | Closed => 1 | Returned _ => 0 end.
Definition disp_left (d : disp_pc) : nat :=
  match d with Receiving => 1 | Got _ => 3 | Ended => 0 end.
Definition work_left (w : work_pc) : nat :=
  match w with
  | Sends _ rest => 2 + 4 * length rest
  | Offers _ _ rest => 5 + 4 * length rest
  | Ending _ => 1
  end.
Fixpoint works_left (ws : list work_pc) : nat :=
  match ws with [] => 0 | w :: ws => work_left w + works_left ws end.
Definition unseen_left (X : gset Node) : nat := 4 * degrees srefs X + size X.

Definition left_to_do (all : gset Node) (s : state) : nat :=
  4 * length (st_roots s) + main_left (st_main s) + disp_left (st_disp s) +
  works_left (st_work s) + unseen_left (all ∖ st_seen s) + (if st_parent s then 0 else 1).

Lemma works_left_app l1 l2 : works_left (l1 ++ l2) = (works_left l1 + works_left l2)%nat.
Proof. induction l1; simpl; lia. Qed.

Lemma unseen_left_remove X n :
  n ∈ X → unseen_left X = (1 + 4 * length (sent n) + unseen_left (X ∖ {[n]}))%nat.
Proof.
  intros Hn. unfold unseen_left. rewrite (degrees_remove srefs X n) by done.
  rewrite (union_difference_singleton_L n X) at 2 by done.
  rewrite size_union, size_singleton by set_solver. unfold degree, srefs. lia.
Qed.

Lemma left_to_do_next all roots s t :
  world srefs all roots → sound roots s → next s t → (left_to_do all t < left_to_do all s)%nat.
Proof.
  intros [Hr Hw] Hso H. unfold left_to_do.
  destruct H as [H|H]; destruct H; simpl; rewrite ?works_left_app; simpl; try lia.
  assert (n ∈ all) as Hn.
  { apply (closed_reach srefs roots (λ n, n ∈ all) Hr Hw). by apply (so_disp _ _ Hso). }
  rewrite (unseen_left_remove (all ∖ sn) n) by set_solver.
  assert (all ∖ ({[n]} ∪ sn) = all ∖ sn ∖ {[n]}) as -> by set_solver. lia.
Qed.

Lemma runs_bounded all roots k s t :
  world srefs all roots → inv roots s → nsteps next k s t → (k + left_to_do all t ≤ left_to_do all s)%nat.
Proof.
  intros Hw Hi H. induction H as [s|k s s' t Hn H IH]; [lia|].
  specialize (IH (inv_next _ _ _ Hi Hn)).
  pose proof (left_to_do_next all roots s s' Hw (in_sound _ _ Hi) Hn). lia.
Qed.

(** ** Theorems *)

(** In every interleaving, whatever errors occur and whenever the caller cancels: the
    counter of the wait group is never negative; once the channel is closed no goroutine
    holds a send to it, so none can panic; and the map that is returned is not written
    to afterwards, since no node is on its way to the dispatcher. *)
Theorem ConcurrentMark_safe roots s :
  rtc next (start roots) s →
  0 ≤ st_wg s ∧
  (closed (st_main s) → st_roots s = [] ∧ (∀ n, st_disp s ≠ Got n) ∧ st_work s = []).
Proof.
  intros H. pose proof (in_counted _ _ (inv_reachable _ _ H)) as Hct. split.
  - rewrite (ct_wg _ Hct). destruct (work_counts_pos (st_work s)).
    destruct (st_main s), (st_disp s); simpl; lia.
  - intros Hcl. destruct (counted_idle _ Hct Hcl) as (? & ? & _).
    split_and!; [|done|done]. apply (ct_drained _ Hct). by right.
Qed.

(** C6. On a finite world every run of the concurrent marking ends, whatever order the
    goroutines are scheduled in and whenever the caller cancels: there is no deadlock,
    its length is bounded by the roots and the references of the world, and where it ends
    a result has been returned, the dispatcher has ended and no goroutine of a node is
    left. The result is the exact set of the reachable nodes if [refs] fails for none of
    them; otherwise the error of one of them, or any error if the caller cancelled. *)
Theorem ConcurrentMark_ends all roots k s :
  world srefs all roots → nsteps next k (start roots) s →
  (k ≤ 5 + 4 * length roots + 4 * degrees srefs all + size all)%nat ∧
  ((∃ t, step s t) ∨
   ∃ res, st_main s = Returned res ∧ st_disp s = Ended ∧ st_work s = [] ∧
     right_result roots (st_parent s) res).
Proof.
  intros Hw H. pose proof (inv_reachable roots s (rtc_nsteps_2 _ _ _ H)) as Hi. split.
  - pose proof (runs_bounded all roots k _ s Hw (inv_start roots) H) as Hk.
    unfold left_to_do, unseen_left in Hk. simpl in Hk. rewrite difference_empty_L in Hk. lia.
  - destruct (ended_or_step s (in_counted _ _ Hi)) as [|([res Hres] & ? & ?)]; [by left|right].
    exists res. split_and!; [done|done|done|]. by apply (in_result _ _ Hi).
Qed.

End Concurrent.

(** ** Agreement with the sequential marking *)

(** The function that [Tricolor] takes, for the one that [ConcurrentMark] takes. *)
Definition refs_of (sent : Node → list Node) (fails : Node → option error) (n : Node)
  : error + list Node :=
  match fails n with Some e => inl e | None => inr (sent n) end.

Lemma refers_of sent fails m n :
  refers (refs_of sent fails) m n ↔ fails m = None ∧ n ∈ sent m.
Proof. unfold refers, refs_of. destruct (fails m); naive_solver. Qed.

Lemma reach_of sent fails roots n : reach (refs_of sent fails) roots n → reach (srefs sent) roots n.
Proof.
  induction 1 as [n Hn|m n _ IH [_ Hn]%refers_of]; [by apply reach_root|by eapply srefs_reach].
Qed.

Lemma of_reach sent fails roots n :
  (∀ m, reach (refs_of sent fails) roots m → fails m = None) →
  reach (srefs sent) roots n → reach (refs_of sent fails) roots n.
Proof.
  intros Hf. induction 1 as [n Hn|m n _ IH (rs & [= <-] & Hn)]; [by apply reach_root|].
  eapply reach_ref; [done|]. apply refers_of. auto.
Qed.

Lemma world_of sent fails all roots : world (srefs sent) all roots → world (refs_of sent fails) all roots.
Proof.
  intros [Hr Hw]. split; [done|]. intros m n Hm [_ Hn]%refers_of. apply (Hw m n Hm). by exists (sent m).
Qed.

(** Both markings agree: unless the caller cancels, the concurrent one returns a set
    exactly when the sequential one does on the same graph, and the sets are the same up
    to the bits above [ResourceMax], which only [Tricolor] strips from the types. *)
Theorem ConcurrentMark_agrees sent fails all roots fuel s res :
  world (srefs sent) all roots →
  (length roots + degrees (refs_of sent fails) all < fuel)%nat →
  rtc (next sent fails) (start roots) s → st_main s = Returned res → st_parent s = false →
  (∃ R, res = Ok R ∧ Tricolor (refs_of sent fails) fuel roots = Some (Ok (set_map strip R))) ∨
  (∃ e e', res = Err e ∧ Tricolor (refs_of sent fails) fuel roots = Some (Err e')).
Proof.
  intros Hw Hf Hrun Hres Hpa.
  pose proof (in_result _ _ _ _ (inv_reachable _ _ _ _ Hrun) res Hres) as Hright. rewrite Hpa in Hright.
  destruct (Tricolor_ends _ all roots fuel (world_of _ fails _ _ Hw) Hf) as [r E].
  pose proof (tricolor_loop_right _ fuel roots _ _ _ r (marking_start _ roots) E) as Htri.
  assert (∀ m e, fails m = Some e → refs_of sent fails m = inl e) as Hfail.
  { intros m e Hm. unfold refs_of. by rewrite Hm. }
  destruct res as [R|e|]; [| |done].
  - destruct Hright as [HR Hnone]. left. exists R. split; [done|]. rewrite E.
    destruct r as [R'|e|]; [| |done].
    + do 2 f_equal. destruct Htri as [HR' _]. apply set_eq. intros n. rewrite HR', elem_of_map. split.
      * intros (m & Hm & ->). exists m. split; [done|]. by apply HR, (reach_of _ fails).
      * intros (m & -> & Hm). exists m. split; [|done]. apply of_reach; [|by apply HR].
        intros m' Hm'. by apply Hnone, (reach_of _ fails).
    + destruct Htri as (m & Hm & He). unfold refs_of in He.
      by rewrite (Hnone m (reach_of _ _ _ _ Hm)) in He.
  - destruct Hright as [?|(m & Hm & He)]; [done|]. right. rewrite E.
    destruct r as [R'|e'|]; [exfalso|by eexists _, _|done]. destruct Htri as [_ Hall].
    assert (∀ m', reach (refs_of sent fails) roots m' → fails m' = None) as Hnone.
    { intros m' Hm'. destruct (Hall m' Hm') as [rs Hrs]. unfold refs_of in Hrs.
      by destruct (fails m'). }
    by rewrite (Hnone m (of_reach _ _ _ _ Hnone Hm)) in He.
Qed.

(** ** At work: one root with caller bits in its type, and no references *)

Definition demo_root : Node := nd 0x23 "c".

Definition demo_end : state :=
  St [] (Returned (Ok {[demo_root]})) Receiving [] ({[demo_root]} ∪ ∅) 0 None (Some Canceled) false.

Lemma demo_run : nsteps (next (λ _, []) (λ _, None)) 8 (start [demo_root]) demo_end.
Proof.
  eapply nsteps_l; [left; apply main_take|].
  eapply nsteps_l; [left; apply main_send|].
  eapply nsteps_l; [left; apply main_wait|].
  eapply nsteps_l; [left; apply disp_new; set_solver|].
  eapply nsteps_l; [left; apply (work_return _ _ demo_root [] Waiting Receiving [] [])|].
  eapply nsteps_l; [left; apply (work_done _ _ demo_root [] Waiting Receiving [] [])|].
  eapply nsteps_l; [left; apply main_close|].
  eapply nsteps_l; [left; apply main_return|].
  unfold demo_end. simpl. rewrite union_empty_r_L. constructor.
Defined.

Lemma demo_single : world (srefs (λ _, [])) {[demo_root]} [demo_root].
Proof.
  split; [intros n ->%list_elem_of_singleton; set_solver|].
  intros m n _ (rs & [= <-] & Hn). by apply not_elem_of_nil in Hn.
Defined.

Lemma ConcurrentMark_safe_witness :
  0 ≤ st_wg demo_end ∧
  (closed (st_main demo_end) →
   st_roots demo_end = [] ∧ (∀ n, st_disp demo_end ≠ Got n) ∧ st_work demo_end = []).
Proof.
  apply (ConcurrentMark_safe (λ _, []) (λ _, None) [demo_root] demo_end).
  exact (rtc_nsteps_2 _ _ _ demo_run).
Defined.

Lemma ConcurrentMark_ends_witness :
  (8 ≤ 5 + 4 * length [demo_root] + 4 * degrees (srefs (λ _, [])) {[demo_root]} +
         size ({[demo_root]} : gset Node))%nat ∧
  ((∃ t, step (λ _, []) (λ _, None) demo_end t) ∨
   ∃ res, st_main demo_end = Returned res ∧ st_disp demo_end = Ended ∧ st_work demo_end = [] ∧
     right_result (λ _, []) (λ _, None) [demo_root] (st_parent demo_end) res).
Proof.
  apply (ConcurrentMark_ends (λ _, []) (λ _, None) {[demo_root]} [demo_root] 8 demo_end).
  - exact demo_single.
  - exact demo_run.
Defined.

Lemma ConcurrentMark_agrees_witness :
  (∃ R, Ok ({[demo_root]} : gset Node) = Ok R ∧
     Tricolor (refs_of (λ _, []) (λ _, None)) 2 [demo_root] = Some (Ok (set_map strip R))) ∨
  (∃ e e', Ok ({[demo_root]} : gset Node) = Err e ∧
     Tricolor (refs_of (λ _, []) (λ _, None)) 2 [demo_root] = Some (Err e')).
Proof.
  apply (ConcurrentMark_agrees (λ _, []) (λ _, None) {[demo_root]} [demo_root] 2 demo_end).
  - exact demo_single.
  - apply Nat.ltb_lt. by vm_compute.
  - exact (rtc_nsteps_2 _ _ _ demo_run).
  - reflexivity.
  - reflexivity.
Defined.
