(* ===== verification/BitSeq.v ===== *)
(** * Bit sequences of libnetwork

    Models the run-length encoded bit mask of
    [docker-ce/components/engine/libnetwork/bitseq/sequence.go]: finding a free bit,
    reserving and releasing one, the byte form. The linked list of a handle is a list of
    [sequence]; nodes are only changed in a private copy, so the list is a value. The
    handle with its store is in BitHandle.v. *)

From S2P Require Import Prelude.

Definition blockLen : Z := 32.
Definition blockBytes : Z := blockLen / 8.
Definition blockMAX : Z := 2 ^ blockLen - 1.
Definition blockFirstBit : Z := 2 ^ (blockLen - 1).

Definition ErrNoBitAvailable : error := ErrNew "no bit available".
Definition ErrBitAllocated : error := ErrNew "requested bit is already allocated".

(** A block of 32 bits and how often it is repeated. *)
Record sequence := mk_sequence { block : Z; count : Z }.

#[export] Instance sequence_eq_dec : EqDecision sequence.
Proof. solve_decision. Defined.

Definition getNumBlocks (numBits : Z) : Z :=
  let numBlocks := numBits / blockLen in
  if numBits mod blockLen =? 0 then numBlocks else u64 (numBlocks + 1).

Definition ordinalToPos (ordinal : Z) : Z * Z := (ordinal / 8, ordinal mod 8).
Definition posToOrdinal (bytePos bitPos : Z) : Z := u64 (u64 (bytePos * 8) + bitPos).

(** The loop of [getAvailableBit]; the selected bit leaves the block after 32 shifts. *)
Fixpoint scan_bits (fuel : nat) (blk bitSel bits : Z) : result (Z * Z) :=
  match fuel with
  | O => Err ErrNoBitAvailable
  | S fuel' =>
      if bitSel =? 0 then Err ErrNoBitAvailable
      else if Z.land blk bitSel =? 0 then Ok (bits / 8, bits mod 8)
      else scan_bits fuel' blk (Z.shiftr bitSel 1) (bits + 1)
  end.

(** Positions returned beside an error are left out. *)
Definition getAvailableBit (s : sequence) (from : Z) : result (Z * Z) :=
  if (block s =? blockMAX) || (count s =? 0) then Err ErrNoBitAvailable
  else scan_bits 33 (block s) (Z.shiftr blockFirstBit from) from.

(** The loop of [findSequence]: the nodes passed, the current one, the nodes behind it
    and the bytes that are left. *)
Fixpoint find_loop (before : list sequence) (n : Z) (s : list sequence)
  : option (list sequence * sequence * list sequence * Z) :=
  match s with
  | [] => None
  | current :: next =>
      match next with
      | [] => Some (before, current, [], n)
      | _ => if n <? u64 (count current * blockBytes) then Some (before, current, next, n)
             else find_loop (before ++ [current]) (n - u64 (count current * blockBytes)) next
      end
  end.

(** The node with the byte, between the nodes before and behind it; the number of blocks
    before the one of the byte in that node; the position of the byte in its block. *)
Definition findSequence (head : list sequence) (bytePos : Z)
  : option (list sequence * sequence * list sequence * Z * Z) :=
  match find_loop [] bytePos head with
  | None => None
  | Some (before, current, next, n) =>
      if n <? u64 (count current * blockBytes)
      then Some (before, current, next, n / blockBytes, bytePos mod blockBytes)
      else None
  end.

(** The bit that is selected in the block of a byte. *)
Definition bitSel (inBlockBytePos bitPos : Z) : Z :=
  Z.shiftr blockFirstBit (inBlockBytePos * 8 + bitPos).

Definition checkIfAvailable (head : list sequence) (ordinal : Z) : result (Z * Z) :=
  let '(bytePos, bitPos) := ordinalToPos ordinal in
  match findSequence head bytePos with
  | Some (_, current, _, _, inBlockBytePos) =>
      if Z.land (block current) (bitSel inBlockBytePos bitPos) =? 0
      then Ok (bytePos, bitPos) else Err ErrBitAllocated
  | None => Err ErrBitAllocated
  end.

(** [retry] of [getFirstAvailable]: a position in this node, or the offset and the number
    of blocks at [next]; [None] when the fuel is used up. *)
Fixpoint retry (fuel : nat) (current : sequence) (byteOffset precBlocks bitOffset : Z)
  : option ((Z * Z) + (Z * Z)) :=
  match fuel with
  | O => None
  | S fuel' =>
      match getAvailableBit current bitOffset with
      | Ok (bytePos, bitPos) => Some (inr (u64 (byteOffset + bytePos), bitPos))
      | _ =>
          if precBlocks =? u64 (count current - 1) then Some (inl (byteOffset, precBlocks))
          else retry fuel' current (u64 (byteOffset + blockBytes)) (u64 (precBlocks + 1)) 0
      end
  end.

Fixpoint avail_loop (fuel : nat) (s : list sequence) (byteOffset precBlocks bitOffset : Z)
  : option (result (Z * Z)) :=
  match s with
  | [] => Some (Err ErrNoBitAvailable)
  | current :: next =>
      let skip '(byteOffset, precBlocks) :=
        avail_loop fuel next
          (u64 (byteOffset + u64 (u64 (count current * blockBytes) - u64 (precBlocks * blockBytes)))) 0 0 in
      if block current =? blockMAX then skip (byteOffset, precBlocks)
      else match retry fuel current byteOffset precBlocks bitOffset with
           | None => None
           | Some (inr pos) => Some (Ok pos)
           | Some (inl at_next) => skip at_next
           end
  end.

Definition getFirstAvailable (fuel : nat) (head : list sequence) (start : Z)
  : option (result (Z * Z)) :=
  let '(byteStart, bitStart) := ordinalToPos start in
  match findSequence head byteStart with
  | None => Some (Err ErrNoBitAvailable)
  | Some (_, current, next, precBlocks, inBlockBytePos) =>
      avail_loop fuel (current :: next) (u64 (byteStart - inBlockBytePos)) precBlocks
        (inBlockBytePos * 8 + bitStart)
  end.

(** [begin] of [getAvailableFromCurrent]. *)
Definition from_begin (fuel : nat) (head : list sequence) (start end_ : Z) : option (result (Z * Z)) :=
  match getFirstAvailable fuel head start with
  | None => None
  | Some (Ok (bytePos, bitPos)) =>
      if end_ <? posToOrdinal bytePos bitPos then Some (Err ErrNoBitAvailable)
      else Some (Ok (bytePos, bitPos))
  | Some _ => Some (Err ErrNoBitAvailable)
  end.

Definition getAvailableFromCurrent (fuel : nat) (head : list sequence) (start curr end_ : Z)
  : option (result (Z * Z)) :=
  if negb (curr =? 0) && (start <? curr) then
    match getFirstAvailable fuel head curr with
    | None => None
    | Some (Ok (bytePos, bitPos)) =>
        if end_ <? posToOrdinal bytePos bitPos then from_begin fuel head start end_
        else Some (Ok (bytePos, bitPos))
    | Some _ => from_begin fuel head start end_
    end
  else from_begin fuel head start end_.

(** [mergeSequences(seq)] for the node [x] in front of [s]. *)
Fixpoint merge_from (x : sequence) (s : list sequence) : list sequence :=
  match s with
  | [] => [x]
  | y :: s' =>
      if block x =? block y then merge_from (mk_sequence (block x) (u64 (count x + count y))) s'
      else x :: merge_from y s'
  end.

Definition mergeSequences (s : list sequence) : list sequence :=
  match s with [] => [] | x :: s' => merge_from x s' end.

(** What the removal leaves of the current node, in front of the nodes behind it. *)
Definition removeCurrentIfEmpty (current : sequence) (next : list sequence) : list sequence :=
  if count current =? 0 then next else current :: next.

(** Merging starts at the previous node, if there is one. *)
Definition merge_at_previous (before s : list sequence) : list sequence :=
  match last before with
  | None => mergeSequences s
  | Some previous => removelast before ++ mergeSequences (previous :: s)
  end.

Definition pushReservation (bytePos bitPos : Z) (head : list sequence) (release : bool)
  : list sequence :=
  match findSequence head bytePos with
  | None => head
  | Some (before, current, next, precBlocks, inBlockBytePos) =>
      let sel := bitSel inBlockBytePos bitPos in
      let newBlock := if release then Z.ldiff (block current) sel else Z.lor (block current) sel in
      if block current =? newBlock then head
      else
        let current := mk_sequence (block current) (u64 (count current - 1)) in
        let newSequence := mk_sequence newBlock 1 in
        if precBlocks =? 0 then
          merge_at_previous before (newSequence :: removeCurrentIfEmpty current next)
        else if precBlocks =? count current then
          before ++ mergeSequences (current :: newSequence :: next)
        else
          before ++ mk_sequence (block current) precBlocks :: newSequence ::
            mk_sequence (block current) (u64 (count current - precBlocks)) :: next
  end.

(** Comparison of two lists. *)
Fixpoint equal (s o : list sequence) : bool :=
  match s, o with
  | [], [] => true
  | x :: s', y :: o' =>
      if negb (block x =? block y) || negb (count x =? count y) then false else equal s' o'
  | _, _ => false
  end.

(** ** The byte form *)

Fixpoint put_be (n : nat) (x : Z) : list Z :=
  match n with
  | O => []
  | S n' => u8 (Z.shiftr x (8 * Z.of_nat n')) :: put_be n' x
  end.

Definition get_be (bs : list Z) : Z := fold_left (λ acc b, Z.lor (Z.shiftl acc 8) b) bs 0.

Definition toByteArray (s : list sequence) : list Z :=
  s ≫= λ p, put_be 4 (block p) ++ put_be 8 (count p).

(** The loop of [fromByteArray], a node for every 12 bytes. A slice of no bytes panics. *)
Fixpoint from_loop (fuel : nat) (data : list Z) : result (list sequence) :=
  match fuel with
  | O => Panic "slice bounds out of range"
  | S fuel' =>
      if (length data <? 12)%nat then Panic "slice bounds out of range"
      else
        let node := mk_sequence (get_be (take 4 data)) (get_be (take 8 (drop 4 data))) in
        match drop 12 data with
        | [] => Ok [node]
        | rest => let! s := from_loop fuel' rest in Ok (node :: s)
        end
  end.

Definition fromByteArray (data : list Z) : result (list sequence) :=
  if negb (length data mod 12 =? 0)%nat
  then Err (ErrNew "cannot deserialize byte sequence of length")
  else from_loop (S (length data)) data.


(** ** The mask that a list stands for *)

Definition total (s : list sequence) : Z := foldr (λ p n, count p + n) 0 s.

(** The block number [k] of the mask, and whether a bit is set; what lies outside of the
    mask counts as set. *)
Fixpoint block_at (s : list sequence) (k : Z) : option Z :=
  match s with
  | [] => None
  | p :: s' => if k <? count p then Some (block p) else block_at s' (k - count p)
  end.

Definition is_set (s : list sequence) (o : Z) : bool :=
  match block_at s (o / 32) with Some b => Z.testbit b (31 - o mod 32) | None => true end.

(** Lists that the code can handle: counts are not zero, and what 64 bits can number
    ([2 ^ 64] bits are [2 ^ 59] blocks). *)
Definition node_ok (p : sequence) : Prop := 0 ≤ block p < 2 ^ 32 ∧ 1 ≤ count p.
Definition valid (s : list sequence) : Prop := Forall node_ok s ∧ total s ≤ 2 ^ 59.

(** Neighbours differ. *)
Fixpoint canonical (s : list sequence) : Prop :=
  match s with
  | x :: (y :: _) as s' => block x ≠ block y ∧ canonical s'
  | _ => True
  end.

#[local] Arguments total : simpl never.
#[local] Arguments blockMAX : simpl never.
#[local] Arguments blockFirstBit : simpl never.

Lemma total_cons p s : total (p :: s) = count p + total s.
Proof. done. Qed.

Lemma total_app s t : total (s ++ t) = total s + total t.
Proof. induction s as [|p s IH]; [done|]. simpl app. rewrite !total_cons, IH. lia. Qed.

Lemma total_nonneg s : Forall node_ok s → 0 ≤ total s.
Proof. induction 1 as [|p s [_ ?] _ IH]; [done|]. rewrite total_cons. lia. Qed.

Lemma block_at_app s t k :
  Forall node_ok s → 0 ≤ k →
  block_at (s ++ t) k = if k <? total s then block_at s k else block_at t (k - total s).
Proof.
  intros Hs. revert k. induction Hs as [|p s [_ Hp] Hs IH]; intros k Hk; simpl.
  - change (total []) with 0. destruct (Z.ltb_spec k 0); [lia|]. by rewrite Z.sub_0_r.
  - pose proof (total_nonneg s Hs). rewrite total_cons.
    destruct (Z.ltb_spec k (count p)), (Z.ltb_spec k (count p + total s)); try lia; [done|..];
      rewrite IH by lia.
    + destruct (Z.ltb_spec (k - count p) (total s)); [done|lia].
    + destruct (Z.ltb_spec (k - count p) (total s)); [lia|f_equal; lia].
Qed.

Lemma block_at_inside s k : Forall node_ok s → 0 ≤ k < total s → is_Some (block_at s k).
Proof.
  intros Hs. revert k. induction Hs as [|p s [_ Hp] Hs IH]; intros k Hk; [change (total []) with 0 in Hk; lia|].
  rewrite total_cons in Hk. simpl. destruct (Z.ltb_spec k (count p)); [by eexists|]. apply IH. lia.
Qed.

Lemma block_at_outside s k : Forall node_ok s → total s ≤ k → block_at s k = None.
Proof.
  intros Hs. revert k. induction Hs as [|p s [_ Hp] Hs IH]; intros k Hk; [done|]. simpl.
  rewrite total_cons in Hk. pose proof (total_nonneg s Hs).
  destruct (Z.ltb_spec k (count p)); [lia|]. apply IH. lia.
Qed.

Lemma block_at_middle before p next k :
  Forall node_ok before → 0 ≤ k < count p →
  block_at (before ++ p :: next) (total before + k) = Some (block p).
Proof.
  intros Hb Hk. pose proof (total_nonneg before Hb). rewrite block_at_app by (done || lia).
  destruct (Z.ltb_spec (total before + k) (total before)); [lia|]. simpl.
  destruct (Z.ltb_spec (total before + k - total before) (count p)); [done|lia].
Qed.

(** Two lists with the same length and the same blocks behave alike in any context. *)
Definition same_blocks (s t : list sequence) : Prop :=
  total s = total t ∧ ∀ k, 0 ≤ k → block_at s k = block_at t k.

#[export] Instance same_blocks_equiv : Equivalence same_blocks.
Proof.
  split; [done|intros s t [H1 H2]; split; [done|]; intros; symmetry; auto|].
  intros s t u [H1 H2] [H3 H4]. split; [lia|]. intros k Hk. rewrite H2 by done. by apply H4.
Qed.

Lemma same_blocks_cons p s t : 0 ≤ count p → same_blocks s t → same_blocks (p :: s) (p :: t).
Proof.
  intros Hp [H1 H2]. split; [by rewrite !total_cons, H1|]. intros k Hk. simpl.
  destruct (Z.ltb_spec k (count p)); [done|]. apply H2. lia.
Qed.

Lemma same_blocks_app l s t :
  Forall node_ok l → same_blocks s t → same_blocks (l ++ s) (l ++ t).
Proof.
  induction 1 as [|p l [_ Hp] _ IH]; intros H; [done|]. simpl. apply same_blocks_cons; [lia|auto].
Qed.

(** ** Merging *)

Lemma u64_small n : 0 ≤ n < 2 ^ 64 → u64 n = n.
Proof. apply wrapu_small. Qed.

Lemma valid_cons p s : valid (p :: s) → node_ok p ∧ valid s ∧ count p ≤ 2 ^ 59.
Proof.
  intros [[Hp Hs]%Forall_cons Ht]. rewrite total_cons in Ht. pose proof (total_nonneg s Hs).
  pose proof Hp as [_ ?]. split; [done|]. split; [|lia]. split; [done|lia].
Qed.

Lemma valid_pair x y s :
  valid (x :: y :: s) →
  u64 (count x + count y) = count x + count y ∧
  valid (mk_sequence (block x) (count x + count y) :: s).
Proof.
  intros [[[? ?] [[? ?] Hs]%Forall_cons]%Forall_cons Ht]. rewrite !total_cons in Ht.
  pose proof (total_nonneg s Hs). split; [apply u64_small; lia|]. split.
  - apply Forall_cons; split; [|done]. split; simpl; lia.
  - rewrite total_cons. simpl. lia.
Qed.

Lemma merge_from_spec x s :
  valid (x :: s) →
  valid (merge_from x s) ∧ same_blocks (merge_from x s) (x :: s) ∧ canonical (merge_from x s) ∧
  ∃ c r, merge_from x s = mk_sequence (block x) c :: r.
Proof.
  revert x; induction s as [|y s IH]; intros x Hv; simpl.
  - split_and!; [done|done|done|]. exists (count x), []. by destruct x.
  - pose proof (valid_cons _ _ Hv) as ([Hb Hc] & Hv' & _).
    destruct (Z.eqb_spec (block x) (block y)) as [E|E].
    + destruct (valid_pair x y s Hv) as [-> Hm].
      destruct (IH _ Hm) as (H1 & H2 & H3 & c & r & H4). split_and!; [done| |done|by exists c, r].
      etransitivity; [done|]. pose proof (valid_cons _ _ Hv') as ([_ Hcy] & _ & _). split.
      * rewrite !total_cons. simpl. lia.
      * intros k Hk. simpl.
        destruct (Z.ltb_spec k (count x + count y)), (Z.ltb_spec k (count x)); try lia; [done|..].
        -- destruct (Z.ltb_spec (k - count x) (count y)); [by rewrite E|lia].
        -- destruct (Z.ltb_spec (k - count x) (count y)); [lia|f_equal; lia].
    + destruct (IH y Hv') as (H1 & H2 & H3 & c & r & H4). split_and!.
      * destruct Hv as [_ Ht]. rewrite total_cons in Ht. destruct H1 as [H1 _]. split.
        -- apply Forall_cons; by split.
        -- rewrite total_cons. destruct H2 as [-> _]. done.
      * apply same_blocks_cons; [lia|done].
      * rewrite H4 in *. by split.
      * exists (count x), (merge_from y s). by destruct x.
Qed.

Lemma valid_app s t : valid (s ++ t) ↔ Forall node_ok s ∧ Forall node_ok t ∧ total s + total t ≤ 2 ^ 59.
Proof. unfold valid. rewrite Forall_app, total_app. tauto. Qed.

Lemma valid_suffix s t : valid (s ++ t) → valid t.
Proof. intros (Hs & Ht & Hb)%valid_app. pose proof (total_nonneg s Hs). split; [done|lia]. Qed.

(** ** Finding the node of a byte *)

Lemma bytes_small p s : valid (p :: s) → u64 (count p * blockBytes) = 4 * count p.
Proof.
  intros ([_ ?] & _ & ?)%valid_cons. change blockBytes with 4. rewrite u64_small; lia.
Qed.

Lemma find_loop_spec before n s :
  valid s → 0 ≤ n → s ≠ [] →
  ∃ b cur next, find_loop before n s = Some (before ++ b, cur, next, n - 4 * total b) ∧
    s = b ++ cur :: next ∧ 0 ≤ n - 4 * total b ∧ (next = [] ∨ n - 4 * total b < 4 * count cur).
Proof.
  revert before n; induction s as [|p s IH]; intros before n Hv Hn Hs; [done|]. simpl.
  destruct s as [|q s].
  - exists [], p, []. change (total []) with 0. rewrite app_nil_r, Z.sub_0_r. auto.
  - rewrite (bytes_small p (q :: s)) by done.
    destruct (Z.ltb_spec n (4 * count p)).
    + exists [], p, (q :: s). change (total []) with 0. rewrite app_nil_r, Z.sub_0_r. auto.
    + pose proof (valid_cons _ _ Hv) as (_ & Hv' & _).
      destruct (IH (before ++ [p]) (n - 4 * count p)) as (b & cur & next & -> & -> & H1 & H2); [done|lia|done|].
      exists (p :: b), cur, next. rewrite total_cons, <- app_assoc. simpl.
      split; [do 2 f_equal; lia|]. split; [done|]. split; [lia|]. destruct H2; [by left|right; lia].
Qed.

Lemma findSequence_inside s bytePos :
  valid s → 0 ≤ bytePos < 4 * total s →
  ∃ before cur next prec,
    findSequence s bytePos = Some (before, cur, next, prec, bytePos mod 4) ∧
    s = before ++ cur :: next ∧ 0 ≤ prec < count cur ∧ bytePos / 4 = total before + prec.
Proof.
  intros Hv Hb. unfold findSequence.
  destruct (find_loop_spec [] bytePos s) as (b & cur & next & -> & Hs & H1 & H2); [done|lia| |].
  { intros ->. change (total []) with 0 in Hb. lia. }
  rewrite (bytes_small cur next) by (apply (valid_suffix b); congruence).
  assert (bytePos - 4 * total b < 4 * count cur).
  { destruct H2 as [->|?]; [|done]. rewrite Hs, total_app, total_cons in Hb. change (total []) with 0 in Hb. lia. }
  destruct (Z.ltb_spec (bytePos - 4 * total b) (4 * count cur)); [|lia].
  exists b, cur, next, ((bytePos - 4 * total b) / 4). change blockBytes with 4.
  split; [done|]. split; [done|]. Z.to_euclidean_division_equations; lia.
Qed.

Lemma findSequence_outside s bytePos : valid s → 4 * total s ≤ bytePos → findSequence s bytePos = None.
Proof.
  intros Hv Hb. pose proof (total_nonneg s (proj1 Hv)). unfold findSequence.
  destruct s as [|p s]; [done|].
  destruct (find_loop_spec [] bytePos (p :: s)) as (b & cur & next & -> & Hs & H1 & H2); [done|lia|done|].
  rewrite (bytes_small cur next) by (apply (valid_suffix b); congruence).
  rewrite Hs, total_app, total_cons in Hb.
  assert (Forall node_ok next) as Hnext.
  { destruct Hv as [Hv _]. rewrite Hs in Hv. by apply Forall_app in Hv as [_ [_ ?]%Forall_cons]. }
  pose proof (total_nonneg next Hnext).
  destruct (Z.ltb_spec (bytePos - 4 * total b) (4 * count cur)); [lia|done].
Qed.

(** ** Bits of a block *)

Lemma ordinal_parts o :
  o / 8 / 4 = o / 32 ∧ (o / 8) mod 4 * 8 + o mod 8 = o mod 32.
Proof. Z.to_euclidean_division_equations; lia. Qed.

Lemma sel_pow i : 0 ≤ i < 32 → Z.shiftr blockFirstBit i = 2 ^ (31 - i).
Proof.
  intros Hi. unfold blockFirstBit, blockLen. rewrite Z.shiftr_div_pow2 by lia.
  rewrite <- Z.pow_sub_r by lia. f_equal.
Qed.

Lemma bitSel_ordinal o : bitSel ((o / 8) mod 4) (o mod 8) = 2 ^ (31 - o mod 32).
Proof.
  unfold bitSel. destruct (ordinal_parts o) as [_ ->]. apply sel_pow, Z.mod_pos_bound. lia.
Qed.

Definition new_block (release : bool) (b n : Z) : Z :=
  if release then Z.ldiff b (2 ^ n) else Z.lor b (2 ^ n).

Lemma new_block_bit release b n m :
  0 ≤ n → 0 ≤ m → Z.testbit (new_block release b n) m = if m =? n then negb release else Z.testbit b m.
Proof.
  intros Hn Hm. unfold new_block.
  destruct release; rewrite ?Z.ldiff_spec, ?Z.lor_spec, Z.pow2_bits_eqb by done;
    rewrite (Z.eqb_sym n m); destruct (Z.eqb_spec m n); simpl;
    by rewrite ?andb_false_r, ?andb_true_r, ?orb_true_r, ?orb_false_r.
Qed.

Lemma shiftr_small b : 0 ≤ b < 2 ^ 32 ↔ 0 ≤ b ∧ Z.shiftr b 32 = 0.
Proof. rewrite Z.shiftr_div_pow2 by lia. Z.to_euclidean_division_equations; lia. Qed.

Lemma new_block_range release b n :
  0 ≤ b < 2 ^ 32 → 0 ≤ n < 32 → 0 ≤ new_block release b n < 2 ^ 32.
Proof.
  intros [Hb Hs]%shiftr_small Hn. apply shiftr_small.
  assert (0 ≤ 2 ^ n ∧ Z.shiftr (2 ^ n) 32 = 0) as [Hp Hps].
  { apply shiftr_small. split; [lia|]. apply Z.pow_lt_mono_r; lia. }
  unfold new_block. destruct release.
  - rewrite Z.shiftr_ldiff, Hs. split; [by apply Z.ldiff_nonneg; left|by rewrite Z.ldiff_0_l].
  - rewrite Z.shiftr_lor, Hs, Hps. split; [by apply Z.lor_nonneg|done].
Qed.

(** ** Reserving and releasing *)

(** [n] times the same block; the node is left out when there is none. *)
Definition rep (b n : Z) : list sequence := if n =? 0 then [] else [mk_sequence b n].

Lemma block_at_rep b n t k :
  0 ≤ n → 0 ≤ k → block_at (rep b n ++ t) k = if k <? n then Some b else block_at t (k - n).
Proof.
  intros Hn Hk. unfold rep. destruct (Z.eqb_spec n 0) as [->|]; simpl; [|done].
  destruct (Z.ltb_spec k 0); [lia|]. by rewrite Z.sub_0_r.
Qed.

Lemma total_rep b n : total (rep b n) = n.
Proof. unfold rep. by destruct (Z.eqb_spec n 0) as [->|]; [|rewrite total_cons; change (total []) with 0; simpl; lia]. Qed.

Lemma rep_ok b n : 0 ≤ b < 2 ^ 32 → 0 ≤ n → Forall node_ok (rep b n).
Proof.
  intros Hb Hn. unfold rep. destruct (Z.eqb_spec n 0); [constructor|].
  repeat constructor; simpl; lia.
Qed.

(** The list with one block of a node replaced, before any merging. *)
Definition split_at (before : list sequence) (cur : sequence) (next : list sequence)
    (prec nb : Z) : list sequence :=
  before ++ rep (block cur) prec ++ mk_sequence nb 1 :: rep (block cur) (count cur - 1 - prec) ++ next.

Lemma split_at_blocks before cur next prec nb k :
  Forall node_ok before → 0 ≤ prec < count cur → 0 ≤ k →
  block_at (split_at before cur next prec nb) k =
    if k =? total before + prec then Some nb else block_at (before ++ cur :: next) k.
Proof.
  intros Hb Hp Hk. unfold split_at. rewrite !(block_at_app before) by done.
  destruct (Z.ltb_spec k (total before)).
  - destruct (Z.eqb_spec k (total before + prec)); [lia|done].
  - rewrite block_at_rep by lia. simpl. set (j := k - total before) in *.
    destruct (Z.ltb_spec j prec); [|destruct (Z.ltb_spec (j - prec) 1); [|rewrite block_at_rep by lia]].
    + destruct (Z.eqb_spec k (total before + prec)); [lia|].
      destruct (Z.ltb_spec j (count cur)); [done|lia].
    + destruct (Z.eqb_spec k (total before + prec)); [done|lia].
    + destruct (Z.eqb_spec k (total before + prec)); [lia|].
      destruct (Z.ltb_spec (j - prec - 1) (count cur - 1 - prec)), (Z.ltb_spec j (count cur)); try lia;
        [done|f_equal; lia].
Qed.

Lemma split_at_ok before cur next prec nb :
  valid (before ++ cur :: next) → 0 ≤ prec < count cur → 0 ≤ nb < 2 ^ 32 →
  valid (split_at before cur next prec nb) ∧
  total (split_at before cur next prec nb) = total (before ++ cur :: next).
Proof.
  intros (Hb & [[Hc ?] Hn]%Forall_cons & Ht)%valid_app Hp Hnb.
  assert (total (split_at before cur next prec nb) = total (before ++ cur :: next)) as E.
  { unfold split_at. rewrite !total_app, !total_cons, total_app, !total_rep. simpl. lia. }
  split; [|done]. split; [|rewrite E, total_app; lia].
  unfold split_at. rewrite !Forall_app, Forall_cons, Forall_app.
  split; [done|]. split; [apply rep_ok; [done|lia]|]. split; [split; simpl; lia|].
  split; [apply rep_ok; [done|lia]|done].
Qed.

Lemma canonical_mid l x r y r' :
  canonical (l ++ x :: r) → block y = block x → canonical (y :: r') → canonical (l ++ y :: r').
Proof.
  induction l as [|z l IH]; intros H E H'; [done|]. destruct l as [|w l]; simpl in *.
  - split; [|done]. rewrite E. by destruct H.
  - destruct H as [? H]. split; [done|]. by apply IH.
Qed.

Lemma canonical_suffix l r : canonical (l ++ r) → canonical r.
Proof.
  induction l as [|x l IH]; [done|]. intros H. apply IH. simpl in H.
  by destruct (l ++ r); [|destruct H].
Qed.

Lemma canonical_recount b c c' r : canonical (mk_sequence b c :: r) → canonical (mk_sequence b c' :: r).
Proof. by destruct r. Qed.

(** What a reservation promises about a list that stands for the same blocks as [ref]. *)
Definition stands_for (s ref : list sequence) : Prop :=
  Forall node_ok s ∧ same_blocks s ref ∧ canonical s.

Lemma merged l x s ref r :
  valid (l ++ x :: s) → canonical (l ++ mk_sequence (block x) (count x) :: r) →
  same_blocks (l ++ x :: s) ref → stands_for (l ++ mergeSequences (x :: s)) ref.
Proof.
  intros Hv Hc Hs. pose proof (valid_suffix _ _ Hv) as Hv'.
  destruct (merge_from_spec x s Hv') as ([H1 _] & H2 & H3 & c & t & H4).
  assert (Forall node_ok l) as Hl by (by apply valid_app in Hv as [? _]).
  split; [|split].
  - by apply Forall_app.
  - etransitivity; [by apply same_blocks_app|done].
  - simpl. rewrite H4 in *. by eapply canonical_mid; [exact Hc|..].
Qed.

Lemma last_split {A} (l : list A) :
  match last l with None => l = [] | Some x => l = removelast l ++ [x] end.
Proof.
  induction l as [|x l IH]; [done|]. destruct l as [|y l]; [done|].
  change (last (x :: y :: l)) with (last (y :: l)). destruct (last (y :: l)) as [z|]; [|done].
  change (removelast (x :: y :: l)) with (x :: removelast (y :: l)).
  by rewrite <- app_comm_cons, <- IH.
Qed.

Lemma push_split before cur next prec nb :
  valid (before ++ cur :: next) → canonical (before ++ cur :: next) →
  0 ≤ prec < count cur → 0 ≤ nb < 2 ^ 32 → block cur ≠ nb →
  let cur' := mk_sequence (block cur) (u64 (count cur - 1)) in
  let new := mk_sequence nb 1 in
  stands_for
    (if prec =? 0 then merge_at_previous before (new :: removeCurrentIfEmpty cur' next)
     else if prec =? count cur' then before ++ mergeSequences (cur' :: new :: next)
     else before ++ mk_sequence (block cur') prec :: new ::
            mk_sequence (block cur') (u64 (count cur' - prec)) :: next)
    (split_at before cur next prec nb).
Proof.
  intros Hv Hc Hp Hnb Hne. cbn zeta. cbn [block count].
  destruct (split_at_ok before cur next prec nb Hv Hp Hnb) as [Hvs Hts].
  pose proof (valid_suffix _ _ Hv) as (_ & _ & Hcc)%valid_cons.
  rewrite (u64_small (count cur - 1)) by lia.
  destruct (Z.eqb_spec prec 0) as [->|]; [|destruct (Z.eqb_spec prec (count cur - 1)) as [->|]].
  - assert (split_at before cur next 0 nb =
            before ++ mk_sequence nb 1 :: removeCurrentIfEmpty (mk_sequence (block cur) (count cur - 1)) next) as E.
    { unfold split_at, removeCurrentIfEmpty, rep. simpl. rewrite Z.sub_0_r. by case_match. }
    rewrite E in *. unfold merge_at_previous. pose proof (last_split before) as Hl.
    destruct (last before) as [p|].
    + assert (before ++ mk_sequence nb 1 :: removeCurrentIfEmpty (mk_sequence (block cur) (count cur - 1)) next =
        removelast before ++ p :: mk_sequence nb 1 :: removeCurrentIfEmpty (mk_sequence (block cur) (count cur - 1)) next) as E2.
      { rewrite Hl at 1. by rewrite <- app_assoc. }
      rewrite E2 in *. apply (merged _ _ _ _ (cur :: next)); [done| |done].
      rewrite Hl, <- app_assoc in Hc. by destruct p.
    + subst before. apply (merged [] _ _ _ []); done.
  - assert (split_at before cur next (count cur - 1) nb =
            before ++ mk_sequence (block cur) (count cur - 1) :: mk_sequence nb 1 :: next) as E.
    { unfold split_at, rep. destruct (Z.eqb_spec (count cur - 1) 0); [lia|].
      by rewrite Z.sub_diag. }
    rewrite E in *. apply (merged _ _ _ _ next); [done| |done]. simpl.
    eapply canonical_mid; [done|done|]. apply canonical_suffix in Hc. destruct cur. by eapply canonical_recount.
  - rewrite (u64_small (count cur - 1 - prec)) by lia.
    assert (split_at before cur next prec nb =
            before ++ mk_sequence (block cur) prec :: mk_sequence nb 1 ::
              mk_sequence (block cur) (count cur - 1 - prec) :: next) as <-.
    { unfold split_at, rep. destruct (Z.eqb_spec prec 0), (Z.eqb_spec (count cur - 1 - prec) 0); try lia. done. }
    split; [apply Hvs|]. split; [done|].
    unfold split_at, rep. destruct (Z.eqb_spec prec 0), (Z.eqb_spec (count cur - 1 - prec) 0); try lia.
    eapply canonical_mid; [exact Hc|done|]. simpl. split; [done|]. split; [done|].
    apply canonical_suffix in Hc. destruct cur as [b c]. by apply (canonical_recount b c).
Qed.

(** A reservation changes one bit of the mask, and keeps the list well formed. *)
Lemma pushReservation_at s o release :
  valid s → canonical s → 0 ≤ o →
  let s' := pushReservation (o / 8) (o mod 8) s release in
  valid s' ∧ canonical s' ∧ total s' = total s ∧
  ∀ i, 0 ≤ i → is_set s' i = if (i =? o) && (o <? 32 * total s) then negb release else is_set s i.
Proof.
  intros Hv Hc Ho. cbn zeta. unfold pushReservation.
  destruct (Z.ltb_spec o (32 * total s)) as [Hin|Hout].
  2: { rewrite findSequence_outside by (done || (Z.to_euclidean_division_equations; lia)).
       split; [done|]. split; [done|]. split; [done|]. intros i _. by rewrite andb_false_r. }
  destruct (findSequence_inside s (o / 8)) as (before & cur & next & prec & -> & Hs & Hp & Hk);
    [done|Z.to_euclidean_division_equations; lia|].
  rewrite bitSel_ordinal. set (n := 31 - o mod 32).
  assert (0 ≤ n < 32) as Hn by (unfold n; Z.to_euclidean_division_equations; lia).
  fold (new_block release (block cur) n). rewrite (proj1 (ordinal_parts o)) in Hk.
  assert (valid (before ++ cur :: next)) as Hv' by congruence.
  assert (0 ≤ block cur < 2 ^ 32) as Hcur by (by apply valid_suffix, valid_cons in Hv' as ([? _] & _)).
  assert (Forall node_ok before) as Hb by (by apply valid_app in Hv' as [? _]).
  assert (∀ i, 0 ≤ i → i ≠ o → i / 32 = o / 32 → 31 - i mod 32 ≠ n) as Hother.
  { intros i Hi Hne E. unfold n. Z.to_euclidean_division_equations; lia. }
  assert (∀ i, i / 32 = o / 32 → is_set s i = Z.testbit (block cur) (31 - i mod 32)) as Hat.
  { intros i E. unfold is_set. by rewrite E, Hk, Hs, block_at_middle. }
  destruct (Z.eqb_spec (block cur) (new_block release (block cur) n)) as [E|E].
  - split; [done|]. split; [done|]. split; [done|]. intros i Hi. rewrite andb_true_r.
    destruct (Z.eqb_spec i o) as [->|]; [|done]. rewrite Hat by done. fold n.
    rewrite E, new_block_bit by lia. by rewrite Z.eqb_refl.
  - rewrite Hs in Hc.
    pose proof (new_block_range release (block cur) n Hcur Hn) as Hnb.
    destruct (push_split before cur next prec _ Hv' Hc Hp Hnb E) as (H1 & [H2 H3] & H4).
    destruct (split_at_ok before cur next prec _ Hv' Hp Hnb) as [[_ Hvt] Ht].
    cbn zeta in *. split; [split; [done|by rewrite H2]|]. split; [done|].
    split; [rewrite H2, Ht; congruence|].
    intros i Hi. rewrite andb_true_r. unfold is_set at 1.
    rewrite H3, split_at_blocks, <- Hk by (done || (Z.to_euclidean_division_equations; lia)).
    destruct (Z.eqb_spec (i / 32) (o / 32)) as [Ei|Ei].
    + rewrite new_block_bit by (Z.to_euclidean_division_equations; lia).
      destruct (Z.eqb_spec i o) as [->|Hne].
      * fold n. by rewrite Z.eqb_refl.
      * destruct (Z.eqb_spec (31 - i mod 32) n); [by destruct (Hother i Hi Hne Ei)|]. by rewrite Hat.
    + destruct (Z.eqb_spec i o) as [->|]; [done|]. unfold is_set. by rewrite Hs.
Qed.

(** ** Looking for a free bit *)

Lemma checkIfAvailable_at s o :
  valid s → 0 ≤ o →
  checkIfAvailable s o = if is_set s o then Err ErrBitAllocated else Ok (ordinalToPos o).
Proof.
  intros Hv Ho. unfold checkIfAvailable, is_set. simpl.
  destruct (Z.ltb_spec o (32 * total s)).
  - destruct (findSequence_inside s (o / 8)) as (before & cur & next & prec & -> & Hs & Hp & Hk);
      [done|Z.to_euclidean_division_equations; lia|].
    rewrite (proj1 (ordinal_parts o)) in Hk. rewrite Hk, Hs, block_at_middle.
    + rewrite bitSel_ordinal, land_pow_zero by (Z.to_euclidean_division_equations; lia).
      by destruct (Z.testbit _ _).
    + rewrite Hs in Hv. by apply valid_app in Hv as [? _].
    + done.
  - rewrite findSequence_outside by (done || (Z.to_euclidean_division_equations; lia)).
    rewrite block_at_outside; [done|apply Hv|Z.to_euclidean_division_equations; lia].
Qed.

(** [o] is the first free bit of the mask [g] at [a] or behind it. *)
Definition first_free (g : Z → bool) (a o : Z) : Prop :=
  a ≤ o ∧ g o = false ∧ ∀ i, a ≤ i < o → g i = true.

Definition free_in_block (blk from : Z) (r : result (Z * Z)) : Prop :=
  match r with
  | Ok (bytePos, bitPos) => ∃ j, bytePos = j / 8 ∧ bitPos = j mod 8 ∧ j < 32 ∧
      first_free (λ i, Z.testbit blk (31 - i)) from j
  | Err e => e = ErrNoBitAvailable ∧ ∀ i, from ≤ i < 32 → Z.testbit blk (31 - i) = true
  | Panic _ => False
  end.

Lemma scan_bits_spec fuel blk from j :
  0 ≤ from → from ≤ j ≤ 32 → 32 - j < Z.of_nat fuel →
  (∀ i, from ≤ i < j → Z.testbit blk (31 - i) = true) →
  free_in_block blk from (scan_bits fuel blk (Z.shiftr blockFirstBit j) j).
Proof.
  intros Hfrom. revert j; induction fuel as [|fuel IH]; intros j Hj Hf Hset; [simpl in Hf; lia|].
  cbn [scan_bits]. destruct (Z.eqb_spec j 32) as [->|Hne]; [by split|].
  rewrite sel_pow by lia. assert (0 < 2 ^ (31 - j)) by (apply Z.pow_pos_nonneg; lia).
  destruct (Z.eqb_spec (2 ^ (31 - j)) 0); [lia|].
  rewrite land_pow_zero by lia. destruct (Z.testbit blk (31 - j)) eqn:E; simpl.
  - rewrite <- sel_pow, Z.shiftr_shiftr by lia. apply IH; [lia|lia|].
    intros i Hi. destruct (decide (i = j)) as [->|]; [done|]. apply Hset. lia.
  - exists j. split_and!; [done|done|lia|]. split_and!; [lia|done|done].
Qed.

Lemma getAvailableBit_spec p from :
  node_ok p → 0 ≤ from < 32 → free_in_block (block p) from (getAvailableBit p from).
Proof.
  intros [Hb Hc] Hf. unfold getAvailableBit.
  destruct (Z.eqb_spec (block p) blockMAX) as [E|E]; cbn [orb].
  - split; [done|]. intros i Hi. rewrite E. unfold blockMAX, blockLen.
    change (2 ^ 32 - 1) with (Z.ones 32). apply Z.ones_spec_low. lia.
  - destruct (Z.eqb_spec (count p) 0); [lia|]. apply scan_bits_spec; lia.
Qed.

Lemma not_full p : node_ok p → block p ≠ blockMAX → is_ok (getAvailableBit p 0) = true.
Proof.
  intros Hp Hne. pose proof (getAvailableBit_spec p 0 Hp ltac:(lia)) as H.
  destruct (getAvailableBit p 0) as [|e|]; [done| |done]. destruct H as [_ H], Hp as [Hb _].
  destruct Hne. apply Z.bits_inj'. intros n Hn. unfold blockMAX, blockLen.
  change (2 ^ 32 - 1) with (Z.ones 32). rewrite Z.testbit_ones by lia.
  destruct (Z.leb_spec 0 n), (Z.ltb_spec n 32); simpl; try lia.
  - rewrite <- (H (31 - n)) by lia. f_equal. lia.
  - apply Z.bits_above_log2; [lia|]. apply (Z.lt_le_trans _ 32); [|done].
    destruct (decide (block p = 0)) as [->|]; [done|]. apply Z.log2_lt_pow2; lia.
Qed.

Lemma is_set_node before cur next q j :
  Forall node_ok before → 0 ≤ q < count cur → 0 ≤ j < 32 →
  is_set (before ++ cur :: next) (32 * (total before + q) + j) = Z.testbit (block cur) (31 - j).
Proof.
  intros Hb Hq Hj. unfold is_set.
  replace ((32 * (total before + q) + j) / 32) with (total before + q)
    by (Z.to_euclidean_division_equations; lia).
  rewrite block_at_middle by done. f_equal. Z.to_euclidean_division_equations; lia.
Qed.

(** A result for the mask [g]: the first free bit at [a] or behind it. *)
Definition first_result (g : Z → bool) (limit a : Z) (r : result (Z * Z)) : Prop :=
  match r with
  | Ok (bytePos, bitPos) => ∃ o, bytePos = o / 8 ∧ bitPos = o mod 8 ∧ o < limit ∧ first_free g a o
  | Err e => e = ErrNoBitAvailable ∧ ∀ i, a ≤ i → g i = true
  | Panic _ => False
  end.

(** [first_result] further on, when everything up to there is set. *)
Lemma first_result_later g limit a b r :
  a ≤ b → (∀ i, a ≤ i < b → g i = true) → first_result g limit b r → first_result g limit a r.
Proof.
  intros Hab Hset. destruct r as [[by_ bi]|e|]; [| |done]; simpl.
  - intros (o & -> & -> & ? & ? & ? & H). exists o. split_and!; [done..|]. split_and!; [lia|done|].
    intros i Hi. destruct (decide (i < b)); [apply Hset|apply H]; lia.
  - intros [-> H]. split; [done|]. intros i Hi. destruct (decide (i < b)); [apply Hset|apply H]; lia.
Qed.

(** Inside of a node: the result is the first free bit, or the end of the node is reached
    with nothing free. Two rounds are enough. *)
Definition retry_result (g : Z → bool) (K cnt p limit bo : Z) (r : option ((Z * Z) + (Z * Z))) : Prop :=
  match r with
  | Some (inr pos) => first_result g limit (32 * (K + p) + bo) (Ok pos)
  | Some (inl (byteOffset, p')) => 0 ≤ p' < cnt ∧ byteOffset = 4 * (K + p') ∧
      ∀ i, 32 * (K + p) + bo ≤ i < 32 * (K + cnt) → g i = true
  | None => False
  end.

Lemma node_found before cur next p bo j :
  valid (before ++ cur :: next) → 0 ≤ p < count cur → 0 ≤ bo →
  first_free (λ i, Z.testbit (block cur) (31 - i)) bo j → j < 32 →
  let s := before ++ cur :: next in
  first_result (is_set s) (32 * total s) (32 * (total before + p) + bo)
    (Ok (u64 (4 * (total before + p) + j / 8), j mod 8)).
Proof.
  intros Hv Hp Hbo (Hj & Hfree & Hset) Hj32. cbn zeta.
  assert (Forall node_ok before ∧ 0 ≤ total before ∧ total before + count cur ≤ total (before ++ cur :: next) ≤ 2 ^ 59)
    as (Hb & Htb & Hte & Htl).
  { apply valid_app in Hv as (Hb & [_ Hn]%Forall_cons & Ht).
    rewrite total_app, total_cons in *. pose proof (total_nonneg next Hn).
    split; [done|]. pose proof (total_nonneg before Hb). lia. }
  set (tot := total (before ++ cur :: next)) in *.
  exists (32 * (total before + p) + j). rewrite u64_small by (Z.to_euclidean_division_equations; lia).
  split; [Z.to_euclidean_division_equations; lia|]. split; [Z.to_euclidean_division_equations; lia|].
  split; [lia|]. split; [lia|]. split.
  - rewrite is_set_node by (done || lia). done.
  - intros i Hi.
    replace i with (32 * (total before + p) + (i - 32 * (total before + p))) by lia.
    rewrite is_set_node by (done || lia). apply Hset. lia.
Qed.

Lemma retry_spec fuel before cur next p bo :
  (2 ≤ fuel)%nat → valid (before ++ cur :: next) → 0 ≤ p < count cur → 0 ≤ bo < 32 → block cur ≠ blockMAX →
  let s := before ++ cur :: next in
  retry_result (is_set s) (total before) (count cur) p (32 * total s) bo
    (retry fuel cur (4 * (total before + p)) p bo).
Proof.
  intros Hfuel Hv Hp Hbo Hne. cbn zeta.
  destruct fuel as [|[|fuel]]; [lia|lia|]. clear Hfuel.
  pose proof (valid_suffix _ _ Hv) as (Hcur & _ & Hcnt)%valid_cons.
  assert (Forall node_ok before ∧ 0 ≤ total before ≤ 2 ^ 59) as (Hb & Htb).
  { pose proof Hv as (Hb & [_ Hn]%Forall_cons & Ht)%valid_app. split; [done|].
    pose proof (total_nonneg before Hb). pose proof (total_nonneg next Hn). rewrite total_cons in Ht.
    destruct Hcur. lia. }
  cbn [retry]. pose proof (getAvailableBit_spec cur bo Hcur Hbo) as H1.
  destruct (getAvailableBit cur bo) as [[by1 bi1]|e|]; [| |done].
  { destruct H1 as (j & -> & -> & Hj & Hff). apply node_found; [done|done|lia|done|done]. }
  destruct H1 as [_ H1]. rewrite (u64_small (count cur - 1)) by lia.
  assert (∀ i, 32 * (total before + p) + bo ≤ i < 32 * (total before + p + 1) →
          is_set (before ++ cur :: next) i = true) as Hset.
  { intros i Hi. replace i with (32 * (total before + p) + (i - 32 * (total before + p))) by lia.
    rewrite is_set_node by (done || lia). apply H1. lia. }
  destruct (Z.eqb_spec p (count cur - 1)) as [E|E].
  { simpl. split; [lia|]. split; [done|]. intros i Hi. apply Hset. lia. }
  pose proof (not_full cur Hcur Hne) as Hok. pose proof (getAvailableBit_spec cur 0 Hcur ltac:(lia)) as H2.
  destruct (getAvailableBit cur 0) as [[by2 bi2]|e2|]; [|done|done].
  destruct H2 as (j & -> & -> & Hj & Hff).
  change blockBytes with 4. rewrite (u64_small (_ + 4)) by lia.
  replace (4 * (total before + p) + 4) with (4 * (total before + (p + 1))) by lia.
  cbn [retry_result]. apply (first_result_later _ _ _ (32 * (total before + (p + 1)) + 0)); [lia| |].
  - intros i Hi. apply Hset. lia.
  - apply node_found; [done|lia|lia|done|done].
Qed.

Lemma avail_loop_spec fuel before t p bo :
  (2 ≤ fuel)%nat → valid (before ++ t) → 0 ≤ bo < 32 →
  match t with [] => p = 0 ∧ bo = 0 | cur :: _ => 0 ≤ p < count cur end →
  ∃ r, avail_loop fuel t (4 * (total before + p)) p bo = Some r ∧
    first_result (is_set (before ++ t)) (32 * total (before ++ t)) (32 * (total before + p) + bo) r.
Proof.
  intros Hfuel. revert before p bo; induction t as [|cur next IH]; intros before p bo Hv Hbo Hp.
  - destruct Hp as [-> ->]. eexists; split; [done|]. split; [done|]. intros i Hi.
    unfold is_set. rewrite app_nil_r in *. rewrite block_at_outside; [done|apply Hv|].
    Z.to_euclidean_division_equations; lia.
  - pose proof (valid_suffix _ _ Hv) as (Hcur & _ & Hcnt)%valid_cons.
    assert (Forall node_ok before ∧ 0 ≤ total before ∧ total before + count cur ≤ 2 ^ 59) as (Hb & Htb & Htl).
    { pose proof Hv as (Hb & [_ Hn]%Forall_cons & Ht)%valid_app. split; [done|].
      pose proof (total_nonneg before Hb). pose proof (total_nonneg next Hn). rewrite total_cons in Ht.
      lia. }
    assert (∀ p', 0 ≤ p' < count cur →
      (∀ i, 32 * (total before + p) + bo ≤ i < 32 * (total before + count cur) →
            is_set (before ++ cur :: next) i = true) →
      ∃ r, avail_loop fuel next
             (u64 (4 * (total before + p') + u64 (u64 (count cur * blockBytes) - u64 (p' * blockBytes)))) 0 0
           = Some r ∧
        first_result (is_set (before ++ cur :: next)) (32 * total (before ++ cur :: next))
          (32 * (total before + p) + bo) r) as Hskip.
    { intros p' Hp' Hset. change blockBytes with 4.
      rewrite (u64_small (count cur * 4)), (u64_small (p' * 4)), (u64_small (count cur * 4 - p' * 4)),
        u64_small by lia.
      destruct (IH (before ++ [cur]) 0 0) as (r & E & Hr).
      - by rewrite <- app_assoc.
      - lia.
      - destruct next as [|q next]; [done|]. split; [lia|].
        pose proof (valid_suffix (before ++ [cur]) (q :: next)) as Hq. rewrite <- app_assoc in Hq.
        destruct (valid_cons _ _ (Hq Hv)) as ([_ ?] & _). lia.
      - rewrite <- app_assoc in Hr. 
        assert (total (before ++ [cur]) = total before + count cur) as Et
          by (rewrite total_app, total_cons; change (total []) with 0; lia).
        rewrite Et in E, Hr.
        exists r. split; [rewrite <- E; f_equal; lia|].
        apply (first_result_later _ _ _ (32 * (total before + count cur + 0) + 0)); [lia| |done].
        intros i Hi. apply Hset. lia. }
    cbn [avail_loop]. destruct (Z.eqb_spec (block cur) blockMAX) as [E|E].
    + apply Hskip; [done|]. intros i Hi.
      replace i with (32 * (total before + (i / 32 - total before)) + i mod 32)
        by (Z.to_euclidean_division_equations; lia).
      rewrite is_set_node; [|done|Z.to_euclidean_division_equations; lia..].
      rewrite E. unfold blockMAX, blockLen. change (2 ^ 32 - 1) with (Z.ones 32).
      apply Z.ones_spec_low. Z.to_euclidean_division_equations; lia.
    + pose proof (retry_spec fuel before cur next p bo Hfuel Hv Hp Hbo E) as Hr.
      destruct (retry fuel cur (4 * (total before + p)) p bo) as [[[off p']|pos]|]; [| |done].
      * destruct Hr as (Hp' & -> & Hset). by apply Hskip.
      * by eexists.
Qed.

Lemma getFirstAvailable_at fuel s start :
  (2 ≤ fuel)%nat → valid s → 0 ≤ start →
  ∃ r, getFirstAvailable fuel s start = Some r ∧ first_result (is_set s) (32 * total s) start r.
Proof.
  intros Hfuel Hv Hs. unfold getFirstAvailable, ordinalToPos.
  destruct (Z.ltb_spec start (32 * total s)).
  - destruct (findSequence_inside s (start / 8)) as (before & cur & next & prec & E & Es & Hp & Hk);
      [done|Z.to_euclidean_division_equations; lia|]. rewrite E.
    destruct (ordinal_parts start) as [Hd Hm]. rewrite Hm. rewrite Hd in Hk.
    assert (0 ≤ start / 8 - (start / 8) mod 4 < 2 ^ 64) as Hsmall.
    { pose proof (proj2 Hv) as Hmax. clear - Hmax H Hs. Z.to_euclidean_division_equations. lia. }
    rewrite u64_small by done.
    replace (start / 8 - (start / 8) mod 4) with (4 * (total before + prec))
      by (Z.to_euclidean_division_equations; lia).
    assert (32 * (total before + prec) + start mod 32 = start) as Est
      by (Z.to_euclidean_division_equations; lia).
    rewrite Es in *.
    destruct (avail_loop_spec fuel before (cur :: next) prec (start mod 32)) as (r & Er & Hr);
      [done|done|Z.to_euclidean_division_equations; lia|done|].
    rewrite Est in Hr. by exists r.
  - rewrite findSequence_outside by (done || (Z.to_euclidean_division_equations; lia)).
    eexists; split; [done|]. split; [done|]. intros i Hi. unfold is_set.
    rewrite block_at_outside; [done|apply Hv|Z.to_euclidean_division_equations; lia].
Qed.

(** ** The encoding is canonical *)

Lemma equal_spec s t : equal s t = true ↔ s = t.
Proof.
  revert t; induction s as [|[b c] s IH]; intros [|[b' c'] t]; simpl; try done.
  destruct (Z.eqb_spec b b') as [->|]; simpl; [|split; congruence].
  destruct (Z.eqb_spec c c') as [->|]; simpl; [|split; congruence].
  rewrite IH. split; congruence.
Qed.

Lemma canonical_blocks s t :
  Forall node_ok s → Forall node_ok t → canonical s → canonical t → same_blocks s t → s = t.
Proof.
  intros Hs. revert t; induction Hs as [|[b c] s [_ Hc] Hs IH]; intros t Ht Cs Ct [Htot Hat].
  - destruct Ht as [|p t [_ ?] Ht]; [done|]. pose proof (total_nonneg t Ht).
    rewrite total_cons in Htot. change (total []) with 0 in Htot. lia.
  - destruct Ht as [|[b' c'] t [_ Hc'] Ht].
    { pose proof (total_nonneg s Hs). rewrite total_cons in Htot. change (total []) with 0 in Htot.
      simpl in *. lia. }
    simpl in Hc, Hc'. pose proof (Hat 0 ltac:(lia)) as H0. simpl in H0.
    destruct (Z.ltb_spec 0 c), (Z.ltb_spec 0 c'); try lia. injection H0 as ->.
    rewrite !total_cons in Htot. simpl in Htot.
    pose proof (total_nonneg s Hs). pose proof (total_nonneg t Ht).
    assert (c = c') as ->.
    { destruct (Z.lt_trichotomy c c') as [Hlt|[?|Hlt]]; [exfalso|done|exfalso].
      - specialize (Hat c ltac:(lia)). simpl in Hat.
        destruct (Z.ltb_spec c c), (Z.ltb_spec c c'); try lia.
        destruct s as [|[b2 c2] s]; [change (total []) with 0 in *; lia|].
        apply Forall_cons in Hs as [[_ Hc2] _]. simpl in Hat, Hc2, Cs. rewrite Z.sub_diag in Hat.
        destruct (Z.ltb_spec 0 c2); [|lia]. destruct Cs as [Hne _]. congruence.
      - specialize (Hat c' ltac:(lia)). simpl in Hat.
        destruct (Z.ltb_spec c' c'), (Z.ltb_spec c' c); try lia.
        destruct t as [|[b2 c2] t]; [change (total []) with 0 in *; lia|].
        apply Forall_cons in Ht as [[_ Hc2] _]. simpl in Hat, Hc2, Ct. rewrite Z.sub_diag in Hat.
        destruct (Z.ltb_spec 0 c2); [|lia]. destruct Ct as [Hne _]. congruence. }
    f_equal. apply IH; [done|by apply (canonical_suffix [mk_sequence b' c'])|
      by apply (canonical_suffix [mk_sequence b' c'])|].
    split; [lia|]. intros k Hk. specialize (Hat (k + c') ltac:(lia)). simpl in Hat.
    destruct (Z.ltb_spec (k + c') c'); [lia|]. by rewrite Z.add_simpl_r in Hat.
Qed.

(** The same mask: as long, with the same bits. *)
Definition same_mask (s t : list sequence) : Prop :=
  total s = total t ∧ ∀ o, 0 ≤ o < 32 * total s → is_set s o = is_set t o.

Lemma block_of_bits a b :
  0 ≤ a < 2 ^ 32 → 0 ≤ b < 2 ^ 32 → (∀ j, 0 ≤ j < 32 → Z.testbit a (31 - j) = Z.testbit b (31 - j)) → a = b.
Proof.
  assert (∀ x n, 0 ≤ x < 2 ^ 32 → 32 ≤ n → Z.testbit x n = false) as Hhigh.
  { intros x n [H1 H2]%shiftr_small Hn. replace n with ((n - 32) + 32) by lia.
    rewrite <- Z.shiftr_spec, H2 by lia. apply Z.bits_0. }
  intros Ha Hb H. apply Z.bits_inj'. intros n Hn. destruct (decide (n < 32)).
  - replace n with (31 - (31 - n)) by lia. apply H. lia.
  - by rewrite !Hhigh by lia.
Qed.

Lemma block_at_range s k b : Forall node_ok s → block_at s k = Some b → 0 ≤ b < 2 ^ 32.
Proof.
  intros Hs. revert k. induction Hs as [|p s [? _] _ IH]; intros k; simpl; [done|].
  case_match; [by intros [= <-]|apply IH].
Qed.

Lemma same_mask_blocks s t : Forall node_ok s → Forall node_ok t → same_mask s t → same_blocks s t.
Proof.
  intros Hs Ht [Htot H]. split; [done|]. intros k Hk.
  destruct (decide (k < total s)).
  2: { rewrite !block_at_outside by (done || lia). done. }
  destruct (block_at_inside s k Hs) as [a Ea]; [lia|]. destruct (block_at_inside t k Ht) as [b Eb]; [lia|].
  rewrite Ea, Eb. f_equal. apply block_of_bits; [exact (block_at_range s k a Hs Ea)|exact (block_at_range t k b Ht Eb)|].
  intros j Hj. specialize (H (32 * k + j) ltac:(lia)). unfold is_set in H.
  replace ((32 * k + j) / 32) with k in H by (Z.to_euclidean_division_equations; lia).
  replace ((32 * k + j) mod 32) with j in H by (Z.to_euclidean_division_equations; lia).
  by rewrite Ea, Eb in H.
Qed.

(** ** Bytes *)

Definition is_byte (b : Z) : Prop := 0 ≤ b < 256.

Lemma lor_byte a b : is_byte b → Z.lor (Z.shiftl a 8) b = a * 256 + b.
Proof.
  intros Hb.
  assert (Z.land (Z.shiftl a 8) b = 0) as H.
  { apply Z.bits_inj'. intros n Hn. rewrite Z.land_spec, Z.bits_0.
    destruct (decide (n < 8)).
    - by rewrite Z.shiftl_spec_low by lia.
    - assert (Z.testbit b n = false) as ->; [|by rewrite andb_false_r].
      destruct (decide (b = 0)) as [->|]; [apply Z.bits_0|]. unfold is_byte in Hb.
      apply Z.bits_above_log2; [lia|]. apply (Z.lt_le_trans _ 8); [|lia]. apply Z.log2_lt_pow2; lia. }
  pose proof (Z.add_lor_land (Z.shiftl a 8) b). rewrite Z.shiftl_mul_pow2 in * by lia. lia.
Qed.

Lemma get_be_acc l acc :
  Forall is_byte l →
  fold_left (λ acc b, Z.lor (Z.shiftl acc 8) b) l acc = acc * 256 ^ Z.of_nat (length l) + get_be l.
Proof.
  unfold get_be. intros Hl. revert acc. induction Hl as [|b l Hb Hl IH]; intros acc; [simpl; lia|].
  cbn [fold_left length]. rewrite (IH (Z.lor _ _)), (IH (Z.lor (Z.shiftl 0 8) b)), !lor_byte by done.
  rewrite Nat2Z.inj_succ, Z.pow_succ_r by lia. lia.
Qed.

Lemma get_be_cons b l :
  is_byte b → Forall is_byte l → get_be (b :: l) = b * 256 ^ Z.of_nat (length l) + get_be l.
Proof. intros Hb Hl. unfold get_be at 1. cbn [fold_left]. rewrite get_be_acc, lor_byte by done. lia. Qed.

Lemma get_be_range l : Forall is_byte l → 0 ≤ get_be l < 256 ^ Z.of_nat (length l).
Proof.
  induction 1 as [|b l Hb Hl IH]; [done|]. rewrite get_be_cons by done. unfold is_byte in Hb.
  cbn [length]. rewrite Nat2Z.inj_succ, Z.pow_succ_r by lia. nia.
Qed.

Lemma put_be_bytes n x : Forall is_byte (put_be n x).
Proof. induction n; simpl; constructor; [apply (wrapu_range 8); lia|done]. Qed.

Lemma put_be_length n x : length (put_be n x) = n.
Proof. induction n; simpl; auto. Qed.

Lemma get_put_be n x : get_be (put_be n x) = x mod 256 ^ Z.of_nat n.
Proof.
  induction n as [|n IH]; [simpl; by rewrite Z.mod_1_r|]. cbn [put_be].
  rewrite get_be_cons, put_be_length, IH by (apply put_be_bytes || apply (wrapu_range 8); lia).
  rewrite Nat2Z.inj_succ, Z.pow_succ_r by lia. unfold u8, wrapu.
  rewrite Z.shiftr_div_pow2 by lia. rewrite Z.pow_mul_r by lia. change (2 ^ 8) with 256.
  assert (0 < 256 ^ Z.of_nat n) by (apply Z.pow_pos_nonneg; lia).
  rewrite (Z.mul_comm 256). rewrite Z.rem_mul_r by lia. lia.
Qed.

Lemma put_be_mod n x y : x mod 256 ^ Z.of_nat n = y mod 256 ^ Z.of_nat n → put_be n x = put_be n y.
Proof.
  intros H. assert (get_be (put_be n x) = get_be (put_be n y)) as E by (by rewrite !get_put_be).
  revert E. assert (∀ l m, length l = length m → Forall is_byte l → Forall is_byte m → get_be l = get_be m → l = m) as Hinj.
  { clear. intros l. induction l as [|a l IH]; intros [|b m] Hlen Hl Hm E; try done.
    apply Forall_cons in Hl as [Ha Hl], Hm as [Hb Hm]. injection Hlen as Hlen.
    rewrite !get_be_cons, Hlen in E by done.
    pose proof (get_be_range l Hl) as Hrl. pose proof (get_be_range m Hm) as Hrm. rewrite Hlen in Hrl.
    assert (a = b) as -> by nia. f_equal. apply IH; [done..|]. lia. }
  apply Hinj; [by rewrite !put_be_length|apply put_be_bytes|apply put_be_bytes].
Qed.

Lemma put_get_be l : Forall is_byte l → put_be (length l) (get_be l) = l.
Proof.
  induction 1 as [|b l Hb Hl IH]; [done|]. cbn [length put_be]. rewrite get_be_cons by done.
  pose proof (get_be_range l Hl) as Hr. set (P := 256 ^ Z.of_nat (length l)) in *.
  assert (0 < P) by (apply Z.pow_pos_nonneg; lia). f_equal.
  - rewrite Z.shiftr_div_pow2, Z.pow_mul_r by lia. change (2 ^ 8) with 256. fold P.
    rewrite Z.div_add_l, Z.div_small by lia. unfold u8. rewrite Z.add_0_r. apply wrapu_small. exact Hb.
  - transitivity (put_be (length l) (get_be l)); [|done]. apply put_be_mod. fold P.
    by rewrite Z.add_comm, Z.mod_add by lia.
Qed.

Definition word_node (p : sequence) : Prop := 0 ≤ block p < 2 ^ 32 ∧ 0 ≤ count p < 2 ^ 64.

Lemma toByteArray_cons p s : toByteArray (p :: s) = (put_be 4 (block p) ++ put_be 8 (count p)) ++ toByteArray s.
Proof. done. Qed.

Lemma toByteArray_bytes s : Forall is_byte (toByteArray s).
Proof.
  induction s as [|p s IH]; [constructor|]. rewrite toByteArray_cons, !Forall_app.
  split_and!; [apply put_be_bytes..|done].
Qed.

Lemma toByteArray_length s : length (toByteArray s) = (12 * length s)%nat.
Proof.
  induction s as [|p s IH]; [done|]. rewrite toByteArray_cons, !length_app, !put_be_length, IH. simpl. lia.
Qed.

(** Twelve bytes are a node. *)
Lemma read_node data :
  Forall is_byte data → (12 ≤ length data)%nat →
  let node := mk_sequence (get_be (take 4 data)) (get_be (take 8 (drop 4 data))) in
  word_node node ∧ put_be 4 (block node) ++ put_be 8 (count node) = take 12 data.
Proof.
  intros Hb Hl. cbn zeta. cbn [block count].
  assert (Forall is_byte (take 4 data) ∧ Forall is_byte (take 8 (drop 4 data))) as [H4 H8].
  { split; [by apply Forall_take|by apply Forall_take, Forall_drop]. }
  assert (length (take 4 data) = 4 ∧ length (take 8 (drop 4 data)) = 8)%nat as [L4 L8].
  { rewrite !length_take, length_drop. lia. }
  split.
  - pose proof (get_be_range _ H4) as R4. pose proof (get_be_range _ H8) as R8.
    rewrite L4 in R4. rewrite L8 in R8. split; [exact R4|exact R8].
  - pose proof (put_get_be _ H4) as E4. pose proof (put_get_be _ H8) as E8.
    rewrite L4 in E4. rewrite L8 in E8. rewrite E4, E8. by rewrite take_take_drop.
Qed.

Lemma from_loop_spec n fuel data :
  Forall is_byte data → length data = (12 * S n)%nat → (n < fuel)%nat →
  ∃ s, from_loop fuel data = Ok s ∧ Forall word_node s ∧ toByteArray s = data.
Proof.
  revert fuel data; induction n as [|n IH]; intros fuel data Hb Hl Hf; (destruct fuel as [|fuel]; [lia|]);
    cbn [from_loop]; destruct (Nat.ltb_spec (length data) 12); try lia;
    destruct (read_node data Hb ltac:(lia)) as [Hn Et]; cbn zeta in *;
    set (node := mk_sequence _ _) in *.
  - assert (drop 12 data = []) as -> by (apply drop_ge; lia).
    exists [node]. split; [done|]. split; [by constructor|].
    rewrite toByteArray_cons, Et. change (toByteArray []) with (@nil Z). rewrite app_nil_r.
    apply take_ge. lia.
  - destruct (drop 12 data) as [|b rest] eqn:Ed.
    { apply (f_equal length) in Ed. rewrite length_drop in Ed. simpl in Ed. lia. }
    assert (length (b :: rest) = (12 * S n)%nat) as Hr by (rewrite <- Ed, length_drop; lia).
    assert (Forall is_byte (b :: rest)) as Hbr by (rewrite <- Ed; by apply Forall_drop).
    destruct (IH fuel _ Hbr Hr ltac:(lia)) as (s & -> & Hs & Es). simpl.
    exists (node :: s). split; [done|]. split; [by constructor|].
    rewrite toByteArray_cons, Et, Es, <- Ed. apply take_drop.
Qed.

Lemma toByteArray_inj s t :
  Forall word_node s → Forall word_node t → toByteArray s = toByteArray t → s = t.
Proof.
  intros Hs. revert t; induction Hs as [|[b c] s [Hb Hc] Hs IH]; intros [|[b' c'] t] Ht E.
  - done.
  - apply (f_equal length) in E. by rewrite !toByteArray_length in E.
  - apply (f_equal length) in E. by rewrite !toByteArray_length in E.
  - apply Forall_cons in Ht as [[Hb' Hc'] Ht]. rewrite !toByteArray_cons in E. simpl in Hb, Hc, Hb', Hc'.
    apply app_inj_1 in E as [E1 E2]; [|by rewrite !length_app, !put_be_length].
    apply app_inj_1 in E1 as [E1 E3]; [|by rewrite !put_be_length]. cbn [block count] in *.
    apply (f_equal get_be) in E1, E3. rewrite !get_put_be in E1, E3.
    change (256 ^ Z.of_nat 4) with (2 ^ 32) in E1. change (256 ^ Z.of_nat 8) with (2 ^ 64) in E3.
    rewrite !Z.mod_small in E1 by done. rewrite !Z.mod_small in E3 by done. subst. f_equal. by apply IH.
Qed.

Lemma fromByteArray_at data :
  Forall is_byte data →
  match fromByteArray data with
  | Ok t => Forall word_node t ∧ t ≠ [] ∧ toByteArray t = data
  | Err _ => ¬ (12 | length data)%nat
  | Panic _ => data = []
  end.
Proof.
  intros Hd. unfold fromByteArray. destruct (Nat.eqb_spec (length data mod 12) 0) as [E|E]; cbn [negb].
  - apply Nat.Div0.div_exact in E. destruct (length data / 12)%nat as [|n].
    + destruct data; [done|by simpl in E].
    + destruct (from_loop_spec n (S (length data)) data Hd) as (t & -> & Ht & Et); [lia|lia|].
      split; [done|]. split; [|done]. intros ->. apply (f_equal length) in Et.
      change (toByteArray []) with (@nil Z) in Et. simpl in Et. lia.
  - intros H. apply Nat.Lcm0.mod_divide in H. done.
Qed.

Lemma from_toByteArray s : Forall word_node s → s ≠ [] → fromByteArray (toByteArray s) = Ok s.
Proof.
  intros Hs Hne. pose proof (fromByteArray_at _ (toByteArray_bytes s)) as Hdec.
  destruct (fromByteArray (toByteArray s)) as [t|e|].
  - destruct Hdec as (Ht & _ & E). f_equal. by apply toByteArray_inj.
  - destruct Hdec. rewrite toByteArray_length. exists (length s). lia.
  - apply (f_equal length) in Hdec. rewrite toByteArray_length in Hdec. by destruct s.
Qed.

Lemma posToOrdinal_pos o : 0 ≤ o < 2 ^ 64 → posToOrdinal (o / 8) (o mod 8) = o.
Proof.
  intros Ho. unfold posToOrdinal. rewrite (u64_small (o / 8 * 8)) by (Z.to_euclidean_division_equations; lia).
  rewrite u64_small; Z.to_euclidean_division_equations; lia.
Qed.

Lemma from_begin_at fuel s start end_ :
  (2 ≤ fuel)%nat → valid s → 0 ≤ start ≤ end_ → end_ < 2 ^ 64 →
  ∃ r, from_begin fuel s start end_ = Some r ∧
    match r with
    | Ok (bytePos, bitPos) => ∃ o, bytePos = o / 8 ∧ bitPos = o mod 8 ∧ o ≤ end_ ∧ o < 32 * total s ∧
        first_free (is_set s) start o
    | Err e => e = ErrNoBitAvailable ∧ ∀ i, start ≤ i ≤ end_ → is_set s i = true
    | Panic _ => False
    end.
Proof.
  intros Hfuel Hv Hse Hend. unfold from_begin.
  destruct (getFirstAvailable_at fuel s start Hfuel Hv ltac:(lia)) as (r & -> & Hr).
  destruct r as [[by_ bi]|e|]; [| |done].
  - destruct Hr as (o & -> & -> & Ho & Hff). rewrite posToOrdinal_pos by (destruct Hff, Hv; lia).
    destruct (Z.ltb_spec end_ o); (eexists; split; [done|]).
    + split; [done|]. intros i Hi. apply Hff. lia.
    + exists o. by split_and!.
  - eexists; split; [done|]. split; [done|]. intros i Hi. apply Hr. lia.
Qed.

(** The first free bit from the current position to the end of the range, else the first
    one from its start, else the error. *)
Lemma getAvailableFromCurrent_at fuel s start curr end_ :
  (2 ≤ fuel)%nat → valid s → 0 ≤ start ≤ end_ → 0 ≤ curr → end_ < 2 ^ 64 →
  ∃ r, getAvailableFromCurrent fuel s start curr end_ = Some r ∧
    match r with
    | Ok (bytePos, bitPos) => ∃ o, bytePos = o / 8 ∧ bitPos = o mod 8 ∧ start ≤ o ≤ end_ ∧ o < 32 * total s ∧
        ((start < curr ∧ first_free (is_set s) curr o) ∨
         ((curr ≤ start ∨ ∀ i, curr ≤ i ≤ end_ → is_set s i = true) ∧ first_free (is_set s) start o))
    | Err e => e = ErrNoBitAvailable ∧ ∀ i, start ≤ i ≤ end_ → is_set s i = true
    | Panic _ => False
    end.
Proof.
  intros Hfuel Hv Hse Hc Hend.
  destruct (getFirstAvailable_at fuel s start Hfuel Hv ltac:(lia)) as (r1 & E1 & H1).
  destruct (getFirstAvailable_at fuel s curr Hfuel Hv Hc) as (r2 & E2 & H2).
  destruct (from_begin_at fuel s start end_ Hfuel Hv Hse Hend) as (r0 & E0 & H0).
  assert ((curr ≤ start ∨ ∀ i, curr ≤ i ≤ end_ → is_set s i = true) →
    ∃ r, from_begin fuel s start end_ = Some r ∧ match r with
    | Ok (bytePos, bitPos) => ∃ o, bytePos = o / 8 ∧ bitPos = o mod 8 ∧ start ≤ o ≤ end_ ∧ o < 32 * total s ∧
        ((start < curr ∧ first_free (is_set s) curr o) ∨
         ((curr ≤ start ∨ ∀ i, curr ≤ i ≤ end_ → is_set s i = true) ∧ first_free (is_set s) start o))
    | Err e => e = ErrNoBitAvailable ∧ ∀ i, start ≤ i ≤ end_ → is_set s i = true
    | Panic _ => False
    end) as Hbegin.
  { intros Hwhy. exists r0. split; [done|]. destruct r0 as [[by_ bi]|e|]; [|done|done].
    destruct H0 as (o & ? & ? & ? & ? & H5).
    assert (start ≤ o) by (by destruct H5). exists o. split_and!; [done..|by right]. }
  unfold getAvailableFromCurrent.
  destruct (Z.eqb_spec curr 0), (Z.ltb_spec start curr); cbn [negb andb]; try (apply Hbegin; left; lia); try lia.
  rewrite E2. destruct r2 as [[by_ bi]|e|]; [| |done].
  - destruct H2 as (o & -> & -> & Ho & Hff). rewrite posToOrdinal_pos by (destruct Hff, Hv; lia).
    destruct (Z.ltb_spec end_ o).
    + apply Hbegin. right. intros i Hi. apply Hff. lia.
    + eexists; split; [done|]. exists o. destruct Hff as (? & ? & ?).
      split_and!; [done|done|lia|lia|done|]. left. by split_and!.
  - apply Hbegin. right. intros i Hi. apply H2. lia.
Qed.

(** ** Theorems *)

(** What an operation does to a set of ordinals. *)
Definition set_op (X : gset Z) (op : Z * bool) : gset Z :=
  if op.2 then X ∖ {[op.1]} else {[op.1]} ∪ X.
Definition push_op (s : list sequence) (op : Z * bool) : list sequence :=
  pushReservation (ordinalToPos op.1).1 (ordinalToPos op.1).2 s op.2.

Definition represents (n : Z) (s : list sequence) (X : gset Z) : Prop :=
  valid s ∧ canonical s ∧ total s = n ∧ ∀ i, 0 ≤ i < 32 * n → is_set s i = bool_decide (i ∈ X).

Lemma push_represents n s X op :
  represents n s X → 0 ≤ op.1 < 32 * n → represents n (push_op s op) (set_op X op).
Proof.
  intros (Hv & Hc & Ht & Hr) Ho. destruct op as [o release]; simpl in *.
  destruct (pushReservation_at s o release Hv Hc ltac:(lia)) as (Hv' & Hc' & Ht' & Hb).
  change (push_op s (o, release)) with (pushReservation (o / 8) (o mod 8) s release).
  split; [done|]. split; [done|]. split; [congruence|]. intros i Hi. rewrite Hb by lia. destruct (Z.ltb_spec o (32 * total s)); [|lia].
  rewrite andb_true_r, Hr by lia. unfold set_op; simpl.
  destruct (Z.eqb_spec i o) as [->|]; destruct release; simpl; symmetry;
    first [apply bool_decide_eq_true; set_solver|apply bool_decide_eq_false; set_solver|
           apply bool_decide_ext; set_solver].
Qed.

(** C19. The run-length encoded list refines a set of ordinals: from the list of a new
    handle, whatever ordinals of the mask are reserved and released, in whatever order
    and however often, the list holds exactly the bits of the set; its counts never
    overflow or reach zero, its length in blocks stays, and it stays canonical. Two
    histories that end in the same set end in the same list, node for node. *)
Theorem pushReservation_refines n ops :
  1 ≤ n ≤ 2 ^ 59 → Forall (λ op, 0 ≤ op.1 < 32 * n) ops →
  represents n (foldl push_op [mk_sequence 0 n] ops) (foldl set_op ∅ ops) ∧
  ∀ ops', Forall (λ op, 0 ≤ op.1 < 32 * n) ops' → foldl set_op ∅ ops' = foldl set_op ∅ ops →
    foldl push_op [mk_sequence 0 n] ops' = foldl push_op [mk_sequence 0 n] ops.
Proof.
  intros Hn Hops.
  assert (∀ ops, Forall (λ op, 0 ≤ op.1 < 32 * n) ops →
            represents n (foldl push_op [mk_sequence 0 n] ops) (foldl set_op ∅ ops)) as Hrun.
  { clear ops Hops. intros ops Hops.
    assert (represents n [mk_sequence 0 n] ∅) as H0.
    { assert (total [mk_sequence 0 n] = n) as Ht by (rewrite total_cons; apply Z.add_0_r).
      split; [split; [repeat constructor; simpl; lia|lia]|]. split; [done|]. split; [done|].
      intros i Hi. unfold is_set. simpl.
      destruct (Z.ltb_spec (i / 32) n); [by rewrite Z.bits_0|Z.to_euclidean_division_equations; lia]. }
    revert H0. generalize (∅ : gset Z) as X, [mk_sequence 0 n] as s.
    induction Hops as [|op ops Hop _ IH]; intros X s H0; [done|]. simpl. by apply IH, push_represents. }
  split; [by apply Hrun|]. intros ops' Hops' E.
  destruct (Hrun ops Hops) as ([Hv1 _] & Hc1 & Ht1 & Hb1).
  destruct (Hrun ops' Hops') as ([Hv2 _] & Hc2 & Ht2 & Hb2).
  apply canonical_blocks; [done..|]. apply same_mask_blocks; [done..|].
  split; [congruence|]. intros o Ho. rewrite Hb2, Hb1, E by lia. done.
Qed.

(** [equal] decides equality of the masks, not just of the lists. *)
Theorem equal_decides_masks s t :
  Forall node_ok s → Forall node_ok t → canonical s → canonical t →
  (equal s t = true ↔ same_mask s t).
Proof.
  intros Hs Ht Hcs Hct. rewrite equal_spec. split; [by intros ->|].
  intros H. apply canonical_blocks; [done..|]. by apply same_mask_blocks.
Qed.

(** C36. The byte form and the list are in bijection. Every list of 32-bit blocks with
    64-bit counts, whether well formed or not, reads back as itself; and any bytes are
    either refused because their number is no multiple of twelve, or they are no bytes
    at all and the reader panics, or they decode to a list of machine words that encodes
    to the same bytes. *)
Theorem byte_form_bijection s data :
  Forall word_node s → s ≠ [] → Forall is_byte data →
  fromByteArray (toByteArray s) = Ok s ∧
  match fromByteArray data with
  | Ok t => Forall word_node t ∧ t ≠ [] ∧ toByteArray t = data
  | Err _ => ¬ (12 | length data)%nat
  | Panic _ => data = []
  end.
Proof.
  intros Hs Hne Hd. split; [by apply from_toByteArray|by apply fromByteArray_at].
Qed.

(** ** At work *)

Definition demo_list : list sequence := [mk_sequence 0xFFFFFFFF 2; mk_sequence 0xF0000000 3].

Lemma pushReservation_refines_witness :
  represents 2 (foldl push_op [mk_sequence 0 2] [(3, false); (40, false); (3, true)]) {[40]} ∧
  ∀ ops', Forall (λ op : Z * bool, 0 ≤ op.1 < 32 * 2) ops' → foldl set_op ∅ ops' = ({[40]} : gset Z) →
    foldl push_op [mk_sequence 0 2] ops' = [mk_sequence 0 1; mk_sequence 0x00800000 1].
Proof.
  apply (pushReservation_refines 2 [(3, false); (40, false); (3, true)]).
  - lia.
  - repeat constructor; simpl; lia.
Defined.

Lemma equal_decides_masks_witness :
  equal demo_list demo_list = true ↔ same_mask demo_list demo_list.
Proof.
  apply (equal_decides_masks demo_list demo_list).
  - repeat constructor; simpl; lia.
  - repeat constructor; simpl; lia.
  - split; [simpl; lia|exact I].
  - split; [simpl; lia|exact I].
Defined.

Lemma byte_form_bijection_witness :
  fromByteArray (toByteArray demo_list) = Ok demo_list ∧
  match fromByteArray [1; 2; 3] with
  | Ok t => Forall word_node t ∧ t ≠ [] ∧ toByteArray t = [1; 2; 3]
  | Err _ => ¬ (12 | length [1; 2; 3])%nat
  | Panic _ => [1; 2; 3] = []
  end.
Proof.
  apply (byte_form_bijection demo_list [1; 2; 3]).
  - repeat constructor; simpl; lia.
  - discriminate.
  - repeat constructor; lia.
Defined.
