(* ===== verification/BitHandle.v ===== *)
(** * Handles on bit sequences, and their store

    Models [bitseq/sequence.go] (the methods of [Handle]), [bitseq/store.go] and, of
    [libnetwork/datastore/datastore.go], the operations that a handle uses, for a store
    without a cache. The backend of libkv is outside: its calls are [dcall]. The JSON
    text of a value is the record of its two fields. The mutex is left out: a handle is
    used by one goroutine at a time; other processes act on the store. *)

From S2P Require Import Prelude.
From S2P Require Import GoMonad.
From S2P Require Import BitSeq.

(** ** Data *)

Record Handle := mk_Handle {
  h_bits : Z;
  h_unselected : Z;
  h_head : list sequence;
  h_app : string;
  h_id : string;
  h_dbIndex : Z;
  h_dbExists : bool;
  h_curr : Z;
  h_store : bool           (* a store is attached *)
}.

(** The value of a key: the fields of the JSON object; a [null] sequence is [None]. *)
Record kvalue := mk_kvalue { kv_id : string; kv_sequence : option (list Z) }.

(** The calls of the backend: the value with its index; the new index. [previous] is the
    index that the key must still have, [None] when the key must not exist. *)
Inductive dcall : Type → Type :=
  | KVGet (key : string) : dcall (kvalue * Z)
  | KVAtomicPut (key : string) (value : kvalue) (previous : option Z) : dcall Z
  | KVAtomicDelete (key : string) (previous : Z) : dcall unit.

Definition ErrKeyNotFound : error := ErrNew "Key not found in store".
Definition ErrKeyModified : error :=
  ErrNew "Unable to complete atomic operation, key modified".
Definition store_ErrKeyExists : error :=
  ErrNew "Previous K/V pair exists, cannot complete Atomic operation".

(** Errors with a [Retry] method. *)
Definition RetryErrorf (e : error) : error := ErrWrap "failed to perform atomic write" e.
Definition is_RetryError (e : error) : bool :=
  match e with ErrWrap "failed to perform atomic write" _ => true | _ => false end.

Definition ds_Key (key : list string) : string :=
  let keychain := ["docker"; "network"; "v1.0"] ++ key in
  foldr (λ k acc, k +:+ "/" +:+ acc) "" keychain.

Definition Key (h : Handle) : list string := [h_app h; h_id h].
Definition KeyPrefix (h : Handle) : list string := [h_app h].

(** ** The byte form of a handle *)

Definition ToByteArray (h : Handle) : list Z :=
  put_be 8 (h_bits h) ++ put_be 8 (h_unselected h) ++ toByteArray (h_head h).

Section Methods.
Context {W : Type} `{Handler dcall W}.

Abbreviation C A := (M (Handle * W) A).

Definition set_state (bits unselected : Z) (head : list sequence) (h : Handle) : Handle :=
  mk_Handle bits unselected head (h_app h) (h_id h) (h_dbIndex h) (h_dbExists h) (h_curr h) (h_store h).
Definition set_id (id : string) (h : Handle) : Handle :=
  mk_Handle (h_bits h) (h_unselected h) (h_head h) (h_app h) id (h_dbIndex h) (h_dbExists h) (h_curr h) (h_store h).
Definition set_curr (curr : Z) (h : Handle) : Handle :=
  mk_Handle (h_bits h) (h_unselected h) (h_head h) (h_app h) (h_id h) (h_dbIndex h) (h_dbExists h) curr (h_store h).
Definition set_head (head : list sequence) (h : Handle) : Handle :=
  set_state (h_bits h) (h_unselected h) head h.

Definition SetIndex (index : Z) (h : Handle) : Handle :=
  mk_Handle (h_bits h) (h_unselected h) (h_head h) (h_app h) (h_id h) index true (h_curr h) (h_store h).

Definition FromByteArray (ba : option (list Z)) : C () :=
  match ba with
  | None => throw (ErrNew "nil byte array")
  | Some ba =>
      if (length ba <? 16)%nat then panic "slice bounds out of range"
      else
        do nh ← map_err (ErrWrap "failed to deserialize head") (lift (fromByteArray (drop 16 ba)));
        change (set_state (get_be (take 8 ba)) (get_be (take 8 (drop 8 ba))) nh)
  end.

Definition MarshalJSON (h : Handle) : kvalue := mk_kvalue (h_id h) (Some (ToByteArray h)).
Definition UnmarshalJSON (data : kvalue) : C () :=
  change (set_id (kv_id data)) ;;; FromByteArray (kv_sequence data).

Definition Value (h : Handle) : kvalue := MarshalJSON h.
Definition SetValue (value : kvalue) : C () := UnmarshalJSON value.

(** ** The data store *)

(** [ds.GetObject(datastore.Key(h.Key()...), h)]. *)
Definition GetObject : C () :=
  do h ← this;
  do kvPair ← ask (KVGet (ds_Key (Key h)));
  SetValue kvPair.1 ;;;
  change (SetIndex kvPair.2).

(** [ds.PutObjectAtomic(o)]: the object with its new index. *)
Definition PutObjectAtomic (o : Handle) : C Handle :=
  let previous := if h_dbExists o then Some (h_dbIndex o) else None in
  do r ← try (ask (KVAtomicPut (ds_Key (Key o)) (Value o) previous));
  match r with
  | inl e => throw (if decide (e = store_ErrKeyExists) then ErrKeyModified else e)
  | inr index => ret (SetIndex index o)
  end.

Definition DeleteObjectAtomic : C () :=
  do h ← this;
  map_err (λ e, if decide (e = store_ErrKeyExists) then ErrKeyModified else e)
    (ask (KVAtomicDelete (ds_Key (Key h)) (h_dbIndex h))).

(** [o.writeToStore()]. *)
Definition writeToStore (o : Handle) : C Handle :=
  if h_store o then
    map_err (λ e, if decide (e = ErrKeyModified) then RetryErrorf e else e) (PutObjectAtomic o)
  else ret o.

Definition deleteFromStore : C () :=
  do h ← this;
  if h_store h then DeleteObjectAtomic else ret tt.

(** [store.GetObject] where a missing key is no error. *)
Definition refresh : C () :=
  do r ← try GetObject;
  match r with
  | inl e => if decide (e = ErrKeyNotFound) then ret tt else throw e
  | inr _ => ret tt
  end.

(** ** Reserving and releasing *)

(** Rounds of [retry] inside of a node, see [getAvailableFromCurrent_spec]. *)
Definition search_fuel : nat := 2.

(** The position to change and the value to return. *)
Definition find_position (h : Handle) (ordinal start end_ : Z) (any release : bool) (curr : Z)
  : option (result (Z * Z * Z)) :=
  if release then Some (Ok (ordinalToPos ordinal, 0))
  else if any then
    match getAvailableFromCurrent search_fuel (h_head h) start curr end_ with
    | None => None
    | Some r => Some (let! (bytePos, bitPos) := r in Ok (bytePos, bitPos, posToOrdinal bytePos bitPos))
    end
  else Some (let! pos := checkIfAvailable (h_head h) ordinal in Ok (pos, ordinal)).

(** The private copy with the change. *)
Definition reserve (h : Handle) (bytePos bitPos : Z) (release : bool) : Handle :=
  set_state (h_bits h)
    (if release then u64 (h_unselected h + 1) else u64 (h_unselected h - 1))
    (pushReservation bytePos bitPos (h_head h) release) h.

(** What is taken over from the copy that was written. *)
Definition adopt (nh h : Handle) : Handle :=
  mk_Handle (h_bits h) (h_unselected nh) (h_head nh) (h_app h) (h_id h)
    (h_dbIndex nh) (h_dbExists nh) (h_curr h) (h_store h).

(** The loop of [set]; [None] when the fuel is used up. *)
Fixpoint set (fuel : nat) (ordinal start end_ : Z) (any release serial : bool) : C (option Z) :=
  match fuel with
  | O => ret None
  | S fuel' =>
      do h ← this;
      when (h_store h) refresh ;;;
      do h ← this;
      let curr := if serial then h_curr h else 0 in
      match find_position h ordinal start end_ any release curr with
      | None => ret None
      | Some (Err e) => throw e
      | Some (Panic x) => panic x
      | Some (Ok (bytePos, bitPos, r)) =>
          when (any && negb release) (change (set_curr (u64 (r + 1)))) ;;;
          do h ← this;
          let nh := reserve h bytePos bitPos release in
          if h_store h then
            do w ← try (writeToStore nh);
            match w with
            | inl e => if is_RetryError e then set fuel' ordinal start end_ any release serial
                       else throw (ErrWrap "internal failure while setting the bit" e)
            | inr nh => change (adopt nh) ;;; ret (Some r)
            end
          else change (adopt nh) ;;; ret (Some r)
      end
  end.

Definition validateOrdinal (ordinal : Z) : C () :=
  do h ← this;
  if h_bits h <=? ordinal then throw (ErrNew "bit does not belong to the sequence") else ret tt.

Definition Unselected : C Z := do h ← this; ret (h_unselected h).

Definition SetAnyInRange (fuel : nat) (start end_ : Z) (serial : bool) : C (option Z) :=
  do h ← this;
  if (end_ <? start) || (h_bits h <=? end_) then throw (ErrNew "invalid bit range")
  else
    do u ← Unselected;
    if u =? 0 then throw ErrNoBitAvailable else set fuel 0 start end_ true false serial.

Definition SetAny (fuel : nat) (serial : bool) : C (option Z) :=
  do u ← Unselected;
  if u =? 0 then throw ErrNoBitAvailable
  else do h ← this; set fuel 0 0 (u64 (h_bits h - 1)) true false serial.

Definition Set_ (fuel : nat) (ordinal : Z) : C (option ()) :=
  validateOrdinal ordinal ;;;
  do r ← set fuel ordinal 0 0 false false false;
  ret (option_map (λ _, tt) r).

Definition Unset (fuel : nat) (ordinal : Z) : C (option ()) :=
  validateOrdinal ordinal ;;;
  do r ← set fuel ordinal 0 0 false true false;
  ret (option_map (λ _, tt) r).

Definition IsSet (ordinal : Z) : C bool :=
  do r ← try (validateOrdinal ordinal);
  match r with
  | inl _ => ret false
  | inr _ => do h ← this; ret (negb (is_ok (checkIfAvailable (h_head h) ordinal)))
  end.

(** ** A new handle, repairing and destroying *)

Definition new_handle (app : string) (ds : bool) (id : string) (numElements : Z) : Handle :=
  mk_Handle numElements numElements [mk_sequence 0 (getNumBlocks numElements)] app id 0 false 0 ds.

(** [NewHandle] from the point where the object has been made. *)
Definition NewHandle : C () :=
  do h ← this;
  if h_store h then
    refresh ;;;
    do h ← this;
    if h_dbExists h then ret tt
    else
      do nh ← map_err (ErrWrap "failed to write bitsequence to store") (writeToStore h);
      change (λ _, nh)
  else ret tt.

(** Nodes without blocks behind the head are taken out. *)
Definition runConsistencyCheck (h : Handle) : bool * Handle :=
  match h_head h with
  | [] => (false, h)
  | p :: rest =>
      (existsb (λ c, count c =? 0) rest,
       set_head (p :: List.filter (λ c, negb (count c =? 0)) rest) h)
  end.

Fixpoint CheckConsistency (fuel : nat) : C (option ()) :=
  match fuel with
  | O => ret None
  | S fuel' =>
      do h ← this;
      when (h_store h) refresh ;;;
      do h ← this;
      let (corrupted, nh) := runConsistencyCheck h in
      if negb corrupted then ret (Some tt)
      else
        do w ← try (writeToStore nh);
        match w with
        | inl e => if is_RetryError e then CheckConsistency fuel'
                   else throw (ErrWrap "internal failure while fixing inconsistent bitsequence" e)
        | inr nh => change (set_head (h_head nh)) ;;; ret (Some tt)
        end
  end.

Fixpoint Destroy (fuel : nat) : C (option ()) :=
  match fuel with
  | O => ret None
  | S fuel' =>
      do r ← try deleteFromStore;
      match r with
      | inr _ => ret (Some tt)
      | inl e =>
          if is_RetryError e then
            do g ← try GetObject;
            match g with
            | inl e => if decide (e = ErrKeyNotFound) then ret (Some tt)
                       else throw (ErrWrap "failed to fetch from store when destroying the sequence" e)
            | inr _ => Destroy fuel'
            end
          else throw (ErrWrap "internal failure while destroying the sequence" e)
      end
  end.
End Methods.

(** ** A handle without a store *)

Lemma getNumBlocks_spec n :
  1 ≤ n < 2 ^ 64 → n ≤ 32 * getNumBlocks n < n + 32 ∧ 1 ≤ getNumBlocks n ≤ 2 ^ 59.
Proof.
  intros Hn. unfold getNumBlocks, blockLen. destruct (Z.eqb_spec (n mod 32) 0).
  - Z.to_euclidean_division_equations; lia.
  - rewrite u64_small; Z.to_euclidean_division_equations; lia.
Qed.

#[local] Arguments size : simpl never.

(** The handle holds the ordinals [X] out of [n]; its counter of the free ones is right but
    for [k], the number of releases of ordinals that were free. *)
Record holds (n k : Z) (X : gset Z) (h : Handle) : Prop := {
  ho_store : h_store h = false;
  ho_bits : h_bits h = n;
  ho_range : 1 ≤ n < 2 ^ 64;
  ho_head : represents (getNumBlocks n) (h_head h) X;
  ho_set : ∀ o, o ∈ X → 0 ≤ o < n;
  ho_unselected : h_unselected h = n - Z.of_nat (size X) + k;
  ho_slack : 0 ≤ k ∧ n + k < 2 ^ 64;
  ho_curr : 0 ≤ h_curr h
}.

Lemma holds_new app id n : 1 ≤ n < 2 ^ 64 → holds n 0 ∅ (new_handle app false id n).
Proof.
  intros Hn. destruct (getNumBlocks_spec n Hn) as [Hb Hc]. split; simpl; try done; [|rewrite size_empty; lia|lia].
  assert (total [mk_sequence 0 (getNumBlocks n)] = getNumBlocks n) as Ht by (rewrite total_cons; apply Z.add_0_r).
  split; [split; [repeat constructor; simpl; lia|lia]|]. split; [done|]. split; [done|].
  intros i Hi. unfold is_set. cbn [block_at block count].
  destruct (Z.ltb_spec (i / 32) (getNumBlocks n)); [by rewrite Z.bits_0|Z.to_euclidean_division_equations; lia].
Qed.

Lemma size_below n (X : gset Z) : 0 ≤ n → (∀ o, o ∈ X → 0 ≤ o < n) → Z.of_nat (size X) ≤ n.
Proof.
  intros Hn HX.
  assert (X ⊆ list_to_set (seqZ 0 n)) as Hsub.
  { intros o Ho. apply elem_of_list_to_set, elem_of_seqZ. specialize (HX o Ho). lia. }
  apply subseteq_size in Hsub. rewrite size_list_to_set, length_seqZ in Hsub by apply NoDup_seqZ. lia.
Qed.

Lemma size_full n (X : gset Z) :
  0 ≤ n → (∀ o, o ∈ X → 0 ≤ o < n) → Z.of_nat (size X) = n ↔ (∀ i, 0 ≤ i < n → i ∈ X).
Proof.
  intros Hn HX. split.
  - intros E i Hi. destruct (decide (i ∈ X)) as [|Hni]; [done|exfalso].
    assert (Z.of_nat (size ({[i]} ∪ X)) ≤ n) as Hle.
    { apply size_below; [done|]. intros o [->%elem_of_singleton|Ho]%elem_of_union; [lia|by apply HX]. }
    rewrite size_union, size_singleton in Hle by set_solver. lia.
  - intros Hall. assert (X = list_to_set (seqZ 0 n)) as ->.
    { apply set_eq. intros o. rewrite elem_of_list_to_set, elem_of_seqZ. split.
      - intros Ho. specialize (HX o Ho). lia.
      - intros Ho. apply Hall. lia. }
    rewrite size_list_to_set, length_seqZ by apply NoDup_seqZ. lia.
Qed.

Lemma holds_bit n k X h o : holds n k X h → 0 ≤ o < n → is_set (h_head h) o = bool_decide (o ∈ X).
Proof.
  intros Hh Ho. destruct (ho_head _ _ _ _ Hh) as (_ & _ & _ & Hb).
  destruct (getNumBlocks_spec n (ho_range _ _ _ _ Hh)). apply Hb. lia.
Qed.

(** A reservation of a free ordinal, a release of a reserved one. *)
Lemma holds_reserve n k X h o release curr :
  holds n k X h → 0 ≤ o < n → (release = bool_decide (o ∈ X)) → 0 ≤ curr →
  holds n k (set_op X (o, release))
    (adopt (reserve (set_curr curr h) (o / 8) (o mod 8) release) (set_curr curr h)).
Proof.
  intros Hh Ho Hrel Hcurr. pose proof Hh as [H1 H2 H3 H4 H5 H6 HK _].
  destruct (getNumBlocks_spec n H3) as [Hb _].
  pose proof (size_below n X ltac:(lia) H5) as Hsz.
  split; simpl; try done.
  - apply (push_represents _ _ _ (o, release)); [done|simpl; lia].
  - unfold set_op; simpl. intros i. destruct release; [set_solver|].
    intros [->%elem_of_singleton|Hi]%elem_of_union; [done|by apply H5].
  - unfold set_op; simpl. rewrite H6. destruct release; symmetry in Hrel.
    + apply bool_decide_eq_true in Hrel.
      assert (size (X ∖ {[o]}) = size X - 1)%nat as ->.
      { rewrite size_difference by set_solver. by rewrite size_singleton. }
      assert (0 < size X)%nat.
      { destruct (decide (size X = 0%nat)) as [E|]; [|lia]. apply size_empty_inv in E. set_solver. }
      rewrite u64_small by lia. lia.
    + apply bool_decide_eq_false in Hrel.
      rewrite size_union, size_singleton by set_solver.
      assert (Z.of_nat (size X) ≠ n).
      { intros E. pose proof (proj1 (size_full n X ltac:(lia) H5) E) as Hall. by apply Hrel, Hall. }
      rewrite u64_small by lia. lia.
Qed.

Section Local.
Context {W : Type} `{Handler dcall W}.

Lemma set_local fuel ordinal start end_ any release serial h (w : W) :
  h_store h = false →
  set (S fuel) ordinal start end_ any release serial (h, w) =
    match find_position h ordinal start end_ any release (if serial then h_curr h else 0) with
    | None => (Ok None, (h, w))
    | Some (Err e) => (Err e, (h, w))
    | Some (Panic x) => (Panic x, (h, w))
    | Some (Ok (bytePos, bitPos, r)) =>
        let h := if any && negb release then set_curr (u64 (r + 1)) h else h in
        (Ok (Some r), (adopt (reserve h bytePos bitPos release) h, w))
    end.
Proof.
  intros Hs. cbn [set]. rewrite bind_this. cbn [fst]. rewrite Hs. cbn [when].
  rewrite bind_ret, bind_this. cbn [fst].
  destruct (find_position _ _ _ _ _ _ _) as [[[[bytePos bitPos] r]|e|x]|]; [|done..].
  destruct (any && negb release); cbn [when].
  - rewrite bind_change, bind_this. cbn [fst snd]. simpl. rewrite Hs. done.
  - rewrite bind_ret, bind_this. cbn [fst]. rewrite Hs. done.
Qed.

(** The first ordinal of a range that is not taken. *)
Definition first_not_in (X : gset Z) (a b o : Z) : Prop :=
  a ≤ o ≤ b ∧ o ∉ X ∧ ∀ i, a ≤ i < o → i ∈ X.

(** What a serial search promises, with the position of the handle. *)
Definition serial_choice (X : gset Z) (curr a b o : Z) : Prop :=
  (a < curr ∧ first_not_in X curr b o) ∨
  ((curr ≤ a ∨ ∀ i, curr ≤ i ≤ b → i ∈ X) ∧ first_not_in X a b o).

Lemma set_any_local n k X h fuel start end_ (serial : bool) (w : W) :
  holds n k X h → 0 ≤ start ≤ end_ → end_ < n →
  let curr := if serial then h_curr h else 0 in
  match set (S fuel) 0 start end_ true false serial (h, w) with
  | (Ok (Some o), (h', w')) =>
      w' = w ∧ holds n k ({[o]} ∪ X) h' ∧ h_curr h' = o + 1 ∧ serial_choice X curr start end_ o
  | (Err e, s') => e = ErrNoBitAvailable ∧ s' = (h, w) ∧ ∀ i, start ≤ i ≤ end_ → i ∈ X
  | _ => False
  end.
Proof.
  intros Hh Hse Hend. cbn zeta. pose proof Hh as [H1 H2 H3 (Hv & Hc & Ht & Hb) H5 H6 HK H7].
  destruct (getNumBlocks_spec n H3) as [Hn _].
  set (curr := if serial then h_curr h else 0). assert (0 ≤ curr) by (unfold curr; destruct serial; lia).
  rewrite set_local by done. fold curr. cbn [find_position].
  destruct (getAvailableFromCurrent_at search_fuel (h_head h) start curr end_) as (r & -> & Hr);
    [unfold search_fuel; lia|done|lia|lia|lia|].
  assert (∀ i, 0 ≤ i < n → is_set (h_head h) i = bool_decide (i ∈ X)) as Hbit by (intros; by eapply holds_bit).
  destruct r as [[by_ bi]|e|]; [| |done].
  - destruct Hr as (o & -> & -> & Ho & Holim & Hwhy). simpl.
    assert (o ∉ X) as Hfree.
    { destruct Hwhy as [(_ & _ & Hf & _)|(_ & _ & Hf & _)]; rewrite Hbit in Hf by lia;
        by apply bool_decide_eq_false in Hf. }
    rewrite posToOrdinal_pos, u64_small by lia.
    split; [done|]. split.
    { apply (holds_reserve n k X h o false (o + 1)); [done|lia| |lia].
      symmetry. by apply bool_decide_eq_false. }
    split; [done|].
    assert (∀ a, 0 ≤ a → first_free (is_set (h_head h)) a o → first_not_in X a end_ o) as Hff.
    { intros a Ha (Hao & _ & Hset). split; [lia|]. split; [done|]. intros i Hi.
      specialize (Hset i Hi). rewrite Hbit in Hset by lia. by apply bool_decide_eq_true in Hset. }
    destruct Hwhy as [[? ?]|[Hw ?]]; [left; auto|right]. split; [|apply Hff; [lia|done]].
    destruct Hw as [?|Hw]; [by left|]. destruct (decide (curr ≤ start)); [by left|right].
    intros i Hi. specialize (Hw i Hi). rewrite Hbit in Hw by lia. by apply bool_decide_eq_true in Hw.
  - destruct Hr as [-> Hr]. simpl. split; [done|]. split; [done|]. intros i Hi.
    specialize (Hr i Hi). rewrite Hbit in Hr by lia. by apply bool_decide_eq_true in Hr.
Qed.

Lemma set_one_local n k X h fuel o (w : W) :
  holds n k X h → 0 ≤ o < n →
  match set (S fuel) o 0 0 false false false (h, w) with
  | (Ok r, (h', w')) => r = Some o ∧ w' = w ∧ o ∉ X ∧ holds n k ({[o]} ∪ X) h'
  | (Err e, s') => e = ErrBitAllocated ∧ s' = (h, w) ∧ o ∈ X
  | _ => False
  end.
Proof.
  intros Hh Ho. pose proof Hh as [H1 H2 H3 (Hv & _) H5 H6 HK H7].
  rewrite set_local by done. cbn [find_position]. rewrite checkIfAvailable_at by (done || lia).
  rewrite (holds_bit n k X) by done. case_bool_decide; simpl; [done|].
  split; [done|]. split; [done|]. split; [done|].
  pose proof (holds_reserve n k X h o false (h_curr h) Hh Ho) as Hr.
  destruct h; apply Hr; [|done]. symmetry. by apply bool_decide_eq_false.
Qed.

(** How wrong the counter is after a release: a release of an ordinal that is not reserved
    leaves the mask alone and counts it nevertheless. *)
Definition slack_after (X : gset Z) (k o : Z) : Z := if decide (o ∈ X) then k else k + 1.

Lemma unset_local n k X h fuel o (w : W) :
  holds n k X h → 0 ≤ o < n → n + slack_after X k o < 2 ^ 64 →
  ∃ h', set (S fuel) o 0 0 false true false (h, w) = (Ok (Some 0), (h', w)) ∧
    holds n (slack_after X k o) (X ∖ {[o]}) h'.
Proof.
  intros Hh Ho HX. pose proof Hh as [H1 H2 H3 H4 H5 H6 HK H7].
  rewrite set_local by done. simpl. eexists; split; [done|]. unfold slack_after in *. destruct (decide (o ∈ X)) as [Hin|Hin].
  - pose proof (holds_reserve n k X h o true (h_curr h) Hh Ho) as Hr.
    destruct h; apply Hr; [|done]. symmetry. by apply bool_decide_eq_true.
  - pose proof (size_below n X ltac:(lia) H5). destruct (getNumBlocks_spec n H3) as [Hn _].
    pose proof (push_represents _ _ _ (o, true) H4) as Hp. simpl in Hp.
    unfold set_op in Hp; simpl in Hp. assert (X ∖ {[o]} = X) as EX by set_solver. rewrite EX in Hp |- *.
    split; simpl; try done; [apply Hp; lia|rewrite H6, u64_small; lia|lia].
Qed.

(** ** The operations of a handle without a store *)

(** A search: the ordinal that was found and reserved, or nothing was free. *)
Definition any_outcome (n k : Z) (X : gset Z) (curr start end_ : Z) (h : Handle) (w : W)
    (out : result (option Z) * (Handle * W)) : Prop :=
  match out with
  | (Ok (Some o), (h', w')) =>
      w' = w ∧ holds n k ({[o]} ∪ X) h' ∧ h_curr h' = o + 1 ∧ serial_choice X curr start end_ o
  | (Err e, s') => e = ErrNoBitAvailable ∧ s' = (h, w) ∧ ∀ i, start ≤ i ≤ end_ → i ∈ X
  | _ => False
  end.

Lemma full_refused n k X h :
  holds n k X h → h_unselected h = 0 → ∀ i, 0 ≤ i < n → i ∈ X.
Proof.
  intros Hh Hu. pose proof Hh as [_ _ Hn _ Hset Hc [Hk _] _]. rewrite Hc in Hu.
  pose proof (size_below n X ltac:(lia) Hset). apply size_full; [lia|done|lia].
Qed.

Lemma SetAny_local n k X h fuel (serial : bool) (w : W) :
  holds n k X h → any_outcome n k X (if serial then h_curr h else 0) 0 (n - 1) h w (SetAny (S fuel) serial (h, w)).
Proof.
  intros Hh. pose proof Hh as [H1 H2 H3 _ _ _ _ _]. unfold SetAny, Unselected, bind at 1. cbn [bind this gets ret fst].
  destruct (Z.eqb_spec (h_unselected h) 0) as [E|E].
  - split; [done|]. split; [done|]. intros i Hi. apply (full_refused n k X h); [done|done|lia].
  - rewrite bind_this. cbn [fst]. rewrite H2, u64_small by lia.
    apply (set_any_local n k X h fuel 0 (n - 1) serial w); [done|lia|lia].
Qed.

Lemma SetAnyInRange_local n k X h fuel start end_ (serial : bool) (w : W) :
  holds n k X h → 0 ≤ start →
  if (end_ <? start) || (n <=? end_)
  then SetAnyInRange (S fuel) start end_ serial (h, w) = (Err (ErrNew "invalid bit range"), (h, w))
  else any_outcome n k X (if serial then h_curr h else 0) start end_ h w
         (SetAnyInRange (S fuel) start end_ serial (h, w)).
Proof.
  intros Hh Hs. pose proof Hh as [H1 H2 H3 _ _ _ _ _]. unfold SetAnyInRange. rewrite bind_this. cbn [fst].
  rewrite H2. destruct (Z.ltb_spec end_ start), (Z.leb_spec n end_); cbn [orb]; try done.
  unfold Unselected, bind at 1. cbn [bind this gets ret fst].
  destruct (Z.eqb_spec (h_unselected h) 0) as [E|E].
  - split; [done|]. split; [done|]. intros i Hi. apply (full_refused n k X h); [done|done|lia].
  - apply (set_any_local n k X h fuel start end_ serial w); [done|lia|lia].
Qed.

Lemma validate_run o h (w : W) :
  validateOrdinal o (h, w) =
    (if h_bits h <=? o then Err (ErrNew "bit does not belong to the sequence") else Ok tt, (h, w)).
Proof. unfold validateOrdinal. rewrite bind_this. cbn [fst]. by destruct (h_bits h <=? o). Qed.

Lemma Set_local n k X h fuel o (w : W) :
  holds n k X h → 0 ≤ o →
  match Set_ (S fuel) o (h, w) with
  | (Ok (Some _), (h', w')) => w' = w ∧ o < n ∧ o ∉ X ∧ holds n k ({[o]} ∪ X) h'
  | (Err e, s') => s' = (h, w) ∧
      (e = ErrNew "bit does not belong to the sequence" ∧ n ≤ o ∨ e = ErrBitAllocated ∧ o ∈ X)
  | _ => False
  end.
Proof.
  intros Hh Ho. unfold Set_, bind at 1. rewrite validate_run, (ho_bits _ _ _ _ Hh).
  destruct (Z.leb_spec n o); [split; [done|by left]|].
  pose proof (set_one_local n k X h fuel o w Hh ltac:(lia)) as Hset. unfold bind.
  destruct (set (S fuel) o 0 0 false false false (h, w)) as [[r|e|x] [h' w']]; [|split; tauto|done].
  destruct Hset as (-> & -> & ? & ?). by cbn.
Qed.

Lemma Unset_run h fuel o (w : W) h' :
  o < h_bits h → set (S fuel) o 0 0 false true false (h, w) = (Ok (Some 0), (h', w)) →
  Unset (S fuel) o (h, w) = (Ok (Some tt), (h', w)).
Proof.
  intros Ho E. unfold Unset, bind at 1. rewrite validate_run.
  destruct (Z.leb_spec (h_bits h) o); [lia|]. by rewrite (bind_ok _ _ _ _ _ E).
Qed.

Lemma Unset_local n k X h fuel o (w : W) :
  holds n k X h → 0 ≤ o →
  if n <=? o then Unset (S fuel) o (h, w) = (Err (ErrNew "bit does not belong to the sequence"), (h, w))
  else n + slack_after X k o < 2 ^ 64 → ∃ h', Unset (S fuel) o (h, w) = (Ok (Some tt), (h', w)) ∧
         holds n (slack_after X k o) (X ∖ {[o]}) h'.
Proof.
  intros Hh Ho. destruct (Z.leb_spec n o) as [Hn|Hn].
  - unfold Unset, bind at 1. rewrite validate_run, (ho_bits _ _ _ _ Hh). by destruct (Z.leb_spec n o); [|lia].
  - intros HX. destruct (unset_local n k X h fuel o w Hh ltac:(lia) HX) as (h' & E & Hh').
    exists h'. split; [|done]. apply Unset_run; [|done]. by rewrite (ho_bits _ _ _ _ Hh).
Qed.

Lemma IsSet_local n k X h o (w : W) :
  holds n k X h → 0 ≤ o → IsSet o (h, w) = (Ok (bool_decide (o ∈ X)), (h, w)).
Proof.
  intros Hh Ho. pose proof Hh as [H1 H2 H3 (Hv & _) H5 _ _ _]. unfold IsSet, bind at 1, try.
  rewrite validate_run, H2. destruct (Z.leb_spec n o).
  - rewrite bool_decide_false; [done|]. intros HX. specialize (H5 o HX). lia.
  - rewrite bind_this. cbn [fst]. rewrite checkIfAvailable_at by done.
    rewrite (holds_bit n k X) by (done || lia). by case_bool_decide.
Qed.

(** A handle without a store, on every branch of its operations. [SetAny] reserves the
    first free ordinal, or with [serial] the first one behind the last that was handed
    out, starting over at 0; it fails exactly when all are taken, also in a last block
    that is only partly used. [SetAnyInRange], [Set], [Unset] and [IsSet] likewise. All of
    them count the free ordinals right, but for the releases of ordinals that are free
    already, as long as that fits a [uint64]; a refused operation changes nothing. One
    round of the loop is enough. *)
Theorem local_operations n k X h fuel (w : W) :
  holds n k X h →
  (∀ serial : bool, any_outcome n k X (if serial then h_curr h else 0) 0 (n - 1) h w (SetAny (S fuel) serial (h, w))) ∧
  (∀ start end_ (serial : bool), 0 ≤ start →
     if (end_ <? start) || (n <=? end_)
     then SetAnyInRange (S fuel) start end_ serial (h, w) = (Err (ErrNew "invalid bit range"), (h, w))
     else any_outcome n k X (if serial then h_curr h else 0) start end_ h w
            (SetAnyInRange (S fuel) start end_ serial (h, w))) ∧
  (∀ o, 0 ≤ o → IsSet o (h, w) = (Ok (bool_decide (o ∈ X)), (h, w)) ∧
     match Set_ (S fuel) o (h, w) with
     | (Ok (Some _), (h', w')) => w' = w ∧ o < n ∧ o ∉ X ∧ holds n k ({[o]} ∪ X) h'
     | (Err e, s') => s' = (h, w) ∧
         (e = ErrNew "bit does not belong to the sequence" ∧ n ≤ o ∨ e = ErrBitAllocated ∧ o ∈ X)
     | _ => False
     end ∧
     if n <=? o
     then Unset (S fuel) o (h, w) = (Err (ErrNew "bit does not belong to the sequence"), (h, w))
     else n + slack_after X k o < 2 ^ 64 → ∃ h', Unset (S fuel) o (h, w) = (Ok (Some tt), (h', w)) ∧
            holds n (slack_after X k o) (X ∖ {[o]}) h').
Proof.
  intros Hh. split; [intros; by apply SetAny_local|]. split; [intros; by apply SetAnyInRange_local|].
  intros o Ho. split; [by apply (IsSet_local n k)|]. split; [by apply Set_local|by apply Unset_local].
Qed.

(** Releasing a free ordinal reports success and makes the counter wrong: after it, the
    counter of an empty mask of [n] ordinals is [n + 1]. *)
Lemma Unset_free_counts n k X h fuel o (w : W) :
  holds n k X h → 0 ≤ o < n → o ∉ X → n + k + 1 < 2 ^ 64 →
  ∃ h', Unset (S fuel) o (h, w) = (Ok (Some tt), (h', w)) ∧ holds n (k + 1) X h' ∧
    h_unselected h' = n - Z.of_nat (size X) + (k + 1).
Proof.
  intros Hh Ho HX Hk. assert (slack_after X k o = k + 1) as E by (unfold slack_after; by rewrite decide_False).
  destruct (unset_local n k X h fuel o w Hh Ho) as (h' & Eu & Hh'); [lia|]. rewrite E in Hh'.
  assert (X ∖ {[o]} = X) as EX by set_solver. rewrite EX in Hh'.
  exists h'. split; [|split; [done|by destruct Hh']]. apply Unset_run; [|done]. rewrite (ho_bits _ _ _ _ Hh). lia.
Qed.

(** [Destroy] handles a [RetryError], but [deleteFromStore] does not make one: when the key
    was modified by somebody else the error is final, and nothing is fetched again. *)
Lemma Destroy_gives_up fuel h (w w' : W) :
  h_store h = true →
  handle_call (KVAtomicDelete (ds_Key (Key h)) (h_dbIndex h)) w = (inl ErrKeyModified, w') →
  Destroy (S fuel) (h, w) =
    (Err (ErrWrap "internal failure while destroying the sequence" ErrKeyModified), (h, w')).
Proof.
  intros Hst E. cbn [Destroy]. unfold bind at 1, try, deleteFromStore. rewrite bind_this. cbn [fst]. rewrite Hst.
  unfold DeleteObjectAtomic. rewrite bind_this. cbn [fst]. unfold map_err, ask. cbn [fst snd]. by rewrite E.
Qed.
End Local.

(** ** At work: three ordinals of one block *)

(** A backend that is not used. *)
#[export] Instance no_backend : Handler dcall unit := λ A c w, (inl (ErrNew "no backend"), w).

Lemma local_operations_witness :
  any_outcome 3 0 ∅ 0 0 2 (new_handle "idm" false "x" 3) tt (SetAny 1 true (new_handle "idm" false "x" 3, tt)).
Proof.
  exact (proj1 (local_operations 3 0 ∅ (new_handle "idm" false "x" 3) 0 tt
                  (holds_new "idm" "x" 3 ltac:(lia))) true).
Defined.

