(* ===== verification/BitStore.v ===== *)
(** * Handles that share a store

    The optimistic loop of [set] (BitHandle.v) against the documented behaviour of a
    backend of libkv, [KVStore]: other processes change the store at any time, and a
    write is refused when the index of the key has changed. A store with a scripted
    second process is an instance. *)

From S2P Require Import Prelude.
From S2P Require Import GoMonad.
From S2P Require Import BitSeq.
From S2P Require Import BitHandle.

(** ** Handles that share a store *)

(** The fields that a value decodes to. *)
Definition decode (v : kvalue) : option (Z * Z * list sequence) :=
  match kv_sequence v with
  | None => None
  | Some ba =>
      if (length ba <? 16)%nat then None
      else match fromByteArray (drop 16 ba) with
           | Ok nh => Some (get_be (take 8 ba), get_be (take 8 (drop 8 ba)), nh)
           | _ => None
           end
  end.
Definition fields (h : Handle) : Z * Z * list sequence := (h_bits h, h_unselected h, h_head h).

(** A handle as this code makes them. *)
Definition well_formed (f : Z * Z * list sequence) : Prop :=
  let '(bits, unselected, head) := f in
  0 ≤ bits < 2 ^ 64 ∧ 0 ≤ unselected < 2 ^ 64 ∧ valid head ∧ canonical head ∧ 0 < total head.

(** The value of the key of a handle names it and decodes to something well formed. *)
Definition good_view (view : string → option (kvalue * Z)) (h : Handle) : Prop :=
  ∀ v i, view (ds_Key (Key h)) = Some (v, i) →
    kv_id v = h_id h ∧ ∃ f, decode v = Some f ∧ well_formed f.

(** ** The byte form carries a well-formed handle *)

Lemma valid_words s : valid s → Forall word_node s.
Proof.
  intros [Hs Ht]. induction Hs as [|p s [Hb Hc] Hs IH]; [constructor|].
  rewrite total_cons in Ht. pose proof (total_nonneg s Hs). constructor; [split; lia|apply IH; lia].
Qed.

Lemma decode_Value h : well_formed (fields h) → decode (Value h) = Some (fields h).
Proof.
  intros (Hb & Hu & Hv & _ & Ht). unfold decode, Value, MarshalJSON, ToByteArray. cbn [kv_sequence].
  assert (length (put_be 8 (h_bits h) ++ put_be 8 (h_unselected h) ++ toByteArray (h_head h)) <? 16 = false)%nat as ->.
  { apply Nat.ltb_ge. rewrite !length_app, !put_be_length. lia. }
  assert (∀ x, 0 ≤ x < 2 ^ 64 → get_be (put_be 8 x) = x) as Hget.
  { intros x Hx. rewrite get_put_be. change (256 ^ Z.of_nat 8) with (2 ^ 64). by apply Z.mod_small. }
  rewrite app_assoc, drop_app_length' by (by rewrite length_app, !put_be_length).
  rewrite from_toByteArray; [|by apply valid_words|by intros E; rewrite E in Ht].
  rewrite <- app_assoc, take_app_length' by (by rewrite put_be_length).
  rewrite drop_app_length', take_app_length' by (by rewrite put_be_length).
  rewrite !Hget by done. done.
Qed.

Lemma well_formed_reserve h o release :
  well_formed (fields h) → 0 ≤ o →
  well_formed (fields (reserve h (o / 8) (o mod 8) release)) ∧
  ∀ i, 0 ≤ i → is_set (h_head (reserve h (o / 8) (o mod 8) release)) i =
    if (i =? o) && (o <? 32 * total (h_head h)) then negb release else is_set (h_head h) i.
Proof.
  intros (Hb & Hu & Hv & Hc & Ht) Ho.
  destruct (pushReservation_at (h_head h) o release Hv Hc Ho) as (Hv' & Hc' & Ht' & Hbits).
  split; [|done]. simpl. split; [done|]. split; [destruct release; by apply (wrapu_range 64)|].
  split; [done|]. split; [done|]. lia.
Qed.

(** The documented behaviour of a backend, seen by one of its clients. [others] is what
    the other clients may do; [later] is that and what this client does. A key has a
    value with an index, and an index stands for one value. A read answers with what is
    stored at some moment of the call; an atomic write happens at one moment, at which
    the key has the index it was given; a write that is reported as failed may have
    happened or not. *)
Class KVStore (W : Type) `{Handler dcall W} := {
  kv_view : W → string → option (kvalue * Z);
  later : W → W → Prop;
  others : W → W → Prop;
  wrote (k : string) (v : kvalue) (i : Z) (w1 w2 : W) : Prop :=
    later w1 w2 ∧ kv_view w2 k = Some (v, i) ∧ ∀ k', k' ≠ k → kv_view w2 k' = kv_view w1 k';
  later_preorder :: PreOrder later;
  others_preorder :: PreOrder others;
  others_later : ∀ w w', others w w' → later w w';
  kv_version : ∀ w w' k v v' i, later w w' →
    kv_view w k = Some (v, i) → kv_view w' k = Some (v', i) → v = v';
  kv_get : ∀ k w r w', handle_call (KVGet k) w = (r, w') →
    others w w' ∧
    ∀ x, r = inr x → ∃ w1, others w w1 ∧ others w1 w' ∧ kv_view w1 k = Some x;
  kv_put_ok : ∀ k v previous w i w', handle_call (KVAtomicPut k v previous) w = (inr i, w') →
    ∃ w1 w2, others w w1 ∧ wrote k v i w1 w2 ∧ others w2 w' ∧
      match previous with
      | None => kv_view w1 k = None
      | Some j => ∃ v0, kv_view w1 k = Some (v0, j)
      end;
  kv_put_err : ∀ k v previous w e w', handle_call (KVAtomicPut k v previous) w = (inl e, w') →
    others w w' ∨ ∃ i w1 w2, others w w1 ∧ wrote k v i w1 w2 ∧ others w2 w'
}.

(** What [set] keeps of a handle while it works. *)
Definition same_name (h h' : Handle) : Prop :=
  h_app h' = h_app h ∧ h_id h' = h_id h ∧ h_store h' = h_store h.

Lemma same_name_key h h' : same_name h h' → ds_Key (Key h') = ds_Key (Key h).
Proof. intros (E1 & E2 & _). unfold Key. by rewrite E1, E2. Qed.

Section Shared.
Context {W : Type} `{KVStore W}.

Definition good (h : Handle) (w : W) : Prop := good_view (kv_view w) h.

(** The other clients run the same code. *)
Definition others_keep (h : Handle) : Prop := ∀ w w', others w w' → good h w → good h w'.

(** What a handle that exists in the store holds was stored at some time under its index. *)
Definition synced (h : Handle) (w : W) : Prop :=
  well_formed (fields h) ∧
  (h_dbExists h = true →
   ∃ w0 v, later w0 w ∧ kv_view w0 (ds_Key (Key h)) = Some (v, h_dbIndex h) ∧ decode v = Some (fields h)).

Lemma good_name h h' w : same_name h h' → good h w → good h' w.
Proof. intros Hn Hg v i Hv. rewrite (same_name_key _ _ Hn) in Hv. destruct Hn as (_ & -> & _). by apply (Hg v i). Qed.

Lemma others_keep_name h h' : same_name h h' → others_keep h → others_keep h'.
Proof.
  intros Hn Ho w w' Hw Hg. apply (good_name h h'); [done|]. apply (Ho w); [done|].
  apply (good_name h' h); [|done]. destruct Hn as (? & ? & ?). by repeat split.
Qed.

Lemma synced_later h w w' : synced h w → later w w' → synced h w'.
Proof.
  intros [Hf Hs] Hl. split; [done|]. intros He. destruct (Hs He) as (w0 & v & H1 & H2 & H3). exists w0, v.
  split; [by transitivity w|done].
Qed.

Lemma SetValue_run v h (w : W) r s' :
  SetValue v (h, w) = (r, s') → r = Ok tt →
  ∃ h', s' = (h', w) ∧ decode v = Some (fields h') ∧ h_id h' = kv_id v ∧
    h_app h' = h_app h ∧ h_store h' = h_store h ∧ h_curr h' = h_curr h.
Proof.
  intros E ->. unfold SetValue, UnmarshalJSON in E. rewrite bind_change in E. unfold FromByteArray in E.
  unfold decode. destruct (kv_sequence v) as [ba|]; [|done].
  destruct (Nat.ltb_spec (length ba) 16); [done|].
  unfold map_err, bind, lift in E. destruct (fromByteArray (drop 16 ba)) as [nh|e|]; [|done..].
  unfold change, modify in E. cbn [fst snd] in E. injection E as <-.
  eexists; split; [done|]. by cbn.
Qed.

Lemma SetValue_err v h (w : W) e s' : SetValue v (h, w) = (Err e, s') → e ≠ ErrKeyNotFound.
Proof.
  intros E. unfold SetValue, UnmarshalJSON in E. rewrite bind_change in E. unfold FromByteArray in E.
  destruct (kv_sequence v) as [ba|]; [|by unfold throw in E; simplify_eq].
  destruct (length ba <? 16)%nat; [by unfold panic in E; simplify_eq|].
  unfold map_err, bind, lift in E. by destruct (fromByteArray (drop 16 ba)); unfold change, modify in E; simplify_eq.
Qed.

Lemma refresh_run h (w : W) h1 w1 :
  synced h w → good h w → others_keep h →
  refresh (h, w) = (Ok tt, (h1, w1)) → synced h1 w1 ∧ good h1 w1 ∧ same_name h h1 ∧ h_curr h1 = h_curr h ∧ later w w1.
Proof.
  intros Hs Hg Ho E. unfold refresh, bind at 1, try, GetObject in E. rewrite bind_this in E.
  unfold bind at 1, ask in E. cbn [fst snd] in E.
  destruct (handle_call (KVGet (ds_Key (Key h))) w) as [[e|[v i]] w2] eqn:Ec; cbn [fst snd] in *;
    destruct (kv_get _ _ _ _ Ec) as [Hl Hget].
  - destruct (decide (e = ErrKeyNotFound)); [|done]. injection E as <- <-.
    split; [by eapply synced_later, others_later|]. split; [by apply (Ho w)|].
    split; [by repeat split|]. split; [done|by apply others_later].
  - destruct (Hget _ eq_refl) as (w0 & Hl0 & Hl1 & Hv).
    destruct (Ho w w0 Hl0 Hg v i Hv) as [Hname (f & Hdec & Hwf)].
    unfold bind in E. destruct (SetValue v (h, w2)) as [[[]|e|x] s2] eqn:Es; cbn [fst snd] in E.
    + destruct (SetValue_run _ _ _ _ _ Es eq_refl) as (h2 & -> & Hd & Hid & Happ & Hst & Hcurr).
      rewrite Hname in Hid. injection E as <- <-.
      assert (same_name h (SetIndex i h2)) as Hsame by (by repeat split).
      assert (Some (fields h2) = Some f) as [= Hf] by congruence.
      split; [split|split; [|split; [done|split; [done|by apply others_later]]]].
      * change (fields (SetIndex i h2)) with (fields h2). by rewrite Hf.
      * intros _. exists w0, v. rewrite (same_name_key _ _ Hsame). split; [by apply others_later|done].
      * apply (good_name h); [done|]. by apply (Ho w).
    + apply SetValue_err in Es. by destruct (decide (e = ErrKeyNotFound)).
    + done.
Qed.

(** ** One round of the loop *)

Lemma when_change b f (h : Handle) (w : W) :
  when b (change f) (h, w) = (Ok tt, (if b then f h else h, w)).
Proof. by destruct b. Qed.

Lemma writeToStore_run o (h : Handle) (w : W) r s' :
  h_store o = true → writeToStore o (h, w) = (r, s') →
  s'.1 = h ∧
  match r with
  | Ok o' => ∃ i w1 w2, o' = SetIndex i o ∧ others w w1 ∧ wrote (ds_Key (Key o)) (Value o) i w1 w2 ∧ others w2 s'.2 ∧
      (∀ v j, kv_view w1 (ds_Key (Key o)) = Some (v, j) → h_dbExists o = true ∧ j = h_dbIndex o)
  | Err _ => others w s'.2 ∨
      ∃ i w1 w2, others w w1 ∧ wrote (ds_Key (Key o)) (Value o) i w1 w2 ∧ others w2 s'.2
  | Panic _ => False
  end.
Proof.
  intros Hst E. unfold writeToStore in E. rewrite Hst in E.
  unfold map_err, PutObjectAtomic, bind, try, ask in E. cbn [fst snd] in E.
  set (previous := if h_dbExists o then Some (h_dbIndex o) else None) in *.
  destruct (handle_call (KVAtomicPut (ds_Key (Key o)) (Value o) previous) w) as [[e|i] w'] eqn:Ec; cbn [fst snd] in E.
  - injection E as <- <-. split; [done|]. by apply kv_put_err in Ec.
  - injection E as <- <-. split; [done|].
    destruct (kv_put_ok _ _ _ _ _ _ Ec) as (w1 & w2 & H1 & H2 & H3 & H4).
    exists i, w1, w2. split; [done|]. split; [done|]. split; [done|]. split; [done|].
    intros v j Hv. unfold previous in H4. destruct (h_dbExists o).
    + destruct H4 as [v0 H4]. split; [done|]. congruence.
    + congruence.
Qed.

Lemma good_wrote h o w1 w2 i :
  good h w1 → same_name h o → well_formed (fields o) → wrote (ds_Key (Key o)) (Value o) i w1 w2 → good h w2.
Proof.
  intros Hg Hn Hwf (_ & Hv & _) v j Hv'. rewrite <- (same_name_key _ _ Hn), Hv in Hv'.
  injection Hv' as <- <-. destruct Hn as (_ & Hid & _). split; [exact Hid|].
  exists (fields o). split; [by apply decode_Value|done].
Qed.

Lemma wrote_later k v i w1 w2 : wrote k v i w1 w2 → later w1 w2.
Proof. by intros []. Qed.

(** The position that is changed, for the mask [s]. *)
Definition chosen (s : list sequence) (ordinal start end_ : Z) (any release : bool) (r o : Z) : Prop :=
  if release then o = ordinal
  else r = o ∧ is_set s o = false ∧ if any then start ≤ o ≤ end_ else o = ordinal.

Lemma find_position_chosen h ordinal start end_ any release curr bytePos bitPos r :
  well_formed (fields h) → 0 ≤ ordinal → 0 ≤ start ≤ end_ → end_ < 2 ^ 64 → 0 ≤ curr →
  find_position h ordinal start end_ any release curr = Some (Ok (bytePos, bitPos, r)) →
  ∃ o, 0 ≤ o ∧ bytePos = o / 8 ∧ bitPos = o mod 8 ∧ chosen (h_head h) ordinal start end_ any release r o.
Proof.
  intros (_ & _ & Hv & _ & _) Hord Hse Hend Hcurr E. unfold find_position in E. destruct release.
  - injection E as <- <- <-. by exists ordinal.
  - destruct any.
    + destruct (getAvailableFromCurrent_at search_fuel (h_head h) start curr end_) as (r' & Er & Hr);
        [unfold search_fuel; lia|done..|].
      rewrite Er in E. destruct r' as [[by_ bi]|e|]; [|done..]. injection E as <- <- <-.
      destruct Hr as (o & -> & -> & Ho & _ & Hwhy). exists o. split; [lia|]. split; [done|]. split; [done|].
      split; [apply posToOrdinal_pos; lia|]. split; [|done].
      by destruct Hwhy as [(_ & _ & ? & _)|(_ & _ & ? & _)].
    + rewrite checkIfAvailable_at in E by done.
      destruct (is_set (h_head h) ordinal) eqn:Es; [done|]. injection E as <- <- <-. by exists ordinal.
Qed.

(** What a successful [set] promises: the atomic step from [w1] to [w2]. *)
Definition linearized ordinal start end_ any release (h : Handle) (w : W) (r : Z) (h' : Handle) (w' : W) : Prop :=
  ∃ w1 w2 i v s o,
    later w w1 ∧ wrote (ds_Key (Key h)) v i w1 w2 ∧ others w2 w' ∧
    (∀ v0 j, kv_view w1 (ds_Key (Key h)) = Some (v0, j) → ∃ b u, decode v0 = Some (b, u, s)) ∧
    chosen s ordinal start end_ any release r o ∧
    (∃ b u, decode v = Some (b, u, h_head h')) ∧
    (∀ n, 0 ≤ n →
       is_set (h_head h') n = if (n =? o) && (o <? 32 * total s) then negb release else is_set s n) ∧
    synced h' w' ∧ good h' w' ∧ same_name h h'.

Lemma same_name_trans h1 h2 h3 : same_name h1 h2 → same_name h2 h3 → same_name h1 h3.
Proof. intros (? & ? & ?) (? & ? & ?). repeat split; congruence. Qed.

Lemma linearized_earlier ordinal start end_ any release h w h1 w1 r h' w' :
  same_name h h1 → later w w1 →
  linearized ordinal start end_ any release h1 w1 r h' w' → linearized ordinal start end_ any release h w r h' w'.
Proof.
  intros Hn Hl (wa & wb & i & v & s & o & H1 & H2 & H3 & H4 & H5 & H6 & H7 & H8 & H9 & H10).
  rewrite (same_name_key _ _ Hn) in *. exists wa, wb, i, v, s, o.
  split; [by transitivity w1|]. do 8 (split; [done|]). by eapply same_name_trans.
Qed.

(** The write of the private copy. *)
Lemma write_linearized ordinal start end_ any release r o h (w : W) nh s' :
  h_store h = true → synced h w → good h w → others_keep h → 0 ≤ o →
  chosen (h_head h) ordinal start end_ any release r o →
  writeToStore (reserve h (o / 8) (o mod 8) release) (h, w) = (Ok nh, s') →
  s'.1 = h ∧ linearized ordinal start end_ any release h w r (adopt nh h) s'.2.
Proof.
  intros Hst [Hwf Hsy] Hg Hok Ho Hch E.
  destruct (well_formed_reserve h o release Hwf Ho) as [Hwf' Hbits].
  destruct (writeToStore_run _ _ _ _ _ (Hst : h_store (reserve h (o / 8) (o mod 8) release) = true) E)
    as (-> & i & w1 & w2 & -> & H1 & H2 & H3 & H4).
  set (o' := reserve h (o / 8) (o mod 8) release) in *.
  change (ds_Key (Key o')) with (ds_Key (Key h)) in *. split; [done|].
  assert (good h w2) as Hg2.
  { apply (good_wrote h o' w1 w2 i); [by apply (Hok w)|by repeat split|done|done]. }
  exists w1, w2, i, (Value o'), (h_head h), o.
  split; [by apply others_later|]. split; [done|]. split; [done|].
  assert (adopt (SetIndex i o') h = SetIndex i o') as -> by (by destruct h).
  assert (decode (Value o') = Some (fields o')) as Hdec by (by apply decode_Value).
  split; [|split; [done|split; [|split; [done|split; [|split]]]]].
  - intros v0 j Hv0. destruct (H4 v0 j Hv0) as [He ->].
    destruct (Hsy He) as (w0 & v & Hl & Hv & Hd).
    assert (later w0 w1) as Hl1 by (transitivity w; [done|by apply others_later]).
    rewrite <- (kv_version w0 w1 _ v v0 _ Hl1 Hv Hv0). by exists (h_bits h), (h_unselected h).
  - by exists (h_bits o'), (h_unselected o').
  - split; [done|]. intros _. exists w2, (Value o'). split; [by apply others_later|].
    split; [by destruct H2 as (_ & ? & _)|done].
  - apply (good_name h); [by repeat split|]. by apply (Hok w2).
  - by repeat split.
Qed.

(** C5. [set] on a handle that shares its store with other processes, which may write
    between any two of its calls: when it returns, its change was made in one atomic step.
    At that moment the stored mask, whatever the others had made of it since the handle
    was last refreshed, was the one the position was chosen in - so a reserved bit was
    free - and the mask stored then differs in just this bit. The local copy is the mask
    that was stored, and the handle and the store are in order for the next operation. *)
Theorem set_linearizes fuel ordinal start end_ any release serial h (w : W) r h' w' :
  h_store h = true → synced h w → good h w → others_keep h → 0 ≤ h_curr h →
  0 ≤ ordinal → 0 ≤ start ≤ end_ → end_ < 2 ^ 64 →
  set fuel ordinal start end_ any release serial (h, w) = (Ok (Some r), (h', w')) →
  linearized ordinal start end_ any release h w r h' w'.
Proof.
  revert h w; induction fuel as [|fuel IH]; intros h w Hst Hsy Hg Hok Hcu Hord Hse Hend E; [done|].
  cbn [set] in E. rewrite bind_this in E. cbn [fst] in E. rewrite Hst in E. cbn [when] in E.
  apply bind_ok_inv in E as ([] & [h1 w1] & Er & E).
  destruct (refresh_run h w h1 w1 Hsy Hg Hok Er) as (Hsy1 & Hg1 & Hn1 & Hc1 & Hl1).
  apply (linearized_earlier _ _ _ _ _ h w h1 w1 _ _ _ Hn1 Hl1).
  assert (0 ≤ (if serial then h_curr h1 else 0)) as Hcurr by (destruct serial; lia).
  rewrite bind_this in E. cbn [fst] in E.
  destruct (find_position h1 _ _ _ _ _ _) as [[[[bytePos bitPos] q]|e|x]|] eqn:Ep; [|done..].
  destruct (find_position_chosen _ _ _ _ _ _ _ _ _ _ (proj1 Hsy1) Hord Hse Hend Hcurr Ep)
    as (o & Ho & -> & -> & Hch). clear Ep Er.
  rewrite (bind_ok _ _ _ _ _ (when_change _ _ h1 w1)) in E.
  set (h2 := if any && negb release then set_curr (u64 (q + 1)) h1 else h1) in *.
  assert (same_name h1 h2 ∧ fields h2 = fields h1 ∧ h_dbExists h2 = h_dbExists h1 ∧
          h_dbIndex h2 = h_dbIndex h1 ∧ 0 ≤ h_curr h2) as (Hn2 & Hf2 & He2 & Hi2 & Hc2).
  { unfold h2. destruct (any && negb release); (split; [by repeat split|]); cbn; split_and!; try done; try lia.
    apply (wrapu_range 64). lia. }
  assert (h_head h2 = h_head h1) as Hh2 by (unfold h2; by destruct (any && negb release)). rewrite <- Hh2 in Hch.
  assert (h_store h2 = true) as Hst2 by (destruct Hn1 as (_ & _ & ?), Hn2 as (_ & _ & ?); congruence).
  assert (synced h2 w1) as Hsy2.
  { unfold synced. by rewrite Hf2, He2, Hi2, (same_name_key _ _ Hn2). }
  assert (good h2 w1) as Hg2 by (by apply (good_name h1)).
  assert (others_keep h2) as Hok2 by (by apply (others_keep_name h1), (others_keep_name h)).
  apply (linearized_earlier _ _ _ _ _ h1 w1 h2 w1 _ _ _ Hn2); [reflexivity|].
  rewrite bind_this in E. cbn [fst] in E. rewrite Hst2 in E. unfold bind at 1, try in E.
  destruct (writeToStore (reserve h2 (o / 8) (o mod 8) release) (h2, w1)) as [[nh|e|x] s2] eqn:Ew.
  - destruct (write_linearized _ _ _ _ _ _ _ _ _ _ _ Hst2 Hsy2 Hg2 Hok2 Ho Hch Ew) as [Hs2 Hlin].
    rewrite bind_change in E. unfold ret in E. injection E as <- <- <-. by rewrite Hs2.
  - destruct (is_RetryError e); [|done].
    destruct (writeToStore_run _ _ _ _ _ (Hst2 : h_store (reserve _ _ _ _) = true) Ew) as [Hs2 Hw].
    destruct s2 as [h3 w3]; simpl in Hs2, Hw. subst h3.
    assert (later w1 w3 ∧ good h2 w3) as [Hl3 Hg3].
    { destruct (well_formed_reserve h2 o release (proj1 Hsy2) Ho) as [Hwf' _].
      destruct Hw as [Hw|(i & wa & wb & Ha & Hwr & Hb)].
      - split; [by apply others_later|by apply (Hok2 w1)].
      - split.
        + transitivity wa; [by apply others_later|]. transitivity wb; [by eapply wrote_later|by apply others_later].
        + apply (Hok2 wb); [done|]. apply (good_wrote h2 (reserve h2 (o / 8) (o mod 8) release) wa wb i);
            [by apply (Hok2 w1)|by repeat split|done|done]. }
    apply (linearized_earlier _ _ _ _ _ h2 w1 h2 w3); [by repeat split|done|].
    apply IH; try done. by eapply synced_later.
  - by apply writeToStore_run in Ew as [_ ?].
Qed.
End Shared.

(** ** A store with a second client *)

(** All writes to the store, a deletion as [None]; and what the second client does to the
    mask of one key before each call: ordinals to reserve or release. *)
Record sim := mk_sim { sim_log : list (string * option kvalue); sim_script : list (list (Z * bool)) }.

Definition simKey : string := ds_Key ["app"; "id"].

Fixpoint view_from (i : Z) (log : list (string * option kvalue)) (k : string) (acc : option (kvalue * Z))
  : option (kvalue * Z) :=
  match log with
  | [] => acc
  | (k', x) :: log' =>
      view_from (i + 1) log' k (if decide (k' = k) then option_map (λ v, (v, i)) x else acc)
  end.
Definition sim_view (w : sim) (k : string) : option (kvalue * Z) := view_from 0 (sim_log w) k None.

Definition sim_write (k : string) (x : option kvalue) (w : sim) : sim :=
  mk_sim (sim_log w ++ [(k, x)]) (sim_script w).

Definition second_client (w : sim) (op : Z * bool) : sim :=
  match sim_view w simKey with
  | Some (v, _) =>
      match decode v with
      | Some (bits, unselected, head) =>
          if op.1 <? 0 then w
          else sim_write simKey (Some (Value (reserve
                 (mk_Handle bits unselected head "app" (kv_id v) 0 true 0 true)
                 (op.1 / 8) (op.1 mod 8) op.2))) w
      | None => w
      end
  | None => w
  end.

Definition sim_turn (w : sim) : sim :=
  match sim_script w with
  | [] => w
  | ops :: script => foldl second_client (mk_sim (sim_log w) script) ops
  end.

Definition sim_index (w : sim) : Z := Z.of_nat (length (sim_log w)).

#[export] Instance sim_handler : Handler dcall sim := λ A c w,
  let w := sim_turn w in
  match c in dcall A return (error + A) * sim with
  | KVGet k => match sim_view w k with Some x => (inr x, w) | None => (inl ErrKeyNotFound, w) end
  | KVAtomicPut k v previous =>
      match previous, sim_view w k with
      | None, None => (inr (sim_index w), sim_write k (Some v) w)
      | None, Some _ => (inl store_ErrKeyExists, w)
      | Some j, Some (_, i) =>
          if i =? j then (inr (sim_index w), sim_write k (Some v) w) else (inl ErrKeyModified, w)
      | Some _, None => (inl ErrKeyNotFound, w)
      end
  | KVAtomicDelete k j =>
      match sim_view w k with
      | Some (_, i) => if i =? j then (inr tt, sim_write k None w) else (inl ErrKeyModified, w)
      | None => (inl ErrKeyNotFound, w)
      end
  end.

Definition sim_later (w w' : sim) : Prop := sim_log w `prefix_of` sim_log w'.
Definition sim_others (w w' : sim) : Prop :=
  sim_later w w' ∧ ∀ h, good_view (sim_view w) h → good_view (sim_view w') h.

#[export] Instance sim_later_preorder : PreOrder sim_later.
Proof.
  split; [intros w; by exists []; rewrite app_nil_r|].
  intros w1 w2 w3 H1 H2. unfold sim_later in *. by transitivity (sim_log w2).
Qed.
#[export] Instance sim_others_preorder : PreOrder sim_others.
Proof.
  split; [intros w; split; [reflexivity|auto]|]. intros w1 w2 w3 [H1 H2] [H3 H4]. split; [by transitivity w2|auto].
Qed.

Lemma view_from_app i l1 l2 k acc :
  view_from i (l1 ++ l2) k acc = view_from (i + Z.of_nat (length l1)) l2 k (view_from i l1 k acc).
Proof.
  revert i acc; induction l1 as [|[k' x] l1 IH]; intros i acc; simpl; [f_equal; lia|].
  rewrite IH. f_equal. lia.
Qed.

Lemma view_from_index i l k acc v j :
  view_from i l k acc = Some (v, j) → acc = Some (v, j) ∨ i ≤ j < i + Z.of_nat (length l).
Proof.
  revert i acc; induction l as [|[k' x] l IH]; intros i acc E; simpl in E; [by left|].
  apply IH in E. cbn [length]. destruct E as [E|]; [|right; lia].
  case_decide; [|by left]. destruct x; [injection E as <- <-; right; lia|done].
Qed.

Lemma sim_view_write k x w k' :
  sim_view (sim_write k x w) k' = if decide (k = k') then option_map (λ v, (v, sim_index w)) x else sim_view w k'.
Proof. unfold sim_view at 1. simpl. rewrite view_from_app. by simpl. Qed.

Lemma sim_write_later k x w : sim_later w (sim_write k x w).
Proof. by apply prefix_app_r. Qed.

Lemma second_client_others w op : sim_others w (second_client w op).
Proof.
  unfold second_client. destruct (sim_view w simKey) as [[v i]|] eqn:Ev; [|reflexivity].
  destruct (decode v) as [[[b u] s]|] eqn:Ed; [|reflexivity].
  destruct (Z.ltb_spec op.1 0); [reflexivity|]. split; [apply sim_write_later|].
  intros h Hg v' i' Hv'. rewrite sim_view_write in Hv'. case_decide as Hk; [|by apply (Hg v' i')].
  injection Hv' as <- <-. destruct (Hg v i) as [Hid (f & Hf & Hwf)]; [congruence|].
  split; [done|]. rewrite Ed in Hf. injection Hf as <-.
  set (h0 := mk_Handle b u s "app" (kv_id v) 0 true 0 true) in *.
  destruct (well_formed_reserve h0 op.1 op.2 Hwf ltac:(lia)) as [Hwf' _].
  exists (fields (reserve h0 (op.1 / 8) (op.1 mod 8) op.2)). split; [by apply decode_Value|done].
Qed.

Lemma sim_turn_others w : sim_others w (sim_turn w).
Proof.
  unfold sim_turn. destruct (sim_script w) as [|ops script]; [reflexivity|].
  assert (sim_others w (mk_sim (sim_log w) script)) as H0 by (split; [unfold sim_later; simpl; reflexivity|auto]).
  revert H0. generalize (mk_sim (sim_log w) script) as w1. induction ops as [|op ops IH]; intros w1 H1; [done|].
  simpl. apply IH. transitivity w1; [done|apply second_client_others].
Qed.

#[export, refine] Instance sim_store : KVStore sim := {
  kv_view := sim_view; later := sim_later; others := sim_others }.
Proof.
  - by intros w w' [? _].
  - intros w w' k v v' i [ext E] H1 H2. unfold sim_view in *. rewrite E, view_from_app, H1 in H2.
    apply view_from_index in H2 as [H2|H2]; [congruence|]. apply view_from_index in H1 as [|H1]; [done|]. lia.
  - intros k w r w' E. unfold handle_call, sim_handler in E. cbn in E.
    pose proof (sim_turn_others w) as Ht.
    destruct (sim_view (sim_turn w) k) as [x|] eqn:Ev; injection E as <- <-; (split; [done|]); intros y [= <-].
    by exists (sim_turn w).
  - intros k v previous w i w' E. unfold handle_call, sim_handler in E. cbn in E.
    pose proof (sim_turn_others w) as Ht. exists (sim_turn w), (sim_write k (Some v) (sim_turn w)).
    split; [done|].
    assert (∀ i w', (inr i, w') = (inr (sim_index (sim_turn w)), sim_write k (Some v) (sim_turn w)) :> (error + Z) * sim →
      (sim_later (sim_turn w) (sim_write k (Some v) (sim_turn w)) ∧
       sim_view (sim_write k (Some v) (sim_turn w)) k = Some (v, i) ∧
       ∀ k', k' ≠ k → sim_view (sim_write k (Some v) (sim_turn w)) k' = sim_view (sim_turn w) k') ∧
      sim_others (sim_write k (Some v) (sim_turn w)) w') as Hw.
    { intros i0 w0 [= -> ->]. split; [|done]. split; [apply sim_write_later|]. split.
      - rewrite sim_view_write. by rewrite decide_True.
      - intros k' Hk. rewrite sim_view_write. by rewrite decide_False. }
    destruct previous as [j|]; destruct (sim_view (sim_turn w) k) as [[v0 i1]|] eqn:Ev; try discriminate E.
    + destruct (Z.eqb_spec i1 j) as [Hij|]; [|discriminate E]. destruct (Hw _ _ (eq_sym E)).
      split; [done|]. split; [done|]. exists v0. by rewrite Hij.
    + by destruct (Hw _ _ (eq_sym E)).
  - intros k v previous w e w' E. left. unfold handle_call, sim_handler in E. cbn in E.
    pose proof (sim_turn_others w) as Ht.
    destruct previous as [j|], (sim_view (sim_turn w) k) as [[v0 i1]|]; [destruct (i1 =? j)|..];
      by simplify_eq.
Defined.

(** The second client takes the ordinal 0 between the read and the write of the first
    one, which is refused, reads again and takes the ordinal 1. *)
Definition demo_handle : Handle := SetIndex 0 (new_handle "app" true "id" 64).
Definition demo_sim : sim :=
  mk_sim [(simKey, Some (Value demo_handle))] [[]; [(0, false)]].

Lemma demo_well_formed : well_formed (fields demo_handle).
Proof.
  change (fields demo_handle) with (64, 64, [mk_sequence 0 2]).
  split; [lia|]. split; [lia|]. split; [split; [repeat constructor; simpl; lia|by vm_compute]|].
  split; [exact I|by vm_compute].
Defined.

Lemma demo_view : sim_view demo_sim simKey = Some (Value demo_handle, 0).
Proof. reflexivity. Defined.

Lemma set_linearizes_witness :
  match set 3 0 0 63 true false false (demo_handle, demo_sim) with
  | (Ok (Some r), (h', w')) => r = 1 ∧ linearized 0 0 63 true false demo_handle demo_sim r h' w'
  | _ => False
  end.
Proof.
  pose proof (λ r h' w', set_linearizes 3 0 0 63 true false false demo_handle demo_sim r h' w') as Hset.
  destruct (set 3 0 0 63 true false false (demo_handle, demo_sim)) as [r [h' w']] eqn:E.
  assert (r = Ok (Some 1)) as ->.
  { apply (f_equal fst) in E. revert E. vm_compute. intros E. by symmetry. }
  split; [reflexivity|]. apply (Hset 1 h' w').
  - reflexivity.
  - split; [exact demo_well_formed|]. intros _. exists demo_sim, (Value demo_handle).
    split; [reflexivity|]. split; [exact demo_view|]. apply decode_Value, demo_well_formed.
  - intros v i Hv. change (kv_view demo_sim (ds_Key (Key demo_handle))) with (sim_view demo_sim simKey) in Hv.
    rewrite demo_view in Hv. injection Hv as <- <-. split; [reflexivity|].
    exists (fields demo_handle). split; [apply decode_Value|]; apply demo_well_formed.
  - intros wa wb [_ Hw] Hg. exact (Hw demo_handle Hg).
  - discriminate.
  - lia.
  - lia.
  - lia.
  - reflexivity.
Defined.
