(* ===== verification/Idm.v ===== *)
(** * The id manager of libnetwork

    Models [docker-ce/components/engine/libnetwork/idm/idm.go]: numerical ids out of a
    range, kept as the bits of a handle. The manager is written against [BitPool], what a
    handle promises; a handle without a store (BitHandle.v) is an instance. *)

From S2P Require Import Prelude.
From S2P Require Import GoMonad.
From S2P Require Import BitSeq.
From S2P Require Import BitHandle.

(** ** What the manager needs of a handle *)

(** What the release of an ordinal costs: a handle counts it as free once more when it is
    free already. *)
Definition spent_on (X : gset Z) (o : Z) : Z := if decide (o ∈ X) then 0 else 1.

(** Operations on ordinals below a bound, the ordinals that are taken, and how many
    releases of free ordinals the pool still bears. *)
Class BitPool (S : Type) := {
  bp_SetAny : bool → M S Z;
  bp_SetAnyInRange : Z → Z → bool → M S Z;
  bp_Set : Z → M S ();
  bp_Unset : Z → M S ();
  bp_holds : Z → Z → gset Z → S → Prop;
  bp_SetAny_law : ∀ n b X s serial, bp_holds n b X s →
    match bp_SetAny serial s with
    | (Ok o, s') => 0 ≤ o < n ∧ o ∉ X ∧ bp_holds n b ({[o]} ∪ X) s'
    | (Err _, s') => (∀ i, 0 ≤ i < n → i ∈ X) ∧ bp_holds n b X s'
    | (Panic _, _) => False
    end;
  bp_SetAnyInRange_law : ∀ n b X s start end_ serial, bp_holds n b X s → 0 ≤ start →
    match bp_SetAnyInRange start end_ serial s with
    | (Ok o, s') => start ≤ o ≤ end_ ∧ end_ < n ∧ o ∉ X ∧ bp_holds n b ({[o]} ∪ X) s'
    | (Err _, s') => (end_ < start ∨ n ≤ end_ ∨ ∀ i, start ≤ i ≤ end_ → i ∈ X) ∧ bp_holds n b X s'
    | (Panic _, _) => False
    end;
  bp_Set_law : ∀ n b X s o, bp_holds n b X s → 0 ≤ o →
    match bp_Set o s with
    | (Ok _, s') => o < n ∧ o ∉ X ∧ bp_holds n b ({[o]} ∪ X) s'
    | (Err _, s') => (n ≤ o ∨ o ∈ X) ∧ bp_holds n b X s'
    | (Panic _, _) => False
    end;
  bp_Unset_law : ∀ n b X s o, bp_holds n b X s → 0 ≤ o → o < n → spent_on X o ≤ b →
    match bp_Unset o s with
    | (Ok _, s') => bp_holds n (b - spent_on X o) (X ∖ {[o]}) s'
    | _ => False
    end;
  bp_Unset_outside : ∀ n b X s o, bp_holds n b X s → n ≤ o →
    match bp_Unset o s with
    | (Err _, s') => bp_holds n b X s'
    | _ => False
    end
}.

(** ** The manager *)

Record Idm := mk_Idm { i_start : Z; i_end : Z; i_handle : bool (* not nil *) }.

Section Manager.
Context {S : Type} `{BitPool S}.

Definition not_initialized : error := ErrNew "ID set is not initialized".

Definition GetID (i : Idm) (serial : bool) : M S Z :=
  if negb (i_handle i) then throw not_initialized
  else do ordinal ← bp_SetAny serial; ret (u64 (i_start i + ordinal)).

Definition GetSpecificID (i : Idm) (id : Z) : M S () :=
  if negb (i_handle i) then throw not_initialized
  else if (id <? i_start i) || (i_end i <? id) then throw (ErrNew "Requested id does not belong to the set")
  else bp_Set (u64 (id - i_start i)).

Definition GetIDInRange (i : Idm) (start end_ : Z) (serial : bool) : M S Z :=
  if negb (i_handle i) then throw not_initialized
  else if (start <? i_start i) || (i_end i <? end_)
  then throw (ErrNew "Requested range does not belong to the set")
  else
    do ordinal ← bp_SetAnyInRange (u64 (start - i_start i)) (u64 (end_ - i_start i)) serial;
    ret (u64 (i_start i + ordinal)).

Definition Release (i : Idm) (id : Z) : M S () :=
  if i_handle i then ignore (bp_Unset (u64 (id - i_start i))) else panic "nil pointer dereference".
End Manager.

(** [New]: the handle of the state is the new one. *)
Definition New {W} `{Handler dcall W} (ds : bool) (id : string) (start end_ : Z) : M (Handle * W) Idm :=
  if String.eqb id "" then throw (ErrNew "Invalid id")
  else if end_ <=? start then throw (ErrNew "Invalid set range")
  else
    change (λ _, new_handle "idm" ds id (u64 (u64 (1 + end_) - start))) ;;;
    map_err (ErrWrap "failed to initialize bit sequence handler") NewHandle ;;;
    ret (mk_Idm start end_ true).

(** ** A handle without a store is a pool *)

Definition in_one_round {S A} (m : M S (option A)) : M S A :=
  do r ← m; match r with Some a => ret a | None => panic "another round" end.

#[export, refine] Instance local_pool {W} `{Handler dcall W} : BitPool (Handle * W) := {
  bp_SetAny serial := in_one_round (SetAny 1 serial);
  bp_SetAnyInRange start end_ serial := in_one_round (SetAnyInRange 1 start end_ serial);
  bp_Set o := in_one_round (Set_ 1 o);
  bp_Unset o := in_one_round (Unset 1 o);
  bp_holds n b X s := ∃ k, holds n k X s.1 ∧ n + k + b < 2 ^ 64
}.
Proof.
  - intros n b X [h w] serial (k & Hh & Hk). pose proof (SetAny_local n k X h 0 serial w Hh) as Ho.
    unfold in_one_round, bind, any_outcome in *.
    destruct (SetAny 1 serial (h, w)) as [[[o|]|e|x] [h' w']]; [|done| |done].
    + destruct Ho as (_ & Hh' & _ & Hs).
      destruct Hs as [(_ & ? & ? & _)|(_ & ? & ? & _)]; cbn;
        pose proof (ho_set _ _ _ _ Hh' o ltac:(set_solver)); (split; [lia|split; [done|by exists k]]).
    + destruct Ho as (_ & [= -> ->] & Hall). split; [|by exists k]. intros i Hi. apply Hall. lia.
  - intros n b X [h w] start end_ serial (k & Hh & Hk) Hs. pose proof (SetAnyInRange_local n k X h 0 start end_ serial w Hh Hs) as Ho.
    destruct (Z.ltb_spec end_ start), (Z.leb_spec n end_); cbn [orb] in Ho;
      try (unfold in_one_round, bind; rewrite Ho; split; [lia|by exists k]).
    unfold in_one_round, bind, any_outcome in *.
    destruct (SetAnyInRange 1 start end_ serial (h, w)) as [[[o|]|e|x] [h' w']]; [|done| |done].
    + destruct Ho as (_ & Hh' & _ & Hs').
      destruct Hs' as [(? & ? & ? & _)|(_ & ? & ? & _)]; cbn; (split; [lia|split; [lia|split; [done|by exists k]]]).
    + destruct Ho as (_ & [= -> ->] & Hall). split; [|by exists k]. by right; right.
  - intros n b X [h w] o (k & Hh & Hk) Hs. pose proof (Set_local n k X h 0 o w Hh Hs) as Ho.
    unfold in_one_round, bind. destruct (Set_ 1 o (h, w)) as [[[[]|]|e|x] [h' w']]; [|done| |done].
    + destruct Ho as (_ & ? & ? & ?). split; [done|]. split; [done|]. by exists k.
    + destruct Ho as ([= -> ->] & Ho). split; [tauto|by exists k].
  - intros n b X [h w] o (k & Hh & Hk) Hs Hn Hb. pose proof (Unset_local n k X h 0 o w Hh Hs) as Ho.
    unfold in_one_round, bind. destruct (Z.leb_spec n o); [lia|].
    destruct Ho as (h' & -> & Hh'); [|exists (slack_after X k o); split; [done|]];
      unfold slack_after, spent_on in *; destruct (decide (o ∈ X)); lia.
  - intros n b X [h w] o (k & Hh & Hk) Hn. pose proof (ho_range _ _ _ _ Hh). pose proof (Unset_local n k X h 0 o w Hh ltac:(lia)) as Ho.
    unfold in_one_round, bind. destruct (Z.leb_spec n o); [|lia]. rewrite Ho. by exists k.
Defined.

(** ** The abstract pool of ids *)

Inductive pool_op :=
  | OpGetID (serial : bool)
  | OpGetSpecificID (id : Z)
  | OpGetIDInRange (a b : Z) (serial : bool)
  | OpRelease (id : Z).

(** From the ids that are taken to the ids that are taken, with the result. *)
Inductive pool_step (lo hi : Z) (X : gset Z) : pool_op → result Z → gset Z → Prop :=
  | get_free serial id :
      lo ≤ id ≤ hi → id ∉ X → pool_step lo hi X (OpGetID serial) (Ok id) ({[id]} ∪ X)
  | get_full serial e :
      (∀ id, lo ≤ id ≤ hi → id ∈ X) → pool_step lo hi X (OpGetID serial) (Err e) X
  | specific_free id :
      lo ≤ id ≤ hi → id ∉ X → pool_step lo hi X (OpGetSpecificID id) (Ok id) ({[id]} ∪ X)
  | specific_refused id e :
      id < lo ∨ hi < id ∨ id ∈ X → pool_step lo hi X (OpGetSpecificID id) (Err e) X
  | range_free a b serial id :
      lo ≤ a → a ≤ id ≤ b → b ≤ hi → id ∉ X → pool_step lo hi X (OpGetIDInRange a b serial) (Ok id) ({[id]} ∪ X)
  | range_refused a b serial e :
      a < lo ∨ hi < b ∨ b < a ∨ (∀ id, a ≤ id ≤ b → id ∈ X) →
      pool_step lo hi X (OpGetIDInRange a b serial) (Err e) X
  | release_taken id :
      id ∈ X → pool_step lo hi X (OpRelease id) (Ok id) (X ∖ {[id]})
  | release_free id :
      lo ≤ id ≤ hi → id ∉ X → pool_step lo hi X (OpRelease id) (Ok id) X
  | release_foreign id :
      id < lo ∨ hi < id → pool_step lo hi X (OpRelease id) (Ok id) X.

Section Pool.
Context {S : Type} `{BitPool S}.

Definition run_op (i : Idm) (op : pool_op) : M S Z :=
  match op with
  | OpGetID serial => GetID i serial
  | OpGetSpecificID id => do _ ← GetSpecificID i id; ret id
  | OpGetIDInRange a b serial => GetIDInRange i a b serial
  | OpRelease id => Release i id ;;; ret id
  end.

(** Arguments are 64-bit numbers. *)
Definition op_ok (op : pool_op) : Prop :=
  match op with
  | OpGetID _ => True
  | OpGetSpecificID id => 0 ≤ id < 2 ^ 64
  | OpGetIDInRange a b _ => 0 ≤ a < 2 ^ 64 ∧ 0 ≤ b < 2 ^ 64
  | OpRelease id => 0 ≤ id < 2 ^ 64
  end.

(** The releases of free ids that an operation adds to the count of the handle. *)
Definition spent (i : Idm) (X : gset Z) (op : pool_op) : Z :=
  match op with
  | OpRelease id => if decide (i_start i ≤ id ≤ i_end i) then spent_on X id else 0
  | _ => 0
  end.

(** The manager has handed out the ids [X] and bears [b] more releases of free ids. *)
Record pool (i : Idm) (b : Z) (X : gset Z) (s : S) : Prop := {
  po_handle : i_handle i = true;
  po_range : 0 ≤ i_start i < i_end i;
  po_width : i_end i < 2 ^ 64;
  po_bits : 1 + i_end i - i_start i < 2 ^ 64;
  po_holds : ∃ Y, bp_holds (1 + i_end i - i_start i) b Y s ∧
    ∀ id, id ∈ X ↔ i_start i ≤ id ≤ i_end i ∧ id - i_start i ∈ Y
}.

Lemma pool_next i b X X' s s' Y' :
  pool i b X s → bp_holds (1 + i_end i - i_start i) b Y' s' →
  (∀ id, id ∈ X' ↔ i_start i ≤ id ≤ i_end i ∧ id - i_start i ∈ Y') → pool i b X' s'.
Proof. intros [H1 H2 H3 H4 _] HY HX. split; [done..|]. by exists Y'. Qed.

Lemma pool_take i b X Y s s' id :
  pool i b X s → (∀ id, id ∈ X ↔ i_start i ≤ id ≤ i_end i ∧ id - i_start i ∈ Y) →
  i_start i ≤ id ≤ i_end i → bp_holds (1 + i_end i - i_start i) b ({[id - i_start i]} ∪ Y) s' →
  pool i b ({[id]} ∪ X) s'.
Proof.
  intros Hp HX Hid HY. eapply pool_next; [done|done|]. intros id'.
  rewrite !elem_of_union, !elem_of_singleton, HX. split; [|intros [? [?|?]]; [left; lia|by right]].
  intros [->|[? ?]]; [by split; [|left]|by split; [|right]].
Qed.

(** The ordinal of an id, and what lies outside. *)
Lemma ordinal_of i b X s id :
  pool i b X s → 0 ≤ id < 2 ^ 64 →
  0 ≤ u64 (id - i_start i) ∧
  (i_start i ≤ id → u64 (id - i_start i) = id - i_start i) ∧
  (id < i_start i → 1 + i_end i - i_start i ≤ u64 (id - i_start i)).
Proof.
  intros [_ Hr Hw Hb _] Hid. split; [apply (wrapu_range 64); lia|]. split.
  - intros. apply u64_small. lia.
  - intros Hlt. assert (u64 (id - i_start i) = id - i_start i + 2 ^ 64) as ->; [|lia].
    unfold u64, wrapu. symmetry. apply (Z.mod_unique _ _ (-1)); lia.
Qed.

Lemma GetID_step i b X s serial r s' :
  pool i b X s → GetID i serial s = (r, s') →
  ∃ X', pool_step (i_start i) (i_end i) X (OpGetID serial) r X' ∧ pool i b X' s'.
Proof.
  intros Hp E. pose proof Hp as [Hh Hr Hw Hb (Y & HY & HX)]. unfold GetID in E. rewrite Hh in E. cbn [negb] in E.
  pose proof (bp_SetAny_law _ _ _ _ serial HY) as Hlaw. unfold bind in E.
  destruct (bp_SetAny serial s) as [[o|e|x] s1]; [| |done].
  - injection E as <- <-. destruct Hlaw as (Ho & Hfree & HY'). rewrite u64_small by lia.
    exists ({[i_start i + o]} ∪ X). split.
    + apply get_free; [lia|]. rewrite HX. by replace (i_start i + o - i_start i) with o by lia; intros [].
    + eapply pool_take; [done|done|lia|]. by replace (i_start i + o - i_start i) with o by lia.
  - injection E as <- <-. destruct Hlaw as [Hall HY']. exists X. split; [|by eapply pool_next].
    apply get_full. intros id Hid. apply HX. split; [done|]. apply Hall. lia.
Qed.

Lemma GetSpecificID_step i b X s id r s' :
  pool i b X s → 0 ≤ id < 2 ^ 64 → (do _ ← GetSpecificID i id; ret id) s = (r, s') →
  ∃ X', pool_step (i_start i) (i_end i) X (OpGetSpecificID id) r X' ∧ pool i b X' s'.
Proof.
  intros Hp Hid E. pose proof Hp as [Hh Hr Hw Hb (Y & HY & HX)].
  destruct (ordinal_of _ _ _ _ id Hp Hid) as (Hpos & Hin & _).
  unfold GetSpecificID in E. rewrite Hh in E. cbn [negb] in E.
  destruct (Z.ltb_spec id (i_start i)), (Z.ltb_spec (i_end i) id); cbn [orb] in E;
    try (injection E as <- <-; exists X; split; [apply specific_refused; lia|done]).
  rewrite Hin in E, Hpos by lia. pose proof (bp_Set_law _ _ _ _ _ HY Hpos) as Hlaw. unfold bind in E.
  destruct (bp_Set (id - i_start i) s) as [[[]|e|x] s1]; [| |done]; injection E as <- <-.
  - destruct Hlaw as (Ho & Hfree & HY'). exists ({[id]} ∪ X). split; [|by eapply pool_take].
    apply specific_free; [lia|]. by rewrite HX; intros [].
  - destruct Hlaw as [Hwhy HY']. exists X. split; [|by eapply pool_next].
    apply specific_refused. right; right. apply HX. split; [lia|]. destruct Hwhy; [lia|done].
Qed.

Lemma GetIDInRange_step i n X s a b serial r s' :
  pool i n X s → 0 ≤ a < 2 ^ 64 → 0 ≤ b < 2 ^ 64 → GetIDInRange i a b serial s = (r, s') →
  ∃ X', pool_step (i_start i) (i_end i) X (OpGetIDInRange a b serial) r X' ∧ pool i n X' s'.
Proof.
  intros Hp Ha Hb' E. pose proof Hp as [Hh Hr Hw Hb (Y & HY & HX)].
  destruct (ordinal_of _ _ _ _ a Hp Ha) as (Hapos & Hain & _).
  destruct (ordinal_of _ _ _ _ b Hp Hb') as (Hbpos & Hbin & Hbout).
  unfold GetIDInRange in E. rewrite Hh in E. cbn [negb] in E.
  destruct (Z.ltb_spec a (i_start i)), (Z.ltb_spec (i_end i) b); cbn [orb] in E;
    try (injection E as <- <-; exists X; split; [apply range_refused; lia|done]).
  rewrite Hain in E, Hapos by lia.
  pose proof (bp_SetAnyInRange_law _ _ _ _ _ (u64 (b - i_start i)) serial HY Hapos) as Hlaw. unfold bind in E.
  destruct (bp_SetAnyInRange (a - i_start i) (u64 (b - i_start i)) serial s) as [[o|e|x] s1]; [| |done];
    injection E as <- <-.
  - destruct Hlaw as (Ho & Hmax & Hfree & HY').
    assert (u64 (b - i_start i) = b - i_start i) as Eb by (destruct (decide (i_start i ≤ b)); [auto|lia]).
    rewrite Eb in *. rewrite u64_small by lia. exists ({[i_start i + o]} ∪ X). split.
    + apply range_free; [lia|lia|lia|]. rewrite HX.
      by replace (i_start i + o - i_start i) with o by lia; intros [].
    + eapply pool_take; [done|done|lia|]. by replace (i_start i + o - i_start i) with o by lia.
  - destruct Hlaw as [Hwhy HY']. exists X. split; [|by eapply pool_next]. apply range_refused.
    destruct (decide (b < a)); [tauto|]. do 3 right. rewrite Hbin in Hwhy by lia. intros id Hid. apply HX.
    split; [lia|]. destruct Hwhy as [?|[?|Hall]]; [lia|lia|]. apply Hall. lia.
Qed.

Lemma Release_outside i b X s id r s' :
  pool i b X s → 0 ≤ id < 2 ^ 64 → ¬ i_start i ≤ id ≤ i_end i → (Release i id ;;; ret id) s = (r, s') →
  r = Ok id ∧ pool i b X s'.
Proof.
  intros Hp Hid Hi E. pose proof Hp as [Hh Hr Hw Hb (Y & HY & HX)].
  destruct (ordinal_of _ _ _ _ id Hp Hid) as (Hpos & Hin & Hout).
  assert (1 + i_end i - i_start i ≤ u64 (id - i_start i)) as Ho.
  { destruct (decide (id < i_start i)); [auto|]. rewrite Hin; lia. }
  pose proof (bp_Unset_outside _ _ _ _ _ HY Ho) as Hlaw.
  unfold Release in E. rewrite Hh in E. unfold bind at 1, ignore, bind, try in E.
  destruct (bp_Unset (u64 (id - i_start i)) s) as [[[]|e|x] s1]; [done| |done]; injection E as <- <-.
  split; [done|]. by eapply pool_next.
Qed.

Lemma Release_inside i b X s id r s' :
  pool i b X s → 0 ≤ id < 2 ^ 64 → i_start i ≤ id ≤ i_end i → spent_on X id ≤ b →
  (Release i id ;;; ret id) s = (r, s') → r = Ok id ∧ pool i (b - spent_on X id) (X ∖ {[id]}) s'.
Proof.
  intros Hp Hid Hi Hsp E. pose proof Hp as [Hh Hr Hw Hb (Y & HY & HX)].
  destruct (ordinal_of _ _ _ _ id Hp Hid) as (Hpos & Hin & _). rewrite Hin in Hpos by lia.
  assert (spent_on Y (id - i_start i) = spent_on X id) as Hsame.
  { unfold spent_on. assert (id - i_start i ∈ Y ↔ id ∈ X) by (rewrite HX; tauto).
    destruct (decide (id ∈ X)), (decide (id - i_start i ∈ Y)); tauto. }
  pose proof (bp_Unset_law _ _ _ _ _ HY Hpos ltac:(lia) ltac:(lia)) as Hlaw.
  unfold Release in E. rewrite Hh in E. unfold bind at 1, ignore, bind, try in E. rewrite Hin in E by lia.
  destruct (bp_Unset (id - i_start i) s) as [[[]|e|x] s1]; [|done..]; injection E as <- <-.
  split; [done|]. rewrite Hsame in Hlaw. split; [done..|]. exists (Y ∖ {[id - i_start i]}). split; [done|]. intros id'.
  rewrite !elem_of_difference, !elem_of_singleton, HX. split; [|intros [? [? ?]]; split; [tauto|]; intros ->; done].
  intros [[? ?] ?]. split; [done|]. split; [done|]. lia.
Qed.

Lemma Release_step i b X s id r s' :
  pool i b X s → 0 ≤ id < 2 ^ 64 → spent i X (OpRelease id) ≤ b → (Release i id ;;; ret id) s = (r, s') →
  ∃ X', pool_step (i_start i) (i_end i) X (OpRelease id) r X' ∧ pool i (b - spent i X (OpRelease id)) X' s'.
Proof.
  intros Hp Hid Hsp E. cbn [spent] in *. destruct (decide (i_start i ≤ id ≤ i_end i)) as [Hi|Hi].
  - apply (Release_inside i b X) in E as [-> Hp']; [|done..]. exists (X ∖ {[id]}). split; [|done].
    destruct (decide (id ∈ X)); [by apply release_taken|].
    assert (X ∖ {[id]} = X) as -> by set_solver. by apply release_free.
  - apply (Release_outside i b X) in E as [-> Hp']; [|done..]. rewrite Z.sub_0_r. exists X. split; [|done].
    apply release_foreign. lia.
Qed.

(** C25. The manager implements a pool of ids: every operation, with any 64-bit arguments,
    is a step of the abstract pool. An id that is handed out lies in the range and was
    free, a search fails exactly when everything in its range is taken, what is refused
    changes nothing, and ids outside of the range do no harm - the subtractions and
    additions that wrap around included. The release of an id that is free already changes
    nothing either, but the handle counts it: the pool is good for [b] of them, which is
    2^64 - 1 less the size of the range for a new manager, so that the count never wraps
    around. *)
Theorem Idm_refines i b X s op r s' :
  pool i b X s → op_ok op → spent i X op ≤ b → run_op i op s = (r, s') →
  ∃ X', pool_step (i_start i) (i_end i) X op r X' ∧ pool i (b - spent i X op) X' s'.
Proof.
  intros Hp Hop Hsp E. destruct op as [serial|id|a c serial|id]; cbn [run_op op_ok spent] in *; rewrite ?Z.sub_0_r.
  - by apply (GetID_step i b X s serial).
  - by apply (GetSpecificID_step i b X s id).
  - destruct Hop. by apply (GetIDInRange_step i b X s a c serial).
  - by apply (Release_step i b X s id).
Qed.
End Pool.

(** ** New managers *)

(** Without a store, [New] gives an empty pool. *)
Lemma New_pool {W} `{Handler dcall W} id start end_ h (w : W) :
  id ≠ "" → 0 ≤ start < end_ → end_ < 2 ^ 64 → 1 + end_ - start < 2 ^ 64 →
  ∃ h', New false id start end_ (h, w) = (Ok (mk_Idm start end_ true), (h', w)) ∧
    pool (mk_Idm start end_ true) (2 ^ 64 - 1 - (1 + end_ - start)) ∅ (h', w).
Proof.
  intros Hid Hr Hw Hb. unfold New. rewrite (proj2 (String.eqb_neq id "") Hid).
  destruct (Z.leb_spec end_ start); [lia|]. rewrite bind_change.
  assert (u64 (u64 (1 + end_) - start) = 1 + end_ - start) as ->.
  { unfold u64, wrapu. rewrite Zminus_mod_idemp_l. apply Z.mod_small. lia. }
  eexists. split; [reflexivity|]. split; [done..|]. exists ∅. split; [|set_solver].
  exists 0. split; [apply (holds_new "idm" id)|]; simpl; lia.
Qed.

(** The whole range of a 64-bit number has a size of zero: such a manager has no ids. *)
Lemma New_whole_range {W} `{Handler dcall W} id h (w : W) :
  id ≠ "" →
  ∃ i h', New false id 0 (2 ^ 64 - 1) (h, w) = (Ok i, (h', w)) ∧
    GetID i false (h', w) = (Err ErrNoBitAvailable, (h', w)).
Proof.
  intros Hid. unfold New. rewrite (proj2 (String.eqb_neq id "") Hid).
  eexists _, _. split; reflexivity.
Qed.

(** ** At work *)

Lemma Idm_refines_witness :
  ∃ X', pool_step 10 20 ∅ (OpRelease 12) (Ok 12) X' ∧
    pool (mk_Idm 10 20 true) (5 - spent (mk_Idm 10 20 true) ∅ (OpRelease 12)) X' (run_op (mk_Idm 10 20 true) (OpRelease 12) (new_handle "idm" false "x" 11, tt)).2.
Proof.
  apply (Idm_refines (mk_Idm 10 20 true) 5 ∅ (new_handle "idm" false "x" 11, tt) (OpRelease 12)).
  - split; try reflexivity; try (simpl; lia). exists ∅. split.
    + exists 0. split; [apply (holds_new "idm" "x")|]; simpl; lia.
    + intros id. split; [set_solver|intros [_ ?]; set_solver].
  - simpl. lia.
  - vm_compute. discriminate.
  - vm_compute. reflexivity.
Defined.
