(* ===== verification/Enosys.v ===== *)
(** * The ENOSYS stub of the seccomp filter

    Models [libcontainer/seccomp/patchbpf/enosys_linux.go]: the program that is put in
    front of the filter of libseccomp, so that system calls newer than the profile get
    ENOSYS. The instruction set is the interface [ClassicBPF]; libseccomp is outside, its
    functions are parameters. The generator runs over Go maps, in any order, twice; an
    order is an argument. *)

From S2P Require Import Prelude.

(** ** Architectures *)

Inductive ScmpArch :=
  | ArchInvalid | ArchNative | ArchX86 | ArchAMD64 | ArchX32 | ArchARM | ArchARM64
  | ArchMIPS | ArchMIPS64 | ArchMIPS64N32 | ArchMIPSEL | ArchMIPSEL64 | ArchMIPSEL64N32
  | ArchPPC | ArchPPC64 | ArchPPC64LE | ArchS390 | ArchS390X.

#[export] Instance ScmpArch_eq_dec : EqDecision ScmpArch.
Proof. solve_decision. Defined.

Definition all_archs : list ScmpArch :=
  [ArchInvalid; ArchNative; ArchX86; ArchAMD64; ArchX32; ArchARM; ArchARM64; ArchMIPS; ArchMIPS64;
   ArchMIPS64N32; ArchMIPSEL; ArchMIPSEL64; ArchMIPSEL64N32; ArchPPC; ArchPPC64; ArchPPC64LE;
   ArchS390; ArchS390X].

#[export, refine] Instance ScmpArch_finite : finite.Finite ScmpArch := { enum := all_archs }.
Proof.
  - apply (bool_decide_unpack _). by vm_compute.
  - intros []; apply (bool_decide_unpack _); by vm_compute.
Defined.

(** The AUDIT_ARCH constants of the kernel. *)
Definition C_AUDIT_ARCH_I386 : Z := 0x40000003.
Definition C_AUDIT_ARCH_X86_64 : Z := 0xC000003E.
Definition C_AUDIT_ARCH_ARM : Z := 0x40000028.
Definition C_AUDIT_ARCH_AARCH64 : Z := 0xC00000B7.
Definition C_AUDIT_ARCH_MIPS : Z := 0x00000008.
Definition C_AUDIT_ARCH_MIPS64 : Z := 0x80000008.
Definition C_AUDIT_ARCH_MIPS64N32 : Z := 0xA0000008.
Definition C_AUDIT_ARCH_MIPSEL : Z := 0x40000008.
Definition C_AUDIT_ARCH_MIPSEL64 : Z := 0xC0000008.
Definition C_AUDIT_ARCH_MIPSEL64N32 : Z := 0xE0000008.
Definition C_AUDIT_ARCH_PPC : Z := 0x00000014.
Definition C_AUDIT_ARCH_PPC64 : Z := 0x80000015.
Definition C_AUDIT_ARCH_PPC64LE : Z := 0xC0000015.
Definition C_AUDIT_ARCH_S390 : Z := 0x00000016.
Definition C_AUDIT_ARCH_S390X : Z := 0x80000016.

(** ** Instructions *)

Inductive cond := JumpEqual | JumpNotEqual | JumpGreaterThan | JumpLessOrEqual | JumpBitsSet | JumpBitsNotSet.

(** The instructions of the stub; the filter behind it may use [OtherInstruction]s. *)
Inductive insn :=
  | LoadAbsolute (Off Size : Z)
  | JumpIf (Cond : cond) (Val SkipTrue SkipFalse : Z)
  | Jump (Skip : Z)
  | RetConstant (Val : Z)
  | OtherInstruction (Op Jt Jf K : Z).

(** ** The stub *)

(** [map[nativeArch]map[libseccomp.ScmpArch]libseccomp.ScmpSyscall] *)
Abbreviation lastSyscallMap := (gmap Z (gmap ScmpArch Z)).

Section Stub.
(** [SCMP_ACT_ERRNO(ENOSYS)]. *)
Variable retErrnoEnosys : Z.

(** [uint32(len(p))]. *)
Definition len32 {A} (l : list A) : Z := u32 (Z.of_nat (length l)).

(** The jumps of a single architecture. *)
Definition section_tail (baseJumpEnosys sysno : Z) : list insn :=
  let baseJumpFilter := u32 (baseJumpEnosys + 1) in
  if u32 (baseJumpEnosys + 1) <=? 255 then
    [JumpIf JumpGreaterThan (u32 sysno) (u8 (u32 (baseJumpEnosys + 1))) 0;
     Jump baseJumpFilter]
  else
    [JumpIf JumpLessOrEqual (u32 sysno) 1 0;
     Jump (u32 (baseJumpEnosys + 1));
     Jump baseJumpFilter].

(** The check of the x32 bit in front of them. *)
Definition mode_check (nativeArch : Z) (scmpArch : ScmpArch) (sectionTail : list insn)
  : result (list insn) :=
  if nativeArch =? C_AUDIT_ARCH_X86_64 then
    match scmpArch with
    | ArchAMD64 => Ok (JumpIf JumpBitsSet (Z.shiftl 1 30) (u8 (Z.of_nat (length sectionTail) - 1)) 0 :: sectionTail)
    | ArchX32 => Ok (JumpIf JumpBitsNotSet (Z.shiftl 1 30) (u8 (Z.of_nat (length sectionTail) - 1)) 0 :: sectionTail)
    | _ => Err (ErrNew "unknown amd64 native architecture")
    end
  else Ok sectionTail.

(** The jumps when both modes of x86_64 are in the profile. *)
Definition both_modes (baseJumpEnosys x86sysno x32sysno : Z) : list insn :=
  let baseJumpFilter := u32 (baseJumpEnosys + 1) in
  if u32 (baseJumpEnosys + 2) <=? 255 then
    [JumpIf JumpBitsSet (Z.shiftl 1 30) 1 0;
     JumpIf JumpGreaterThan (u32 x86sysno) (u8 (u32 (baseJumpEnosys + 2))) 1;
     JumpIf JumpGreaterThan (u32 x32sysno) (u8 (u32 (baseJumpEnosys + 1))) 0;
     Jump baseJumpFilter]
  else
    [JumpIf JumpBitsSet (Z.shiftl 1 30) 1 0;
     JumpIf JumpGreaterThan (u32 x86sysno) 1 2;
     JumpIf JumpLessOrEqual (u32 x32sysno) 1 0;
     Jump (u32 (baseJumpEnosys + 1));
     Jump baseJumpFilter].

(** The section of one architecture; [None] when it is skipped. *)
Definition arch_section (nativeArch : Z) (maxSyscalls : gmap ScmpArch Z) (programTail : list insn)
  : result (option (list insn)) :=
  let baseJumpEnosys := u32 (len32 programTail - 1) in
  let load := LoadAbsolute 0 4 in
  match map_to_list maxSyscalls with
  | [] => Ok None
  | [(scmpArch, sysno)] =>
      let! sectionTail := mode_check nativeArch scmpArch (section_tail baseJumpEnosys sysno) in
      Ok (Some (load :: sectionTail))
  | [_; _] =>
      if negb (nativeArch =? C_AUDIT_ARCH_X86_64)
      then Err (ErrNew "unknown architecture overlap on native arch")
      else
        match maxSyscalls !! ArchX32 with
        | None => Err (ErrNew "missing x32 in overlapping x86_64 arch")
        | Some x32sysno =>
            match maxSyscalls !! ArchAMD64 with
            | None => Err (ErrNew "missing amd64 in overlapping x86_64 arch")
            | Some x86sysno => Ok (Some (load :: both_modes baseJumpEnosys x86sysno x32sysno))
            end
        end
  | _ => Err (ErrNew "invalid number of architecture overlaps")
  end.

(** One round of the first loop: the program so far and the jump table. *)
Definition add_section (st : list insn * gmap Z Z) (entry : Z * gmap ScmpArch Z)
  : result (list insn * gmap Z Z) :=
  let (programTail, archJumpTable) := st in
  let! s := arch_section entry.1 entry.2 programTail in
  match s with
  | None => Ok (programTail, archJumpTable)
  | Some section =>
      let programTail := section ++ programTail in
      Ok (programTail, <[entry.1 := len32 programTail]> archJumpTable)
  end.

(** One round of the second loop. *)
Definition add_arch_jump (archJumpTable : gmap Z Z) (programTail : list insn) (nativeArch : Z) : list insn :=
  let jump := u32 (len32 programTail - default 0 (archJumpTable !! nativeArch)) in
  if jump <=? 255 then JumpIf JumpEqual nativeArch (u8 jump) 0 :: programTail
  else JumpIf JumpNotEqual nativeArch 1 0 :: Jump jump :: programTail.

(** [order1] and [order2] list the map in the orders in which the two loops see it. *)
Definition generateEnosysStub (order1 : list (Z * gmap ScmpArch Z)) (order2 : list Z) : result (list insn) :=
  let! (programTail, archJumpTable) := foldM add_section ([Jump 1; RetConstant retErrnoEnosys], ∅) order1 in
  let programTail := Jump (len32 programTail) :: programTail in
  let programTail := foldl (add_arch_jump archJumpTable) programTail order2 in
  Ok (LoadAbsolute 4 4 :: programTail).
End Stub.

(** ** What runs before the generator *)

Inductive Action := Kill | Errno | Trap | Allow | Trace | Log | OtherAction (n : Z).

Definition isAllowAction (action : Action) : bool :=
  match action with Allow | Log | Trace => true | _ => false end.

(** A rule of the profile, as far as the stub needs it, and the profile. *)
Record Syscall := mk_Syscall { sc_Name : string }.
Record Seccomp := mk_Seccomp { DefaultAction : Action; Architectures : list string; Syscalls : list Syscall }.

Section Profile.
Variable GetArchFromString : string → error + ScmpArch.
Variable GetNativeArch : error + ScmpArch.
Variable GetSyscallFromNameByArch : string → ScmpArch → error + Z.
Variable retErrnoEnosys : Z.

(** [archToNative] of an architecture that is not [ArchNative]. *)
Definition archToNative_real (arch : ScmpArch) : result Z :=
  match arch with
  | ArchX86 => Ok C_AUDIT_ARCH_I386
  | ArchAMD64 | ArchX32 => Ok C_AUDIT_ARCH_X86_64
  | ArchARM => Ok C_AUDIT_ARCH_ARM
  | ArchARM64 => Ok C_AUDIT_ARCH_AARCH64
  | ArchMIPS => Ok C_AUDIT_ARCH_MIPS
  | ArchMIPS64 => Ok C_AUDIT_ARCH_MIPS64
  | ArchMIPS64N32 => Ok C_AUDIT_ARCH_MIPS64N32
  | ArchMIPSEL => Ok C_AUDIT_ARCH_MIPSEL
  | ArchMIPSEL64 => Ok C_AUDIT_ARCH_MIPSEL64
  | ArchMIPSEL64N32 => Ok C_AUDIT_ARCH_MIPSEL64N32
  | ArchPPC => Ok C_AUDIT_ARCH_PPC
  | ArchPPC64 => Ok C_AUDIT_ARCH_PPC64
  | ArchPPC64LE => Ok C_AUDIT_ARCH_PPC64LE
  | ArchS390 => Ok C_AUDIT_ARCH_S390
  | ArchS390X => Ok C_AUDIT_ARCH_S390X
  | _ => Err (ErrNew "unknown architecture")
  end.

(** The recursion ends when the native architecture is a real one, which libseccomp says. *)
Definition archToNative (arch : ScmpArch) : result Z :=
  match arch with
  | ArchNative =>
      match GetNativeArch with
      | inl e => Err (ErrWrap "get native arch" e)
      | inr arch => archToNative_real arch
      end
  | arch => archToNative_real arch
  end.

Definition largestSyscall (arch : ScmpArch) (syscalls : list Syscall) : Z :=
  foldl (λ largest rule,
    match GetSyscallFromNameByArch (sc_Name rule) arch with
    | inl _ => largest
    | inr sysno => if largest <? sysno then sysno else largest
    end) 0 syscalls.

(** One architecture of the profile. *)
Definition add_arch (syscalls : list Syscall) (lastSyscalls : lastSyscallMap) (ociArch : string)
  : result lastSyscallMap :=
  match GetArchFromString ociArch with
  | inl e => Err (ErrWrap "validating seccomp architecture" e)
  | inr arch =>
      let! arch :=
        match arch with
        | ArchNative =>
            match GetNativeArch with
            | inl e => Err (ErrWrap "get native arch" e)
            | inr arch => Ok arch
            end
        | _ => Ok arch
        end in
      let! nativeArch := wrap_err "cannot map architecture to AUDIT_ARCH_ constant" (archToNative arch) in
      let inner := default ∅ (lastSyscalls !! nativeArch) in
      if bool_decide (is_Some (inner !! arch)) then Ok (<[nativeArch := inner]> lastSyscalls)
      else
        let largest := largestSyscall arch syscalls in
        if negb (largest =? 0) then Ok (<[nativeArch := <[arch := largest]> inner]> lastSyscalls)
        else Ok (<[nativeArch := delete arch inner]> lastSyscalls)
  end.

Definition findLastSyscalls (config : Seccomp) : result lastSyscallMap :=
  foldM (add_arch (Syscalls config)) ∅ (Architectures config).

(** With the orders in which the map is seen; [Ok None] is the nil program. *)
Definition generatePatch (config : Seccomp)
    (order1 : lastSyscallMap → list (Z * gmap ScmpArch Z)) (order2 : lastSyscallMap → list Z)
  : result (option (list insn)) :=
  if isAllowAction (DefaultAction config) then Ok None
  else
    let! lastSyscalls := wrap_err "finding last syscalls for -ENOSYS stub" (findLastSyscalls config) in
    let! stubProgram := wrap_err "generating -ENOSYS stub"
      (generateEnosysStub retErrnoEnosys (order1 lastSyscalls) (order2 lastSyscalls)) in
    Ok (Some stubProgram).

(** [append(patch, program...)]. *)
Definition fullProgram (patch : option (list insn)) (program : list insn) : list insn := default [] patch ++ program.
End Profile.

(** ** The machine that runs the filter *)

(** What a filter sees of a system call; the arguments are in [sd_rest]. *)
Record seccomp_data := mk_data { sd_nr : Z; sd_arch : Z; sd_rest : list Z }.

Inductive flow (S : Type) :=
  | Next (s : S)
  | Skip (n : Z) (s : S)
  | Return (v : Z).
Arguments Next {S} s.
Arguments Skip {S} n s.
Arguments Return {S} v.

Definition holds_cond (c : cond) (a v : Z) : bool :=
  match c with
  | JumpEqual => a =? v
  | JumpNotEqual => negb (a =? v)
  | JumpGreaterThan => v <? a
  | JumpLessOrEqual => a <=? v
  | JumpBitsSet => negb (Z.land a v =? 0)
  | JumpBitsNotSet => Z.land a v =? 0
  end.

(** Classic BPF, for the forms that the stub uses: the system call number is at offset 0
    of the data and the architecture at offset 4. *)
Class ClassicBPF := {
  bstate : Type;
  get_A : bstate → Z;
  set_A : Z → bstate → bstate;
  get_set_A : ∀ a s, get_A (set_A a s) = a;
  set_set_A : ∀ a b s, set_A a (set_A b s) = set_A a s;
  bpf_step : insn → seccomp_data → bstate → flow bstate;
  bpf_load_nr : ∀ d s, bpf_step (LoadAbsolute 0 4) d s = Next (set_A (sd_nr d) s);
  bpf_load_arch : ∀ d s, bpf_step (LoadAbsolute 4 4) d s = Next (set_A (sd_arch d) s);
  bpf_jump_if : ∀ c v t f d s,
    bpf_step (JumpIf c v t f) d s = Skip (if holds_cond c (get_A s) v then t else f) s;
  bpf_jump : ∀ k d s, bpf_step (Jump k) d s = Skip k s;
  bpf_ret : ∀ v d s, bpf_step (RetConstant v) d s = Return v
}.

Section Machine.
Context `{ClassicBPF}.

(** The verdict of a program; [None] when it runs off its end. Jumps go forward, so the
    length of the program is fuel enough. *)
Fixpoint run (fuel : nat) (p : list insn) (d : seccomp_data) (s : bstate) : option Z :=
  match fuel with
  | O => None
  | S fuel' =>
      match p with
      | [] => None
      | i :: rest =>
          match bpf_step i d s with
          | Next s => run fuel' rest d s
          | Skip n s => run fuel' (drop (Z.to_nat n) rest) d s
          | Return v => Some v
          end
      end
  end.
Definition exec (p : list insn) (d : seccomp_data) (s : bstate) : option Z := run (length p) p d s.

Lemma run_enough fuel p d s : (length p ≤ fuel)%nat → run fuel p d s = exec p d s.
Proof.
  revert p s. induction fuel as [fuel IH] using lt_wf_ind. intros p s Hf. unfold exec.
  destruct fuel as [|fuel], p as [|i p]; simpl in *; try done; [lia|].
  destruct (bpf_step i d s) as [s'|n s'|v]; [|..|done].
  - by rewrite (IH fuel), (IH (length p)) by lia.
  - by rewrite (IH fuel), (IH (length p)) by (rewrite ?length_drop; lia).
Qed.

Lemma exec_cons i p d s :
  exec (i :: p) d s =
    match bpf_step i d s with
    | Next s => exec p d s
    | Skip n s => exec (drop (Z.to_nat n) p) d s
    | Return v => Some v
    end.
Proof.
  unfold exec at 1. simpl. destruct (bpf_step i d s); [done| |done].
  apply run_enough. rewrite length_drop. lia.
Qed.
End Machine.

(** ** The decision of the stub *)

(** Whether a call is newer than what the profile knows of its architecture and mode. *)
Definition newer_in (arch : Z) (maxSyscalls : gmap ScmpArch Z) (nr : Z) : bool :=
  if arch =? C_AUDIT_ARCH_X86_64 then
    match maxSyscalls !! (if Z.testbit nr 30 then ArchX32 else ArchAMD64) with
    | Some last => last <? nr
    | None => false
    end
  else match map_to_list maxSyscalls with
       | [(_, last)] => last <? nr
       | _ => false
       end.
Definition newer (lastSyscalls : lastSyscallMap) (arch nr : Z) : bool :=
  match lastSyscalls !! arch with
  | None => false
  | Some maxSyscalls => newer_in arch maxSyscalls nr
  end.

(** The maps that [findLastSyscalls] makes. *)
Definition entry_ok (nativeArch : Z) (maxSyscalls : gmap ScmpArch Z) : Prop :=
  (∀ arch no, maxSyscalls !! arch = Some no → archToNative_real arch = Ok nativeArch ∧ 0 < no < 2 ^ 31).
Definition map_ok (lastSyscalls : lastSyscallMap) : Prop := map_Forall entry_ok lastSyscalls.

Lemma archToNative_inj x y a :
  archToNative_real x = Ok a → archToNative_real y = Ok a →
  x = y ∨ (a = C_AUDIT_ARCH_X86_64 ∧ (x = ArchAMD64 ∨ x = ArchX32) ∧ (y = ArchAMD64 ∨ y = ArchX32)).
Proof. destruct x, y; simpl; intros; simplify_eq; auto 10. Qed.

Lemma archToNative_x86 x : archToNative_real x = Ok C_AUDIT_ARCH_X86_64 → x = ArchAMD64 ∨ x = ArchX32.
Proof. destruct x; simpl; intros; simplify_eq; auto. Qed.

(** The three shapes of an entry. *)
Inductive entry_shape (a : Z) (m : gmap ScmpArch Z) : list (ScmpArch * Z) → Prop :=
  | shape_none : m = ∅ → entry_shape a m []
  | shape_one x no : m = {[x := no]} → archToNative_real x = Ok a → 0 < no < 2 ^ 31 → entry_shape a m [(x, no)]
  | shape_both p q no32 no64 : a = C_AUDIT_ARCH_X86_64 →
      m !! ArchX32 = Some no32 → m !! ArchAMD64 = Some no64 → 0 < no32 < 2 ^ 31 → 0 < no64 < 2 ^ 31 →
      entry_shape a m [p; q].

Lemma entry_shapes a m : entry_ok a m → entry_shape a m (map_to_list m).
Proof.
  intros Hok. assert (∀ x no, (x, no) ∈ map_to_list m → archToNative_real x = Ok a ∧ 0 < no < 2 ^ 31) as Hin.
  { intros x no Hx. by apply Hok, elem_of_map_to_list. }
  pose proof (NoDup_fst_map_to_list m) as Hnd.
  destruct (map_to_list m) as [|[x no] [|[y no'] [|[z no''] l]]] eqn:E.
  - apply shape_none. by apply map_to_list_empty_iff.
  - destruct (Hin x no) as [? ?]; [by left|]. apply shape_one; [|done|done].
    apply map_to_list_inj. rewrite E. by rewrite map_to_list_singleton.
  - destruct (Hin x no) as [Hx Hno]; [by left|]. destruct (Hin y no') as [Hy Hno']; [by right; left|].
    simpl in Hnd. apply NoDup_cons in Hnd as [Hne _].
    assert (x ≠ y) as Hxy by (intros ->; apply Hne; by left).
    assert (m !! x = Some no ∧ m !! y = Some no') as [Lx Ly].
    { split; apply elem_of_map_to_list; rewrite E; [by left|by right; left]. }
    destruct (archToNative_inj x y a Hx Hy) as [|(-> & [-> | ->] & [-> | ->])]; try done;
      by eapply shape_both.
  - exfalso. destruct (Hin x no) as [Hx _]; [by left|]. destruct (Hin y no') as [Hy _]; [by right; left|].
    destruct (Hin z no'') as [Hz _]; [by right; right; left|]. simpl in Hnd.
    apply NoDup_cons in Hnd as [Hne [Hne' _]%NoDup_cons].
    assert (x ≠ y) as Hxy by (intros ->; apply Hne; by left).
    assert (x ≠ z) as Hxz by (intros ->; apply Hne; by right; left).
    assert (y ≠ z) as Hyz by (intros ->; apply Hne'; by left).
    destruct (archToNative_inj x y a Hx Hy) as [|(-> & [-> | ->] & [-> | ->])]; try done;
      by destruct (archToNative_x86 z Hz) as [-> | ->].
Qed.

(** ** A section in front of a tail *)

(** Program lengths are far below the widths of the jumps. *)
Definition small {A} (l : list A) : Prop := Z.of_nat (length l) ≤ 2 ^ 24.

Lemma len32_small {A} (l : list A) : small l → len32 l = Z.of_nat (length l).
Proof. unfold small. intros. apply wrapu_small. lia. Qed.

Lemma u32_small n : 0 ≤ n < 2 ^ 32 → u32 n = n.
Proof. apply wrapu_small. Qed.
Lemma u8_small n : 0 ≤ n < 2 ^ 8 → u8 n = n.
Proof. apply wrapu_small. Qed.

(** A tail ends in the instruction that returns ENOSYS. *)
Definition is_tail (E : Z) (T : list insn) : Prop := ∃ U, T = U ++ [RetConstant E].

Section Sections.
Context `{ClassicBPF}.
Variable E : Z.

Lemma skip_to_filter L T F d s k :
  k = Z.of_nat (length L + length T) → exec (drop (Z.to_nat k) (L ++ T ++ F)) d s = exec F d s.
Proof.
  intros ->. rewrite Nat2Z.id, app_assoc, drop_app_length'; [done|]. by rewrite length_app.
Qed.

Lemma skip_to_enosys L T F d s k :
  is_tail E T → k = Z.of_nat (length L + length T) - 1 → exec (drop (Z.to_nat k) (L ++ T ++ F)) d s = Some E.
Proof.
  intros [U ->] ->. rewrite length_app. simpl.
  replace (Z.to_nat (Z.of_nat (length L + (length U + 1)) - 1)) with (length (L ++ U))
    by (rewrite length_app; lia).
  rewrite <- app_assoc, (app_assoc L), drop_app_length. simpl.
  by rewrite exec_cons, bpf_ret.
Qed.

(** What a program does with a system call when it is entered at its start. *)
Definition decides (S : list insn) (verdict : Z → bool) : Prop :=
  ∀ F d s, 0 ≤ sd_nr d < 2 ^ 32 →
    exec (S ++ F) d s = if verdict (sd_nr d) then Some E else exec F d (set_A (sd_nr d) s).

Lemma exec_load L d s : exec (LoadAbsolute 0 4 :: L) d s = exec L d (set_A (sd_nr d) s).
Proof. by rewrite exec_cons, bpf_load_nr. Qed.

Lemma exec_jump k L d s : exec (Jump k :: L) d s = exec (drop (Z.to_nat k) L) d s.
Proof. by rewrite exec_cons, bpf_jump. Qed.

Lemma exec_jump_if c v t f L d a s :
  exec (JumpIf c v t f :: L) d (set_A a s) =
    exec (drop (Z.to_nat (if holds_cond c a v then t else f)) L) d (set_A a s).
Proof. by rewrite exec_cons, bpf_jump_if, get_set_A. Qed.

Lemma section_tail_decides T no F d s :
  is_tail E T → small T → 0 < no < 2 ^ 31 →
  exec (section_tail (u32 (len32 T - 1)) no ++ T ++ F) d (set_A (sd_nr d) s) =
    if no <? sd_nr d then Some E else exec F d (set_A (sd_nr d) s).
Proof.
  intros HT Hs Hno. assert (1 ≤ Z.of_nat (length T)) as Hl.
  { destruct HT as [U ->]. rewrite length_app. simpl. lia. }
  rewrite len32_small by done. unfold small in Hs. unfold section_tail.
  rewrite (u32_small (Z.of_nat (length T) - 1)), (u32_small (Z.of_nat (length T) - 1 + 1)), (u32_small no) by lia.
  destruct (Z.leb_spec (Z.of_nat (length T) - 1 + 1) 255); simpl app.
  - rewrite u8_small by lia. rewrite exec_jump_if. cbn [holds_cond]. destruct (Z.ltb_spec no (sd_nr d)).
    + apply (skip_to_enosys [Jump _]); [done|]. simpl. lia.
    + simpl. rewrite exec_jump. apply (skip_to_filter []). simpl. lia.
  - rewrite exec_jump_if. cbn [holds_cond].
    destruct (Z.leb_spec (sd_nr d) no), (Z.ltb_spec no (sd_nr d)); try lia; simpl; rewrite exec_jump.
    + apply (skip_to_filter []). simpl. lia.
    + apply (skip_to_enosys [Jump _]); [done|]. simpl. lia.
Qed.

(** The last instruction of these jumps goes to the filter. *)
Lemma section_tail_last T no F d s :
  is_tail E T → small T →
  exec (drop (length (section_tail (u32 (len32 T - 1)) no) - 1)%nat (section_tail (u32 (len32 T - 1)) no ++ T ++ F)) d s =
    exec F d s.
Proof.
  intros HT Hs. assert (1 ≤ Z.of_nat (length T)) as Hl.
  { destruct HT as [U ->]. rewrite length_app. simpl. lia. }
  rewrite len32_small by done. unfold small in Hs. unfold section_tail.
  rewrite (u32_small (Z.of_nat (length T) - 1)), (u32_small (Z.of_nat (length T) - 1 + 1)) by lia.
  destruct (Z.leb_spec (Z.of_nat (length T) - 1 + 1) 255); simpl; rewrite exec_jump;
    apply (skip_to_filter []); simpl; lia.
Qed.

Lemma section_tail_length b no : (2 ≤ length (section_tail b no) ≤ 3)%nat.
Proof. unfold section_tail. case_match; simpl; lia. Qed.

Lemma mode_check_decides a x m T no :
  is_tail E T → small T → m = {[x := no]} → archToNative_real x = Ok a → 0 < no < 2 ^ 31 →
  ∃ L, mode_check a x (section_tail (u32 (len32 T - 1)) no) = Ok L ∧
    decides (LoadAbsolute 0 4 :: L ++ T) (newer_in a m).
Proof.
  intros HT Hs -> Hx Hno. unfold mode_check, newer_in.
  destruct (Z.eqb_spec a C_AUDIT_ARCH_X86_64) as [->|Ha].
  - pose proof (section_tail_length (u32 (len32 T - 1)) no) as Hlen.
    assert (∀ F d s (c : bool),
      exec (drop (Z.to_nat (if c then u8 (Z.of_nat (length (section_tail (u32 (len32 T - 1)) no)) - 1) else 0))
             (section_tail (u32 (len32 T - 1)) no ++ T ++ F)) d (set_A (sd_nr d) s) =
      if c then exec F d (set_A (sd_nr d) s)
      else if no <? sd_nr d then Some E else exec F d (set_A (sd_nr d) s)) as Hjump.
    { intros F d s [].
      - rewrite u8_small by lia. rewrite <- (section_tail_last T no F d) by done. do 2 f_equal. lia.
      - by apply section_tail_decides. }
    destruct (archToNative_x86 x Hx) as [-> | ->]; (eexists; split; [reflexivity|]); intros F d s Hnr;
      simpl app; rewrite exec_load, exec_jump_if, <- app_assoc; cbn [holds_cond];
      change (Z.shiftl 1 30) with (2 ^ 30); rewrite land_pow_zero, ?negb_involutive by lia; rewrite Hjump;
      by destruct (Z.testbit (sd_nr d) 30).
  - eexists. split; [reflexivity|]. intros F d s Hnr. simpl app. rewrite exec_load, <- app_assoc.
    rewrite map_to_list_singleton. by apply section_tail_decides.
Qed.

Lemma both_modes_decides m T no32 no64 :
  is_tail E T → small T → m !! ArchX32 = Some no32 → m !! ArchAMD64 = Some no64 →
  0 < no32 < 2 ^ 31 → 0 < no64 < 2 ^ 31 →
  decides (LoadAbsolute 0 4 :: both_modes (u32 (len32 T - 1)) no64 no32 ++ T) (newer_in C_AUDIT_ARCH_X86_64 m).
Proof.
  intros HT Hs L32 L64 H32 H64 F d s Hnr. assert (1 ≤ Z.of_nat (length T)) as Hl.
  { destruct HT as [U ->]. rewrite length_app. simpl. lia. }
  unfold newer_in. rewrite Z.eqb_refl. simpl app. rewrite exec_load, <- app_assoc.
  rewrite len32_small by done. unfold small in Hs. unfold both_modes.
  rewrite (u32_small (Z.of_nat (length T) - 1)), (u32_small (Z.of_nat (length T) - 1 + 1)),
    (u32_small (Z.of_nat (length T) - 1 + 2)), (u32_small no32), (u32_small no64) by lia.
  change (Z.shiftl 1 30) with (2 ^ 30).
  destruct (Z.leb_spec (Z.of_nat (length T) - 1 + 2) 255); simpl app; rewrite exec_jump_if; cbn [holds_cond];
    rewrite land_pow_zero, negb_involutive by lia.
  - rewrite !u8_small by lia. destruct (Z.testbit (sd_nr d) 30); rewrite ?L32, ?L64; simpl drop;
      rewrite exec_jump_if; cbn [holds_cond].
    + destruct (Z.ltb_spec no32 (sd_nr d)).
      * apply (skip_to_enosys [Jump _]); [done|]. simpl. lia.
      * simpl. rewrite exec_jump. apply (skip_to_filter []). simpl. lia.
    + destruct (Z.ltb_spec no64 (sd_nr d)).
      * apply (skip_to_enosys [JumpIf _ _ _ _; Jump _]); [done|]. simpl. lia.
      * simpl. rewrite exec_jump. apply (skip_to_filter []). simpl. lia.
  - destruct (Z.testbit (sd_nr d) 30); rewrite ?L32, ?L64; simpl drop; rewrite exec_jump_if; cbn [holds_cond].
    + destruct (Z.leb_spec (sd_nr d) no32), (Z.ltb_spec no32 (sd_nr d)); try lia; simpl; rewrite exec_jump.
      * apply (skip_to_filter []). simpl. lia.
      * apply (skip_to_enosys [Jump _]); [done|]. simpl. lia.
    + destruct (Z.ltb_spec no64 (sd_nr d)); simpl; rewrite exec_jump.
      * apply (skip_to_enosys [Jump _]); [done|]. simpl. lia.
      * apply (skip_to_filter []). simpl. lia.
Qed.

(** Every entry gives a section that decides, or, when it is empty, none. *)
Lemma arch_section_decides a m T :
  is_tail E T → small T → entry_ok a m →
  if decide (m = ∅) then arch_section a m T = Ok None
  else ∃ L, arch_section a m T = Ok (Some L) ∧ (length L ≤ 6)%nat ∧ decides (L ++ T) (newer_in a m).
Proof.
  intros HT Hs Hok. unfold arch_section. pose proof (entry_shapes a m Hok) as Hsh.
  assert (∀ p l, map_to_list m = p :: l → m ≠ ∅) as Hne.
  { intros p l E1 ->. by rewrite map_to_list_empty in E1. }
  destruct (map_to_list m) as [|[x no] [|q l]] eqn:El; inversion Hsh; subst.
  - by rewrite decide_True.
  - rewrite decide_False by (by eapply Hne).
    destruct (mode_check_decides a x _ T no HT Hs eq_refl ltac:(done) ltac:(done)) as (L & EL & Hd).
    rewrite EL. simpl. eexists. split; [done|]. split; [|done].
    pose proof (section_tail_length (u32 (len32 T - 1)) no). unfold mode_check in EL.
    destruct (a =? C_AUDIT_ARCH_X86_64); [destruct x|]; simplify_eq; simpl; lia.
  - rewrite decide_False by (by eapply Hne). rewrite Z.eqb_refl. simpl.
    match goal with
    | L32 : m !! ArchX32 = Some ?a, L64 : m !! ArchAMD64 = Some ?b |- _ =>
        rewrite L32, L64; eexists; split; [reflexivity|]; split;
          [unfold both_modes; case_match; simpl; lia|by apply both_modes_decides]
    end.
Qed.

(** ** The first loop *)

(** The table leads to code that decides as the entries say; empty entries are not in it. *)
Definition table_ok (entries : list (Z * gmap ScmpArch Z)) (T : list insn) (J : gmap Z Z) : Prop :=
  (∀ a m, (a, m) ∈ entries →
     if decide (m = ∅) then J !! a = None
     else ∃ S, J !! a = Some (Z.of_nat (length S)) ∧ S `suffix_of` T ∧ decides S (newer_in a m)) ∧
  ∀ a, a ∉ entries.*1 → J !! a = None.

Lemma table_ok_suffix entries T T' J : table_ok entries T J → T `suffix_of` T' → table_ok entries T' J.
Proof.
  intros [H1 H2] Hs. split; [|done]. intros a m Hin. specialize (H1 a m Hin). case_decide; [done|].
  destruct H1 as (S & ? & ? & ?). exists S. split; [done|]. split; [by transitivity T|done].
Qed.

Lemma add_sections entries done T J :
  NoDup (done ++ entries).*1 → Forall (λ e, entry_ok e.1 e.2) entries →
  is_tail E T → Z.of_nat (length T) + 6 * Z.of_nat (length entries) ≤ 2 ^ 23 → table_ok done T J →
  ∃ T' J', foldM add_section (T, J) entries = Ok (T', J') ∧ is_tail E T' ∧
    (length T' ≤ length T + 6 * length entries)%nat ∧ table_ok (done ++ entries) T' J'.
Proof.
  revert done T J; induction entries as [|[a m] entries IH]; intros dn T J Hnd Hok HT Hlen Htab.
  - exists T, J. rewrite app_nil_r. split; [done|]. split; [done|]. split; [simpl; lia|done].
  - apply Forall_cons in Hok as [Hm Hok]. cbn [fst snd] in Hm. cbn [length] in Hlen.
    assert (a ∉ dn.*1) as Hfresh.
    { rewrite fmap_app in Hnd. simpl in Hnd. apply NoDup_app in Hnd as (_ & Hd & _). intros Hin.
      apply (Hd a Hin). by left. }
    assert (small T) as Hsm by (unfold small; lia).
    cbn [foldM]. unfold add_section at 1. cbn [fst snd].
    pose proof (arch_section_decides a m T HT Hsm Hm) as Hsec.
    rewrite (cons_middle (a, m)), app_assoc in Hnd |- *.
    destruct (decide (m = ∅)) as [->|Hne].
    + rewrite Hsec. cbn [rbind].
      destruct (IH (dn ++ [(a, ∅)]) T J) as (T' & J' & -> & ? & ? & ?); [done|done|done|lia| |].
      { destruct Htab as [H1 H2]. split.
        - intros a' m' [Hin|[= -> ->]%list_elem_of_singleton]%elem_of_app; [by apply H1|].
          rewrite decide_True by done. by apply H2.
        - intros a' Ha'. apply H2. rewrite fmap_app in Ha'. set_solver. }
      exists T', J'. split; [done|]. split; [done|]. split; [simpl; lia|done].
    + destruct Hsec as (L & -> & HL & Hd). cbn [rbind].
      assert (len32 (L ++ T) = Z.of_nat (length (L ++ T))) as Hl32.
      { apply len32_small. unfold small. rewrite length_app. lia. }
      rewrite Hl32.
      destruct (IH (dn ++ [(a, m)]) (L ++ T) (<[a := Z.of_nat (length (L ++ T))]> J)) as (T' & J' & -> & ? & Hlen' & ?).
      * done.
      * done.
      * destruct HT as [U ->]. exists (L ++ U). by rewrite app_assoc.
      * rewrite length_app. lia.
      * destruct (table_ok_suffix dn T (L ++ T) J Htab (suffix_app_r _ _ _ (reflexivity T))) as [H1 H2]. split.
        -- intros a' m' [Hin|[= -> ->]%list_elem_of_singleton]%elem_of_app.
           ++ assert (a' ≠ a). { intros ->. apply Hfresh. apply list_elem_of_fmap. by exists (a, m'). }
              rewrite lookup_insert_ne by done. by apply H1.
           ++ rewrite decide_False by done. exists (L ++ T). rewrite lookup_insert_eq. by split.
        -- intros a' Ha'. rewrite fmap_app in Ha'. rewrite lookup_insert_ne by set_solver. apply H2. set_solver.
      * exists T', J'. split; [done|]. split; [done|]. rewrite length_app in Hlen'. split; [simpl; lia|done].
Qed.

(** ** The second loop *)

(** The jumps of the architectures [archs] in front of the rest: a call of one of them goes
    to its section, or to the filter when it has none, and any other call to the filter. *)
Definition dispatches (m : lastSyscallMap) (J : gmap Z Z) (archs : list Z) (P : list insn) : Prop :=
  ∀ F d s, 0 ≤ sd_nr d < 2 ^ 32 →
    exec (P ++ F) d (set_A (sd_arch d) s) =
      match J !! sd_arch d with
      | Some _ =>
          if decide (sd_arch d ∈ archs) then
            if newer m (sd_arch d) (sd_nr d) then Some E else exec F d (set_A (sd_nr d) s)
          else exec F d (set_A (sd_arch d) s)
      | None => exec F d (set_A (sd_arch d) s)
      end.

Lemma jump_to_suffix (P S : list insn) k :
  S `suffix_of` P → small P → k = Z.of_nat (length S) →
  ∀ F : list insn, drop (Z.to_nat (u32 (len32 P - k))) (P ++ F) = S ++ F.
Proof.
  intros [X ->] Hs -> F. rewrite len32_small by done. unfold small in Hs. rewrite length_app in *.
  rewrite u32_small by lia. rewrite <- app_assoc.
  replace (Z.to_nat _) with (length X) by lia. apply drop_app_length.
Qed.

Lemma jump_enough (P S : list insn) :
  S `suffix_of` P → small P → 0 ≤ u32 (len32 P - Z.of_nat (length S)) < 2 ^ 32.
Proof. intros. apply (wrapu_range 32). lia. Qed.

(** A jump of an architecture, short or long. *)
Lemma exec_add_arch_jump J P a S F d s :
  S `suffix_of` P → small P → default 0 (J !! a) = Z.of_nat (length S) →
  exec (add_arch_jump J P a ++ F) d (set_A (sd_arch d) s) =
    if sd_arch d =? a then exec (S ++ F) d (set_A (sd_arch d) s)
    else exec (P ++ F) d (set_A (sd_arch d) s).
Proof.
  intros HS Hs Hk. unfold add_arch_jump. rewrite Hk.
  pose proof (jump_to_suffix P S _ HS Hs eq_refl) as Hj.
  pose proof (jump_enough P S HS Hs) as Hr.
  set (jump := u32 (len32 P - Z.of_nat (length S))) in *.
  destruct (Z.leb_spec jump 255); simpl app; rewrite exec_jump_if; cbn [holds_cond].
  - rewrite u8_small by lia. destruct (sd_arch d =? a); [by rewrite Hj|done].
  - destruct (sd_arch d =? a); simpl; [rewrite exec_jump; by rewrite Hj|done].
Qed.

Lemma add_arch_jump_length J P a : (length P ≤ length (add_arch_jump J P a) ≤ length P + 2)%nat.
Proof. unfold add_arch_jump. case_match; simpl; lia. Qed.

Lemma add_arch_jump_suffix J P a : P `suffix_of` add_arch_jump J P a.
Proof. unfold add_arch_jump. case_match; [by exists [JumpIf JumpEqual a (u8 (u32 (len32 P - default 0 (J !! a)))) 0]|].
  by exists [JumpIf JumpNotEqual a 1 0; Jump (u32 (len32 P - default 0 (J !! a)))]. Qed.

(** The table, for a map of entries. *)
Definition table_for (m : lastSyscallMap) (J : gmap Z Z) (P : list insn) : Prop :=
  ∀ a, match J !! a with
       | None => ∀ nr, newer m a nr = false
       | Some k => ∃ S, k = Z.of_nat (length S) ∧ S `suffix_of` P ∧ decides S (newer m a)
       end.

Lemma table_for_suffix m J P P' : table_for m J P → P `suffix_of` P' → table_for m J P'.
Proof.
  intros Ht Hs a. specialize (Ht a). destruct (J !! a); [|done]. destruct Ht as (S & ? & ? & ?).
  exists S. split; [done|]. split; [by transitivity P|done].
Qed.

Lemma add_arch_jumps m J order archs P :
  table_for m J P → dispatches m J archs P → Z.of_nat (length P) + 2 * Z.of_nat (length order) ≤ 2 ^ 24 →
  dispatches m J (archs ++ order) (foldl (add_arch_jump J) P order).
Proof.
  revert archs P; induction order as [|a order IH]; intros archs P Ht Hd Hlen; [by rewrite app_nil_r|].
  simpl. cbn [length] in Hlen. rewrite (cons_middle a), app_assoc.
  pose proof (add_arch_jump_length J P a). pose proof (add_arch_jump_suffix J P a) as Hsuf.
  apply IH; [by eapply table_for_suffix| |lia].
  assert (small P) as Hs by (unfold small; lia).
  intros F d s Hnr. pose proof (Ht a) as Hta.
  assert (∃ S, S `suffix_of` P ∧ default 0 (J !! a) = Z.of_nat (length S) ∧
            match J !! a with None => S = [] | Some _ => decides S (newer m a) end) as (S & HS & Hk & HSd).
  { destruct (J !! a) as [k|]; [destruct Hta as (S & ? & ? & ?); by exists S|].
    exists []. split; [apply suffix_nil|done]. }
  rewrite (exec_add_arch_jump J P a S) by done.
  destruct (Z.eqb_spec (sd_arch d) a) as [<-|Hne].
  - rewrite decide_True by set_solver. destruct (J !! sd_arch d) eqn:EJ.
    + by rewrite HSd, set_set_A.
    + by subst S.
  - rewrite Hd by done. destruct (J !! sd_arch d); [|done].
    destruct (decide (sd_arch d ∈ archs)).
    + by rewrite decide_True by set_solver.
    + by rewrite decide_False by set_solver.
Qed.

(** ** The stub *)

Lemma table_ok_for m entries T J :
  entries ≡ₚ map_to_list m → table_ok entries T J → table_for m J T.
Proof.
  intros Hp [H1 H2] a. unfold newer. destruct (m !! a) as [inner|] eqn:Em.
  - assert ((a, inner) ∈ entries) as Hin by (rewrite Hp; by apply elem_of_map_to_list).
    specialize (H1 a inner Hin). case_decide as Hi.
    + rewrite H1, Hi. intros nr. unfold newer_in. rewrite map_to_list_empty, lookup_empty. by case_match.
    + destruct H1 as (S & -> & ? & ?). by exists S.
  - rewrite H2; [done|]. rewrite Hp. intros ([a' inner] & -> & Hin)%list_elem_of_fmap.
    apply elem_of_map_to_list in Hin. cbn [fst] in Em.
    by assert (Some inner = None) by (by rewrite <- Hin).
Qed.

Lemma generate_spec order1 order2 m :
  map_ok m → Z.of_nat (size m) ≤ 2 ^ 20 → order1 ≡ₚ map_to_list m → order2 ≡ₚ (map_to_list m).*1 →
  ∃ stub, generateEnosysStub E order1 order2 = Ok stub ∧
    ∀ program d s, 0 ≤ sd_nr d < 2 ^ 32 →
      ∃ a, exec (stub ++ program) d s =
        if newer m (sd_arch d) (sd_nr d) then Some E else exec program d (set_A a s).
Proof.
  intros Hok Hsize Hp1 Hp2.
  assert (length order1 = size m ∧ length order2 = size m) as [Hl1 Hl2].
  { split; [rewrite Hp1|rewrite Hp2, length_fmap]; apply (length_map_to_list (M := gmap Z)). }
  unfold generateEnosysStub.
  destruct (add_sections order1 [] [Jump 1; RetConstant E] ∅) as (T & J & -> & HT & Hlen & Htab).
  - simpl. rewrite Hp1. apply NoDup_fst_map_to_list.
  - rewrite Hp1. apply Forall_forall. intros [a inner] Hin%elem_of_map_to_list. by apply (Hok a inner).
  - by exists [Jump 1].
  - simpl. lia.
  - split; [intros a inner Hin; by apply not_elem_of_nil in Hin|intros; apply lookup_empty].
  - simpl in Htab, Hlen. cbn [rbind]. eexists. split; [reflexivity|]. intros program d s Hnr.
    simpl app. rewrite exec_cons, bpf_load_arch.
    pose proof (table_ok_for m order1 T J Hp1 Htab) as Hfor.
    assert (small T) as HsT by (unfold small; lia).
    assert (dispatches m J [] (Jump (len32 T) :: T)) as Hd0.
    { intros F d' s' _. simpl app. rewrite exec_jump.
      etransitivity; [apply (skip_to_filter [] T); rewrite len32_small by done; simpl; lia|].
      by destruct (J !! sd_arch d'). }
    pose proof (add_arch_jumps m J order2 [] _ (table_for_suffix m J _ (_ :: T) Hfor (suffix_cons_r _ _ _ (reflexivity T))) Hd0) as Hd.
    simpl app in Hd. rewrite Hd by (done || (simpl; lia)).
    specialize (Hfor (sd_arch d)). destruct (J !! sd_arch d) as [k|] eqn:EJ.
    + rewrite decide_True; [by exists (sd_nr d)|]. rewrite Hp2. apply list_elem_of_fmap.
      destruct Htab as [_ H2]. destruct (decide (sd_arch d ∈ order1.*1)) as [Hin|Hni].
      * rewrite Hp1 in Hin. by apply list_elem_of_fmap in Hin.
      * by rewrite H2 in EJ.
    + rewrite Hfor. by exists (sd_arch d).
Qed.
End Sections.

(** ** The stub without widths *)

(** The program that the generator means: the same sections and jumps, with the lengths
    and the system call numbers as they are, over integers without a bound. *)
Section Exact.
Variable E : Z.

Definition len {A} (l : list A) : Z := Z.of_nat (length l).
Definition mode_bit : Z := 2 ^ 30.

Definition exact_tail (n sysno : Z) : list insn :=
  if n <=? 255 then [JumpIf JumpGreaterThan sysno n 0; Jump n]
  else [JumpIf JumpLessOrEqual sysno 1 0; Jump n; Jump n].

Definition exact_check (nativeArch : Z) (scmpArch : ScmpArch) (L : list insn) : list insn :=
  if nativeArch =? C_AUDIT_ARCH_X86_64
  then JumpIf (if decide (scmpArch = ArchX32) then JumpBitsNotSet else JumpBitsSet) mode_bit (len L - 1) 0 :: L
  else L.

Definition exact_both (n x86sysno x32sysno : Z) : list insn :=
  JumpIf JumpBitsSet mode_bit 1 0 ::
  (if n <? 255 then
     [JumpIf JumpGreaterThan x86sysno (n + 1) 1; JumpIf JumpGreaterThan x32sysno n 0; Jump n]
   else
     [JumpIf JumpGreaterThan x86sysno 1 2; JumpIf JumpLessOrEqual x32sysno 1 0; Jump n; Jump n]).

Definition exact_section (nativeArch : Z) (maxSyscalls : gmap ScmpArch Z) (T : list insn) : list insn :=
  match map_to_list maxSyscalls with
  | [] => []
  | [(scmpArch, sysno)] => LoadAbsolute 0 4 :: exact_check nativeArch scmpArch (exact_tail (len T) sysno)
  | _ => LoadAbsolute 0 4 ::
      exact_both (len T) (default 0 (maxSyscalls !! ArchAMD64)) (default 0 (maxSyscalls !! ArchX32))
  end.

Definition exact_add (st : list insn * gmap Z Z) (entry : Z * gmap ScmpArch Z) : list insn * gmap Z Z :=
  match exact_section entry.1 entry.2 st.1 with
  | [] => st
  | L => (L ++ st.1, <[entry.1 := len (L ++ st.1)]> st.2)
  end.

Definition exact_jump (J : gmap Z Z) (P : list insn) (nativeArch : Z) : list insn :=
  let jump := len P - default 0 (J !! nativeArch) in
  if jump <=? 255 then JumpIf JumpEqual nativeArch jump 0 :: P
  else JumpIf JumpNotEqual nativeArch 1 0 :: Jump jump :: P.

Definition exact_stub (order1 : list (Z * gmap ScmpArch Z)) (order2 : list Z) : list insn :=
  let (T, J) := foldl exact_add ([Jump 1; RetConstant E], ∅) order1 in
  LoadAbsolute 4 4 :: foldl (exact_jump J) (Jump (len T) :: T) order2.

Lemma section_tail_exact (T : list insn) no :
  (1 ≤ length T)%nat → small T → 0 < no < 2 ^ 31 → section_tail (u32 (len32 T - 1)) no = exact_tail (len T) no.
Proof.
  intros Hl Hs Hno. rewrite len32_small by done. unfold small in Hs. unfold section_tail, exact_tail, len.
  rewrite (u32_small (_ - 1)), (u32_small (_ + 1)), (u32_small no) by lia.
  replace (Z.of_nat (length T) - 1 + 1) with (Z.of_nat (length T)) by lia.
  case_match; [|done]. by rewrite u8_small by lia.
Qed.

Lemma both_modes_exact (T : list insn) x86 x32 :
  (1 ≤ length T)%nat → small T → 0 < x86 < 2 ^ 31 → 0 < x32 < 2 ^ 31 →
  both_modes (u32 (len32 T - 1)) x86 x32 = exact_both (len T) x86 x32.
Proof.
  intros Hl Hs H86 H32. rewrite len32_small by done. unfold small in Hs. unfold both_modes, exact_both, len.
  rewrite (u32_small (_ - 1)), (u32_small (_ + 1)), (u32_small (_ + 2)), (u32_small x86), (u32_small x32) by lia.
  replace (Z.of_nat (length T) - 1 + 1) with (Z.of_nat (length T)) by lia.
  replace (Z.of_nat (length T) - 1 + 2) with (Z.of_nat (length T) + 1) by lia.
  destruct (Z.leb_spec (Z.of_nat (length T) + 1) 255), (Z.ltb_spec (Z.of_nat (length T)) 255); try lia; [|done].
  by rewrite !u8_small by lia.
Qed.

Lemma arch_section_exact a m T :
  (1 ≤ length T)%nat → small T → entry_ok a m →
  arch_section a m T = Ok (match exact_section a m T with [] => None | L => Some L end).
Proof.
  intros Hl Hs Hok. unfold arch_section, exact_section. pose proof (entry_shapes a m Hok) as Hsh.
  destruct (map_to_list m) as [|[x no] [|q l]] eqn:El; inversion Hsh as [|? ? ? Hx Hno|? ? n32 n64 ? L32 L64]; subst; [done|..].
  - rewrite section_tail_exact by done. unfold mode_check, exact_check.
    destruct (Z.eqb_spec a C_AUDIT_ARCH_X86_64) as [->|_]; [|done].
    rewrite u8_small by (unfold exact_tail; case_match; simpl; lia).
    by destruct (archToNative_x86 x Hx) as [-> | ->].
  - rewrite Z.eqb_refl, L32, L64. simpl. by rewrite both_modes_exact.
Qed.

Lemma exact_section_length a m T : (length (exact_section a m T) ≤ 6)%nat.
Proof.
  unfold exact_section, exact_check, exact_tail, exact_both. repeat case_match; simpl; lia.
Qed.

Definition table_within (J : gmap Z Z) (T : list insn) : Prop := ∀ a k, J !! a = Some k → 0 ≤ k ≤ len T.

Lemma add_sections_exact entries T J :
  Forall (λ e, entry_ok e.1 e.2) entries → (1 ≤ length T)%nat →
  len T + 6 * len entries ≤ 2 ^ 23 → table_within J T →
  foldM add_section (T, J) entries = Ok (foldl exact_add (T, J) entries) ∧
  len (foldl exact_add (T, J) entries).1 ≤ len T + 6 * len entries ∧
  table_within (foldl exact_add (T, J) entries).2 (foldl exact_add (T, J) entries).1.
Proof.
  unfold len. revert T J; induction entries as [|[a m] entries IH]; intros T J Hok Hl Hlen HJ; [simpl; split_and!; done || lia|].
  apply Forall_cons in Hok as [Hm Hok]. cbn [length foldM foldl] in *. cbn [fst snd] in Hm.
  assert (small T) as Hs by (unfold small; lia).
  assert (exact_add (T, J) (a, m) =
    match exact_section a m T with [] => (T, J) | L => (L ++ T, <[a := len (L ++ T)]> J) end) as -> by done.
  unfold add_section at 1. cbn [fst snd]. rewrite arch_section_exact by done. cbn [rbind].
  pose proof (exact_section_length a m T) as Hsec. destruct (exact_section a m T) as [|i L]; cbn [rbind].
  - destruct (IH T J Hok Hl ltac:(lia) HJ) as (? & ? & ?). split_and!; done || lia.
  - rewrite len32_small by (unfold small; rewrite length_app; lia).
    destruct (IH ((i :: L) ++ T) (<[a := len ((i :: L) ++ T)]> J) Hok) as (IH1 & IH2 & IH3);
      [rewrite length_app; lia|rewrite length_app; lia|..].
    { intros a' k. unfold len. rewrite lookup_insert_Some, length_app. intros [[_ <-]|[_ Hk]]; [lia|].
      apply HJ in Hk. unfold len in Hk. simpl. lia. }
    rewrite length_app in IH2. split_and!; [exact IH1|lia|exact IH3].
Qed.

Lemma add_arch_jump_exact J P a :
  small P → 0 ≤ default 0 (J !! a) ≤ len P → add_arch_jump J P a = exact_jump J P a.
Proof.
  unfold len. intros Hs Hk. unfold add_arch_jump, exact_jump, len. rewrite len32_small by done. unfold small in Hs.
  rewrite u32_small by lia. case_match; [|done]. by rewrite u8_small by lia.
Qed.

Lemma add_arch_jumps_exact J order P :
  len P + 2 * len order ≤ 2 ^ 24 → table_within J P →
  foldl (add_arch_jump J) P order = foldl (exact_jump J) P order.
Proof.
  unfold len. revert P; induction order as [|a order IH]; intros P Hlen HJ; [done|]. cbn [length foldl] in *.
  pose proof (add_arch_jump_length J P a). rewrite <- add_arch_jump_exact.
  - apply IH; [lia|]. intros a' k Hk. specialize (HJ a' k Hk). unfold len in *. lia.
  - unfold small. lia.
  - destruct (J !! a) as [k|] eqn:Ea; simpl; [by apply HJ in Ea|unfold len; lia].
Qed.

Lemma generate_exact order1 order2 m :
  map_ok m → Z.of_nat (size m) ≤ 2 ^ 20 → order1 ≡ₚ map_to_list m → order2 ≡ₚ (map_to_list m).*1 →
  generateEnosysStub E order1 order2 = Ok (exact_stub order1 order2).
Proof.
  intros Hok Hsize Hp1 Hp2.
  assert (length order1 = size m ∧ length order2 = size m) as [Hl1 Hl2].
  { split; [rewrite Hp1|rewrite Hp2, length_fmap]; apply (length_map_to_list (M := gmap Z)). }
  unfold generateEnosysStub, exact_stub.
  destruct (add_sections_exact order1 [Jump 1; RetConstant E] ∅) as (-> & Hlen & HJ).
  - rewrite Hp1. apply Forall_forall. intros [a inner] Hin%elem_of_map_to_list. by apply (Hok a inner).
  - simpl. lia.
  - unfold len. simpl. lia.
  - intros a k Hk. by rewrite lookup_empty in Hk.
  - cbn [rbind]. destruct (foldl exact_add _ order1) as [T J]. unfold table_within, len in *. cbn [fst snd length] in *.
    rewrite len32_small by (unfold small; lia). do 2 f_equal. apply add_arch_jumps_exact.
    + unfold len. cbn [length]. lia.
    + intros a k Hk%HJ. unfold len. cbn [length]. lia.
Qed.
End Exact.

(** ** Operands and jumps of the stub *)

Definition insn_ok (i : insn) : Prop :=
  match i with
  | LoadAbsolute Off Size => (Off, Size) = (0, 4) ∨ (Off, Size) = (4, 4)
  | JumpIf _ Val SkipTrue SkipFalse => 0 ≤ Val < 2 ^ 32 ∧ 0 ≤ SkipTrue < 2 ^ 8 ∧ 0 ≤ SkipFalse < 2 ^ 8
  | Jump k => 0 ≤ k < 2 ^ 32
  | RetConstant Val => 0 ≤ Val < 2 ^ 32
  | OtherInstruction _ _ _ _ => False
  end.

(** No jump leads further than right behind the program. *)
Definition reaches (i : insn) (n : Z) : Prop :=
  match i with
  | JumpIf _ _ SkipTrue SkipFalse => SkipTrue ≤ n ∧ SkipFalse ≤ n
  | Jump k => k ≤ n
  | _ => True
  end.
Fixpoint sound_code (p : list insn) : Prop :=
  match p with
  | [] => True
  | i :: rest => insn_ok i ∧ reaches i (Z.of_nat (length rest)) ∧ sound_code rest
  end.

Section Bounds.
Variable E : Z.
Hypothesis E_width : 0 ≤ E < 2 ^ 32.

Lemma u8_range n : 0 ≤ u8 n < 2 ^ 8.
Proof. apply (wrapu_range 8). lia. Qed.
Lemma u32_range n : 0 ≤ u32 n < 2 ^ 32.
Proof. apply (wrapu_range 32). lia. Qed.

Lemma section_tail_sound T no :
  (1 ≤ length T)%nat → small T → sound_code T → sound_code (section_tail (u32 (len32 T - 1)) no ++ T).
Proof.
  intros Hl Hs HT. rewrite len32_small by done. unfold small in Hs. unfold section_tail.
  rewrite (u32_small (_ - 1)), (u32_small (_ + 1)) by lia.
  pose proof (u32_range no).
  destruct (Z.leb_spec (Z.of_nat (length T) - 1 + 1) 255); simpl; [rewrite u8_small by lia|]; split_and!; done || lia.
Qed.

Lemma both_modes_sound T x86 x32 :
  (1 ≤ length T)%nat → small T → sound_code T → sound_code (both_modes (u32 (len32 T - 1)) x86 x32 ++ T).
Proof.
  intros Hl Hs HT. rewrite len32_small by done. unfold small in Hs. unfold both_modes.
  rewrite (u32_small (_ - 1)), (u32_small (_ + 1)), (u32_small (_ + 2)) by lia.
  pose proof (u32_range x86). pose proof (u32_range x32). change (Z.shiftl 1 30) with (2 ^ 30).
  destruct (Z.leb_spec (Z.of_nat (length T) - 1 + 2) 255); simpl; [rewrite !u8_small by lia|]; split_and!; done || lia.
Qed.

Lemma arch_section_sound a m T L :
  (1 ≤ length T)%nat → small T → sound_code T → arch_section a m T = Ok (Some L) → sound_code (L ++ T).
Proof.
  intros Hl Hs HT EL. unfold arch_section in EL.
  destruct (map_to_list m) as [|[x no] [|q [|? ?]]]; try done.
  - apply rbind_ok in EL as (L' & Em & [= <-]). simpl. split; [by left|]. split; [done|].
    pose proof (section_tail_sound T no Hl Hs HT) as Hsec.
    pose proof (section_tail_length (u32 (len32 T - 1)) no) as Hlen. unfold mode_check in Em.
    destruct (a =? C_AUDIT_ARCH_X86_64); [|by injection Em as <-].
    change (Z.shiftl 1 30) with (2 ^ 30) in Em. rewrite u8_small in Em by lia.
    destruct x; simplify_eq; cbn [app sound_code insn_ok reaches]; rewrite length_app; split_and!; done || lia.
  - destruct (negb (a =? C_AUDIT_ARCH_X86_64)); [done|].
    destruct (m !! ArchX32); [|done]. destruct (m !! ArchAMD64); [|done]. injection EL as <-.
    simpl. split; [by left|]. split; [done|]. by apply both_modes_sound.
Qed.

Lemma add_sections_sound entries T J T' J' :
  Forall (λ e, entry_ok e.1 e.2) entries → is_tail E T → sound_code T →
  Z.of_nat (length T) + 6 * Z.of_nat (length entries) ≤ 2 ^ 23 →
  (∀ a k, J !! a = Some k → 0 ≤ k ≤ Z.of_nat (length T)) →
  foldM add_section (T, J) entries = Ok (T', J') →
  sound_code T' ∧ (length T' ≤ length T + 6 * length entries)%nat ∧
  ∀ a k, J' !! a = Some k → 0 ≤ k ≤ Z.of_nat (length T').
Proof.
  revert T J; induction entries as [|[a m] entries IH]; intros T J Hok Htail HT Hlen HJ Ef.
  - injection Ef as <- <-. split; [done|]. split; [simpl; lia|done].
  - apply Forall_cons in Hok as [Hm Hok]. cbn [length foldM] in *. unfold add_section at 1 in Ef.
    cbn [fst snd] in *. assert (small T) as Hs by (unfold small; lia).
    assert (1 ≤ length T)%nat as Hl by (destruct Htail as [U ->]; rewrite length_app; simpl; lia).
    assert (∀ L, arch_section a m T = Ok (Some L) → (length L ≤ 6)%nat) as HL6.
    { intros L EL. unfold arch_section in EL. destruct (map_to_list m) as [|[x no] [|q [|? ?]]]; try done.
      - apply rbind_ok in EL as (L' & Em & [= <-]).
        pose proof (section_tail_length (u32 (len32 T - 1)) no) as Hlt. unfold mode_check in Em.
        destruct (a =? C_AUDIT_ARCH_X86_64); [destruct x|]; simplify_eq; simpl; lia.
      - destruct (negb (a =? C_AUDIT_ARCH_X86_64)); [done|].
        destruct (m !! ArchX32); [|done]. destruct (m !! ArchAMD64); [|done]. injection EL as <-.
        unfold both_modes. case_match; simpl; lia. }
    destruct (arch_section a m T) as [[L|]|e|] eqn:EL; cbn [rbind] in Ef; try done.
    + pose proof (HL6 L eq_refl) as HL.
      destruct (IH (L ++ T) (<[a := len32 (L ++ T)]> J) Hok) as (? & Hle & ?); [| | | |done|].
      * destruct Htail as [U ->]. exists (L ++ U). by rewrite app_assoc.
      * by eapply arch_section_sound.
      * rewrite length_app. lia.
      * intros a' k. assert (len32 (L ++ T) = Z.of_nat (length (L ++ T))) as ->.
        { apply len32_small. unfold small. rewrite length_app. lia. }
        rewrite lookup_insert_Some, length_app. intros [[_ <-]|[_ Hk]]; [lia|]. specialize (HJ a' k Hk). lia.
      * split; [done|]. rewrite length_app in Hle. split; [lia|done].
    + destruct (IH T J Hok Htail HT ltac:(lia) HJ Ef) as (? & Hle & ?). split; [done|]. split; [lia|done].
Qed.

Lemma add_arch_jump_sound J P a :
  0 ≤ a < 2 ^ 32 → small P → sound_code P →
  0 ≤ default 0 (J !! a) ≤ Z.of_nat (length P) → sound_code (add_arch_jump J P a).
Proof.
  intros Ha Hs HP Hk. unfold add_arch_jump. rewrite len32_small by done. unfold small in Hs.
  rewrite u32_small by lia. destruct (Z.leb_spec (Z.of_nat (length P) - default 0 (J !! a)) 255).
  - rewrite u8_small by lia. simpl. split_and!; done || lia.
  - simpl. split_and!; done || lia.
Qed.

Lemma add_arch_jumps_sound J order P :
  Forall (λ a, 0 ≤ a < 2 ^ 32) order → sound_code P → Z.of_nat (length P) + 2 * Z.of_nat (length order) ≤ 2 ^ 24 →
  (∀ a k, J !! a = Some k → 0 ≤ k ≤ Z.of_nat (length P)) →
  sound_code (foldl (add_arch_jump J) P order) ∧
  (length (foldl (add_arch_jump J) P order) ≤ length P + 2 * length order)%nat.
Proof.
  revert P; induction order as [|a order IH]; intros P Ho HP Hlen HJ; [simpl; split; [done|lia]|].
  apply Forall_cons in Ho as [Ha Ho]. cbn [length foldl] in *. pose proof (add_arch_jump_length J P a).
  destruct (IH (add_arch_jump J P a) Ho) as [? ?].
  - apply add_arch_jump_sound; [done|unfold small; lia|done|]. destruct (J !! a) as [k|] eqn:Ea; simpl; [by eapply HJ|lia].
  - lia.
  - intros a' k Hk. specialize (HJ a' k Hk). lia.
  - split; [done|lia].
Qed.

Lemma generate_sound order1 order2 m stub :
  map_ok m → Z.of_nat (size m) ≤ 2 ^ 20 → (∀ a, is_Some (m !! a) → 0 ≤ a < 2 ^ 32) →
  order1 ≡ₚ map_to_list m → order2 ≡ₚ (map_to_list m).*1 →
  generateEnosysStub E order1 order2 = Ok stub →
  sound_code stub ∧ (length stub ≤ 4 + 8 * size m)%nat.
Proof.
  intros Hok Hsize Hkeys Hp1 Hp2 Eg.
  assert (length order1 = size m ∧ length order2 = size m) as [Hl1 Hl2].
  { split; [rewrite Hp1|rewrite Hp2, length_fmap]; apply (length_map_to_list (M := gmap Z)). }
  unfold generateEnosysStub in Eg. apply rbind_ok in Eg as ([T J] & Ef & [= <-]).
  apply add_sections_sound in Ef as (HT & Hlen & HJ).
  - simpl in Hlen. assert (len32 T = Z.of_nat (length T)) as ET by (apply len32_small; unfold small; lia).
    destruct (add_arch_jumps_sound J order2 (Jump (len32 T) :: T)) as [Hs Hl].
    + rewrite Hp2. apply Forall_forall. intros a ([a' inner] & -> & Hin)%list_elem_of_fmap.
      apply Hkeys. exists inner. by apply elem_of_map_to_list.
    + rewrite ET. cbn [sound_code insn_ok reaches]. split_and!; done || lia.
    + cbn [length]. lia.
    + intros a k Hk. specialize (HJ a k Hk). cbn [length]. lia.
    + split; [|cbn [length] in *; lia]. cbn [sound_code insn_ok reaches]. auto.
  - rewrite Hp1. apply Forall_forall. intros [a inner] Hin%elem_of_map_to_list. by apply (Hok a inner).
  - by exists [Jump 1].
  - cbn [sound_code insn_ok reaches length]. split_and!; done || lia.
  - cbn [length]. lia.
  - intros a k Hk. by rewrite lookup_empty in Hk.
Qed.
End Bounds.

(** ** The map of last system calls *)

Section Config.
Variable GetArchFromString : string → error + ScmpArch.
Variable GetNativeArch : error + ScmpArch.
Variable GetSyscallFromNameByArch : string → ScmpArch → error + Z.
Variable retErrnoEnosys : Z.
(** Numbers are those of a C [int]. *)
Hypothesis sysno_width : ∀ name arch no, GetSyscallFromNameByArch name arch = inr no → no < 2 ^ 31.

Abbreviation largest := (largestSyscall GetSyscallFromNameByArch).
Abbreviation find_last := (findLastSyscalls GetArchFromString GetNativeArch GetSyscallFromNameByArch).

(** A rule of the profile has this number on an architecture. *)
Definition resolves (syscalls : list Syscall) (arch : ScmpArch) (no : Z) : Prop :=
  ∃ rule, rule ∈ syscalls ∧ GetSyscallFromNameByArch (sc_Name rule) arch = inr no.

Lemma largest_spec arch syscalls :
  0 ≤ largest arch syscalls < 2 ^ 31 ∧
  (∀ no, resolves syscalls arch no → no ≤ largest arch syscalls) ∧
  (largest arch syscalls ≠ 0 → resolves syscalls arch (largest arch syscalls)).
Proof.
  induction syscalls as [|rule syscalls IH] using rev_ind.
  - split; [by vm_compute|]. split; [intros no (r & Hr & _); by apply not_elem_of_nil in Hr|done].
  - assert (largest arch (syscalls ++ [rule]) =
      match GetSyscallFromNameByArch (sc_Name rule) arch with
      | inl _ => largest arch syscalls
      | inr sysno => if largest arch syscalls <? sysno then sysno else largest arch syscalls
      end) as -> by (unfold largestSyscall; by rewrite foldl_app).
    destruct IH as (Hr & Hmax & Hat).
    assert (∀ no, resolves (syscalls ++ [rule]) arch no ↔
      resolves syscalls arch no ∨ GetSyscallFromNameByArch (sc_Name rule) arch = inr no) as Happ.
    { intros no. unfold resolves. setoid_rewrite elem_of_app. setoid_rewrite list_elem_of_singleton. naive_solver. }
    destruct (GetSyscallFromNameByArch (sc_Name rule) arch) as [e|sysno] eqn:Eg.
    + split; [done|]. split; [intros no [?|?]%Happ; [by apply Hmax|done]|]. intros Hne. apply Happ. left. auto.
    + pose proof (sysno_width _ _ _ Eg). destruct (Z.ltb_spec (largest arch syscalls) sysno).
      * split; [lia|]. split; [intros no [Hn|[= ->]]%Happ; [specialize (Hmax no Hn); lia|lia]|].
        intros _. apply Happ. by right.
      * split; [done|]. split; [intros no [Hn|[= ->]]%Happ; [by apply Hmax|lia]|]. intros Hne. apply Happ. left. auto.
Qed.

(** The real architecture of a name of the profile. *)
Definition resolve_arch (ociArch : string) : option ScmpArch :=
  match GetArchFromString ociArch with
  | inl _ => None
  | inr ArchNative => match GetNativeArch with inl _ => None | inr arch => Some arch end
  | inr arch => Some arch
  end.
Definition in_profile (names : list string) (arch : ScmpArch) : Prop :=
  ∃ name, name ∈ names ∧ resolve_arch name = Some arch.

Definition natives : list Z :=
  omap (λ arch, match archToNative_real arch with Ok a => Some a | _ => None end) all_archs.

Lemma natives_spec arch a : archToNative_real arch = Ok a → a ∈ natives.
Proof.
  intros E. apply list_elem_of_omap. exists arch. rewrite E. split; [|done].
  apply (bool_decide_unpack _). by destruct arch.
Qed.

Definition lookup2 (m : lastSyscallMap) (a : Z) (arch : ScmpArch) : option Z := m !! a ≫= (λ inner, inner !! arch).

(** What the map holds after some names. *)
Record collected (syscalls : list Syscall) (names : list string) (m : lastSyscallMap) : Prop := {
  cl_lookup : ∀ a arch no, lookup2 m a arch = Some no ↔
    in_profile names arch ∧ archToNative_real arch = Ok a ∧ no = largest arch syscalls ∧ no ≠ 0;
  cl_natives : ∀ a, is_Some (m !! a) → a ∈ natives
}.

(** What the code makes of a name. *)
Lemma resolve_cases name :
  (∃ e, GetArchFromString name = inl e ∧ resolve_arch name = None) ∨
  (∃ e, GetArchFromString name = inr ArchNative ∧ GetNativeArch = inl e ∧ resolve_arch name = None) ∨
  (∃ x y, GetArchFromString name = inr x ∧
     match x with
     | ArchNative => match GetNativeArch with inl e => Err (ErrWrap "get native arch" e) | inr arch => Ok arch end
     | _ => Ok x
     end = Ok y ∧ resolve_arch name = Some y ∧ archToNative GetNativeArch y = archToNative_real y).
Proof.
  unfold resolve_arch. destruct (GetArchFromString name) as [e|x]; [left; eauto|right].
  destruct (decide (x = ArchNative)) as [->|Hx].
  - destruct GetNativeArch as [e|y] eqn:En; [left; eauto|right]. exists ArchNative, y.
    split; [done|]. split; [done|]. split; [done|]. by destruct y.
  - right. exists x, x. by destruct x.
Qed.

Lemma add_arch_spec syscalls names name m r :
  collected syscalls names m →
  add_arch GetArchFromString GetNativeArch GetSyscallFromNameByArch syscalls m name = r →
  match r with
  | Ok m' => collected syscalls (names ++ [name]) m'
  | Err _ => resolve_arch name = None ∨ ∃ arch e, resolve_arch name = Some arch ∧ archToNative_real arch = Err e
  | Panic _ => False
  end.
Proof.
  intros [Hl Hn] <-.
  assert (∀ arch a, resolve_arch name = Some arch → archToNative_real arch = Ok a →
    collected syscalls (names ++ [name])
      (if bool_decide (is_Some (default ∅ (m !! a) !! arch)) then <[a := default ∅ (m !! a)]> m
       else if negb (largest arch syscalls =? 0)
            then <[a := <[arch := largest arch syscalls]> (default ∅ (m !! a))]> m
            else <[a := delete arch (default ∅ (m !! a))]> m)) as Hstep.
  { intros arch a Hr Ha.
    set (inner := default ∅ (m !! a)) in *.
    assert (∀ x, lookup2 m a x = inner !! x) as Hin.
    { intros x. unfold lookup2, inner. by destruct (m !! a); simpl; [|rewrite lookup_empty]. }
    assert (∀ x, in_profile (names ++ [name]) x ↔ in_profile names x ∨ x = arch) as Hip.
    { intros x. unfold in_profile. setoid_rewrite elem_of_app. setoid_rewrite list_elem_of_singleton.
      split; [intros (nm & [?| ->] & ?); [left; eauto|right; congruence]|intros [(nm & ? & ?)| ->]; eauto]. }
    assert (∀ inner', (∀ x no, inner' !! x = Some no ↔
              (inner !! x = Some no ∨ (x = arch ∧ no = largest arch syscalls ∧ no ≠ 0))) →
            collected syscalls (names ++ [name]) (<[a := inner']> m)) as Hmk.
    { intros inner' Hi. split.
      - intros b x no. destruct (decide (b = a)) as [->|Hb].
        + unfold lookup2 at 1. rewrite lookup_insert_eq. simpl. rewrite Hi, <- Hin, Hl, Hip. split.
          * intros [(? & ? & ? & ?)|(-> & -> & ?)]; [tauto|]. auto.
          * intros ([?| ->] & ? & ? & ?); [by left|by right].
        + unfold lookup2 at 1. rewrite lookup_insert_ne by done. fold (lookup2 m b x). rewrite Hl, Hip.
          split; [intros (? & ? & ? & ?); tauto|]. intros ([?| ->] & ? & ? & ?); [done|congruence].
      - intros b. destruct (decide (b = a)) as [->|Hb]; [intros _; by eapply natives_spec|].
        rewrite lookup_insert_ne by done. apply Hn. }
    destruct (largest_spec arch syscalls) as (Hrange & _).
    case_bool_decide as Hsome; [|destruct (Z.eqb_spec (largest arch syscalls) 0) as [E0|E0]; simpl].
    - apply Hmk. intros x no. split; [by left|]. intros [?|(-> & -> & ?)]; [done|].
      destruct Hsome as [no' Hno']. rewrite Hno'. rewrite <- Hin, Hl in Hno'. by destruct Hno' as (_ & _ & -> & _).
    - apply Hmk. intros x no. destruct (decide (x = arch)) as [->|Hx].
      + rewrite lookup_delete_eq. split; [done|]. intros [Hs|(_ & -> & ?)]; [|done].
        destruct Hsome. by exists no.
      + rewrite lookup_delete_ne by done. naive_solver.
    - apply Hmk. intros x no. destruct (decide (x = arch)) as [->|Hx].
      + rewrite lookup_insert_eq. split; [intros [= <-]; by right|].
        intros [Hs|(_ & -> & ?)]; [|done]. destruct Hsome. by exists no.
      + rewrite lookup_insert_ne by done. naive_solver. }
  unfold add_arch. destruct (resolve_cases name) as [(e & Eg & Er)|[(e & Eg & En & Er)|(x & y & Eg & Ey & Er & Ea)]].
  - rewrite Eg. by left.
  - rewrite Eg, En. by left.
  - rewrite Eg, Ey. cbn [rbind]. rewrite Ea. destruct (archToNative_real y) as [a|e|] eqn:Ey'.
    + cbn [wrap_err rbind]. specialize (Hstep y a Er Ey').
      destruct (bool_decide _); [done|]. by destruct (negb _).
    + right. by exists y, e.
    + by destruct y.
Qed.

Lemma find_last_spec config r :
  find_last config = r →
  match r with
  | Ok m => collected (Syscalls config) (Architectures config) m
  | Err _ => ∃ name, name ∈ Architectures config ∧
      (resolve_arch name = None ∨ ∃ arch e, resolve_arch name = Some arch ∧ archToNative_real arch = Err e)
  | Panic _ => False
  end.
Proof.
  intros <-. unfold findLastSyscalls.
  assert (∀ names dn m, collected (Syscalls config) dn m →
    match foldM (add_arch GetArchFromString GetNativeArch GetSyscallFromNameByArch (Syscalls config)) m names with
    | Ok m' => collected (Syscalls config) (dn ++ names) m'
    | Err _ => ∃ name, name ∈ names ∧
        (resolve_arch name = None ∨ ∃ arch e, resolve_arch name = Some arch ∧ archToNative_real arch = Err e)
    | Panic _ => False
    end) as Hfold.
  { induction names as [|name names IH]; intros dn m Hc; cbn [foldM]; [by rewrite app_nil_r|].
    pose proof (add_arch_spec (Syscalls config) dn name m _ Hc eq_refl) as Hadd.
    destruct (add_arch _ _ _ (Syscalls config) m name) as [m'|e|x]; cbn [rbind]; [|exists name; split; [by left|done]|done].
    specialize (IH (dn ++ [name]) m' Hadd). rewrite <- app_assoc in IH.
    destruct (foldM _ m' names); [done| |done]. destruct IH as (nm & ? & ?). exists nm. split; [by right|done]. }
  apply (Hfold _ []). split.
  - intros a arch no. unfold lookup2. rewrite lookup_empty. split; [done|].
    intros ((nm & Hnm & _) & _). by apply not_elem_of_nil in Hnm.
  - intros a [? Ha]. by rewrite lookup_empty in Ha.
Qed.

Lemma collected_ok config m :
  collected (Syscalls config) (Architectures config) m → map_ok m ∧ Z.of_nat (size m) ≤ 15 ∧
    ∀ a, is_Some (m !! a) → 0 ≤ a < 2 ^ 32.
Proof.
  intros [Hl Hn]. split; [|split].
  - intros a inner Ha arch no Hno. assert (lookup2 m a arch = Some no) as Hl2.
    { unfold lookup2. assert (m !! a = Some inner) as -> by done. done. }
    apply Hl in Hl2 as (_ & ? & -> & ?). split; [done|].
    destruct (largest_spec arch (Syscalls config)) as (? & _). lia.
  - assert (dom m ⊆ (list_to_set natives : gset Z)) as Hsub.
    { intros a Ha. apply elem_of_list_to_set, Hn. by apply elem_of_dom in Ha. }
    apply subseteq_size in Hsub. rewrite size_dom in Hsub.
    assert (size (list_to_set natives : gset Z) = 15%nat) as E by (by vm_compute). rewrite E in Hsub. 
    change (size m) with (size (m : gmap Z (gmap ScmpArch Z))). lia.
  - intros a Ha. specialize (Hn a Ha). unfold natives in Hn.
    assert (Forall (λ a, 0 ≤ a < 2 ^ 32) natives) as Hall.
    { apply (bool_decide_unpack _). by vm_compute. }
    by apply (proj1 (Forall_forall _ _) Hall).
Qed.

(** ** Theorems *)

(** A call of the profile's architectures that is newer than all of its rules: some rule
    names a system call of the architecture and mode, and all of them have smaller
    numbers. The mode of x86_64 is in bit 30 of the number. *)
Definition too_new (config : Seccomp) (d : seccomp_data) : Prop :=
  ∃ arch, in_profile (Architectures config) arch ∧ archToNative_real arch = Ok (sd_arch d) ∧
    (sd_arch d = C_AUDIT_ARCH_X86_64 → arch = if Z.testbit (sd_nr d) 30 then ArchX32 else ArchAMD64) ∧
    (∃ no, resolves (Syscalls config) arch no ∧ 0 < no) ∧
    ∀ no, resolves (Syscalls config) arch no → no < sd_nr d.

Lemma newer_too_new config m d :
  collected (Syscalls config) (Architectures config) m →
  newer m (sd_arch d) (sd_nr d) = true ↔ too_new config d.
Proof.
  intros Hc. pose proof Hc as [Hl _]. destruct (collected_ok config m Hc) as (Hok & _ & _).
  assert (∀ arch, (∃ no, lookup2 m (sd_arch d) arch = Some no ∧ no < sd_nr d) ↔
    (in_profile (Architectures config) arch ∧ archToNative_real arch = Ok (sd_arch d) ∧
     (∃ no, resolves (Syscalls config) arch no ∧ 0 < no) ∧
     ∀ no, resolves (Syscalls config) arch no → no < sd_nr d)) as Hmode.
  { intros arch. destruct (largest_spec arch (Syscalls config)) as (Hr & Hmax & Hat). split.
    - intros (no & (? & ? & -> & Hne)%Hl & Hlt). split; [done|]. split; [done|]. split.
      + exists (largest arch (Syscalls config)). split; [by apply Hat|lia].
      + intros no Hno. specialize (Hmax no Hno). lia.
    - intros (? & ? & (no & Hno & Hpos) & Hall). exists (largest arch (Syscalls config)).
      specialize (Hmax no Hno) as Hle. split; [|apply Hall, Hat; lia]. apply Hl. split_and!; [done|done|done|lia]. }
  assert (newer m (sd_arch d) (sd_nr d) = true ↔ ∃ arch no, lookup2 m (sd_arch d) arch = Some no ∧ no < sd_nr d ∧
    (sd_arch d = C_AUDIT_ARCH_X86_64 → arch = if Z.testbit (sd_nr d) 30 then ArchX32 else ArchAMD64)) as ->.
  { unfold newer, lookup2. destruct (m !! sd_arch d) as [inner|] eqn:Em; [|naive_solver]. cbn [mbind option_bind].
    unfold newer_in. destruct (Z.eqb_spec (sd_arch d) C_AUDIT_ARCH_X86_64) as [Ea|Ea].
    - split.
      + destruct (inner !! _) as [last|] eqn:Ei; [|done]. intros Hlt%Z.ltb_lt. eauto.
      + intros (arch & no & Hi & Hlt & Hm). rewrite <- (Hm Ea), Hi. by apply Z.ltb_lt.
    - pose proof (entry_shapes _ _ (Hok _ _ Em)) as Hsh.
      destruct (map_to_list inner) as [|[x last] [|q l]]; inversion Hsh; subst.
      + split; [done|]. intros (arch & no & Hi & _). by rewrite lookup_empty in Hi.
      + rewrite Z.ltb_lt. split.
        * intros Hlt. exists x, last. by rewrite lookup_singleton_eq.
        * by intros (arch & no & [_ <-]%lookup_singleton_Some & ? & _).
      + done. }
  unfold too_new. split.
  - intros (arch & no & H1 & H2 & H3). exists arch. destruct (proj1 (Hmode arch)) as (? & ? & ? & ?); eauto 10.
  - intros (arch & ? & ? & H3 & ? & ?). destruct (proj2 (Hmode arch)) as (no & ? & ?); eauto 10.
Qed.

Section Patch.
Context `{ClassicBPF}.
Variables (order1 : lastSyscallMap → list (Z * gmap ScmpArch Z)) (order2 : lastSyscallMap → list Z).
Hypothesis order1_lists : ∀ m, order1 m ≡ₚ map_to_list m.
Hypothesis order2_lists : ∀ m, order2 m ≡ₚ (map_to_list m).*1.

Abbreviation generate :=
  (generatePatch GetArchFromString GetNativeArch GetSyscallFromNameByArch retErrnoEnosys).

(** C8. The patched filter. For a profile whose default action is permissive there is no
    stub. Otherwise the patch fails exactly because of an architecture that has no name
    for the kernel; and with the stub in front, whatever the orders of the map iterations
    and whatever the filter is, a system call returns ENOSYS if it is newer than
    everything the profile knows of its architecture and mode, and every other call is
    left to the filter, which is entered at its first instruction. *)
Theorem patch_decides config :
  match generate config order1 order2 with
  | Ok None => isAllowAction (DefaultAction config) = true
  | Ok (Some stub) =>
      isAllowAction (DefaultAction config) = false ∧
      ∀ program d s, 0 ≤ sd_nr d < 2 ^ 32 →
        (too_new config d ∧ exec (fullProgram (Some stub) program) d s = Some retErrnoEnosys) ∨
        (¬ too_new config d ∧ ∃ a, exec (fullProgram (Some stub) program) d s = exec program d (set_A a s))
  | Err _ =>
      isAllowAction (DefaultAction config) = false ∧
      ∃ name, name ∈ Architectures config ∧
        (resolve_arch name = None ∨ ∃ arch e, resolve_arch name = Some arch ∧ archToNative_real arch = Err e)
  | Panic _ => False
  end.
Proof.
  unfold generatePatch. destruct (isAllowAction (DefaultAction config)) eqn:Ea; [done|].
  pose proof (find_last_spec config _ eq_refl) as Hfind.
  destruct (find_last config) as [m|e|x]; cbn [wrap_err rbind]; [|by split|done].
  destruct (collected_ok config m Hfind) as (Hok & Hsize & _).
  destruct (generate_spec retErrnoEnosys (order1 m) (order2 m) m Hok ltac:(lia) (order1_lists m) (order2_lists m))
    as (stub & -> & Hstub).
  cbn [wrap_err rbind]. split; [done|]. intros program d s Hnr. unfold fullProgram. cbn [default].
  destruct (Hstub program d s Hnr) as [a Ha]. change (from_option id [] (Some stub)) with stub.
  pose proof (newer_too_new config m d Hfind) as Hnew.
  destruct (newer m (sd_arch d) (sd_nr d)).
  - left. split; [by apply Hnew|done].
  - right. split; [intros Ht; by apply Hnew in Ht|by exists a].
Qed.

(** The action of the stub is a 32-bit word. *)
Hypothesis enosys_width : 0 ≤ retErrnoEnosys < 2 ^ 32.

(** C30. The widths of the stub. The conversions to [uint8] and [uint32] lose nothing: the
    stub is the program [exact_stub] of unbounded integers, with the largest system call
    numbers of the profile and the distances of the jumps as they are. Every operand fits
    its field, no jump leads further than the first instruction of the filter, and the stub
    has at most 124 instructions, since there are fifteen architectures. *)
Theorem stub_in_bounds config stub :
  generate config order1 order2 = Ok (Some stub) →
  (∃ m, find_last config = Ok m ∧ stub = exact_stub retErrnoEnosys (order1 m) (order2 m)) ∧
  sound_code stub ∧ (length stub ≤ 124)%nat.
Proof.
  unfold generatePatch. destruct (isAllowAction (DefaultAction config)) eqn:Ea; [done|].
  pose proof (find_last_spec config _ eq_refl) as Hfind.
  destruct (find_last config) as [m|e|x]; cbn [wrap_err rbind]; [|done|done].
  destruct (collected_ok config m Hfind) as (Hok & Hsize & Hkeys).
  destruct (generateEnosysStub retErrnoEnosys (order1 m) (order2 m)) as [stub'|e|x] eqn:Eg; [|done|done].
  intros [= <-].
  destruct (generate_sound retErrnoEnosys enosys_width (order1 m) (order2 m) m stub' Hok ltac:(lia) Hkeys
              (order1_lists m) (order2_lists m) Eg).
  rewrite (generate_exact _ _ _ m) in Eg by (done || lia). injection Eg as <-.
  split; [by exists m|]. split; [done|lia].
Qed.
End Patch.
End Config.

(** ** A concrete machine and a concrete libseccomp *)

#[refine] Instance reference_bpf : ClassicBPF := {
  bstate := Z;
  get_A := id;
  set_A := λ a _, a;
  bpf_step := λ i d s,
    match i with
    | LoadAbsolute off _ => Next (if off =? 0 then sd_nr d else if off =? 4 then sd_arch d else 0)
    | JumpIf c v t f => Skip (if holds_cond c s v then t else f) s
    | Jump k => Skip k s
    | RetConstant v => Return v
    | OtherInstruction _ _ _ k => Return k
    end
}.
Proof. all: done. Defined.

(** [SCMP_ACT_ERRNO(38)] and [SCMP_ACT_ALLOW]. *)
Definition enosys_value : Z := 0x00050026.
Definition allow_value : Z := 0x7fff0000.

Definition some_arch (name : string) : error + ScmpArch :=
  if decide (name = "amd64") then inr ArchAMD64
  else if decide (name = "x32") then inr ArchX32
  else if decide (name = "arm64") then inr ArchARM64
  else inl (ErrNew "unknown arch").
Definition some_syscall (name : string) (arch : ScmpArch) : error + Z :=
  if decide (name = "openat2") then inr (if decide (arch = ArchX32) then 0x40000000 + 437 else 437)
  else inl (ErrNew "could not resolve name to syscall").
Definition some_profile : Seccomp := mk_Seccomp Errno ["amd64"; "x32"; "arm64"] [mk_Syscall "openat2"; mk_Syscall "nosuch"].

Lemma some_syscall_width name arch no : some_syscall name arch = inr no → no < 2 ^ 31.
Proof. unfold some_syscall. repeat case_decide; naive_solver lia. Qed.

Lemma enosys_value_width : 0 ≤ enosys_value < 2 ^ 32.
Proof. unfold enosys_value. lia. Qed.

Abbreviation some_patch :=
  (generatePatch some_arch (inr ArchAMD64) some_syscall enosys_value some_profile
     map_to_list (λ m, (map_to_list m).*1)).

(** The newest call of the profile is left to the filter, the next one is not. *)
Lemma patch_decides_witness :
  ∃ stub, some_patch = Ok (Some stub) ∧
    (∀ program d s, 0 ≤ sd_nr d < 2 ^ 32 →
      (too_new some_arch (inr ArchAMD64) some_syscall some_profile d ∧
         exec (fullProgram (Some stub) program) d s = Some enosys_value) ∨
      (¬ too_new some_arch (inr ArchAMD64) some_syscall some_profile d ∧
         ∃ a, exec (fullProgram (Some stub) program) d s = exec program d (set_A a s))) ∧
    Forall (λ arch,
      exec (fullProgram (Some stub) [RetConstant allow_value]) (mk_data 438 arch []) 0 = Some enosys_value ∧
      exec (fullProgram (Some stub) [RetConstant allow_value]) (mk_data 437 arch []) 0 = Some allow_value)
      [C_AUDIT_ARCH_X86_64; C_AUDIT_ARCH_AARCH64].
Proof.
  pose proof (patch_decides some_arch (inr ArchAMD64) some_syscall enosys_value some_syscall_width
    map_to_list (λ m, (map_to_list m).*1) ltac:(done) ltac:(done) some_profile) as Hd.
  assert (∃ stub, some_patch = Ok (Some stub)) as [stub Hs] by (eexists; by vm_compute).
  exists stub. split; [done|]. split.
  - rewrite Hs in Hd. apply Hd.
  - vm_compute in Hs. injection Hs as <-. apply (bool_decide_unpack _). by vm_compute.
Defined.

Lemma stub_in_bounds_witness :
  ∃ stub, some_patch = Ok (Some stub) ∧
    (∃ m, findLastSyscalls some_arch (inr ArchAMD64) some_syscall some_profile = Ok m ∧
       stub = exact_stub enosys_value (map_to_list m) (map_to_list m).*1) ∧
    sound_code stub ∧ (length stub ≤ 124)%nat.
Proof.
  assert (∃ stub, some_patch = Ok (Some stub)) as [stub Hs] by (eexists; by vm_compute).
  exists stub. split; [exact Hs|].
  exact (stub_in_bounds some_arch (inr ArchAMD64) some_syscall enosys_value some_syscall_width
    map_to_list (λ m, (map_to_list m).*1) (λ m, Permutation_refl _) (λ m, Permutation_refl _) enosys_value_width some_profile stub Hs).
Defined.
