(* ===== verification/Task.v ===== *)
(** * The task service of the shim

    Models [cmd/containerd-shim-runc-v2/task/service.go] and the process tables of
    [runc/container.go]: the calls that create, start, add and delete processes run
    concurrently with each other and with [processExits], which learns from the reaper
    that a process has exited. A goroutine is a program counter, [advance] is its next
    action, and [step] interleaves the goroutines with the kernel and the callers. What is
    done under [lifecycleMu], under a container's mutex, or between taking and releasing
    [s.mu] without a send in between is one action. *)

From S2P Require Import Prelude.

(** ** Objects *)

(** What the service sees of the state machines of ShimInit.v and ShimExec.v; [Starting]
    while [Start] runs under the mutex of the process. *)
Inductive phase := Created | Starting | Running | Stopped | Deleted.

#[export] Instance phase_eq_dec : EqDecision phase.
Proof. solve_decision. Defined.

(** Pointers to containers and processes are indices. *)
Record Process := mk_Process { p_id : string; p_init : bool; p_pid : Z; p_phase : phase }.

Record Container := mk_Container {
  c_ID : string;
  c_process : nat;
  c_processes : gmap string nat;
  c_reserved : gset string
}.

(** [runc.Exit] of go-runc. *)
Record Exit := mk_Exit { e_Pid : Z; e_Status : Z }.

#[export] Instance Exit_eq_dec : EqDecision Exit.
Proof. solve_decision. Defined.

Record containerProcess := mk_cp { cp_Container : nat; cp_Process : nat }.

#[export] Instance containerProcess_eq_dec : EqDecision containerProcess.
Proof. solve_decision. Defined.

(** The events, with the process they are about in place of its ids. *)
Inductive event :=
  | TaskCreate (p : nat) (pid : Z)
  | TaskStart (p : nat) (pid : Z)
  | TaskExecAdded (p : nat)
  | TaskExecStarted (p : nat) (pid : Z)
  | TaskExit (p : nat) (pid status : Z)
  | TaskDelete (p : nat) (pid : Z).

#[export] Instance event_eq_dec : EqDecision event.
Proof. solve_decision. Defined.

(** A goroutine: the handler of the i-th call, or [processExits]. *)
Inductive owner := Call (i : nat) | Exits.

#[export] Instance owner_eq_dec : EqDecision owner.
Proof. solve_decision. Defined.

(** The shared state. [events] is what was sent on the channel, of which the last
    [buffered] events are still in it. [ec] is the channel of the reaper; [alive] and
    [used] are the pids the kernel runs and has ever run; [starts] are the processes whose
    [Start] was called and [reaped] the exits that [processExits] has received. *)
Record service := mk_service {
  mu : option owner;
  containers : gmap string nat;
  running : gmap Z (list containerProcess);
  exitSubscribers : gmap nat (gmap Z (list Exit));
  subscribed : nat;
  events : list event;
  buffered : nat;
  conts : list Container;
  procs : list Process;
  ec : list Exit;
  alive : gset Z;
  used : gset Z;
  starts : list nat;
  reaped : list Exit
}.

Definition set_mu m s := mk_service m (containers s) (running s) (exitSubscribers s) (subscribed s)
  (events s) (buffered s) (conts s) (procs s) (ec s) (alive s) (used s) (starts s) (reaped s).
Definition set_containers m s := mk_service (mu s) m (running s) (exitSubscribers s) (subscribed s)
  (events s) (buffered s) (conts s) (procs s) (ec s) (alive s) (used s) (starts s) (reaped s).
Definition set_running m s := mk_service (mu s) (containers s) m (exitSubscribers s) (subscribed s)
  (events s) (buffered s) (conts s) (procs s) (ec s) (alive s) (used s) (starts s) (reaped s).
Definition set_subscribers m s := mk_service (mu s) (containers s) (running s) m (subscribed s)
  (events s) (buffered s) (conts s) (procs s) (ec s) (alive s) (used s) (starts s) (reaped s).
Definition set_conts m s := mk_service (mu s) (containers s) (running s) (exitSubscribers s) (subscribed s)
  (events s) (buffered s) m (procs s) (ec s) (alive s) (used s) (starts s) (reaped s).
Definition set_procs m s := mk_service (mu s) (containers s) (running s) (exitSubscribers s) (subscribed s)
  (events s) (buffered s) (conts s) m (ec s) (alive s) (used s) (starts s) (reaped s).
Definition set_kernel e a u s := mk_service (mu s) (containers s) (running s) (exitSubscribers s) (subscribed s)
  (events s) (buffered s) (conts s) (procs s) e a u (starts s) (reaped s).

(** The capacity of [s.events]. *)
Definition cap : nat := 128.

(** [s.send]; it blocks while the channel is full. *)
Definition send (e : event) (s : service) : option service :=
  if (buffered s <? cap)%nat then
    Some (mk_service (mu s) (containers s) (running s) (exitSubscribers s) (subscribed s)
      (events s ++ [e]) (S (buffered s)) (conts s) (procs s) (ec s) (alive s) (used s) (starts s) (reaped s))
  else None.

(** [s.mu.Lock()] blocks while somebody holds the mutex. *)
Definition lock (self : owner) (s : service) : option service :=
  match mu s with None => Some (set_mu (Some self) s) | Some _ => None end.
Definition unlock (s : service) : service := set_mu None s.

Definition set_phase (f : phase) (p : Process) : Process := mk_Process (p_id p) (p_init p) (p_pid p) f.
Definition change_proc (p : nat) (f : Process → Process) (s : service) : service :=
  set_procs (alter f p (procs s)) s.
Definition change_cont (c : nat) (f : Container → Container) (s : service) : service :=
  set_conts (alter f c (conts s)) s.

(** [p.Pid()], of a nil interface 0 (as in [handleStarted]). *)
Definition pid_of (s : service) (p : nat) : Z :=
  match procs s !! p with Some p => p_pid p | None => 0 end.

(** ** Process tables of a container *)

Definition Container_Pid (s : service) (c : nat) : Z :=
  match conts s !! c with Some c => pid_of s (c_process c) | None => 0 end.

(** [c.Process(id)]; [None] is its error. *)
Definition Container_Process (s : service) (c : nat) (id : string) : option nat :=
  c ← conts s !! c;
  if decide (id = "") then Some (c_process c) else c_processes c !! id.

Definition ReserveProcess (id : string) (c : Container) : option Container :=
  if bool_decide (is_Some (c_processes c !! id)) then None
  else if bool_decide (id ∈ c_reserved c) then None
  else Some (mk_Container (c_ID c) (c_process c) (c_processes c) ({[id]} ∪ c_reserved c)).

Definition cancel_reservation (id : string) (c : Container) : Container :=
  mk_Container (c_ID c) (c_process c) (c_processes c) (c_reserved c ∖ {[id]}).

Definition ProcessAdd (id : string) (p : nat) (c : Container) : Container :=
  mk_Container (c_ID c) (c_process c) (<[id := p]> (c_processes c)) (c_reserved c ∖ {[id]}).

Definition ProcessRemove (id : string) (c : Container) : Container :=
  mk_Container (c_ID c) (c_process c) (delete id (c_processes c)) (c_reserved c).

(** The end of [NewContainer]: a container with its init process; [pid] is 0 when a
    checkpoint is to be restored by the start. *)
Definition new_container (id : string) (pid : Z) (s : service) : service * nat * nat :=
  let p := length (procs s) in
  let c := length (conts s) in
  (set_conts (conts s ++ [mk_Container id p ∅ ∅])
     (set_procs (procs s ++ [mk_Process id true pid Created]) s), c, p).

(** ** Registration of exits *)

(** [preStart], with its subscription; [None] is a nil container. *)
Definition preStart (c : option nat) (s : service) : service * nat :=
  let sub := subscribed s in
  let s := mk_service (mu s) (containers s) (running s) (<[sub := ∅]> (exitSubscribers s)) (S sub)
    (events s) (buffered s) (conts s) (procs s) (ec s) (alive s) (used s) (starts s) (reaped s) in
  match c with
  | None => (s, sub)
  | Some c =>
      let pid := Container_Pid s c in
      let newRunning := filter (λ cp, cp_Container cp ≠ c) (default [] (running s !! pid)) in
      (set_running (match newRunning with [] => delete pid (running s) | _ => <[pid := newRunning]> (running s) end) s,
       sub)
  end.

(** The part of [handleStarted] under [lifecycleMu]: the exits to handle at once, or the
    registration. *)
Definition handleStarted (sub : nat) (c : nat) (p : option nat) (pid : Z) (s : service) : service * list Exit :=
  let ees := exitSubscribers s !! sub ≫= lookup pid in
  let s := set_subscribers (delete sub (exitSubscribers s)) s in
  if pid =? 0 then (s, [])
  else
    match ees, p with
    | Some ees, _ => (s, ees)
    | None, Some p => (set_running (<[pid := default [] (running s !! pid) ++ [mk_cp c p]]> (running s)) s, [])
    | None, None => (s, [])
    end.

(** The [cleanup] of a subscription that [handleStarted] has not ended. *)
Definition cleanup (sub : nat) (s : service) : service := set_subscribers (delete sub (exitSubscribers s)) s.

(** [e := <-s.ec]. *)
Definition receive (e : Exit) (rest : list Exit) (s : service) : service :=
  mk_service (mu s) (containers s) (running s) (exitSubscribers s) (subscribed s)
    (events s) (buffered s) (conts s) (procs s) rest (alive s) (used s) (starts s) (reaped s ++ [e]).

(** The part of [processExits] under [lifecycleMu]: the processes whose exit to handle. *)
Definition take_exit (e : Exit) (s : service) : service * list containerProcess :=
  let inform := λ m : gmap Z (list Exit), <[e_Pid e := default [] (m !! e_Pid e) ++ [e]]> m in
  (set_running (delete (e_Pid e) (running s)) (set_subscribers (inform <$> exitSubscribers s) s),
   default [] (running s !! e_Pid e)).

(** [p.SetExited(status)]: a stopped or deleted process ignores it; blocked while the
    process is being started. *)
Definition SetExited (p : nat) (s : service) : option service :=
  match p_phase <$> procs s !! p with
  | Some Starting => None
  | Some Created | Some Running => Some (change_proc p (set_phase Stopped) s)
  | _ => Some s
  end.

(** ** Goroutines *)

(** What a call of [preStart] leaves to its caller: the subscription, the container and
    exec id, and whether the caller holds [s.mu]. *)
Record frame := mk_frame { f_sub : nat; f_c : nat; f_id : string; f_locked : bool }.

Inductive pc :=
  (* Create *)
  | CreateLock (id : string)
  | CreatePre (id : string)
  | CreateNew (id : string) (sub : nat)
  | CreateSpawned (id : string) (sub : nat) (pid : Z)
  | CreateSend (f : frame) (p : nat)
  (* Start *)
  | StartGet (id execID : string)
  | StartPre (c : nat) (execID : string)
  | StartProcess (f : frame)
  | StartRun (f : frame) (p : nat)
  | StartSpawned (f : frame) (p : nat) (pid : Z)
  | StartSend (f : frame) (p : nat)
  (* handleStarted *)
  | HandlePid (f : frame) (p : option nat)
  | HandleLocked (f : frame) (p : option nat) (pid : Z)
  | HandleExits (f : frame) (p : nat) (ees : list Exit)
  | HandleSet (f : frame) (p : nat) (e : Exit) (ees : list Exit)
  | HandleSend (f : frame) (p : nat) (e : Exit) (ees : list Exit)
  (* return *)
  | Cleanup (sub : nat) (locked : bool)
  | Leave (locked : bool)
  | Done
  (* Exec *)
  | ExecGet (id execID : string)
  | ExecReserve (c : nat) (execID : string)
  | ExecRun (c : nat) (execID : string)
  | ExecCancel (c : nat) (execID : string)
  | ExecAdd (c : nat) (execID : string) (p : nat)
  | ExecSend (p : nat)
  (* Delete *)
  | DeleteGet (id execID : string)
  | DeleteProcess (id : string) (c : nat) (execID : string)
  | DeleteRun (id : string) (c : nat) (execID : string) (p : nat)
  | DeleteRemove (id : string) (c : nat) (execID : string) (p : nat)
  | DeleteSend (p : nat).

(** The requests. *)
Inductive request :=
  | CreateTask (id : string)
  | StartTask (id execID : string)
  | ExecTask (id execID : string)
  | DeleteTask (id execID : string).

Definition handler (r : request) : pc :=
  match r with
  | CreateTask id => CreateLock id
  | StartTask id execID => StartGet id execID
  | ExecTask id execID => ExecGet id execID
  | DeleteTask id execID => DeleteGet id execID
  end.

(** The answer of the runtime, of the kernel or of the state machine of a process. *)
Inductive answer := Good | Bad | Spawn (pid : Z).

(** A new process gets a pid that was never used. *)
Definition spawn (pid : Z) (s : service) : option service :=
  if (0 <? pid) && bool_decide (pid ∉ used s)
  then Some (set_kernel (ec s) ({[pid]} ∪ alive s) ({[pid]} ∪ used s) s) else None.

(** [s.getContainer]. *)
Definition getContainer (s : service) (id : string) : option (option nat) :=
  match mu s with None => Some (containers s !! id) | Some _ => None end.

Definition note_start (p : nat) (s : service) : service :=
  mk_service (mu s) (containers s) (running s) (exitSubscribers s) (subscribed s)
    (events s) (buffered s) (conts s) (procs s) (ec s) (alive s) (used s) (starts s ++ [p]) (reaped s).

(** [p.Start]: a created init process is started when it is alive; an exec process, or an
    init process that is restored from a checkpoint, is spawned. *)
Definition run_Start (f : frame) (p : nat) (a : answer) (s : service) : option (service * pc) :=
  P ← procs s !! p;
  match p_phase P, a with
  | Starting, _ => None
  | _, Bad => Some (s, HandlePid f (Some p))
  | Created, Good =>
      if bool_decide (p_pid P ∈ alive s)
      then Some (change_proc p (set_phase Running) s, StartSend f p) else None
  | Created, Spawn pid =>
      if p_pid P =? 0
      then s ← spawn pid s; Some (change_proc p (set_phase Starting) s, StartSpawned f p pid) else None
  | _, _ => None
  end.

(** The event of a start, by the exec id of the request. *)
Definition started_event (f : frame) (p : nat) (s : service) : event :=
  if decide (f_id f = "") then TaskStart p (pid_of s p) else TaskExecStarted p (pid_of s p).

(** [p.Pid()] of an exec process waits until its start is over. *)
Definition read_pid (p : option nat) (s : service) : option Z :=
  match p with
  | None => Some 0
  | Some p =>
      P ← procs s !! p;
      if bool_decide (p_phase P = Starting) && negb (p_init P) then None else Some (p_pid P)
  end.

(** [Create]; [NewContainer] first makes the init process, of which the runtime reports
    that it was created, or fails, and then the container. *)
Definition Create_step (self : owner) (a : answer) (s : service) (k : pc) : option (service * pc) :=
  match k with
  | CreateLock id => s ← lock self s; Some (s, CreatePre id)
  | CreatePre id => let (s, sub) := preStart None s in Some (s, CreateNew id sub)
  | CreateNew id sub =>
      match a with
      | Bad => Some (s, Cleanup sub true)
      | Spawn pid => s ← spawn pid s; Some (s, CreateSpawned id sub pid)
      | Good =>
          let '(s, c, p) := new_container id 0 s in
          Some (set_containers (<[id := c]> (containers s)) s, CreateSend (mk_frame sub c "" true) p)
      end
  | CreateSpawned id sub pid =>
      match a with
      | Good =>
          let '(s, c, p) := new_container id pid s in
          Some (set_containers (<[id := c]> (containers s)) s, CreateSend (mk_frame sub c "" true) p)
      | _ => Some (s, Cleanup sub true)
      end
  | CreateSend f p => s ← send (TaskCreate p (pid_of s p)) s; Some (s, HandlePid f (Some p))
  | _ => None
  end.

(** [Start], with [Container.Start]. *)
Definition Start_step (self : owner) (a : answer) (s : service) (k : pc) : option (service * pc) :=
  match k with
  | StartGet id execID =>
      o ← getContainer s id;
      Some (s, match o with None => Done | Some c => StartPre c execID end)
  | StartPre c execID =>
      let (s, sub) := preStart (if decide (execID = "") then Some c else None) s in
      Some (s, StartProcess (mk_frame sub c execID false))
  | StartProcess f =>
      match Container_Process s (f_c f) (f_id f) with
      | None => Some (s, HandlePid f None)
      | Some p => Some (note_start p s, StartRun f p)
      end
  | StartRun f p => run_Start f p a s
  | StartSpawned f p pid =>
      match a with
      | Good => Some (change_proc p (λ P, mk_Process (p_id P) (p_init P) pid Running) s, StartSend f p)
      | _ => Some (change_proc p (set_phase Created) s, HandlePid f (Some p))
      end
  | StartSend f p => s' ← send (started_event f p s) s; Some (s', HandlePid f (Some p))
  | _ => None
  end.

(** The calls of [handleStarted] and of [handleProcessExit] in it, and the return with the
    deferred [cleanup] and unlock. *)
Definition handleStarted_step (self : owner) (a : answer) (s : service) (k : pc) : option (service * pc) :=
  match k with
  | HandlePid f p => pid ← read_pid p s; Some (s, HandleLocked f p pid)
  | HandleLocked f p pid =>
      let (s, ees) := handleStarted (f_sub f) (f_c f) p pid s in
      Some (s, match p with Some p => HandleExits f p ees | None => Leave (f_locked f) end)
  | HandleExits f p [] => Some (s, Leave (f_locked f))
  | HandleExits f p (e :: ees) =>
      if f_locked f then Some (s, HandleSet f p e ees)
      else s ← lock self s; Some (s, HandleSet f p e ees)
  | HandleSet f p e ees => s ← SetExited p s; Some (s, HandleSend f p e ees)
  | HandleSend f p e ees =>
      s ← send (TaskExit p (e_Pid e) (e_Status e)) s;
      Some (if f_locked f then s else unlock s, HandleExits f p ees)
  | Cleanup sub locked => Some (cleanup sub s, Leave locked)
  | Leave locked => Some (if locked then unlock s else s, Done)
  | Done => None
  | _ => None
  end.

(** [Exec], with [Container.Exec]. *)
Definition Exec_step (self : owner) (a : answer) (s : service) (k : pc) : option (service * pc) :=
  match k with
  | ExecGet id execID =>
      o ← getContainer s id;
      Some (s, match o with None => Done | Some c => ExecReserve c execID end)
  | ExecReserve c execID =>
      C ← conts s !! c;
      match ReserveProcess execID C with
      | None => Some (s, Done)
      | Some C => Some (change_cont c (λ _, C) s, ExecRun c execID)
      end
  | ExecRun c execID =>
      match a with
      | Good => Some (set_procs (procs s ++ [mk_Process execID false 0 Created]) s, ExecAdd c execID (length (procs s)))
      | _ => Some (s, ExecCancel c execID)
      end
  | ExecCancel c execID => Some (change_cont c (cancel_reservation execID) s, Done)
  | ExecAdd c execID p => Some (change_cont c (ProcessAdd execID p) s, ExecSend p)
  | ExecSend p => s ← send (TaskExecAdded p) s; Some (s, Done)
  | _ => None
  end.

(** [Delete], with [Container.Delete]. *)
Definition Delete_step (self : owner) (a : answer) (s : service) (k : pc) : option (service * pc) :=
  match k with
  | DeleteGet id execID =>
      o ← getContainer s id;
      Some (s, match o with None => Done | Some c => DeleteProcess id c execID end)
  | DeleteProcess id c execID =>
      Some (s, match Container_Process s c execID with None => Done | Some p => DeleteRun id c execID p end)
  | DeleteRun id c execID p =>
      P ← procs s !! p;
      match p_phase P, a with
      | Starting, _ => None
      | Running, _ | Deleted, _ | _, Bad => Some (s, Done)
      | _, _ => Some (change_proc p (set_phase Deleted) s, DeleteRemove id c execID p)
      end
  | DeleteRemove id c execID p =>
      if decide (execID = "") then
        match mu s with
        | None => Some (set_containers (delete id (containers s)) s, DeleteSend p)
        | Some _ => None
        end
      else Some (change_cont c (ProcessRemove execID) s, Done)
  | DeleteSend p => s ← send (TaskDelete p (pid_of s p)) s; Some (s, Done)
  | _ => None
  end.

(** The next action of a handler. *)
Definition advance (self : owner) (a : answer) (s : service) (k : pc) : option (service * pc) :=
  match k with
  | CreateLock _ | CreatePre _ | CreateNew _ _ | CreateSpawned _ _ _ | CreateSend _ _ => Create_step self a s k
  | StartGet _ _ | StartPre _ _ | StartProcess _ | StartRun _ _ | StartSpawned _ _ _ | StartSend _ _ =>
      Start_step self a s k
  | HandlePid _ _ | HandleLocked _ _ _ | HandleExits _ _ _ | HandleSet _ _ _ _ | HandleSend _ _ _ _
  | Cleanup _ _ | Leave _ | Done => handleStarted_step self a s k
  | ExecGet _ _ | ExecReserve _ _ | ExecRun _ _ | ExecCancel _ _ | ExecAdd _ _ _ | ExecSend _ => Exec_step self a s k
  | DeleteGet _ _ | DeleteProcess _ _ _ | DeleteRun _ _ _ _ | DeleteRemove _ _ _ _ | DeleteSend _ =>
      Delete_step self a s k
  end.

(** ** [processExits] *)

Inductive exits_pc :=
  | ExitsIdle
  | ExitsTodo (e : Exit) (cps : list containerProcess)
  | ExitsSet (e : Exit) (p : nat) (cps : list containerProcess)
  | ExitsSend (e : Exit) (p : nat) (cps : list containerProcess).

Definition processExits (s : service) (k : exits_pc) : option (service * exits_pc) :=
  match k with
  | ExitsIdle =>
      match ec s with
      | [] => None
      | e :: rest =>
          let (s, cps) := take_exit e (receive e rest s) in
          Some (s, ExitsTodo e cps)
      end
  | ExitsTodo e [] => Some (s, ExitsIdle)
  | ExitsTodo e (cp :: cps) => s ← lock Exits s; Some (s, ExitsSet e (cp_Process cp) cps)
  | ExitsSet e p cps => s ← SetExited p s; Some (s, ExitsSend e p cps)
  | ExitsSend e p cps =>
      s ← send (TaskExit p (e_Pid e) (e_Status e)) s;
      Some (unlock s, ExitsTodo e cps)
  end.

(** ** The system *)

(** [forward] has taken an event out of the channel, in which [n] are left. *)
Definition forward (n : nat) (s : service) : service :=
  mk_service (mu s) (containers s) (running s) (exitSubscribers s) (subscribed s) (events s) n
    (conts s) (procs s) (ec s) (alive s) (used s) (starts s) (reaped s).

Record system := mk_system { svc : service; calls : list pc; exits : exits_pc }.

Inductive label :=
  | Arrives (r : request)
  | Acts (i : nat) (a : answer)
  | Processes
  | Forwards
  | Dies (pid status : Z)
  | ChildExits (pid status : Z).

(** A process of a container dies, or some
    other child of the shim has run and exited. *)
Definition perform (l : label) (t : system) : option system :=
  let s := svc t in
  match l with
  | Arrives r => Some (mk_system s (calls t ++ [handler r]) (exits t))
  | Acts i a =>
      k ← calls t !! i;
      r ← advance (Call i) a s k;
      Some (mk_system r.1 (<[i := r.2]> (calls t)) (exits t))
  | Processes =>
      r ← processExits s (exits t);
      Some (mk_system r.1 (calls t) r.2)
  | Forwards =>
      match buffered s with
      | O => None
      | S n => Some (mk_system (forward n s) (calls t) (exits t))
      end
  | Dies pid status =>
      if bool_decide (pid ∈ alive s)
      then Some (mk_system (set_kernel (ec s ++ [mk_Exit pid status]) (alive s ∖ {[pid]}) (used s) s) (calls t) (exits t))
      else None
  | ChildExits pid status =>
      if (0 <? pid) && bool_decide (pid ∉ used s)
      then Some (mk_system (set_kernel (ec s ++ [mk_Exit pid status]) (alive s) ({[pid]} ∪ used s) s) (calls t) (exits t))
      else None
  end.

Definition initial : system :=
  mk_system (mk_service None ∅ ∅ ∅ 0 [] 0 [] [] [] ∅ ∅ [] []) [] ExitsIdle.

(** A schedule. *)
Fixpoint schedule (ls : list label) (t : system) : option system :=
  match ls with
  | [] => Some t
  | l :: ls => t ← perform l t; schedule ls t
  end.
