(* ===== verification/TaskInv.v ===== *)
(** * Facts about the task service

    For Task.v: what the goroutines know, what callers keep to, and that the shared state
    is well formed and what a goroutine knows is kept, for every single change. *)

From S2P Require Import Prelude.
From S2P Require Import Task.

(** ** What callers keep to *)

(** A call of [Start] between its subscription and the end of it. *)
Definition start_window (k : pc) : option (nat * string) :=
  match k with
  | StartProcess f | StartRun f _ | StartSpawned f _ _ | StartSend f _
  | HandlePid f _ | HandleLocked f _ _ => if f_locked f then None else Some (f_c f, f_id f)
  | _ => None
  end.

(** The starts of one process do not overlap, and an exec process is started once. *)
Definition orderly (t : system) : Prop :=
  (∀ i j ki kj w, i ≠ j → calls t !! i = Some ki → calls t !! j = Some kj →
     start_window ki = Some w → start_window kj ≠ Some w) ∧
  (∀ p P, procs (svc t) !! p = Some P → p_init P = false →
     (length (filter (λ p', p' = p) (starts (svc t))) ≤ 1)%nat).

Inductive reach : system → Prop :=
  | reach_initial : reach initial
  | reach_step l t t' : reach t → perform l t = Some t' → orderly t' → reach t'.

(** ** Duties *)

(** Its exit has been received. *)
Abbreviation gone s q := (q ∈ e_Pid <$> reaped s).

Definition recorded (s : service) (sub : nat) (q : Z) : Prop :=
  is_Some (exitSubscribers s !! sub ≫= lookup q).

#[export] Instance recorded_dec s sub q : Decision (recorded s sub q).
Proof. unfold recorded. apply _. Defined.

(** The subscription of a call and the process it is for. *)
Definition window (s : service) (k : pc) : option (nat * nat) :=
  match k with
  | CreateSend f p | StartRun f p | StartSpawned f p _ | StartSend f p | HandlePid f (Some p) => Some (f_sub f, p)
  | HandleLocked f (Some p) pid => if decide (pid = 0) then None else Some (f_sub f, p)
  | StartProcess f => if decide (f_id f = "") then pair (f_sub f) ∘ c_process <$> conts s !! f_c f else None
  | _ => None
  end.

(** Exits that a call is handling. *)
Definition handling (p : nat) (k : pc) : nat :=
  match k with
  | HandleExits _ p' ees => if decide (p' = p) then length ees else 0
  | HandleSet _ p' _ ees | HandleSend _ p' _ ees => if decide (p' = p) then S (length ees) else 0
  | _ => 0
  end.

Definition call_duty (s : service) (p : nat) (k : pc) : nat :=
  match window s k with
  | Some (sub, p') =>
      if decide (p' = p ∧ (gone s (pid_of s p) → recorded s sub (pid_of s p))) then 1 else 0
  | None => handling p k
  end.

Definition count_cp (p : nat) (cps : list containerProcess) : nat := length (filter (λ cp, cp_Process cp = p) cps).

Definition exits_duty (p : nat) (k : exits_pc) : nat :=
  match k with
  | ExitsIdle => 0
  | ExitsTodo _ cps => count_cp p cps
  | ExitsSet _ p' cps | ExitsSend _ p' cps => (if decide (p' = p) then 1 else 0) + count_cp p cps
  end.

Definition registered (s : service) (p : nat) : nat :=
  if decide (gone s (pid_of s p)) then 0 else count_cp p (default [] (running s !! pid_of s p)).

Definition is_exit_of (p : nat) (e : event) : bool :=
  match e with TaskExit p' _ _ => bool_decide (p' = p) | _ => false end.
Definition published (s : service) (p : nat) : nat := length (filter (λ e, is_exit_of p e = true) (events s)).

Definition duties (t : system) (p : nat) : nat :=
  sum_list_with (call_duty (svc t) p) (calls t) + exits_duty p (exits t) + registered (svc t) p
  + published (svc t) p.

(** ** What a program counter knows *)

Definition sub_of (k : pc) : option nat :=
  match k with
  | CreateNew _ sub | CreateSpawned _ sub _ | Cleanup sub _ => Some sub
  | CreateSend f _ | StartProcess f | StartRun f _ | StartSpawned f _ _ | StartSend f _
  | HandlePid f _ | HandleLocked f _ _ => Some (f_sub f)
  | _ => None
  end.

Definition spawned (k : pc) : option Z :=
  match k with CreateSpawned _ _ q | StartSpawned _ _ q => Some q | _ => None end.

Definition cont_of (k : pc) : option nat :=
  match k with
  | StartPre c _ | ExecReserve c _ | ExecRun c _ | ExecCancel c _ | ExecAdd c _ _
  | DeleteProcess _ c _ | DeleteRun _ c _ _ | DeleteRemove _ c _ _ => Some c
  | CreateSend f _ | StartProcess f | StartRun f _ | StartSpawned f _ _ | StartSend f _
  | HandlePid f _ | HandleLocked f _ _ | HandleExits f _ _ | HandleSet f _ _ _ | HandleSend f _ _ _ => Some (f_c f)
  | _ => None
  end.

(** The container that a call of [Create] has made. *)
Definition made (k : pc) : option nat :=
  match k with
  | CreateSend f _ => Some (f_c f)
  | HandlePid f _ | HandleLocked f _ _ | HandleExits f _ _ | HandleSet f _ _ _ | HandleSend f _ _ _ =>
      if f_locked f then Some (f_c f) else None
  | _ => None
  end.

Definition holds (k : pc) : bool :=
  match k with
  | CreatePre _ | CreateNew _ _ | CreateSpawned _ _ _ | CreateSend _ _ | HandleSet _ _ _ _ | HandleSend _ _ _ _ => true
  | HandlePid f _ | HandleLocked f _ _ | HandleExits f _ _ => f_locked f
  | Cleanup _ locked | Leave locked => locked
  | _ => false
  end.

Definition exits_holds (k : exits_pc) : bool :=
  match k with ExitsSet _ _ _ | ExitsSend _ _ _ => true | _ => false end.

Definition caught (s : service) (sub : nat) (q : Z) : Prop := gone s q → recorded s sub q.

Definition is_proc (s : service) (init : bool) (p : nat) : Prop :=
  ∃ P, procs s !! p = Some P ∧ p_init P = init.

(** The process of a frame: the init process of the container, or one with an exec id. *)
Definition target (s : service) (f : frame) (p : nat) : Prop :=
  (f_id f = "" ∧ is_proc s true p ∧ c_process <$> conts s !! f_c f = Some p) ∨ (f_id f ≠ "" ∧ is_proc s false p).

Definition fresh_pid (s : service) (q : Z) : Prop :=
  0 < q ∧ q ∈ used s ∧ ∀ p P, procs s !! p = Some P → p_pid P ≠ q.

Definition exits_of (s : service) (p : nat) (ees : list Exit) : Prop :=
  is_Some (procs s !! p) ∧ ∀ e, e ∈ ees → e ∈ reaped s ∧ e_Pid e = pid_of s p.

Definition call_ok (s : service) (k : pc) : Prop :=
  (∀ sub, sub_of k = Some sub → is_Some (exitSubscribers s !! sub)) ∧
  (∀ c, cont_of k = Some c → is_Some (conts s !! c)) ∧
  match k with
  | CreateSpawned _ sub q => fresh_pid s q ∧ caught s sub q
  | CreateSend f p => f_locked f = true ∧ f_id f = "" ∧ target s f p ∧ caught s (f_sub f) (pid_of s p)
  | StartProcess f => f_locked f = false
  | StartRun f p => f_locked f = false ∧ target s f p
  | StartSpawned f p q =>
      f_locked f = false ∧ target s f p ∧ fresh_pid s q ∧ caught s (f_sub f) q ∧
      p_pid <$> procs s !! p = Some 0 ∧ p_phase <$> procs s !! p = Some Starting
  | StartSend f p => f_locked f = false ∧ target s f p ∧ caught s (f_sub f) (pid_of s p) ∧ pid_of s p ≠ 0
  | HandlePid f (Some p) => target s f p
  | HandleLocked f (Some p) pid => target s f p ∧ (pid ≠ 0 → pid = pid_of s p)
  | HandleLocked f None pid => pid = 0
  | HandleExits _ p ees => exits_of s p ees
  | HandleSet _ p e ees | HandleSend _ p e ees => exits_of s p (e :: ees)
  | ExecAdd _ _ p => is_proc s false p
  | DeleteRun _ _ _ p | DeleteRemove _ _ _ p | DeleteSend p | ExecSend p => is_Some (procs s !! p)
  | _ => True
  end.

Definition exits_ok (s : service) (k : exits_pc) : Prop :=
  match k with
  | ExitsIdle => True
  | ExitsTodo e cps => ∀ cp, cp ∈ cps → exits_of s (cp_Process cp) [e]
  | ExitsSet e p cps | ExitsSend e p cps =>
      exits_of s p [e] ∧ ∀ cp, cp ∈ cps → exits_of s (cp_Process cp) [e]
  end.

(** The process whose start is under way. *)
Definition starting (k : pc) : option nat :=
  match k with StartSpawned _ p _ => Some p | _ => None end.

(** What two calls do not share. *)
Definition apart (k1 k2 : pc) : Prop :=
  (∀ sub, sub_of k1 = Some sub → sub_of k2 ≠ Some sub) ∧
  (∀ q, spawned k1 = Some q → spawned k2 ≠ Some q) ∧
  (∀ c, made k1 = Some c → cont_of k2 ≠ Some c) ∧
  (∀ p, starting k1 = Some p → starting k2 ≠ Some p).

(** ** Events in order *)

Definition announces (p : nat) (e : event) : bool :=
  match e with
  | TaskCreate p' _ | TaskStart p' _ | TaskExecStarted p' _ => bool_decide (p' = p)
  | _ => false
  end.
Definition announced (p : nat) (evs : list event) : Prop := ∃ e, e ∈ evs ∧ announces p e = true.

(** An exit comes after the creation or the start, and a start before the exit. *)
Definition in_order (evs : list event) : Prop :=
  ∀ before e after, evs = before ++ e :: after →
    match e with
    | TaskExit p _ _ => announced p before
    | TaskStart p _ | TaskExecStarted p _ => ∀ e', e' ∈ before → is_exit_of p e' = false
    | _ => True
    end.

(** ** The service is well formed *)

Record swf (s : service) : Prop := {
  w_used : ∀ q, q ∈ used s → 0 < q ∧ (q ∈ alive s ∨ q ∈ e_Pid <$> reaped s ++ ec s);
  w_dead : ∀ q, q ∈ e_Pid <$> reaped s ++ ec s → q ∈ used s ∧ q ∉ alive s;
  w_alive : ∀ q, q ∈ alive s → q ∈ used s;
  w_once : NoDup (e_Pid <$> reaped s ++ ec s);
  w_pid : ∀ p P, procs s !! p = Some P → p_pid P = 0 ∨ p_pid P ∈ used s;
  w_inj : ∀ p1 p2 P1 P2, procs s !! p1 = Some P1 → procs s !! p2 = Some P2 →
    p_pid P1 = p_pid P2 → p_pid P1 ≠ 0 → p1 = p2;
  w_cont : ∀ c C, conts s !! c = Some C → is_proc s true (c_process C) ∧
    ∀ id p, c_processes C !! id = Some p → is_proc s false p;
  w_cinj : ∀ c1 c2 C1 C2, conts s !! c1 = Some C1 → conts s !! c2 = Some C2 →
    c_process C1 = c_process C2 → c1 = c2;
  w_map : ∀ id c, containers s !! id = Some c → is_Some (conts s !! c);
  w_subs : ∀ sub m, exitSubscribers s !! sub = Some m → (sub < subscribed s)%nat ∧
    ∀ q ees, m !! q = Some ees → ∃ e, ees = [e] ∧ e ∈ reaped s ∧ e_Pid e = q;
  w_run : ∀ q cps cp, running s !! q = Some cps → cp ∈ cps →
    q ≠ 0 ∧ (∃ P, procs s !! cp_Process cp = Some P ∧ p_pid P = q ∧
      (p_init P = true → c_process <$> conts s !! cp_Container cp = Some (cp_Process cp)));
  w_events : ∀ p q st, TaskExit p q st ∈ events s →
    is_Some (procs s !! p) ∧ q = pid_of s p ∧ mk_Exit q st ∈ reaped s
}.

(** Changes that concern none of this. *)
Record unchanged (s s' : service) : Prop := {
  u_running : running s' = running s;
  u_subs : exitSubscribers s' = exitSubscribers s;
  u_subscribed : subscribed s' = subscribed s;
  u_events : ∀ p q st, TaskExit p q st ∈ events s' → TaskExit p q st ∈ events s;
  u_conts : conts s' = conts s;
  u_procs : procs s' = procs s;
  u_ec : ec s' = ec s;
  u_alive : alive s' = alive s;
  u_used : used s' = used s;
  u_reaped : reaped s' = reaped s
}.

Lemma swf_unchanged s s' : unchanged s s' → (∀ id c, containers s' !! id = Some c → is_Some (conts s !! c)) →
  swf s → swf s'.
Proof.
  intros [] Hmap []. destruct s, s'. unfold is_proc, pid_of in *. simpl in *. subst.
  constructor; unfold is_proc, pid_of; simpl; try done.
  intros p q st Hin. naive_solver.
Qed.

Lemma unchanged_set_mu m s : unchanged s (set_mu m s).
Proof. by constructor. Qed.
Lemma unchanged_note_start p s : unchanged s (note_start p s).
Proof. by constructor. Qed.
Lemma unchanged_containers m s : unchanged s (set_containers m s).
Proof. by constructor. Qed.
Lemma unchanged_refl s : unchanged s s.
Proof. by constructor. Qed.

Lemma send_inv e s s' : send e s = Some s' →
  s' = mk_service (mu s) (containers s) (running s) (exitSubscribers s) (subscribed s) (events s ++ [e])
         (S (buffered s)) (conts s) (procs s) (ec s) (alive s) (used s) (starts s) (reaped s).
Proof. unfold send. case_match; [|done]. congruence. Qed.

Lemma unchanged_send e s s' : send e s = Some s' → (∀ p, is_exit_of p e = false) → unchanged s s'.
Proof.
  intros ->%send_inv He. constructor; try done. simpl. intros p q st [?|Hin%list_elem_of_singleton]%elem_of_app; [done|].
  subst. specialize (He p). simpl in He. by rewrite bool_decide_eq_true_2 in He.
Qed.

Lemma pid_of_lookup s p P : procs s !! p = Some P → pid_of s p = p_pid P.
Proof. unfold pid_of. by intros ->. Qed.

Lemma gone_pos s q : swf s → gone s q → 0 < q ∧ q ∈ used s ∧ q ∉ alive s.
Proof.
  intros [] Hq. assert (q ∈ e_Pid <$> reaped s ++ ec s) as Hq' by (rewrite fmap_app; set_solver).
  destruct (w_dead0 q Hq') as [Hu Ha]. destruct (w_used0 q Hu). done.
Qed.

Lemma swf_send_exit p e s s' :
  swf s → exits_of s p [e] → send (TaskExit p (e_Pid e) (e_Status e)) s = Some s' → swf s'.
Proof.
  intros [] [Hp He] ->%send_inv. destruct (He e ltac:(by left)) as [Hr Hpid].
  constructor; try done. simpl. intros p' q st [Hin|Hin%list_elem_of_singleton]%elem_of_app; [by apply w_events0|].
  injection Hin as -> -> ->. split; [done|]. split; [done|]. by destruct e.
Qed.

Lemma swf_spawn q s s' : swf s → spawn q s = Some s' → swf s' ∧ 0 < q ∧ q ∉ used s ∧
  s' = set_kernel (ec s) ({[q]} ∪ alive s) ({[q]} ∪ used s) s.
Proof.
  intros [] Hsp. unfold spawn in Hsp. case_match eqn:E; [|done]. injection Hsp as <-. bool_to_prop.
  split; [|done]. constructor; simpl; try done.
  - clear -w_used0 H. set_solver.
  - intros q' Hq'. specialize (w_dead0 q' Hq'). clear -w_dead0 H0. set_solver.
  - clear -w_alive0. set_solver.
  - clear -w_pid0. set_solver.
Qed.

Lemma swf_dies q st s : swf s → q ∈ alive s →
  swf (set_kernel (ec s ++ [mk_Exit q st]) (alive s ∖ {[q]}) (used s) s).
Proof.
  intros [] Hq. constructor; simpl; try done.
  - intros q' Hq'. rewrite app_assoc, fmap_app, elem_of_app. specialize (w_used0 q' Hq').
    clear -w_used0. destruct (decide (q' = q)) as [->|]; [|set_solver]. split; [tauto|]. right. right. by left.
  - intros q'. rewrite app_assoc, fmap_app, elem_of_app. intros [Hq'|Hq'%list_elem_of_singleton].
    + specialize (w_dead0 q' Hq'). clear -w_dead0. set_solver.
    + subst q'. simpl. specialize (w_alive0 q Hq). clear -w_alive0. set_solver.
  - clear -w_alive0. set_solver.
  - rewrite app_assoc, fmap_app. apply NoDup_app. split_and!; [done| |apply NoDup_singleton].
    intros q' Hq' ->%list_elem_of_singleton. by apply w_dead0 in Hq' as [_ []].
Qed.

Lemma swf_child q st s : swf s → 0 < q → q ∉ used s →
  swf (set_kernel (ec s ++ [mk_Exit q st]) (alive s) ({[q]} ∪ used s) s).
Proof.
  intros [] Hpos Hq. constructor; simpl; try done.
  - intros q'. rewrite app_assoc, fmap_app, elem_of_app. intros [->%elem_of_singleton|Hq']%elem_of_union.
    + split; [done|]. right. right. by left.
    + specialize (w_used0 q' Hq'). tauto.
  - intros q'. rewrite app_assoc, fmap_app, elem_of_app. intros [Hq'|Hq'%list_elem_of_singleton].
    + specialize (w_dead0 q' Hq'). clear -w_dead0. set_solver.
    + subst q'. simpl. split; [clear; set_solver|]. intros Ha. by apply Hq, w_alive0.
  - clear -w_alive0. set_solver.
  - rewrite app_assoc, fmap_app. apply NoDup_app. split_and!; [done| |apply NoDup_singleton].
    intros q' Hq' ->%list_elem_of_singleton. by apply w_dead0 in Hq' as [? _].
  - clear -w_pid0. set_solver.
Qed.

(** *** Tables of exits *)

Lemma preStart_run c s : ∃ s' sub, preStart c s = (s', sub) ∧ sub = subscribed s ∧
  s' = mk_service (mu s) (containers s) (running s') (<[sub := ∅]> (exitSubscribers s)) (S sub) (events s)
         (buffered s) (conts s) (procs s) (ec s) (alive s) (used s) (starts s) (reaped s) ∧
  ∀ q cps, running s' !! q = Some cps → ∃ cps', running s !! q = Some cps' ∧ ∀ cp, cp ∈ cps → cp ∈ cps'.
Proof.
  destruct c as [c|]; [|do 2 eexists; split; [done|]; split; [done|]; split; [done|]; simpl; eauto].
  do 2 eexists; split; [reflexivity|]. split; [done|]. split; [done|]. simpl. intros q cps.
  set (q0 := Container_Pid _ _). set (l := filter _ _).
  assert (∀ cp, cp ∈ l → ∃ cps', running s !! q0 = Some cps' ∧ cp ∈ cps') as Hl.
  { intros cp [_ Hin]%list_elem_of_filter. destruct (running s !! q0); [eauto|by apply elem_of_nil in Hin]. }
  destruct l as [|cp l0] eqn:El.
  - intros [? ?]%lookup_delete_Some. eauto.
  - intros [[<- <-]|[? ?]]%lookup_insert_Some; [|eauto].
    destruct (Hl cp ltac:(by left)) as (cps' & Hcps & _). exists cps'. split; [done|].
    intros cp' Hcp'. destruct (Hl cp' Hcp') as (? & ? & ?). by simplify_eq.
Qed.

Lemma swf_preStart c s s' sub : swf s → preStart c s = (s', sub) → swf s'.
Proof.
  intros [] E. destruct (preStart_run c s) as (? & ? & E' & -> & Hs & Hrun). rewrite E in E'. simplify_eq.
  set (R := running s') in *. clearbody R. subst s'. constructor; simpl; try done.
  - intros sub m [[<- <-]|[? Hm]]%lookup_insert_Some.
    + split; [lia|]. intros q ees Hq. by rewrite lookup_empty in Hq.
    + destruct (w_subs0 _ _ Hm). split; [lia|done].
  - intros q cps cp Hq Hcp. destruct (Hrun q cps Hq) as (cps' & ? & Hsub). eapply w_run0; eauto.
Qed.

Lemma handleStarted_run sub c p pid s : ∃ s' ees, handleStarted sub c p pid s = (s', ees) ∧
  s' = set_running (running s') (set_subscribers (delete sub (exitSubscribers s)) s) ∧
  ((pid = 0 ∧ ees = [] ∧ running s' = running s) ∨
   (pid ≠ 0 ∧ exitSubscribers s !! sub ≫= lookup pid = Some ees ∧ running s' = running s) ∨
   (pid ≠ 0 ∧ exitSubscribers s !! sub ≫= lookup pid = None ∧ ees = [] ∧
    running s' = match p with Some p => <[pid := default [] (running s !! pid) ++ [mk_cp c p]]> (running s)
                 | None => running s end)).
Proof.
  unfold handleStarted. do 2 eexists; split; [apply surjective_pairing|].
  destruct (Z.eqb_spec pid 0) as [->|Hpid]; [simpl; split; [done|by left]|].
  destruct (exitSubscribers s !! sub ≫= lookup pid) as [ees|] eqn:E; simpl.
  - split; [by destruct p|right; left; by destruct p].
  - destruct p; simpl; (split; [done|right; right; done]).
Qed.

Lemma swf_handleStarted f p pid s s' ees :
  swf s → handleStarted (f_sub f) (f_c f) p pid s = (s', ees) →
  match p with Some p => target s f p ∧ (pid ≠ 0 → pid = pid_of s p) | None => pid = 0 end → swf s'.
Proof.
  intros [] E Hp. destruct (handleStarted_run (f_sub f) (f_c f) p pid s) as (? & ? & E' & Hs & Hr).
  rewrite E in E'. injection E' as <- <-. set (R := running s') in *. clearbody R. subst s'.
  constructor; simpl; try done.
  - intros sub m [? Hm]%lookup_delete_Some. by apply w_subs0.
  - intros q cps cp Hq Hcp. destruct Hr as [(_ & _ & ->)|[(_ & _ & ->)|(Hpid & _ & _ & ->)]]; [by eapply w_run0..|].
    destruct p as [p|]; [|by eapply w_run0]. destruct Hp as [Ht Hpo]. specialize (Hpo Hpid). subst pid.
    apply lookup_insert_Some in Hq as [[<- <-]|[? ?]]; [|by eapply w_run0].
    apply elem_of_app in Hcp as [Hcp|Hcp%list_elem_of_singleton].
    + destruct (running s !! pid_of s p) eqn:Er; [by eapply w_run0|by apply elem_of_nil in Hcp].
    + subst cp. simpl. split; [done|]. destruct Ht as [(_ & (P & HP & Hi) & Hc)|(_ & (P & HP & Hi))];
        exists P; (split; [done|]); rewrite (pid_of_lookup _ _ _ HP) in *; (split; [done|]); congruence.
Qed.

Lemma swf_cleanup sub s : swf s → swf (cleanup sub s).
Proof. intros []. constructor; simpl; try done. intros sub' m [? ?]%lookup_delete_Some. by apply w_subs0. Qed.

Lemma take_exit_run e rest s : ec s = e :: rest → ∃ s' cps, take_exit e (receive e rest s) = (s', cps) ∧
  s' = mk_service (mu s) (containers s) (delete (e_Pid e) (running s))
         ((λ m : gmap Z (list Exit), <[e_Pid e := default [] (m !! e_Pid e) ++ [e]]> m) <$> exitSubscribers s)
         (subscribed s) (events s) (buffered s) (conts s) (procs s) rest (alive s) (used s) (starts s)
         (reaped s ++ [e]) ∧
  cps = default [] (running s !! e_Pid e).
Proof. intros _. by do 2 eexists. Qed.

(** The exit that is received was not received before. *)
Lemma next_exit s e rest : swf s → ec s = e :: rest → e_Pid e ∉ e_Pid <$> reaped s.
Proof.
  intros [] E Hin. rewrite E, fmap_app, NoDup_app in w_once0. destruct w_once0 as (_ & Hdis & _).
  apply (Hdis _ Hin). by left.
Qed.

Lemma swf_take_exit e rest s s' cps :
  swf s → ec s = e :: rest → take_exit e (receive e rest s) = (s', cps) → swf s'.
Proof.
  intros Hw E Et. pose proof (next_exit s e rest Hw E) as Hnew.
  destruct (take_exit_run e rest s E) as (? & ? & Et' & -> & ->). rewrite Et in Et'. injection Et' as -> ->.
  destruct Hw. rewrite E in *. assert (∀ q, q ∈ e_Pid <$> (reaped s ++ [e]) ++ rest ↔ q ∈ e_Pid <$> reaped s ++ e :: rest) as Hq.
  { intros q. by rewrite <- app_assoc. }
  constructor; simpl; try done.
  - intros q Hu. rewrite Hq. by apply w_used0.
  - intros q. rewrite Hq. apply w_dead0.
  - by rewrite <- app_assoc.
  - intros sub m. rewrite lookup_fmap. intros (m0 & Hm0 & ->)%fmap_Some. destruct (w_subs0 _ _ Hm0) as [Hlt Hm].
    split; [done|]. intros q ees [[<- <-]|[? Hq']]%lookup_insert_Some.
    + exists e. assert (m0 !! e_Pid e = None) as ->.
      { destruct (m0 !! e_Pid e) as [ees|] eqn:Em; [|done]. destruct (Hm _ _ Em) as (e' & _ & He' & Heq).
        destruct Hnew. rewrite <- Heq. by apply list_elem_of_fmap_2. }
      split; [done|]. split; [|done]. apply elem_of_app. right. by left.
    + destruct (Hm _ _ Hq') as (e' & ? & ? & ?). exists e'. split; [done|]. split; [|done]. apply elem_of_app. by left.
  - intros q cps cp [? ?]%lookup_delete_Some. by apply w_run0.
  - intros p q st Hin. destruct (w_events0 p q st Hin) as (? & ? & ?). split_and!; [done|done|]. apply elem_of_app. by left.
Qed.

(** *** Processes and containers *)

Lemma lookup_change_proc p f s p' :
  procs (change_proc p f s) !! p' = if decide (p' = p) then f <$> procs s !! p' else procs s !! p'.
Proof.
  simpl. case_decide as E; [subst; apply list_lookup_alter_eq|apply list_lookup_alter_ne; congruence].
Qed.

(** An update of a process that keeps its kind, and its pid once it has one. *)
Definition update_ok (s : service) (p : nat) (f : Process → Process) : Prop :=
  ∀ P, procs s !! p = Some P → p_init (f P) = p_init P ∧
    (p_pid (f P) = p_pid P ∨ (p_pid P = 0 ∧ fresh_pid s (p_pid (f P)))).

Lemma change_proc_inv p f s p' P' : update_ok s p f → procs (change_proc p f s) !! p' = Some P' →
  ∃ P, procs s !! p' = Some P ∧ p_init P' = p_init P ∧
    (p_pid P' = p_pid P ∨ (p_pid P = 0 ∧ p' = p ∧ fresh_pid s (p_pid P'))).
Proof.
  intros Hf. rewrite lookup_change_proc. case_decide as E; [|eauto 6]. subst.
  intros (P & HP & ->)%fmap_Some. exists P. split; [done|]. destruct (Hf P HP) as [? [?|[? ?]]]; auto 6.
Qed.

Lemma change_proc_fwd p f s p' P : update_ok s p f → procs s !! p' = Some P →
  ∃ P', procs (change_proc p f s) !! p' = Some P' ∧ p_init P' = p_init P ∧ (p_pid P ≠ 0 → p_pid P' = p_pid P) ∧
    (p' ≠ p → P' = P).
Proof.
  intros Hf HP. rewrite lookup_change_proc. case_decide as E; [|eauto 6]. subst. rewrite HP. eexists. split; [done|].
  destruct (Hf P HP) as [? [?|[? ?]]]; naive_solver.
Qed.

Lemma is_proc_change p f s b p' : update_ok s p f → is_proc s b p' → is_proc (change_proc p f s) b p'.
Proof. intros Hf (P & HP & Hb). destruct (change_proc_fwd p f s p' P Hf HP) as (P' & ? & ? & _). exists P'. split; congruence. Qed.

Lemma pid_of_change p f s p' : update_ok s p f → pid_of s p' ≠ 0 → pid_of (change_proc p f s) p' = pid_of s p'.
Proof.
  intros Hf. destruct (procs s !! p') as [P|] eqn:HP; [|unfold pid_of at 1; by rewrite HP].
  rewrite (pid_of_lookup _ _ _ HP). destruct (change_proc_fwd p f s p' P Hf HP) as (P' & HP' & _ & Hpid & _).
  intros Hne. by rewrite (pid_of_lookup _ _ _ HP'), Hpid.
Qed.

Lemma swf_change_proc p f s : swf s → update_ok s p f → swf (change_proc p f s).
Proof.
  intros Hw Hf. pose proof (λ q, gone_pos s q Hw) as Hgone. destruct Hw. constructor; try done.
  - intros p' P' HP'. destruct (change_proc_inv p f s p' P' Hf HP') as (P & HP & _ & [->|(_ & _ & (_ & ? & _))]); [by eapply w_pid0|by right].
  - intros p1 p2 P1 P2 H1 H2. destruct (change_proc_inv p f s p1 P1 Hf H1) as (Q1 & HQ1 & _ & E1).
    destruct (change_proc_inv p f s p2 P2 Hf H2) as (Q2 & HQ2 & _ & E2).
    destruct E1 as [->|(? & -> & (_ & _ & F1))], E2 as [->|(? & -> & (_ & _ & F2))]; [by apply w_inj0|..];
      intros Heq Hne; [by destruct (F2 _ _ HQ1)|by destruct (F1 _ _ HQ2)|done].
  - intros c C HC. destruct (w_cont0 c C HC) as [Hp He]. split; [by apply is_proc_change|].
    intros id p' Hp'. apply is_proc_change; [done|by eapply He].
  - intros q cps cp Hq Hcp. destruct (w_run0 q cps cp Hq Hcp) as (Hne & P & HP & Hpid & Hc). split; [done|].
    destruct (change_proc_fwd p f s _ P Hf HP) as (P' & HP' & Hi & Hpid' & _). exists P'. split; [done|].
    rewrite Hpid' by congruence. split; [done|]. by rewrite Hi.
  - intros p' q st Hin. destruct (w_events0 p' q st Hin) as ([P HP] & Hpid & Hr).
    destruct (change_proc_fwd p f s p' P Hf HP) as (P' & HP' & Hi & Hpid' & _).
    assert (0 < q) as Hpos by (apply Hgone; by apply (list_elem_of_fmap_2 e_Pid _ (mk_Exit q st))).
    split; [by exists P'|]. split; [|done]. rewrite (pid_of_lookup _ _ _ HP) in Hpid.
    rewrite (pid_of_lookup _ _ _ HP'), Hpid'; [done|]. lia.
Qed.

Lemma is_proc_app s P b p : is_proc s b p → is_proc (set_procs (procs s ++ [P]) s) b p.
Proof. intros (Q & HQ & ?). exists Q. split; [|done]. simpl. by apply lookup_app_l_Some. Qed.

Lemma pid_of_app s P p : is_Some (procs s !! p) → pid_of (set_procs (procs s ++ [P]) s) p = pid_of s p.
Proof. intros [Q HQ]. rewrite (pid_of_lookup _ _ _ HQ). by apply pid_of_lookup, lookup_app_l_Some. Qed.

Lemma swf_new_proc P s : swf s → p_pid P = 0 ∨ fresh_pid s (p_pid P) → swf (set_procs (procs s ++ [P]) s).
Proof.
  intros [] HP. constructor; try done; simpl.
  - intros p Q [HQ|[_ HQ]]%lookup_app_Some; [by eapply w_pid0|].
    apply list_lookup_singleton_Some in HQ as [_ <-]. destruct HP as [?|(_ & ? & _)]; [by left|by right].
  - intros p1 p2 P1 P2 [H1|[L1 [E1 <-]%list_lookup_singleton_Some]]%lookup_app_Some
      [H2|[L2 [E2 <-]%list_lookup_singleton_Some]]%lookup_app_Some Heq Hne.
    + by eapply w_inj0.
    + destruct HP as [?|(_ & _ & Hf)]; [congruence|by destruct (Hf _ _ H1)].
    + destruct HP as [?|(_ & _ & Hf)]; [congruence|by destruct (Hf _ _ H2)].
    + lia.
  - intros c C HC. destruct (w_cont0 c C HC) as [? He]. split; [by apply is_proc_app|].
    intros id p Hp. apply is_proc_app. by eapply He.
  - intros q cps cp Hq Hcp. destruct (w_run0 q cps cp Hq Hcp) as (? & Q & HQ & ? & ?). split; [done|].
    exists Q. split; [by apply lookup_app_l_Some|done].
  - intros p q st Hin. destruct (w_events0 p q st Hin) as ([Q HQ] & ? & ?). split; [exists Q; by apply lookup_app_l_Some|].
    split; [|done]. by rewrite pid_of_app by eauto.
Qed.

Lemma swf_new_cont s id p : swf s → is_proc s true p → (∀ c C, conts s !! c = Some C → c_process C ≠ p) →
  swf (set_containers (<[id := length (conts s)]> (containers s)) (set_conts (conts s ++ [mk_Container id p ∅ ∅]) s)).
Proof.
  intros [] Hp Hnew. constructor; try done; simpl.
  - intros c C [HC|[_ [_ <-]%list_lookup_singleton_Some]]%lookup_app_Some; [by apply (w_cont0 c C)|].
    split; [done|]. intros id' p'. simpl. by rewrite lookup_empty.
  - intros c1 c2 C1 C2 [H1|[L1 [E1 <-]%list_lookup_singleton_Some]]%lookup_app_Some
      [H2|[L2 [E2 <-]%list_lookup_singleton_Some]]%lookup_app_Some; simpl.
    + by apply w_cinj0.
    + intros Heq. by destruct (Hnew _ _ H1).
    + intros Heq. by destruct (Hnew _ _ H2).
    + intros _. lia.
  - intros id' c [[<- <-]|[_ Hc]]%lookup_insert_Some.
    + exists (mk_Container id p ∅ ∅). by rewrite lookup_app_r, Nat.sub_diag by lia.
    + destruct (w_map0 _ _ Hc) as [C HC]. exists C. by apply lookup_app_l_Some.
  - intros q cps cp Hq Hcp. destruct (w_run0 q cps cp Hq Hcp) as (? & Q & HQ & ? & Hc). split; [done|].
    exists Q. split_and!; [done|done|]. intros Hi. destruct (conts s !! cp_Container cp) as [C|] eqn:HC; [|by specialize (Hc Hi)].
    erewrite lookup_app_l_Some by done. by apply Hc.
Qed.

Lemma lookup_change_cont c g s c' :
  conts (change_cont c g s) !! c' = if decide (c' = c) then g <$> conts s !! c' else conts s !! c'.
Proof.
  simpl. case_decide as E; [subst; apply list_lookup_alter_eq|apply list_lookup_alter_ne; congruence].
Qed.

(** A change of the tables of a container. *)
Definition cont_ok (s : service) (c : nat) (g : Container → Container) : Prop :=
  ∀ C, conts s !! c = Some C → c_process (g C) = c_process C ∧
    ∀ id p, c_processes (g C) !! id = Some p → c_processes C !! id = Some p ∨ is_proc s false p.

Lemma c_process_change c g s c' : cont_ok s c g →
  c_process <$> conts (change_cont c g s) !! c' = c_process <$> conts s !! c'.
Proof.
  intros Hg. rewrite lookup_change_cont. case_decide; [|done]. subst. destruct (conts s !! c) eqn:E; [|done].
  simpl. f_equal. by apply Hg.
Qed.

Lemma swf_change_cont c g s : swf s → cont_ok s c g → swf (change_cont c g s).
Proof.
  intros [] Hg. assert (∀ c' C', conts (change_cont c g s) !! c' = Some C' →
    ∃ C, conts s !! c' = Some C ∧ c_process C' = c_process C ∧
      ∀ id p, c_processes C' !! id = Some p → c_processes C !! id = Some p ∨ is_proc s false p) as Hinv.
  { intros c' C'. rewrite lookup_change_cont. case_decide; [|eauto 6]. subst.
    intros (C & HC & ->)%fmap_Some. exists C. split; [done|]. by apply Hg. }
  constructor; try done.
  - intros c' C' HC'. destruct (Hinv c' C' HC') as (C & HC & -> & Hps). destruct (w_cont0 c' C HC) as [? He].
    split; [done|]. intros id p Hp. destruct (Hps id p Hp) as [?|?]; [by apply (He id)|done].
  - intros c1 c2 C1 C2 H1 H2. destruct (Hinv c1 C1 H1) as (D1 & ? & -> & _), (Hinv c2 C2 H2) as (D2 & ? & -> & _).
    by apply w_cinj0.
  - intros id c' Hc'. destruct (w_map0 id c' Hc') as [C HC].
    apply fmap_is_Some with (f := c_process). rewrite c_process_change by done. by rewrite HC.
  - intros q cps cp Hq Hcp. destruct (w_run0 q cps cp Hq Hcp) as (? & Q & HQ & ? & Hc). split; [done|].
    exists Q. split_and!; [done|done|]. by rewrite c_process_change.
Qed.

(** ** What calls know is kept *)

Definition fixed (k : pc) : option nat :=
  match k with StartSpawned _ p _ | CreateSend _ p => Some p | _ => None end.

(** A change that ends the subscription [sub], ends the start of [p] and takes the pid
    [q], if there are such. *)
Record keeps (s s' : service) (sub p : option nat) (q : option Z) : Prop := {
  kp_conts : ∀ c, is_Some (conts s !! c) → c_process <$> conts s' !! c = c_process <$> conts s !! c;
  kp_procs : ∀ p' P, procs s !! p' = Some P → ∃ P', procs s' !! p' = Some P' ∧ p_init P' = p_init P ∧
    (p_pid P ≠ 0 → p_pid P' = p_pid P) ∧
    (p ≠ Some p' → p_pid P' = p_pid P ∧ (p_phase P = Starting → p_phase P' = Starting));
  kp_fresh : ∀ q', fresh_pid s q' → q ≠ Some q' → fresh_pid s' q';
  kp_subs : ∀ sub', sub ≠ Some sub' → is_Some (exitSubscribers s !! sub') →
    is_Some (exitSubscribers s' !! sub') ∧ ∀ q', caught s sub' q' → caught s' sub' q';
  kp_reaped : ∀ e, e ∈ reaped s → e ∈ reaped s'
}.

Lemma keeps_is_Some_cont s s' sub p q c : keeps s s' sub p q → is_Some (conts s !! c) → is_Some (conts s' !! c).
Proof.
  intros Hk [C HC]. pose proof (kp_conts _ _ _ _ _ Hk c ltac:(eauto)) as E. rewrite HC in E.
  destruct (conts s' !! c); [eauto|done].
Qed.

Lemma keeps_is_proc s s' sub p q b p' : keeps s s' sub p q → is_proc s b p' → is_proc s' b p'.
Proof. intros Hk (P & HP & Hb). destruct (kp_procs _ _ _ _ _ Hk _ _ HP) as (P' & ? & ? & _). exists P'. split; congruence. Qed.

Lemma keeps_is_Some_proc s s' sub p q p' : keeps s s' sub p q → is_Some (procs s !! p') → is_Some (procs s' !! p').
Proof. intros Hk [P HP]. destruct (kp_procs _ _ _ _ _ Hk _ _ HP) as (P' & ? & _). eauto. Qed.

Lemma keeps_pid s s' sub p q p' : keeps s s' sub p q → pid_of s p' ≠ 0 → pid_of s' p' = pid_of s p'.
Proof.
  intros Hk. destruct (procs s !! p') as [P|] eqn:HP; [|unfold pid_of at 1; by rewrite HP].
  rewrite (pid_of_lookup _ _ _ HP). destruct (kp_procs _ _ _ _ _ Hk _ _ HP) as (P' & HP' & _ & Hpid & _).
  intros Hne. by rewrite (pid_of_lookup _ _ _ HP'), Hpid.
Qed.

Lemma keeps_target s s' sub p q f p' : keeps s s' sub p q → target s f p' → target s' f p'.
Proof.
  intros Hk [(? & ? & Hc)|[? ?]]; [left|right; by eauto using keeps_is_proc].
  split_and!; [done|by eauto using keeps_is_proc|]. rewrite (kp_conts _ _ _ _ _ Hk); [done|].
  destruct (conts s !! f_c f); [eauto|done].
Qed.

Lemma keeps_exits_of s s' sub p q p' ees : swf s → keeps s s' sub p q → exits_of s p' ees → exits_of s' p' ees.
Proof.
  intros Hw Hk [Hp He]. split; [by eapply keeps_is_Some_proc|]. intros e Hin. destruct (He e Hin) as [Hr Hpid].
  split; [by apply Hk|]. rewrite (keeps_pid _ _ _ _ _ _ Hk); [done|].
  destruct (gone_pos s (e_Pid e) Hw) as [? _]; [by apply list_elem_of_fmap_2|]. lia.
Qed.

Lemma call_ok_keeps s s' sub p q k :
  swf s → keeps s s' sub p q → call_ok s k →
  (∀ x, sub = Some x → sub_of k ≠ Some x) → (∀ x, p = Some x → fixed k ≠ Some x) →
  (∀ x, q = Some x → spawned k ≠ Some x) → call_ok s' k.
Proof.
  intros Hw Hk (Hsub & Hc & Hm) Hns Hnp Hnq.
  assert (∀ x, sub_of k = Some x → is_Some (exitSubscribers s' !! x) ∧ ∀ q', caught s x q' → caught s' x q') as Hsubs.
  { intros x Hx. apply (kp_subs _ _ _ _ _ Hk); [|by apply Hsub]. intros ->. by eapply Hns. }
  split; [intros x Hx; by apply Hsubs|]. split; [intros c Hc'; eapply keeps_is_Some_cont; [done|by apply Hc]|].
  destruct k as [| | |id sub0 q0|f p0| | | |f p0|f p0 q0|f p0|f [p0|]|f [p0|] pid|f p0 ees|f p0 e ees|f p0 e ees| | | | | | | | |p0| | |id c i p0|id c i p0|p0];
    try done; simpl in *.
  - destruct Hm as [Hf Hct]. split; [apply (kp_fresh _ _ _ _ _ Hk); [done|]|by apply (Hsubs sub0)].
    intros ->. by eapply Hnq.
  - destruct Hm as (? & ? & Ht & Hct). split_and!; [done|done|by eapply keeps_target|].
    assert (pid_of s' p0 = pid_of s p0) as ->; [|by apply (Hsubs (f_sub f))].
    destruct Ht as [(_ & (P & HP & _) & _)|(_ & (P & HP & _))];
      (destruct (kp_procs _ _ _ _ _ Hk _ _ HP) as (P' & HP' & _ & _ & Hsame);
       rewrite (pid_of_lookup _ _ _ HP), (pid_of_lookup _ _ _ HP'); apply Hsame; intros ->; by eapply Hnp).
  - destruct Hm as [? ?]. split; [done|]. by eapply keeps_target.
  - destruct Hm as (? & ? & ? & ? & Hpid & Hph). split_and!; [done|by eapply keeps_target| |by apply (Hsubs (f_sub f))|..].
    { apply (kp_fresh _ _ _ _ _ Hk); [done|]. intros ->. by eapply Hnq. }
    all: destruct (procs s !! p0) as [P|] eqn:HP; [|done]; simpl in *;
      destruct (kp_procs _ _ _ _ _ Hk _ _ HP) as (P' & HP' & _ & _ & Hsame);
      rewrite HP'; simpl; f_equal; destruct Hsame as [? ?]; [intros ->; by eapply Hnp|].
    + congruence.
    + naive_solver.
  - destruct Hm as (? & ? & Hct & Hne). rewrite (keeps_pid _ _ _ _ _ _ Hk Hne).
    split_and!; [done|by eapply keeps_target|by apply (Hsubs (f_sub f))|done].
  - by eapply keeps_target.
  - destruct Hm as [? Hpid]. split; [by eapply keeps_target|]. intros Hne. specialize (Hpid Hne). subst.
    by rewrite (keeps_pid _ _ _ _ _ _ Hk Hne).
  - by eapply keeps_exits_of.
  - by eapply keeps_exits_of.
  - by eapply keeps_exits_of.
  - by eapply keeps_is_proc.
  - by eapply keeps_is_Some_proc.
  - by eapply keeps_is_Some_proc.
  - by eapply keeps_is_Some_proc.
  - by eapply keeps_is_Some_proc.
Qed.

Lemma exits_ok_keeps s s' sub p q k : swf s → keeps s s' sub p q → exits_ok s k → exits_ok s' k.
Proof.
  intros Hw Hk. destruct k; simpl; [done|..]; intros He; [|destruct He as [He0 He]; split; [by eapply keeps_exits_of|]..];
    intros cp Hcp; (eapply keeps_exits_of; [done..|by apply He]).
Qed.

Lemma keeps_unchanged s s' : unchanged s s' → keeps s s' None None None.
Proof.
  intros []. constructor.
  - by rewrite u_conts0.
  - intros p P HP. exists P. by rewrite u_procs0.
  - intros q (? & ? & ?) _. split; [done|]. by rewrite u_used0, u_procs0.
  - intros sub _ Hs. unfold caught, recorded. by rewrite u_subs0, u_reaped0.
  - by rewrite u_reaped0.
Qed.

(** The kernel's part changes and only more pids are used. *)
Lemma keeps_kernel e a u s : used s ⊆ u → keeps s (set_kernel e a u s) None None None.
Proof.
  intros Hu. constructor; try done.
  - intros p P HP. by exists P.
  - intros q (? & ? & ?) _. split_and!; [done|by apply Hu|done].
Qed.

Lemma keeps_preStart c s s' sub : swf s → preStart c s = (s', sub) → keeps s s' None None None.
Proof.
  intros Hw E. destruct (preStart_run c s) as (? & ? & E' & -> & Hs & _). rewrite E in E'. simplify_eq.
  set (R := running s') in *. clearbody R. subst s'. constructor; try done; simpl.
  - intros p P HP. by exists P.
  - intros sub _ [m Hm]. destruct (w_subs _ Hw sub m Hm) as [Hlt _].
    assert (exitSubscribers s !! sub = <[subscribed s := ∅]> (exitSubscribers s) !! sub) as E2
      by (rewrite lookup_insert_ne by lia; done).
    unfold caught, recorded. simpl. rewrite <- E2. rewrite Hm. eauto.
Qed.

Lemma keeps_unsubscribe sub r s :
  keeps s (set_running r (set_subscribers (delete sub (exitSubscribers s)) s)) (Some sub) None None.
Proof.
  constructor; try done; simpl.
  - intros p P HP. by exists P.
  - intros sub' Hne [m Hm]. unfold caught, recorded. simpl. rewrite lookup_delete_ne by congruence. rewrite Hm. eauto.
Qed.

Lemma keeps_take_exit e rest s s' cps :
  ec s = e :: rest → take_exit e (receive e rest s) = (s', cps) → keeps s s' None None None.
Proof.
  intros E Et. destruct (take_exit_run e rest s E) as (? & ? & Et' & -> & ->). rewrite Et in Et'. injection Et' as -> ->.
  constructor; try done; simpl.
  - intros p P HP. by exists P.
  - intros sub _ [m Hm]. rewrite lookup_fmap, Hm. split; [by eexists|]. intros q Hc. unfold caught, recorded in *. simpl.
    rewrite lookup_fmap, Hm in *. simpl in *. rewrite fmap_app, elem_of_app. destruct (decide (q = e_Pid e)) as [->|Hne].
    + rewrite lookup_insert_eq. eauto.
    + rewrite lookup_insert_ne by done. intros [?|?%list_elem_of_singleton]; [by apply Hc|done].
  - intros e' ?. apply elem_of_app. by left.
Qed.

Lemma keeps_change_proc p f s :
  update_ok s p f → keeps s (change_proc p f s) None (Some p) (p_pid ∘ f <$> procs s !! p).
Proof.
  intros Hf. constructor; try done.
  - intros p' P HP. destruct (change_proc_fwd p f s p' P Hf HP) as (P' & ? & ? & ? & Hne). exists P'.
    split_and!; [done..|]. intros Hp. rewrite Hne by congruence. done.
  - intros q' (? & ? & Hq) Hne. split_and!; [done|done|]. intros p' P' HP'.
    rewrite lookup_change_proc in HP'. case_decide; [subst|by eapply Hq].
    apply fmap_Some in HP' as (P & HP & ->). rewrite HP in Hne. simpl in Hne. congruence.
Qed.

(** A new phase for a process that is not being started. *)
Lemma update_phase s p ph : update_ok s p (set_phase ph).
Proof. intros P _. by split; [|left]. Qed.

Lemma keeps_set_phase p ph s :
  p_phase <$> procs s !! p ≠ Some Starting → keeps s (change_proc p (set_phase ph) s) None None None.
Proof.
  intros Hph. constructor; try done.
  - intros p' P HP. rewrite lookup_change_proc. case_decide; [|eauto 6]. subst. rewrite HP in *. simpl in *.
    eexists. split; [done|]. simpl. split; [done|]. split; [done|]. intros _. split; [done|]. congruence.
  - intros q' (? & ? & Hq) _. split_and!; [done|done|]. intros p' P' HP'.
    rewrite lookup_change_proc in HP'. case_decide; [subst|by eapply Hq].
    apply fmap_Some in HP' as (P & HP & ->). by apply (Hq p P).
Qed.

Lemma keeps_new_proc P s : keeps s (set_procs (procs s ++ [P]) s) None None (Some (p_pid P)).
Proof.
  constructor; try done; simpl.
  - intros p Q HQ. exists Q. by split; [apply lookup_app_l_Some|].
  - intros q (? & ? & Hq) Hne. split_and!; [done|done|]. simpl.
    intros p Q [HQ|[_ [_ <-]%list_lookup_singleton_Some]]%lookup_app_Some; [by eapply Hq|]. congruence.
Qed.

Lemma keeps_change_cont c g s : cont_ok s c g → keeps s (change_cont c g s) None None None.
Proof.
  intros Hg. constructor; try done.
  - intros c' _. by apply c_process_change.
  - intros p P HP. by exists P.
Qed.

Lemma new_container_run id q s : ∃ s1 c p, new_container id q s = (s1, c, p) ∧ c = length (conts s) ∧ p = length (procs s) ∧
  s1 = set_conts (conts s ++ [mk_Container id p ∅ ∅]) (set_procs (procs s ++ [mk_Process id true q Created]) s).
Proof. by do 3 eexists. Qed.

Lemma swf_create id q s s1 c p : swf s → q = 0 ∨ fresh_pid s q → new_container id q s = (s1, c, p) →
  swf (set_containers (<[id := c]> (containers s1)) s1) ∧
  keeps s (set_containers (<[id := c]> (containers s1)) s1) None None (Some q).
Proof.
  intros Hw Hq E. destruct (new_container_run id q s) as (? & ? & ? & E' & -> & -> & ->).
  rewrite E in E'. injection E' as -> -> ->. split.
  - pose proof (swf_new_proc (mk_Process id true q Created) s Hw Hq) as Hw1.
    apply (swf_new_cont _ id (length (procs s)) Hw1).
    + exists (mk_Process id true q Created). simpl. by rewrite lookup_app_r, Nat.sub_diag by lia.
    + intros c' C HC Heq. destruct (w_cont _ Hw c' C HC) as [(P & HP & _) _]. rewrite Heq in HP.
      apply lookup_lt_Some in HP. lia.
  - destruct (keeps_new_proc (mk_Process id true q Created) s) as [_ Hp Hf Hs Hr].
    constructor; try done. intros c' [C HC]. simpl. by rewrite HC, (lookup_app_l_Some _ _ _ _ HC).
Qed.

Lemma spawn_inv q s s' : spawn q s = Some s' →
  0 < q ∧ q ∉ used s ∧ s' = set_kernel (ec s) ({[q]} ∪ alive s) ({[q]} ∪ used s) s.
Proof. unfold spawn. case_match eqn:E; [|done]. intros [= <-]. by bool_to_prop. Qed.

(** A pid that has just been given out. *)
Lemma spawned_fresh q s s' : swf s → spawn q s = Some s' → fresh_pid s' q ∧ ∀ sub, caught s' sub q.
Proof.
  intros Hw (Hpos & Hnew & ->)%spawn_inv. split; [split_and!; [done|simpl; set_solver|]|].
  - simpl. intros p P HP Heq. destruct (w_pid _ Hw p P HP) as [?|?]; [lia|congruence].
  - intros sub Hg. destruct (gone_pos s q Hw Hg) as (_ & ? & _). done.
Qed.
