(* ===== verification/TaskWf.v ===== *)
(** * The invariant of the goroutines of the task service

    For Task.v: every action of a goroutine, of the kernel and of the callers keeps the
    invariant [wf]: no two goroutines share a subscription, a pid or a new container, and
    the mutex is held by the goroutine that thinks so. *)

From S2P Require Import Prelude.
From S2P Require Import Task.
From S2P Require Import TaskInv.

(** ** The invariant of the goroutines *)

Record wf (t : system) : Prop := {
  wf_svc : swf (svc t);
  wf_call : ∀ i k, calls t !! i = Some k → call_ok (svc t) k;
  wf_apart : ∀ i j ki kj, i ≠ j → calls t !! i = Some ki → calls t !! j = Some kj → apart ki kj;
  wf_exits : exits_ok (svc t) (exits t);
  wf_subs : ∀ sub, is_Some (exitSubscribers (svc t) !! sub) → ∃ i k, calls t !! i = Some k ∧ sub_of k = Some sub;
  wf_holds : ∀ i k, calls t !! i = Some k → (holds k = true ↔ mu (svc t) = Some (Call i));
  wf_exits_holds : exits_holds (exits t) = true ↔ mu (svc t) = Some Exits;
  wf_holder : ∀ i, mu (svc t) = Some (Call i) → is_Some (calls t !! i)
}.

Lemma wf_initial : wf initial.
Proof.
  assert (∀ {A} (x : A), x ∉ @nil A) as Hnil by (intros A x Hx; by apply elem_of_nil in Hx).
  constructor; simpl; try done.
  - constructor; simpl; try done; try (by intros ? ?%Hnil); [by apply NoDup_nil|by intros p q st ?%Hnil].
  - intros sub [m Hm]. by rewrite lookup_empty in Hm.
Qed.

Lemma made_holds k c : made k = Some c → holds k = true.
Proof. destruct k; try done; simpl; by case_match. Qed.

Lemma made_cont k c : made k = Some c → cont_of k = Some c.
Proof. destruct k; try done; simpl; by case_match. Qed.

(** The effect of an action on the resources of a call. *)
Record takes (i : nat) (s : service) (k : pc) (s' : service) (k' : pc) (sub p : option nat) (q : option Z) : Prop := {
  tk_sub : ∀ x, sub = Some x → sub_of k = Some x;
  tk_starting : ∀ x, p = Some x → starting k = Some x;
  tk_spawned : ∀ x, q = Some x → x ≠ 0 → spawned k = Some x;
  tk_sub' : ∀ x, sub_of k' = Some x → sub_of k = Some x ∨ exitSubscribers s !! x = None;
  tk_spawned' : ∀ x, spawned k' = Some x → spawned k = Some x ∨ x ∉ used s;
  tk_starting' : ∀ x, starting k' = Some x → starting k = Some x ∨ p_phase <$> procs s !! x ≠ Some Starting;
  tk_made' : ∀ c, made k' = Some c → made k = Some c ∨ conts s !! c = None;
  tk_cont' : ∀ c, cont_of k' = Some c → cont_of k = Some c ∨ mu s = None ∨ conts s !! c = None;
  tk_subs : ∀ x, is_Some (exitSubscribers s' !! x) →
    (is_Some (exitSubscribers s !! x) ∧ (sub_of k = Some x → sub_of k' = Some x)) ∨ sub_of k' = Some x;
  tk_holds : holds k' = true ↔ mu s' = Some (Call i);
  tk_mu : mu s' = mu s ∨ ((mu s = None ∨ mu s = Some (Call i)) ∧ (mu s' = None ∨ mu s' = Some (Call i)))
}.

Lemma wf_acts t i k s' k' sub p q :
  wf t → calls t !! i = Some k → swf s' → keeps (svc t) s' sub p q → call_ok s' k' →
  takes i (svc t) k s' k' sub p q → wf (mk_system s' (<[i:=k']> (calls t)) (exits t)).
Proof.
  intros Hwf Hi Hw Hkeeps Hok Ht. pose proof (wf_call _ Hwf) as Hcall. destruct Ht.
  assert (∀ j kj, j ≠ i → calls t !! j = Some kj → call_ok s' kj) as Hothers.
  { intros j kj Hj Hkj. destruct (wf_apart _ Hwf i j k kj (not_eq_sym Hj) Hi Hkj) as (Ha & Hb & _ & Hd).
    destruct (wf_apart _ Hwf j i kj k Hj Hkj Hi) as (_ & _ & Hc & _).
    eapply call_ok_keeps; [apply Hwf|done|by eapply Hcall|..].
    - intros x Hx. by apply Ha, tk_sub0.
    - intros x Hx. apply tk_starting0 in Hx. destruct kj; simpl; try done; [|by apply Hd].
      intros [= ->]. destruct k as [| | | | | | | | |f0 p0 q0| | | | | | | | | | | | | | | | | | | |]; try done.
      injection Hx as ->. apply (Hc (f_c f)); [done|]. simpl.
      destruct (Hcall _ _ Hi) as (_ & _ & _ & Ht1 & _). destruct (Hcall _ _ Hkj) as (_ & _ & _ & Hid & Ht2 & _).
      destruct Ht1 as [(_ & (P1 & HP1 & Hi1) & Hc1)|(_ & (P1 & HP1 & Hi1))],
        Ht2 as [(_ & (P2 & HP2 & Hi2) & Hc2)|(Hne2 & (P2 & HP2 & Hi2))]; simplify_eq; [|congruence..].
      + destruct (conts (svc t) !! f_c f0) as [C1|] eqn:HC1; [|done]. destruct (conts (svc t) !! f_c f) as [C2|] eqn:HC2; [|done].
        f_equal. eapply (w_cinj _ (wf_svc _ Hwf)); [done..|]. naive_solver.
    - intros x Hx. destruct (decide (x = 0)) as [->|Hne]; [|by apply Hb, tk_spawned0].
      intros Hs. destruct kj; try done; destruct (Hcall _ _ Hkj) as (_ & _ & Hq); simpl in *; destruct_and!; simplify_eq;
        by match goal with H : fresh_pid _ 0 |- _ => destruct H as [? _] end. }
  assert (∀ j kj, j ≠ i → calls t !! j = Some kj → apart k' kj ∧ apart kj k') as Hap.
  { intros j kj Hj Hkj. destruct (wf_apart _ Hwf i j k kj (not_eq_sym Hj) Hi Hkj) as (A1 & A2 & A3 & A4).
    destruct (wf_apart _ Hwf j i kj k Hj Hkj Hi) as (B1 & B2 & B3 & B4).
    destruct (Hcall _ _ Hkj) as (Csub & Ccont & Cm).
    assert (∀ x, sub_of k' = Some x → sub_of kj ≠ Some x) as H1.
    { intros x Hx Hx'. destruct (tk_sub'0 _ Hx) as [?|Hn]; [by eapply A1|]. destruct (Csub _ Hx'). congruence. }
    assert (∀ x, spawned k' = Some x → spawned kj ≠ Some x) as H2.
    { intros x Hx Hx'. destruct (tk_spawned'0 _ Hx) as [?|Hn]; [by eapply A2|].
      destruct kj; try done; simpl in *; destruct_and!; simplify_eq;
        match goal with H : fresh_pid _ x |- _ => by destruct H as (_ & ? & _) end. }
    assert (∀ x, starting k' = Some x → starting kj ≠ Some x) as H3.
    { intros x Hx Hx'. destruct (tk_starting'0 _ Hx) as [?|Hn]; [by eapply A4|].
      destruct kj; try done; simpl in *; destruct_and!; simplify_eq. }
    split; (split; [|split; [|split]]).
    - done.
    - done.
    - intros c Hc Hc'. destruct (tk_made'0 _ Hc) as [?|Hn]; [by eapply A3|]. destruct (Ccont _ Hc'). congruence.
    - done.
    - intros x Hx Hx'. by eapply H1.
    - intros x Hx Hx'. by eapply H2.
    - intros c Hc Hc'. destruct (tk_cont'0 _ Hc') as [?|[Hn|Hn]]; [by eapply B3| |].
      + apply made_holds, (wf_holds _ Hwf j kj Hkj) in Hc. congruence.
      + apply made_cont in Hc. destruct (Ccont _ Hc). congruence.
    - intros x Hx Hx'. by eapply H3. }
  constructor; simpl; try done.
  - intros j kj [(<- & <- & _)|[Hj Hkj]]%list_lookup_insert_Some; [done|]. by apply (Hothers j).
  - intros j1 j2 k1 k2 Hne H1 H2. apply list_lookup_insert_Some in H1 as [(<- & <- & _)|[Hj1 H1]], H2 as [(<- & <- & _)|[Hj2 H2]].
    + done.
    + by eapply Hap.
    + by eapply Hap.
    + by eapply (wf_apart _ Hwf j1 j2).
  - eapply exits_ok_keeps; [apply Hwf|done|apply Hwf].
  - intros x Hx. destruct (tk_subs0 x Hx) as [[Hx' Hk]|Hk].
    + destruct (wf_subs _ Hwf x Hx') as (j & kj & Hkj & Hs). destruct (decide (j = i)) as [->|Hj].
      * exists i, k'. rewrite list_lookup_insert_eq by (by apply lookup_lt_Some in Hi). split; [done|]. apply Hk. congruence.
      * exists j, kj. by rewrite list_lookup_insert_ne by done.
    + exists i, k'. by rewrite list_lookup_insert_eq by (by apply lookup_lt_Some in Hi).
  - intros j kj [(<- & <- & _)|[Hj Hkj]]%list_lookup_insert_Some; [done|]. rewrite (wf_holds _ Hwf j kj Hkj).
    destruct tk_mu0 as [->|[[->| ->] [->| ->]]]; [done|..]; split; congruence.
  - rewrite (wf_exits_holds _ Hwf). destruct tk_mu0 as [->|[[->| ->] [->| ->]]]; [done|..]; split; congruence.
  - intros j Hj. destruct (decide (j = i)) as [->|Hne].
    { rewrite list_lookup_insert_eq by (by apply lookup_lt_Some in Hi). eauto. }
    rewrite list_lookup_insert_ne by done.
    apply (wf_holder _ Hwf). destruct tk_mu0 as [<-|[[?|?] [?|?]]]; congruence.
Qed.

(** ** Every action keeps the invariant *)

Ltac takes_tac :=
  constructor; simpl in *; try match goal with H : f_locked ?f = _ |- _ => rewrite ?H end; try done;
  try (intros; simplify_eq; first [done|by auto|by left|congruence|intuition congruence]).
Ltac call_tac := split; [simpl; intros; simplify_eq; eauto|split; [simpl; intros; simplify_eq; eauto|simpl]].

Ltac look := cbn [advance Create_step Start_step handleStarted_step Exec_step Delete_step holds exits_holds sub_of cont_of spawned made starting] in *.

Section Advance.
Variables (t : system) (i : nat).
Hypothesis Hwf : wf t.
Abbreviation s := (svc t).

Lemma wf_unchanged k k' s' :
  calls t !! i = Some k → unchanged s s' → (∀ id c, containers s' !! id = Some c → is_Some (conts s !! c)) →
  call_ok s k' → takes i s k s' k' None None None → wf (mk_system s' (<[i:=k']> (calls t)) (exits t)).
Proof.
  intros Hi Hu Hm Hok Ht. pose proof (wf_svc _ Hwf) as Hw. pose proof (keeps_unchanged _ _ Hu) as Hk.
  eapply (wf_acts _ _ _ _ _ None None None Hwf Hi); [by eapply swf_unchanged|done| |done].
  by eapply call_ok_keeps.
Qed.

(** An action that only moves the program counter. *)
Lemma wf_moves k k' :
  calls t !! i = Some k → call_ok s k' → takes i s k s k' None None None →
  wf (mk_system s (<[i:=k']> (calls t)) (exits t)).
Proof. intros Hi Hok Ht. eapply wf_unchanged; [done|apply unchanged_refl|apply Hwf|done|done]. Qed.

(** Sending an event that is no exit. *)
Lemma wf_sends k k' e s' :
  calls t !! i = Some k → send e s = Some s' → (∀ p, is_exit_of p e = false) → call_ok s k' →
  (mu s' = mu s → exitSubscribers s' = exitSubscribers s → takes i s k s' k' None None None) →
  wf (mk_system s' (<[i:=k']> (calls t)) (exits t)).
Proof.
  intros Hi Hs He Hok Ht. pose proof (unchanged_send _ _ _ Hs He) as Hu.
  eapply wf_unchanged; [done|done| |done|].
  - apply send_inv in Hs as ->. apply Hwf.
  - apply Ht; apply send_inv in Hs as ->; done.
Qed.

(** A subscription is new. *)
Lemma new_sub : exitSubscribers s !! subscribed s = None.
Proof.
  destruct (exitSubscribers s !! subscribed s) as [m|] eqn:E; [|done].
  destruct (w_subs _ (wf_svc _ Hwf) _ _ E). lia.
Qed.

Lemma wf_preStart k c k' s' sub :
  calls t !! i = Some k → preStart c s = (s', sub) → sub_of k = None → sub_of k' = Some sub →
  holds k' = holds k → spawned k' = None → starting k' = None → made k' = None → cont_of k' = cont_of k →
  (is_Some (exitSubscribers s' !! sub) → keeps s s' None None None → call_ok s k → call_ok s' k') →
  wf (mk_system s' (<[i:=k']> (calls t)) (exits t)).
Proof.
  intros Hi Ep Hk Hk' Hh Hsp Hst Hmd Hct Hok. pose proof (wf_svc _ Hwf) as Hw. pose proof new_sub as Hnew.
  destruct (preStart_run c s) as (? & ? & E' & -> & Es & _). rewrite Ep in E'. injection E' as <- ->.
  assert (exitSubscribers s' = <[subscribed s:=∅]> (exitSubscribers s)) as Esub by (by rewrite Es).
  assert (mu s' = mu s) as Emu by (by rewrite Es). pose proof (keeps_preStart _ _ _ _ Hw Ep) as Hkeep.
  eapply (wf_acts _ _ _ _ _ None None None Hwf Hi); [by eapply swf_preStart|done| |].
  - apply Hok; [rewrite Esub, lookup_insert_eq; eauto|done|by eapply wf_call].
  - constructor; rewrite ?Hsp, ?Hst, ?Hmd; try done.
    + intros x. rewrite Hk'. intros [= <-]. by right.
    + rewrite Hct. auto.
    + intros x. rewrite Esub, Hk, Hk'. destruct (decide (x = subscribed s)) as [->|]; [by right|].
      rewrite lookup_insert_ne by done. by left.
    + rewrite Hh, Emu. by apply (wf_holds _ Hwf).
    + by left.
Qed.

(** An action that concerns the kernel, processes or containers and not the mutex. *)
Lemma wf_local k k' s' p q :
  calls t !! i = Some k → swf s' → keeps s s' None p q → call_ok s' k' → mu s' = mu s →
  exitSubscribers s' = exitSubscribers s → holds k' = holds k → sub_of k' = sub_of k →
  (∀ x, p = Some x → starting k = Some x) → (∀ x, q = Some x → x ≠ 0 → spawned k = Some x) →
  (∀ x, spawned k' = Some x → spawned k = Some x ∨ x ∉ used s) →
  (∀ x, starting k' = Some x → starting k = Some x ∨ p_phase <$> procs s !! x ≠ Some Starting) →
  (∀ c, made k' = Some c → made k = Some c ∨ conts s !! c = None) →
  (∀ c, cont_of k' = Some c → cont_of k = Some c ∨ mu s = None ∨ conts s !! c = None) →
  wf (mk_system s' (<[i:=k']> (calls t)) (exits t)).
Proof.
  intros Hi Hw Hk Hok Emu Esub Hh Hs H1 H2 H3 H4 H5 H6. eapply (wf_acts _ _ _ _ _ None p q Hwf Hi); [done..|].
  constructor; try done.
  - rewrite Hs. auto.
  - intros x. rewrite Esub, Hs. auto.
  - rewrite Hh, Emu. by apply (wf_holds _ Hwf).
  - by left.
Qed.

Lemma wf_created k id q sub s1 c p :
  calls t !! i = Some k → (k = CreateNew id sub ∧ q = 0) ∨ k = CreateSpawned id sub q →
  new_container id q s = (s1, c, p) →
  wf (mk_system (set_containers (<[id:=c]> (containers s1)) s1) (<[i:=CreateSend (mk_frame sub c "" true) p]> (calls t))
        (exits t)).
Proof.
  intros Hi Hk En. pose proof (wf_svc _ Hwf) as Hw. pose proof (wf_call _ Hwf i k Hi) as (Hsub & Hc & Hok).
  assert (q = 0 ∨ fresh_pid s q) as Hq by (destruct Hk as [[-> ->]| ->]; [by left|right; apply Hok]).
  assert (sub_of k = Some sub) as Hs by (by destruct Hk as [[-> ->]| ->]).
  destruct (swf_create id q s s1 c p Hw Hq En) as [Hw' Hkeep].
  assert (caught s sub q) as Hct.
  { destruct Hk as [[-> ->]| ->]; [|apply Hok]. intros Hg. by destruct (gone_pos s 0 Hw Hg). }
  destruct (new_container_run id q s) as (? & ? & ? & E' & -> & -> & ->). rewrite En in E'. injection E' as -> -> ->.
  assert ((procs s ++ [mk_Process id true q Created]) !! length (procs s) = Some (mk_Process id true q Created)) as Hp
    by (by rewrite lookup_app_r, Nat.sub_diag by lia).
  assert ((conts s ++ [mk_Container id (length (procs s)) ∅ ∅]) !! length (conts s) = Some (mk_Container id (length (procs s)) ∅ ∅)) as Hcl
    by (by rewrite lookup_app_r, Nat.sub_diag by lia).
  assert (conts s !! length (conts s) = None) as Hnew by (by apply lookup_ge_None).
  eapply wf_local; [done|exact Hw'|exact Hkeep|..]; try done.
  - split; [|split]; simpl.
    + intros x [= <-]. by apply Hsub.
    + intros x [= <-]. eauto.
    + split; [done|]. split; [done|]. split.
      * left. split; [done|]. split; [by eexists|]. simpl. by rewrite Hcl.
      * unfold caught, pid_of. simpl. rewrite Hp. exact Hct.
  - by destruct Hk as [[-> _]| ->].
  - intros x [= <-] Hx. by destruct Hk as [[-> ->]| ->].
  - intros x [= <-]. by right.
  - intros x [= <-]. by right; right.
Qed.

Lemma wf_create_steps id sub q a k s' k' :
  k ∈ [CreateLock id; CreatePre id; CreateNew id sub; CreateSpawned id sub q] →
  calls t !! i = Some k → advance (Call i) a s k = Some (s', k') → wf (mk_system s' (<[i:=k']> (calls t)) (exits t)).
Proof.
  intros Hk Hi Ha. pose proof (wf_svc _ Hwf) as Hw. pose proof (wf_call _ Hwf i k Hi) as (Hsub & Hc & Hok).
  pose proof (wf_holds _ Hwf i k Hi) as Hh. set_unfold in Hk. destruct Hk as [->|[->|[->|[->|[]]]]]; look.
  - unfold lock in Ha. destruct (mu s) eqn:Em; [done|]. injection Ha as <- <-.
    eapply wf_unchanged; [done|apply unchanged_set_mu|apply Hw| |].
    + call_tac. done.
    + takes_tac.
  - destruct (preStart None s) as [s1 sub'] eqn:Ep. injection Ha as <- <-.
    eapply (wf_preStart _ _ _ _ _ Hi Ep); [done..|]. intros Hs _ _. call_tac. done.
  - destruct a as [| |q'].
    + destruct (new_container id 0 s) as [[s1 c] p] eqn:En. injection Ha as <- <-.
      eapply wf_created; eauto.
    + injection Ha as <- <-. apply (wf_moves _ _ Hi); [call_tac; done|takes_tac].
    + destruct (spawn q' s) as [s1|] eqn:Es; [|done]. injection Ha as <- <-.
      destruct (swf_spawn _ _ _ Hw Es) as (Hw' & ? & ? & ?). destruct (spawned_fresh _ _ _ Hw Es) as [Hf Hct]. subst s1.
      eapply wf_local; [done|done|apply keeps_kernel; clear; set_solver|call_tac; done|done|done|done|done|done|done| |done|done|done].
      intros x [= <-]. by right.
  - destruct a as [| |q'].
    + destruct (new_container id q s) as [[s1 c] p] eqn:En. injection Ha as <- <-.
      eapply wf_created; eauto.
    + injection Ha as <- <-. apply (wf_moves _ _ Hi); [call_tac; done|takes_tac].
    + injection Ha as <- <-. apply (wf_moves _ _ Hi); [call_tac; done|takes_tac].
Qed.

(** *** Start *)

Lemma Container_Process_target f p :
  Container_Process s (f_c f) (f_id f) = Some p → target s f p.
Proof.
  intros Hp. destruct (conts s !! f_c f) as [C|] eqn:HC; unfold Container_Process in Hp; rewrite HC in Hp; [|done].
  simpl in Hp. destruct (w_cont _ (wf_svc _ Hwf) _ _ HC) as [Hini Hex]. case_decide.
  - injection Hp as <-. left. rewrite HC. done.
  - right. split; [done|]. by eapply Hex.
Qed.

Lemma getContainer_inv id o :
  getContainer s id = Some o → mu s = None ∧ ∀ c, o = Some c → is_Some (conts s !! c).
Proof.
  unfold getContainer. destruct (mu s); [done|]. intros [= <-]. split; [done|]. intros c Hc.
  by apply (w_map _ (wf_svc _ Hwf) id).
Qed.

Lemma wf_get_steps id eid a k s' k' :
  k ∈ [StartGet id eid; ExecGet id eid; DeleteGet id eid] →
  calls t !! i = Some k → advance (Call i) a s k = Some (s', k') → wf (mk_system s' (<[i:=k']> (calls t)) (exits t)).
Proof.
  intros Hk Hi Ha. pose proof (wf_holds _ Hwf i k Hi) as Hh. set_unfold in Hk. destruct Hk as [->|[->|[->|[]]]]; look;
    (destruct (getContainer s id) as [o|] eqn:Eg; [|done]); destruct (getContainer_inv _ _ Eg) as [Hmu Hv];
    simpl in Ha; injection Ha as <- <-; apply (wf_moves _ _ Hi);
    destruct o as [c|]; try (by call_tac); by takes_tac.
Qed.

Lemma wf_start_steps c eid f p a k s' k' :
  k ∈ [StartPre c eid; StartProcess f; StartSend f p] →
  calls t !! i = Some k → advance (Call i) a s k = Some (s', k') → wf (mk_system s' (<[i:=k']> (calls t)) (exits t)).
Proof.
  intros Hk Hi Ha. pose proof (wf_svc _ Hwf) as Hw. pose proof (wf_call _ Hwf i k Hi) as (Hsub & Hc & Hok).
  pose proof (wf_holds _ Hwf i k Hi) as Hh. set_unfold in Hk. destruct Hk as [->|[->|[->|[]]]]; look.
  - destruct (preStart _ s) as [s1 sub'] eqn:Ep. injection Ha as <- <-.
    eapply (wf_preStart _ _ _ _ _ Hi Ep); [done..|]. intros Hs Hkeep _. call_tac; [|done].
    by eapply keeps_is_Some_cont; [|apply Hc].
  - destruct (Container_Process s (f_c f) (f_id f)) as [p0|] eqn:Ep; injection Ha as <- <-.
    + eapply wf_unchanged; [done|apply unchanged_note_start|apply Hw| |].
      * call_tac. split; [done|]. by apply Container_Process_target.
      * simpl in Hok. takes_tac.
    + apply (wf_moves _ _ Hi); [by call_tac|]. simpl in Hok. takes_tac.
  - destruct (send (started_event f p s) s) as [s1|] eqn:Es; [|done]. injection Ha as <- <-.
    eapply wf_sends; [done|done| | |].
    + intros p'. unfold started_event. by destruct (decide _).
    + call_tac. simpl in Hok. by destruct_and!.
    + intros Em Esub. simpl in Hok. destruct Hok as [Hl _]. takes_tac.
Qed.

Lemma target_lookup f p : target s f p → ∃ P, procs s !! p = Some P.
Proof. by intros [(_ & (P & ? & _) & _)|(_ & (P & ? & _))]; eauto. Qed.

Lemma swf_set_phase p ph : swf (change_proc p (set_phase ph) s).
Proof. apply swf_change_proc; [apply Hwf|apply update_phase]. Qed.

Lemma target_set_phase f p p' ph : target s f p → target (change_proc p' (set_phase ph) s) f p.
Proof.
  intros [(? & ? & ?)|[? ?]]; [left|right]; (split; [done|]); [split; [|done]|];
    (apply is_proc_change; [apply update_phase|done]).
Qed.

(** A spawned process whose start is noted by its phase. *)
Lemma wf_spawn_start f p q P s1 :
  calls t !! i = Some (StartRun f p) → procs s !! p = Some P → p_phase P = Created → p_pid P = 0 →
  spawn q s = Some s1 →
  wf (mk_system (change_proc p (set_phase Starting) s1) (<[i:=StartSpawned f p q]> (calls t)) (exits t)).
Proof.
  intros Hi HP Hph Hpid Es. pose proof (wf_svc _ Hwf) as Hw.
  destruct (wf_call _ Hwf i _ Hi) as (Hsub & Hc & Hl & Ht). simpl in *.
  destruct (swf_spawn _ _ _ Hw Es) as (Hw1 & Hq & Hnew & E1). destruct (spawned_fresh _ _ _ Hw Es) as [Hf Hct].
  assert (procs s1 = procs s) as Ep by (by rewrite E1). assert (mu s1 = mu s) as Em by (by rewrite E1).
  assert (exitSubscribers s1 = exitSubscribers s) as Esub by (by rewrite E1).
  assert (keeps s (change_proc p (set_phase Starting) s1) None None None) as Hk.
  { assert (p_phase <$> procs s1 !! p ≠ Some Starting) as Hne by (rewrite Ep, HP; simpl; congruence).
    destruct (keeps_set_phase p Starting s1 Hne) as [A1 A2 A3 A4 A5]. rewrite E1 in *. constructor; try done.
    intros q' (? & ? & ?) ?. apply A3; [|done]. split_and!; [done|clear -H0; simpl; set_solver|done]. }
  eapply wf_local; [done|apply swf_change_proc; [done|apply update_phase]|exact Hk| |done|done|done|done|done|done| | |by rewrite ?Hl|].
  - split; [|split]; simpl.
    + intros x Hx. rewrite Esub. by apply Hsub.
    + intros c Hc'. exact (keeps_is_Some_cont _ _ _ _ _ c Hk (Hc c Hc')).
    + rewrite list_lookup_alter_eq, Ep, HP.
      refine (conj Hl (conj _ (conj _ (conj (Hct (f_sub f)) (conj _ _))))); [by eapply keeps_target| |by simpl; rewrite Hpid|done].
      destruct Hf as (? & ? & Hfp). split_and!; [done|done|]. intros p' P' HP'.
      rewrite lookup_change_proc in HP'. case_decide; [subst|by eapply Hfp].
      apply fmap_Some in HP' as (P0 & HP0 & ->). exact (Hfp p P0 HP0).
  - intros x [= <-]. by right.
  - intros x [= <-]. right. rewrite HP. simpl. congruence.
  - auto.
Qed.

Lemma alive_pid p : p ∈ alive s → p ≠ 0 ∧ ¬ gone s p.
Proof.
  intros Ha. pose proof (wf_svc _ Hwf) as Hw. split.
  - intros ->. destruct (w_used _ Hw 0 (w_alive _ Hw 0 Ha)) as [? _]. lia.
  - intros Hg. by destruct (gone_pos s p Hw Hg) as (_ & _ & ?).
Qed.

Lemma wf_run_steps f p a s' k' :
  calls t !! i = Some (StartRun f p) → run_Start f p a s = Some (s', k') →
  wf (mk_system s' (<[i:=k']> (calls t)) (exits t)).
Proof.
  intros Hi Ha. pose proof (wf_svc _ Hwf) as Hw. destruct (wf_call _ Hwf i _ Hi) as (Hsub & Hc & Hl & Ht).
  pose proof (wf_holds _ Hwf i _ Hi) as Hh. look.
  assert (wf (mk_system s (<[i:=HandlePid f (Some p)]> (calls t)) (exits t))) as Hbad.
  { apply (wf_moves _ _ Hi); [by call_tac|takes_tac]. }
  unfold run_Start in Ha. destruct (procs s !! p) as [P|] eqn:HP; [|done]. simpl in Ha.
  destruct (p_phase P) eqn:Hph, a as [| |q]; try done; try (by injection Ha as <- <-).
  - case_bool_decide as Hal; [|done]. injection Ha as <- <-.
    assert (p_phase <$> procs s !! p ≠ Some Starting) as Hne by (rewrite HP; simpl; congruence).
    pose proof (keeps_set_phase p Running s Hne) as Hk. destruct (alive_pid _ Hal) as [Hpid Hng].
    eapply wf_local; [done|apply swf_set_phase|exact Hk| |done|done|done|done|done|done|done|done|by rewrite ?Hl|auto].
    split; [|split]; simpl; [done| |].
    + intros c Hc'. exact (keeps_is_Some_cont _ _ _ _ _ c Hk (Hc c Hc')).
    + assert (pid_of (change_proc p (set_phase Running) s) p = p_pid P) as ->.
      { rewrite pid_of_change; [by apply pid_of_lookup|apply update_phase|by rewrite (pid_of_lookup _ _ _ HP)]. }
      split_and!; [done|by apply target_set_phase|by intros ?|done].
  - destruct (Z.eqb_spec (p_pid P) 0) as [Hpid|]; [|done]. destruct (spawn q s) as [s1|] eqn:Es; [|done].
    injection Ha as <- <-. by eapply wf_spawn_start.
Qed.

Lemma wf_spawned_steps f p q a s' k' :
  calls t !! i = Some (StartSpawned f p q) → advance (Call i) a s (StartSpawned f p q) = Some (s', k') →
  wf (mk_system s' (<[i:=k']> (calls t)) (exits t)).
Proof.
  intros Hi Ha. pose proof (wf_svc _ Hwf) as Hw.
  destruct (wf_call _ Hwf i _ Hi) as (Hsub & Hc & Hl & Ht & Hf & Hct & Hpid & Hph). look.
  destruct (procs s !! p) as [P|] eqn:HP; [|done]. simpl in Hpid, Hph.
  assert (∀ g, update_ok s p g → (p_pid ∘ g <$> procs s !! p = Some 0 ∨ p_pid ∘ g <$> procs s !! p = Some q) →
    ∀ k, call_ok (change_proc p g s) k → start_window k = start_window (StartSpawned f p q) → holds k = false →
      sub_of k = Some (f_sub f) → spawned k = None → starting k = None → made k = None → cont_of k = Some (f_c f) →
      wf (mk_system (change_proc p g s) (<[i:=k]> (calls t)) (exits t))) as Hgo.
  { intros g Hg Hq k Hk _ H1 H2 H3 H4 H5 H6. pose proof (keeps_change_proc p g s Hg) as Hkeep.
    eapply wf_local; [done|by apply swf_change_proc|exact Hkeep|done|done|done|by rewrite H1|by rewrite H2|..].
    - by intros x [= <-].
    - intros x Hx Hne. destruct Hq as [Hq|Hq]; rewrite Hq in Hx; by injection Hx as <-.
    - by rewrite H3.
    - by rewrite H4.
    - by rewrite H5.
    - rewrite H6. auto. }
  assert (∀ g, update_ok s p g → ∀ c, cont_of (StartSpawned f p q) = Some c → is_Some (conts (change_proc p g s) !! c)) as Hcc
    by (intros g _; exact Hc).
  assert (wf (mk_system (change_proc p (set_phase Created) s) (<[i:=HandlePid f (Some p)]> (calls t)) (exits t))) as Hbad.
  { apply Hgo; try done; [apply update_phase|left; rewrite HP; simpl; congruence| |by simpl; rewrite Hl..].
    split; [|split]; simpl; [done|done|by apply target_set_phase]. }
  destruct a as [| |q']; [|by injection Ha as <- <-..]. injection Ha as <- <-.
  set (g := λ P0, mk_Process (p_id P0) (p_init P0) q Running).
  assert (update_ok s p g) as Hg by (intros P0 HP0; split; [done|]; right; simpl; split; [congruence|done]).
  apply Hgo; try done; [right; by rewrite HP|].
  assert (pid_of (change_proc p g s) p = q) as Epid.
  { apply (pid_of_lookup _ _ (g P)). rewrite lookup_change_proc, decide_True, HP by done. done. }
  split; [|split]; simpl; [done|done|]. rewrite Epid. split_and!; [done| |done|destruct Hf; lia].
  eapply keeps_target; [by apply keeps_change_proc|done].
Qed.

(** *** After the start *)

(** The exits of a subscription, for the process of the call. *)
Lemma subscribed_exits f p ees :
  target s f p → exitSubscribers s !! f_sub f ≫= lookup (pid_of s p) = Some ees → exits_of s p ees.
Proof.
  intros Ht Hl. destruct (exitSubscribers s !! f_sub f) as [m|] eqn:Em; [|done]. simpl in Hl.
  destruct (w_subs _ (wf_svc _ Hwf) _ _ Em) as [_ Hm]. destruct (Hm _ _ Hl) as (e & -> & ? & ?).
  destruct (target_lookup f p Ht) as [P HP]. split; [by exists P|]. by intros e' ->%list_elem_of_singleton.
Qed.

Lemma wf_locked_step f po pid a s' k' :
  calls t !! i = Some (HandleLocked f po pid) → advance (Call i) a s (HandleLocked f po pid) = Some (s', k') →
  wf (mk_system s' (<[i:=k']> (calls t)) (exits t)).
Proof.
  intros Hi Ha. pose proof (wf_svc _ Hwf) as Hw. destruct (wf_call _ Hwf i _ Hi) as (Hsub & Hc & Hok).
  pose proof (wf_holds _ Hwf i _ Hi) as Hh. look.
  destruct (handleStarted (f_sub f) (f_c f) po pid s) as [s1 ees] eqn:Eh. injection Ha as <- <-.
  assert (match po with Some p => target s f p ∧ (pid ≠ 0 → pid = pid_of s p) | None => pid = 0 end) as Hpo by (by destruct po).
  pose proof (swf_handleStarted f po pid s s1 ees Hw Eh Hpo) as Hw1.
  destruct (handleStarted_run (f_sub f) (f_c f) po pid s) as (? & ? & Eh' & Es & Hr).
  rewrite Eh in Eh'. injection Eh' as <- <-.
  pose proof (keeps_unsubscribe (f_sub f) (running s1) s) as Hk. rewrite <- Es in Hk.
  assert (exitSubscribers s1 = delete (f_sub f) (exitSubscribers s)) as Esub by (by rewrite Es).
  assert (mu s1 = mu s) as Em by (by rewrite Es).
  eapply (wf_acts _ _ _ _ _ (Some (f_sub f)) None None Hwf Hi); [done|done| |].
  - destruct po as [p|]; [|by call_tac]. split; [done|]. split.
    + simpl. intros c Hc'. exact (keeps_is_Some_cont _ _ _ _ _ c Hk (Hc c Hc')).
    + simpl. apply (keeps_exits_of _ _ _ _ _ _ _ Hw Hk). destruct Hpo as [Ht Hpid].
      assert (exits_of s p []) as Hnil.
      { destruct (target_lookup f p Ht) as [P HP]. split; [by exists P|]. by intros e ?%elem_of_nil. }
      destruct Hr as [(_ & -> & _)|[(Hne & Hl & _)|(_ & _ & -> & _)]]; [done| |done].
      eapply subscribed_exits; [done|]. by rewrite <- (Hpid Hne).
  - constructor; rewrite ?Em, ?Esub; try done; try (by destruct po); try (by left).
    + intros c. destruct po; [|done]. intros Hc'. by left.
    + intros c. destruct po; [|done]. intros Hc'. by left.
    + intros x. destruct (decide (x = f_sub f)) as [->|Hne]; [rewrite lookup_delete_eq; by intros []|].
      rewrite lookup_delete_ne by done. left. split; [done|]. intros Hx. injection Hx as Hx. congruence.
Qed.

Lemma lock_inv self s1 : lock self s = Some s1 → mu s = None ∧ s1 = set_mu (Some self) s.
Proof. unfold lock. by destruct (mu s); [|intros [= <-]]. Qed.

Lemma SetExited_inv p s1 : SetExited p s = Some s1 →
  s1 = s ∨ (s1 = change_proc p (set_phase Stopped) s ∧ p_phase <$> procs s !! p ≠ Some Starting).
Proof.
  unfold SetExited. destruct (procs s !! p) as [P|]; simpl; [|by intros [= <-]; left].
  destruct (p_phase P); intros [= <-]; auto.
Qed.

Lemma exits_of_tail p e ees : exits_of s p (e :: ees) → exits_of s p ees.
Proof. intros [? He]. split; [done|]. intros e' ?. apply He. by right. Qed.

Lemma wf_handle_steps f po p e ees a k s' k' :
  k ∈ [HandlePid f po; HandleExits f p ees; HandleSet f p e ees; HandleSend f p e ees] →
  calls t !! i = Some k → advance (Call i) a s k = Some (s', k') → wf (mk_system s' (<[i:=k']> (calls t)) (exits t)).
Proof.
  intros Hk Hi Ha. pose proof (wf_svc _ Hwf) as Hw. pose proof (wf_call _ Hwf i k Hi) as (Hsub & Hc & Hok).
  pose proof (wf_holds _ Hwf i k Hi) as Hh. set_unfold in Hk. destruct Hk as [->|[->|[->|[->|[]]]]]; look; simpl in Hok.
  - destruct (read_pid po s) as [pid|] eqn:Er; [|done]. injection Ha as <- <-. apply (wf_moves _ _ Hi).
    + destruct po as [p0|]; [|simpl in Er; injection Er as <-; by call_tac].
      call_tac. split; [done|]. intros _. simpl in Er. destruct (procs s !! p0) as [P|] eqn:HP; [|done]. simpl in Er.
      case_match; [done|]. injection Er as <-. symmetry. by apply pid_of_lookup.
    + takes_tac.
  - destruct ees as [|e0 ees].
    + injection Ha as <- <-. apply (wf_moves _ _ Hi); [by call_tac|]. takes_tac.
    + destruct (f_locked f) eqn:Hl.
      * injection Ha as <- <-. apply (wf_moves _ _ Hi); [by call_tac|]. takes_tac.
      * destruct (lock (Call i) s) as [s1|] eqn:El; [|done]. injection Ha as <- <-.
        destruct (lock_inv _ _ El) as [Hmu ->].
        eapply wf_unchanged; [done|apply unchanged_set_mu|apply Hw|by call_tac|]. takes_tac.
  - destruct (SetExited p s) as [s1|] eqn:Es; [|done]. injection Ha as <- <-.
    destruct (SetExited_inv _ _ Es) as [->|[-> Hne]]; [apply (wf_moves _ _ Hi); [by call_tac|takes_tac]|].
    pose proof (keeps_set_phase p Stopped s Hne) as Hkeep.
    eapply wf_local; [done|apply swf_set_phase|exact Hkeep| |done|done|done|done|done|done|done|done|by auto|by auto].
    split; [|split]; simpl; [done|exact Hc|]. by apply (keeps_exits_of _ _ _ _ _ _ _ Hw Hkeep).
  - destruct (send (TaskExit p (e_Pid e) (e_Status e)) s) as [s1|] eqn:Es; [|done]. injection Ha as <- <-.
    assert (exits_of s p [e]) as He1 by (split; [apply Hok|]; intros e' He'; apply list_elem_of_singleton in He' as ->; apply (proj2 Hok); left).
    pose proof (swf_send_exit p e s s1 Hw He1 Es) as Hw1. pose proof (exits_of_tail _ _ _ Hok) as Htl.
    apply send_inv in Es. set (s2 := if f_locked f then s1 else unlock s1).
    assert (swf s2) as Hw2.
    { unfold s2. destruct (f_locked f); [done|]. apply (swf_unchanged s1); [apply unchanged_set_mu|apply Hw1|done]. }
    assert (keeps s s2 None None None) as Hkeep.
    { unfold s2. rewrite Es. destruct (f_locked f); (constructor; try done; intros p' P HP; by exists P). }
    eapply (wf_acts _ _ _ _ _ None None None Hwf Hi); [done|done| |].
    + split; [|split]; [done| |by apply (keeps_exits_of _ _ _ _ _ _ _ Hw Hkeep)].
      simpl. intros c Hc'. exact (keeps_is_Some_cont _ _ _ _ _ c Hkeep (Hc c Hc')).
    + assert (exitSubscribers s2 = exitSubscribers s) as Esub by (unfold s2; rewrite Es; by destruct (f_locked f)).
      assert (mu s2 = if f_locked f then mu s else None) as Em by (unfold s2; rewrite Es; by destruct (f_locked f)).
      constructor; try done.
      * intros c Hc'. by left.
      * intros c Hc'. by left.
      * intros x. rewrite Esub. by left.
      * simpl. rewrite Em. destruct (f_locked f); [by apply Hh|done].
      * rewrite Em. destruct (f_locked f); [by left|right]. split; [right; by apply Hh|by left].
Qed.

Lemma wf_return_steps sub l a k s' k' :
  k ∈ [Cleanup sub l; Leave l] →
  calls t !! i = Some k → advance (Call i) a s k = Some (s', k') → wf (mk_system s' (<[i:=k']> (calls t)) (exits t)).
Proof.
  intros Hk Hi Ha. pose proof (wf_svc _ Hwf) as Hw. pose proof (wf_call _ Hwf i k Hi) as (Hsub & Hc & Hok).
  pose proof (wf_holds _ Hwf i k Hi) as Hh. set_unfold in Hk. destruct Hk as [->|[->|[]]]; look.
  - injection Ha as <- <-. pose proof (keeps_unsubscribe sub (running s) s) as Hkeep.
    eapply (wf_acts _ _ _ _ _ (Some sub) None None Hwf Hi); [by apply swf_cleanup| |by call_tac|].
    { destruct Hkeep. by constructor. }
    constructor; try done; [|by left]. intros x. unfold cleanup. simpl.
    destruct (decide (x = sub)) as [->|Hne]; [rewrite lookup_delete_eq; by intros []|].
    rewrite lookup_delete_ne by done. left. split; [done|]. intros Hx. injection Hx as Hx. congruence.
  - injection Ha as <- <-. destruct l.
    + eapply wf_unchanged; [done|apply unchanged_set_mu|apply Hw|by call_tac|]. takes_tac.
    + apply (wf_moves _ _ Hi); [by call_tac|takes_tac].
Qed.

(** *** Exec and Delete *)

Lemma wf_change_cont c g k k' :
  calls t !! i = Some k → cont_ok s c g → call_ok s k' → takes i s k s k' None None None →
  wf (mk_system (change_cont c g s) (<[i:=k']> (calls t)) (exits t)).
Proof.
  intros Hi Hg Hok Ht. pose proof (wf_svc _ Hwf) as Hw. pose proof (keeps_change_cont c g s Hg) as Hk.
  eapply (wf_acts _ _ _ _ _ None None None Hwf Hi); [by apply swf_change_cont|exact Hk|by eapply call_ok_keeps|].
  destruct Ht. by constructor.
Qed.

Lemma cont_ok_reserve id c C C' :
  conts s !! c = Some C → ReserveProcess id C = Some C' → cont_ok s c (λ _, C').
Proof.
  intros HC HR C0 HC0. assert (C0 = C) as -> by congruence. unfold ReserveProcess in HR.
  repeat case_match; try done. injection HR as <-. split; [done|]. by left.
Qed.

Lemma wf_exec_steps id c p a k s' k' :
  k ∈ [ExecReserve c id; ExecRun c id; ExecCancel c id; ExecAdd c id p; ExecSend p] →
  calls t !! i = Some k → advance (Call i) a s k = Some (s', k') → wf (mk_system s' (<[i:=k']> (calls t)) (exits t)).
Proof.
  intros Hk Hi Ha. pose proof (wf_svc _ Hwf) as Hw. pose proof (wf_call _ Hwf i k Hi) as (Hsub & Hc & Hok).
  pose proof (wf_holds _ Hwf i k Hi) as Hh. set_unfold in Hk. destruct Hk as [->|[->|[->|[->|[->|[]]]]]]; look; simpl in Hok.
  - destruct (conts s !! c) as [C|] eqn:HC; [|done]. simpl in Ha.
    destruct (ReserveProcess id C) as [C'|] eqn:ER; injection Ha as <- <-.
    + apply (wf_change_cont _ _ _ _ Hi); [by eapply cont_ok_reserve| |takes_tac].
      call_tac. done.
    + apply (wf_moves _ _ Hi); [by call_tac|takes_tac].
  - destruct a; injection Ha as <- <-; try (apply (wf_moves _ _ Hi); [by call_tac|takes_tac]).
    pose proof (keeps_new_proc (mk_Process id false 0 Created) s) as Hkeep.
    eapply wf_local; [done|by apply swf_new_proc; [|left]|exact Hkeep| |done|done|done|done|done|by intros x [= <-]|done|done|done|by left].
    split; [done|]. split; [exact Hc|]. exists (mk_Process id false 0 Created). simpl. split; [|done].
    by rewrite lookup_app_r, Nat.sub_diag by lia.
  - injection Ha as <- <-. apply (wf_change_cont _ _ _ _ Hi); [|by call_tac|takes_tac].
    intros C HC. split; [done|]. by left.
  - injection Ha as <- <-. apply (wf_change_cont _ _ _ _ Hi); [| |takes_tac].
    + intros C HC. split; [done|]. simpl. intros id' p' [[<- <-]|[? ?]]%lookup_insert_Some; [by right|by left].
    + call_tac. by destruct Hok as (P & ? & _).
  - destruct (send _ s) as [s1|] eqn:Es; [|done]. injection Ha as <- <-.
    eapply wf_sends; [done|done|done|by call_tac|]. intros Em Esub. takes_tac.
Qed.

Lemma Container_Process_valid c id p : Container_Process s c id = Some p → is_Some (procs s !! p).
Proof.
  intros Hp. apply (Container_Process_target (mk_frame 0 c id false)) in Hp. destruct (target_lookup _ _ Hp). eauto.
Qed.

Lemma wf_delete_steps id c eid p a k s' k' :
  k ∈ [DeleteProcess id c eid; DeleteRun id c eid p; DeleteRemove id c eid p; DeleteSend p] →
  calls t !! i = Some k → advance (Call i) a s k = Some (s', k') → wf (mk_system s' (<[i:=k']> (calls t)) (exits t)).
Proof.
  intros Hk Hi Ha. pose proof (wf_svc _ Hwf) as Hw. pose proof (wf_call _ Hwf i k Hi) as (Hsub & Hc & Hok).
  pose proof (wf_holds _ Hwf i k Hi) as Hh. set_unfold in Hk. destruct Hk as [->|[->|[->|[->|[]]]]]; look; simpl in Hok.
  - injection Ha as <- <-. apply (wf_moves _ _ Hi); (destruct (Container_Process s c eid) as [p0|] eqn:Ep); [| |takes_tac..].
    + call_tac. by eapply Container_Process_valid.
    + by call_tac.
  - destruct (procs s !! p) as [P|] eqn:HP; [|done]. simpl in Ha.
    assert (wf (mk_system s (<[i:=Done]> (calls t)) (exits t))) as Hdone
      by (apply (wf_moves _ _ Hi); [by call_tac|takes_tac]).
    assert (p_phase P ≠ Starting →
      wf (mk_system (change_proc p (set_phase Deleted) s) (<[i:=DeleteRemove id c eid p]> (calls t)) (exits t))) as Hdel.
    { intros Hne. assert (p_phase <$> procs s !! p ≠ Some Starting) as Hne' by (rewrite HP; simpl; congruence).
      pose proof (keeps_set_phase p Deleted s Hne') as Hkeep.
      eapply wf_local; [done|apply swf_set_phase|exact Hkeep| |done|done|done|done|done|done|done|done|done|by auto].
      split; [done|]. split; [exact Hc|]. eapply keeps_is_Some_proc; [exact Hkeep|by exists P]. }
    destruct (p_phase P), a; simplify_eq; try done; by apply Hdel.
  - case_decide.
    + destruct (mu s) eqn:Em; [done|]. injection Ha as <- <-.
      eapply wf_unchanged; [done|apply unchanged_containers| |by call_tac|takes_tac].
      simpl. intros id' c' [_ Hc']%lookup_delete_Some. by apply (w_map _ Hw id').
    + injection Ha as <- <-. apply (wf_change_cont _ _ _ _ Hi); [|by call_tac|takes_tac].
      intros C HC. split; [done|]. simpl. intros id' p' [? ?]%lookup_delete_Some. by left.
  - destruct (send _ s) as [s1|] eqn:Es; [|done]. injection Ha as <- <-.
    eapply wf_sends; [done|done|done|by call_tac|]. intros Em Esub. takes_tac.
Qed.

Lemma wf_advance k a s' k' :
  calls t !! i = Some k → advance (Call i) a s k = Some (s', k') → wf (mk_system s' (<[i:=k']> (calls t)) (exits t)).
Proof.
  intros Hi Ha. destruct k.
  - eapply (wf_create_steps id 0 0); [by left|done..].
  - eapply (wf_create_steps id 0 0); [by right; left|done..].
  - eapply (wf_create_steps id sub 0); [by do 2 right; left|done..].
  - eapply (wf_create_steps id sub pid); [by do 3 right; left|done..].
  - look. destruct (send (TaskCreate p (pid_of s p)) s) as [s1|] eqn:Es; [|done]. injection Ha as <- <-.
    destruct (wf_call _ Hwf i _ Hi) as (Hsub & Hc & Hl & Hid & Ht & Hct). pose proof (wf_holds _ Hwf i _ Hi) as Hh.
    eapply wf_sends; [done|done|done|by call_tac|]. intros Em Esub. takes_tac.
  - eapply (wf_get_steps id execID); [by left|done..].
  - eapply (wf_start_steps c execID (mk_frame 0 0 "" false) 0); [by left|done..].
  - eapply (wf_start_steps 0 "" f 0); [by right; left|done..].
  - by eapply wf_run_steps.
  - by eapply wf_spawned_steps.
  - eapply (wf_start_steps 0 "" f p); [by do 2 right; left|done..].
  - eapply (wf_handle_steps f p 0 (mk_Exit 0 0) []); [by left|done..].
  - by eapply wf_locked_step.
  - eapply (wf_handle_steps f None p (mk_Exit 0 0) ees); [by right; left|done..].
  - eapply (wf_handle_steps f None p e ees); [by do 2 right; left|done..].
  - eapply (wf_handle_steps f None p e ees); [by do 3 right; left|done..].
  - eapply (wf_return_steps sub locked); [by left|done..].
  - eapply (wf_return_steps 0 locked); [by right; left|done..].
  - done.
  - eapply (wf_get_steps id execID); [by right; left|done..].
  - eapply (wf_exec_steps execID c 0); [by left|done..].
  - eapply (wf_exec_steps execID c 0); [by right; left|done..].
  - eapply (wf_exec_steps execID c 0); [by do 2 right; left|done..].
  - eapply (wf_exec_steps execID c p); [by do 3 right; left|done..].
  - eapply (wf_exec_steps "" 0 p); [by do 4 right; left|done..].
  - eapply (wf_get_steps id execID); [by do 2 right; left|done..].
  - eapply (wf_delete_steps id c execID 0); [by left|done..].
  - eapply (wf_delete_steps id c execID p); [by right; left|done..].
  - eapply (wf_delete_steps id c execID p); [by do 2 right; left|done..].
  - eapply (wf_delete_steps "" 0 "" p); [by do 3 right; left|done..].
Qed.
End Advance.

(** *** The other actions *)

(** An action outside of the handlers. *)
Lemma wf_outside t s' k' :
  wf t → swf s' → keeps (svc t) s' None None None → exits_ok s' k' →
  (∀ x, is_Some (exitSubscribers s' !! x) → is_Some (exitSubscribers (svc t) !! x)) →
  (exits_holds k' = true ↔ mu s' = Some Exits) →
  (mu s' = mu (svc t) ∨ ((mu (svc t) = None ∨ mu (svc t) = Some Exits) ∧ (mu s' = None ∨ mu s' = Some Exits))) →
  wf (mk_system s' (calls t) k').
Proof.
  intros Hwf Hw Hk He Hs Hx Hmu.
  assert (∀ j, mu s' = Some (Call j) ↔ mu (svc t) = Some (Call j)) as Hm.
  { intros j. destruct Hmu as [->|[[->| ->] [->| ->]]]; [done|..]; split; congruence. }
  constructor; simpl; try done.
  - intros j k Hj. eapply call_ok_keeps; [apply Hwf|done|by apply (wf_call _ Hwf j)|done..].
  - apply (wf_apart _ Hwf).
  - intros x Hx'. apply (wf_subs _ Hwf). by apply Hs.
  - intros j k Hj. rewrite Hm. by apply (wf_holds _ Hwf).
  - intros j. rewrite Hm. apply (wf_holder _ Hwf).
Qed.

Lemma wf_arrives t r : wf t → wf (mk_system (svc t) (calls t ++ [handler r]) (exits t)).
Proof.
  intros Hwf. constructor; simpl; try apply Hwf.
  - intros j k [Hj|[_ [_ <-]%list_lookup_singleton_Some]]%lookup_app_Some; [by apply (wf_call _ Hwf j)|].
    destruct r; by call_tac.
  - intros i j ki kj Hij [Hi|[Li [Ei <-]%list_lookup_singleton_Some]]%lookup_app_Some
      [Hj|[Lj [Ej <-]%list_lookup_singleton_Some]]%lookup_app_Some.
    + by apply (wf_apart _ Hwf i j).
    + destruct r; split_and!; done.
    + destruct r; split_and!; done.
    + lia.
  - intros x Hx. destruct (wf_subs _ Hwf x Hx) as (j & k & Hj & Hk). exists j, k. split; [|done]. by apply lookup_app_l_Some.
  - intros j k [Hj|[Lj [Ej <-]%list_lookup_singleton_Some]]%lookup_app_Some; [by apply (wf_holds _ Hwf)|].
    split; [by destruct r|]. intros Hm. destruct (wf_holder _ Hwf _ Hm) as [k Hk]. apply lookup_lt_Some in Hk. lia.
  - intros j Hj. destruct (wf_holder _ Hwf _ Hj) as [k Hk]. exists k. by apply lookup_app_l_Some.
Qed.

Lemma exits_of_taken t e rest s' cps :
  wf t → ec (svc t) = e :: rest → take_exit e (receive e rest (svc t)) = (s', cps) →
  ∀ cp, cp ∈ cps → exits_of s' (cp_Process cp) [e].
Proof.
  intros Hwf E Et cp Hcp. destruct (take_exit_run e rest (svc t) E) as (? & ? & Et' & -> & ->).
  rewrite Et in Et'. injection Et' as -> ->.
  destruct (running (svc t) !! e_Pid e) as [l|] eqn:Er; [|by apply elem_of_nil in Hcp].
  destruct (w_run _ (wf_svc _ Hwf) _ _ _ Er Hcp) as (_ & P & HP & Hpid & _).
  split; [by exists P|]. intros e' ->%list_elem_of_singleton. split; [simpl; apply elem_of_app; right; by left|].
  rewrite <- Hpid. symmetry. by apply pid_of_lookup.
Qed.

Lemma wf_processes t s' k' : wf t → processExits (svc t) (exits t) = Some (s', k') → wf (mk_system s' (calls t) k').
Proof.
  intros Hwf Ha. pose proof (wf_svc _ Hwf) as Hw. pose proof (wf_exits _ Hwf) as He. pose proof (wf_exits_holds _ Hwf) as Hh.
  destruct (exits t) as [|e cps|e p cps|e p cps]; cbn [processExits exits_holds] in *.
  - destruct (ec (svc t)) as [|e rest] eqn:Ee; [done|].
    destruct (take_exit e (receive e rest (svc t))) as [s1 cps] eqn:Et. injection Ha as <- <-.
    destruct (take_exit_run e rest (svc t) Ee) as (? & ? & Et' & Es & _). rewrite Et in Et'. injection Et' as <- _.
    apply wf_outside; [done|by eapply swf_take_exit|by eapply keeps_take_exit| | | |].
    + simpl. by eapply exits_of_taken.
    + rewrite Es. simpl. intros x. rewrite lookup_fmap. by rewrite fmap_is_Some.
    + by rewrite Es.
    + left. by rewrite Es.
  - destruct cps as [|cp cps].
    + injection Ha as <- <-. apply wf_outside; try done; [by apply keeps_unchanged, unchanged_refl|by left].
    + destruct (lock Exits (svc t)) as [s1|] eqn:El; [|done]. injection Ha as <- <-.
      destruct (lock_inv t _ _ El) as [Hmu ->].
      apply wf_outside; [done| |apply keeps_unchanged, unchanged_set_mu| |done|done|by right; auto].
      * eapply swf_unchanged; [apply unchanged_set_mu|apply Hw|done].
      * simpl. split; [apply (He cp); by left|]. intros cp' ?. apply (He cp'). by right.
  - destruct (SetExited p (svc t)) as [s1|] eqn:Es; [|done]. injection Ha as <- <-. simpl in He.
    destruct (SetExited_inv t _ _ Es) as [->|[-> Hne]].
    + apply wf_outside; try done; [by apply keeps_unchanged, unchanged_refl|by left].
    + pose proof (keeps_set_phase p Stopped (svc t) Hne) as Hk.
      apply wf_outside; [done|by apply swf_set_phase|exact Hk| |done|done|by left].
      exact (exits_ok_keeps _ _ _ _ _ (ExitsSet e p cps) Hw Hk He).
  - destruct (send (TaskExit p (e_Pid e) (e_Status e)) (svc t)) as [s1|] eqn:Es; [|done]. injection Ha as <- <-. simpl in He.
    destruct He as [He1 He]. pose proof (swf_send_exit _ _ _ _ Hw He1 Es) as Hw1.
    assert (swf (unlock s1)) as Hw2 by (eapply swf_unchanged; [apply unchanged_set_mu|apply Hw1|done]).
    assert (keeps (svc t) (unlock s1) None None None) as Hk.
    { apply send_inv in Es as ->. constructor; try done. intros p' P HP. by exists P. }
    apply wf_outside; [done|done|done| | | |].
    + exact (exits_ok_keeps _ _ _ _ _ (ExitsTodo e cps) Hw Hk He).
    + by apply send_inv in Es as ->.
    + by apply send_inv in Es as ->.
    + right. split; [right; by apply Hh|]. left. by apply send_inv in Es as ->.
Qed.

Lemma wf_perform l t t' : wf t → perform l t = Some t' → wf t'.
Proof.
  intros Hwf Ha. pose proof (wf_svc _ Hwf) as Hw. pose proof (wf_exits _ Hwf) as He. pose proof (wf_exits_holds _ Hwf) as Hh.
  destruct l as [r|i a| | |pid st|pid st]; simpl in Ha.
  - injection Ha as <-. by apply wf_arrives.
  - destruct (calls t !! i) as [k|] eqn:Hi; [|done]. simpl in Ha.
    destruct (advance (Call i) a (svc t) k) as [[s' k']|] eqn:Ea; [|done]. injection Ha as <-. simpl. by eapply wf_advance.
  - destruct (processExits (svc t) (exits t)) as [[s' k']|] eqn:Ep; [|done]. injection Ha as <-. simpl. by apply wf_processes.
  - destruct (buffered (svc t)); [done|]. injection Ha as <-.
    match goal with |- wf (mk_system ?s2 _ _) => assert (unchanged (svc t) s2) as Hu by (by constructor) end.
    pose proof (keeps_unchanged _ _ Hu) as Hk.
    apply wf_outside; [done|by eapply swf_unchanged; [|apply Hw|]|done| |done|done|by left].
    by eapply exits_ok_keeps.
  - case_bool_decide as Hal; [|done]. injection Ha as <-.
    assert (keeps (svc t) (set_kernel (ec (svc t) ++ [mk_Exit pid st]) (alive (svc t) ∖ {[pid]}) (used (svc t)) (svc t)) None None None)
      as Hk by (by apply keeps_kernel).
    apply wf_outside; [done|by apply swf_dies|done| |done|done|by left]. by eapply exits_ok_keeps.
  - destruct (Z.ltb_spec 0 pid); [|done]. simpl in Ha. case_bool_decide as Hus; [|done]. injection Ha as <-.
    assert (keeps (svc t) (set_kernel (ec (svc t) ++ [mk_Exit pid st]) (alive (svc t)) ({[pid]} ∪ used (svc t)) (svc t)) None None None)
      as Hk by (apply keeps_kernel; clear; set_solver).
    apply wf_outside; [done|by apply swf_child|done| |done|done|by left]. by eapply exits_ok_keeps.
Qed.

Lemma reach_wf t : reach t → wf t.
Proof. induction 1; [apply wf_initial|by eapply wf_perform]. Qed.
