(* ===== verification/TaskDuty.v ===== *)
(** * Duties of the task service

    For Task.v: the exit of a process is somebody's duty at every moment, of the table
    [running], of the call that has subscribed to exits, of a goroutine that is handling it,
    or of nobody any more because it is published. This file counts the duties and shows
    how an action moves them; TaskSpec.v draws the conclusions. *)

From S2P Require Import Prelude.
From S2P Require Import Task.
From S2P Require Import TaskInv.
From S2P Require Import TaskWf.

(** ** Sums *)

Section Sums.
Context {A : Type}.
Implicit Types (f g : A → nat) (l : list A).

Lemma sum_insert f g l i x y :
  l !! i = Some x → (∀ j z, j ≠ i → l !! j = Some z → g z = f z) →
  (sum_list_with g (<[i:=y]> l) + f x = sum_list_with f l + g y)%nat.
Proof.
  revert i. induction l as [|z l IH]; intros [|i] Hi Hg; try done; simpl in *.
  - injection Hi as <-. assert (sum_list_with g l = sum_list_with f l) as ->; [|lia].
    clear -Hg. assert (∀ j z', l !! j = Some z' → g z' = f z') as Hl by (intros j z' Hj; by apply (Hg (S j))).
    clear Hg. induction l as [|z' l IH]; [done|]. simpl. rewrite (Hl 0%nat z'), IH; [done| |done].
    intros j z'' Hj. by apply (Hl (S j)).
  - specialize (IH i Hi). rewrite (Hg 0%nat z) by done. rewrite <- Nat.add_assoc, IH; [lia|].
    intros j z' Hj Hz'. apply (Hg (S j)); [lia|done].
Qed.

Lemma sum_same f g l : (∀ j z, l !! j = Some z → g z = f z) → sum_list_with g l = sum_list_with f l.
Proof.
  induction l as [|z l IH]; intros Hg; [done|]. simpl. rewrite (Hg 0%nat z), IH; [done| |done].
  intros j z' Hj. by apply (Hg (S j)).
Qed.

Lemma sum_zero f l : (∀ j z, l !! j = Some z → f z = 0%nat) → sum_list_with f l = 0%nat.
Proof.
  induction l as [|z l IH]; intros Hf; [done|]. simpl. rewrite (Hf 0%nat z), IH; [done| |done].
  intros j z' Hj. by apply (Hf (S j)).
Qed.

Lemma sum_one f l i x :
  l !! i = Some x → (∀ j z, j ≠ i → l !! j = Some z → f z = 0%nat) → sum_list_with f l = f x.
Proof.
  revert i. induction l as [|z l IH]; intros [|i] Hi Hf; try done; simpl in *.
  - injection Hi as <-. rewrite sum_zero; [lia|]. intros j z' Hj. by apply (Hf (S j)).
  - rewrite (Hf 0%nat z), (IH i Hi); [done| |done..]. intros j z' Hj Hz. apply (Hf (S j)); [lia|done].
Qed.

Lemma sum_le f l i x : l !! i = Some x → (f x ≤ sum_list_with f l)%nat.
Proof.
  revert i. induction l as [|z l IH]; intros [|i] Hi; try done; simpl in *; [injection Hi as <-; lia|].
  specialize (IH i Hi). lia.
Qed.

Lemma sum_two f l i j x y : i ≠ j → l !! i = Some x → l !! j = Some y → (f x + f y ≤ sum_list_with f l)%nat.
Proof.
  revert i j. induction l as [|z l IH]; intros [|i] [|j] Hne Hi Hj; try done; simpl in *.
  - injection Hi as <-. pose proof (sum_le f l j y Hj). lia.
  - injection Hj as <-. pose proof (sum_le f l i x Hi). lia.
  - specialize (IH i j ltac:(congruence) Hi Hj). lia.
Qed.
End Sums.

(** ** Windows do not share a process *)

(** The process whose start a call has called for. *)
Definition proc_of (k : pc) : option nat :=
  match k with
  | StartRun _ p | StartSpawned _ p _ | StartSend _ p | HandlePid _ (Some p) | HandleLocked _ (Some p) _ => Some p
  | _ => None
  end.

Record started (t : system) : Prop := {
  st_call : ∀ i k p, calls t !! i = Some k → proc_of k = Some p → is_proc (svc t) false p → p ∈ starts (svc t);
  st_pid : ∀ p P, procs (svc t) !! p = Some P → p_init P = false → p_pid P ≠ 0 → p ∈ starts (svc t);
  st_once : ∀ i j ki kj p, i ≠ j → calls t !! i = Some ki → calls t !! j = Some kj →
    proc_of ki = Some p → proc_of kj = Some p → is_proc (svc t) false p → False
}.

Lemma is_proc_fun s b1 b2 p : is_proc s b1 p → is_proc s b2 p → b1 = b2.
Proof. intros (P & HP & <-) (Q & HQ & <-). congruence. Qed.

(** What the window of a call says of its process. *)
Lemma window_target s k sub p :
  swf s → call_ok s k → window s k = Some (sub, p) → sub_of k = Some sub ∧
  ((∃ c, cont_of k = Some c ∧ c_process <$> conts s !! c = Some p ∧ is_proc s true p ∧
     (start_window k = Some (c, "") ∨ made k = Some c)) ∨
   (proc_of k = Some p ∧ is_proc s false p)).
Proof.
  intros Hw (_ & _ & Hok) Hwin.
  assert (∀ f p0, target s f p0 → proc_of k = Some p0 → cont_of k = Some (f_c f) →
    (f_locked f = false → start_window k = Some (f_c f, f_id f)) → (f_locked f = true → made k = Some (f_c f)) →
    (∃ c, cont_of k = Some c ∧ c_process <$> conts s !! c = Some p0 ∧ is_proc s true p0 ∧
      (start_window k = Some (c, "") ∨ made k = Some c)) ∨ (proc_of k = Some p0 ∧ is_proc s false p0)) as Hgo.
  { intros f p0 [(Hid & Hp & Hc)|[_ Hp]] Hpo Hco H1 H2; [left|by right]. exists (f_c f). split_and!; [done..|].
    rewrite Hid in H1. destruct (f_locked f); auto. }
  destruct k as [| | | |f p0| | |f|f p0|f p0 q0|f p0|f [p0|]|f [p0|] pid| | | | | | | | | | | | | | | | |]; try done; simpl in Hwin, Hok.
  - injection Hwin as <- <-. split; [done|]. left. destruct Hok as (Hl & Hid & Ht & _).
    destruct Ht as [(_ & Hp & Hc)|[? _]]; [|done]. exists (f_c f). split_and!; [done..|by right].
  - case_decide as Hid; [|done]. destruct (conts s !! f_c f) as [C|] eqn:HC; [|done]. injection Hwin as <- <-.
    split; [done|]. left. exists (f_c f). rewrite HC. split_and!; [done|done|by apply (w_cont _ Hw (f_c f))|].
    left. simpl. by rewrite Hok, Hid.
  - injection Hwin as <- <-. split; [done|]. destruct Hok as [Hl Ht]. apply (Hgo f); [done..|by simpl; intros ->|congruence].
  - injection Hwin as <- <-. split; [done|]. destruct Hok as (Hl & Ht & _). apply (Hgo f); [done..|by simpl; intros ->|congruence].
  - injection Hwin as <- <-. split; [done|]. destruct Hok as (Hl & Ht & _). apply (Hgo f); [done..|by simpl; intros ->|congruence].
  - injection Hwin as <- <-. split; [done|]. apply (Hgo f); [done..|by simpl; intros ->|by simpl; intros ->].
  - case_decide; [done|]. injection Hwin as <- <-. split; [done|]. destruct Hok as [Ht _].
    apply (Hgo f); [done..|by simpl; intros ->|by simpl; intros ->].
Qed.

Lemma window_alone t i j ki kj si sj p :
  wf t → started t → orderly t → i ≠ j → calls t !! i = Some ki → calls t !! j = Some kj →
  window (svc t) ki = Some (si, p) → window (svc t) kj = Some (sj, p) → False.
Proof.
  intros Hwf Hst [Hover _] Hij Hi Hj Hwi Hwj. pose proof (wf_svc _ Hwf) as Hw.
  destruct (window_target _ _ _ _ Hw (wf_call _ Hwf _ _ Hi) Hwi) as [_ Hti].
  destruct (window_target _ _ _ _ Hw (wf_call _ Hwf _ _ Hj) Hwj) as [_ Htj].
  destruct Hti as [(ci & Hci & Hpi & Hbi & Hki)|[Hpi Hbi]], Htj as [(cj & Hcj & Hpj & Hbj & Hkj)|[Hpj Hbj]].
  - assert (ci = cj) as <-.
    { destruct (conts (svc t) !! ci) as [C1|] eqn:H1; [|done]. destruct (conts (svc t) !! cj) as [C2|] eqn:H2; [|done].
      eapply (w_cinj _ Hw); [done..|]. simpl in *. congruence. }
    destruct (wf_apart _ Hwf i j ki kj Hij Hi Hj) as (_ & _ & H1 & _).
    destruct (wf_apart _ Hwf j i kj ki (not_eq_sym Hij) Hj Hi) as (_ & _ & H2 & _).
    destruct Hki as [Hki|Hki]; [|by eapply H1]. destruct Hkj as [Hkj|Hkj]; [|by eapply H2].
    by eapply (Hover i j).
  - by pose proof (is_proc_fun _ _ _ _ Hbi Hbj).
  - by pose proof (is_proc_fun _ _ _ _ Hbi Hbj).
  - by eapply (st_once _ Hst i j).
Qed.

(** What the handlers do to processes and to the log of starts. *)
Ltac run_all H :=
  unfold run_Start, lock, unlock, send, spawn, SetExited, preStart, handleStarted, cleanup, new_container, getContainer,
    read_pid in H;
  repeat first [progress simplify_option_eq|case_match; simplify_eq/=]; simplify_eq/=.

Lemma advance_starts self a s k s' k' :
  advance self a s k = Some (s', k') →
  (starts s' = starts s ∧ ∀ p, proc_of k' = Some p → proc_of k = Some p ∨ ∃ f, k = CreateSend f p) ∨
  (∃ f p, k = StartProcess f ∧ k' = StartRun f p ∧ s' = note_start p s).
Proof.
  intros Ha. destruct k; cbn [advance Create_step Start_step handleStarted_step Exec_step Delete_step] in Ha.
  all: run_all Ha.
  all: try (by left; (split; [done|]); intros ? ?; simplify_eq/=; eauto).
  right. eauto.
Qed.

Lemma lookup_new (ps : list Process) P p P' : (ps ++ [P]) !! p = Some P' →
  ps !! p = Some P' ∨ (ps !! p = None ∧ P' = P).
Proof.
  intros [?|[Hl [_ <-]%list_lookup_singleton_Some]]%lookup_app_Some; [by left|right]. split; [|done].
  by apply lookup_ge_None.
Qed.

Lemma lookup_alter_inv (ps : list Process) f q p P' : alter f q ps !! p = Some P' →
  (p = q ∧ ∃ P, ps !! p = Some P ∧ P' = f P) ∨ ps !! p = Some P'.
Proof.
  destruct (decide (p = q)) as [->|]; [|rewrite list_lookup_alter_ne by done; auto].
  rewrite list_lookup_alter_eq. intros (P & HP & ->)%fmap_Some. left. eauto.
Qed.

(** Processes keep their kind and their pid, except for the one that is being started. *)
Lemma advance_procs self a s k s' k' :
  advance self a s k = Some (s', k') → ∀ p P', procs s' !! p = Some P' →
  (∃ P, procs s !! p = Some P ∧ p_init P' = p_init P ∧ (p_pid P' = p_pid P ∨ starting k = Some p)) ∨
  (procs s !! p = None ∧ (p_init P' = true ∨ p_pid P' = 0)).
Proof.
  intros Ha. destruct k; cbn [advance Create_step Start_step handleStarted_step Exec_step Delete_step] in Ha; run_all Ha.
  all: try (intros ? ? ?; left; eauto; fail).
  all: intros p1 P1 HP1; simpl in HP1;
    (apply lookup_new in HP1 as [HP1|[HP1 ->]]; [left; by eauto|right; simpl; by auto]) ||
    (apply lookup_alter_inv in HP1 as [(-> & P0 & HP1 & ->)|HP1]; left; simpl; by eauto 6).
Qed.

Lemma proc_of_valid s k p : call_ok s k → proc_of k = Some p → ∃ b, is_proc s b p.
Proof.
  intros (_ & _ & Hok) Hp.
  assert (∀ f, target s f p → ∃ b, is_proc s b p) as Ht by (intros f [(_ & ? & _)|[_ ?]]; eauto).
  destruct k as [| | | | | | | |f p0|f p0 q0|f p0|f [p0|]|f [p0|] pid| | | | | | | | | | | | | | | | |]; try done;
    injection Hp as ->; simpl in Hok; destruct_and?; eauto.
Qed.

Lemma twice_started (l : list nat) p : p ∈ l → (2 ≤ length (filter (λ p', p' = p) (l ++ [p])))%nat.
Proof.
  intros Hp. rewrite filter_app, filter_cons_True, filter_nil, length_app by done. simpl.
  assert (p ∈ filter (λ p', p' = p) l) as Hin by (by apply list_elem_of_filter).
  destruct (filter _ l); [by apply elem_of_nil in Hin|simpl; lia].
Qed.

Lemma started_acts t i k a s' k' :
  wf t → started t → calls t !! i = Some k → advance (Call i) a (svc t) k = Some (s', k') →
  orderly (mk_system s' (<[i:=k']> (calls t)) (exits t)) → started (mk_system s' (<[i:=k']> (calls t)) (exits t)).
Proof.
  intros Hwf [S1 S2 S3] Hi Ha [_ Honce]. simpl in Honce.
  assert (∀ b p, is_proc s' b p → is_proc (svc t) b p ∨ procs (svc t) !! p = None) as Hback.
  { intros b p (P' & HP' & Hb). destruct (advance_procs _ _ _ _ _ _ Ha p P' HP') as [(P & HP & Hini & _)|[? _]]; [left|by right].
    exists P. split; [done|congruence]. }
  assert (∀ j kj b p, calls t !! j = Some kj → proc_of kj = Some p → is_proc s' b p → is_proc (svc t) b p) as Hother.
  { intros j kj b p Hj Hp Hb. destruct (proc_of_valid _ _ _ (wf_call _ Hwf j kj Hj) Hp) as (b' & P & HP & _).
    destruct (Hback b p Hb) as [?|Hn]; [done|congruence]. }
  assert (∀ f p, k = CreateSend f p → ¬ is_proc s' false p) as Hcreate.
  { intros f p -> Hb. destruct (wf_call _ Hwf i _ Hi) as (_ & _ & _ & Hid & [(_ & Ht & _)|[? _]] & _); [|done].
    destruct (Hback _ _ Hb) as [Hb'|Hn]; [by pose proof (is_proc_fun _ _ _ _ Ht Hb')|].
    destruct Ht as (P & HP & _). congruence. }
  pose proof (advance_starts _ _ _ _ _ _ Ha) as Hst.
  assert (∀ p, p ∈ starts (svc t) → p ∈ starts s') as Hmono.
  { intros p Hp. destruct Hst as [[-> _]|(f & p0 & _ & _ & ->)]; [done|]. simpl. apply elem_of_app. by left. }
  assert (∀ p, proc_of k' = Some p → is_proc s' false p →
    (proc_of k = Some p ∧ is_proc (svc t) false p) ∨ starts s' = starts (svc t) ++ [p]) as Hown.
  { intros p Hp Hb. destruct Hst as [[_ Hpo]|(f & p0 & -> & -> & ->)].
    - destruct (Hpo p Hp) as [Hk|[f Hk]]; [left; split; [done|by eapply Hother]|]. by destruct (Hcreate f p Hk).
    - injection Hp as ->. by right. }
  constructor; simpl.
  - intros j kj p [(<- & <- & _)|[Hj Hkj]]%list_lookup_insert_Some Hp Hb.
    + destruct (Hown p Hp Hb) as [[Hk Hb']| ->]; [by apply Hmono; eapply S1|]. apply elem_of_app. right. by left.
    + apply Hmono. eapply S1; [done|done|by eapply Hother].
  - intros p P' HP' Hini Hpid. destruct (advance_procs _ _ _ _ _ _ Ha p P' HP') as [(P & HP & Hi' & Hsame)|[_ [?|?]]]; [|congruence|done].
    apply Hmono. destruct Hsame as [Hsame|Hstart]; [apply (S2 p P); congruence|].
    destruct k; try done. injection Hstart as ->. eapply (S1 i _ p Hi); [done|]. exists P. split; [done|congruence].
  - intros j1 j2 k1 k2 p Hne H1 H2 Hp1 Hp2 Hb.
    assert (∀ j kj, j ≠ i → calls t !! j = Some kj → proc_of kj = Some p → proc_of k' = Some p → False) as Hclash.
    { intros j kj Hj Hkj Hp Hp'. pose proof (Hother j kj _ p Hkj Hp Hb) as Hb'.
      destruct (Hown p Hp' Hb) as [[Hk _]|Hs]; [by eapply (S3 j i)|].
      pose proof (twice_started (starts (svc t)) p (S1 j kj p Hkj Hp Hb')) as Htwo. rewrite <- Hs in Htwo.
      destruct Hb as (P & HP & Hini). specialize (Honce p P HP Hini). lia. }
    apply list_lookup_insert_Some in H1 as [(<- & <- & _)|[Hj1 H1]], H2 as [(<- & <- & _)|[Hj2 H2]].
    + done.
    + by eapply (Hclash j2).
    + by eapply (Hclash j1).
    + eapply (S3 j1 j2); [done..|]. by eapply Hother.
Qed.

(** The actions outside of the handlers leave pids and starts alone. *)
Lemma processExits_procs s k s' k' :
  processExits s k = Some (s', k') → starts s' = starts s ∧
  ∀ p P', procs s' !! p = Some P' → ∃ P, procs s !! p = Some P ∧ p_init P' = p_init P ∧ p_pid P' = p_pid P.
Proof.
  intros Ha. destruct k; simpl in Ha; unfold take_exit in Ha; run_all Ha; (split; [done|]); intros p1 P1 HP1; eauto;
    simpl in HP1; apply lookup_alter_inv in HP1 as [(-> & P0 & HP1 & ->)|HP1]; eauto.
Qed.

Lemma started_outside t t' :
  started t → starts (svc t') = starts (svc t) →
  (∀ p P', procs (svc t') !! p = Some P' → ∃ P, procs (svc t) !! p = Some P ∧ p_init P' = p_init P ∧ p_pid P' = p_pid P) →
  (∀ i k p, calls t' !! i = Some k → proc_of k = Some p → calls t !! i = Some k) → started t'.
Proof.
  intros [S1 S2 S3] Es Hp Hc.
  assert (∀ b p, is_proc (svc t') b p → is_proc (svc t) b p) as Hb.
  { intros b p (P' & HP' & <-). destruct (Hp p P' HP') as (P & ? & ? & _). by exists P. }
  constructor; rewrite ?Es.
  - intros i k p Hi Hk Hpr. eapply S1; eauto.
  - intros p P' HP' Hini Hpid. destruct (Hp p P' HP') as (P & HP & ? & ?). apply (S2 p P); congruence.
  - intros i j ki kj p Hij Hi Hj Hki Hkj Hpr. eapply (S3 i j); eauto.
Qed.

Lemma started_perform l t t' : wf t → started t → perform l t = Some t' → orderly t' → started t'.
Proof.
  intros Hwf Hst Ha Hor. destruct l as [r|i a| | |pid st|pid st]; simpl in Ha.
  - injection Ha as <-. apply (started_outside t); [done|done|by eauto|].
    simpl. intros i k p [?|[_ [_ <-]%list_lookup_singleton_Some]]%lookup_app_Some Hk; [done|]. by destruct r.
  - destruct (calls t !! i) as [k|] eqn:Hi; [|done]. simpl in Ha.
    destruct (advance (Call i) a (svc t) k) as [[s' k']|] eqn:Ea; [|done]. injection Ha as <-. by eapply started_acts.
  - destruct (processExits (svc t) (exits t)) as [[s' k']|] eqn:Ep; [|done]. injection Ha as <-.
    destruct (processExits_procs _ _ _ _ Ep) as [Es Hp]. by apply (started_outside t).
  - destruct (buffered (svc t)); [done|]. injection Ha as <-. apply (started_outside t); simpl; eauto.
  - case_bool_decide; [|done]. injection Ha as <-. apply (started_outside t); simpl; eauto.
  - case_match; [|done]. injection Ha as <-. apply (started_outside t); simpl; eauto.
Qed.

Lemma started_initial : started initial.
Proof. by constructor. Qed.

(** ** Counting duties *)

(** Containers keep their init process. *)
Definition inits_kept (s s' : service) : Prop :=
  ∀ c, is_Some (conts s !! c) → c_process <$> conts s' !! c = c_process <$> conts s !! c.

Lemma window_kept s s' k : inits_kept s s' → call_ok s k → window s' k = window s k.
Proof.
  intros Hk (_ & Hc & _). destruct k; try done. simpl. case_decide; [|done].
  destruct (Hc (f_c f) eq_refl) as [C HC]. specialize (Hk (f_c f) ltac:(eauto)).
  rewrite HC in *. destruct (conts s' !! f_c f); [|done]. simpl in *. unfold compose. simpl. congruence.
Qed.

(** The duty of a call does not change with what the call does not see. *)
Lemma call_duty_kept s s' k p0 :
  swf s → inits_kept s s' → call_ok s k → pid_of s' p0 = pid_of s p0 → reaped s' = reaped s →
  (∀ x, sub_of k = Some x → exitSubscribers s' !! x = exitSubscribers s !! x) →
  call_duty s' p0 k = call_duty s p0 k.
Proof.
  intros Hw Hk Hok Hpid Hr Hs. unfold call_duty. rewrite (window_kept _ _ _ Hk Hok).
  destruct (window s k) as [[x p1]|] eqn:Ewin; [|done].
  destruct (window_target _ _ _ _ Hw Hok Ewin) as [Hsub _].
  apply decide_ext. unfold recorded. by rewrite Hr, Hpid, (Hs x Hsub).
Qed.

Section Zero.
Context (t : system) (Hwf : wf t).
Abbreviation s := (svc t).

(** Nothing is to be done for a process whose exit was not received. *)
Lemma not_gone_exits p ees : exits_of s p ees → ¬ gone s (pid_of s p) → ees = [].
Proof.
  intros [_ He] Hg. destruct ees as [|e ees]; [done|]. destruct (He e ltac:(by left)) as [Hr Hp].
  destruct Hg. rewrite <- Hp. by apply list_elem_of_fmap_2.
Qed.

Lemma not_gone_handling p i k : calls t !! i = Some k → ¬ gone s (pid_of s p) → handling p k = 0%nat.
Proof.
  intros Hi Hg. destruct (wf_call _ Hwf i k Hi) as (_ & _ & Hok).
  destruct k; try done; simpl in *; case_decide; subst; try done; apply not_gone_exits in Hok; subst; done.
Qed.

Lemma not_gone_exits_duty p : ¬ gone s (pid_of s p) → exits_duty p (exits t) = 0%nat.
Proof.
  intros Hg. pose proof (wf_exits _ Hwf) as He.
  assert (∀ e cps, (∀ cp, cp ∈ cps → exits_of s (cp_Process cp) [e]) → count_cp p cps = 0%nat) as Hc.
  { intros e cps Hcps. unfold count_cp. destruct (filter _ cps) as [|cp l] eqn:El; [done|].
    assert (cp ∈ filter (λ cp, cp_Process cp = p) cps) as Hin by (rewrite El; by left).
    apply list_elem_of_filter in Hin as [<- Hin]. by pose proof (not_gone_exits _ _ (Hcps cp Hin) Hg). }
  assert (∀ e p', exits_of s p' [e] → (if decide (p' = p) then 1 else 0)%nat = 0%nat) as H1.
  { intros e p' He'. case_decide; [subst|done]. by pose proof (not_gone_exits _ _ He' Hg). }
  destruct (exits t) as [|e cps|e p' cps|e p' cps]; simpl in *; [done|by eapply Hc|..];
    destruct He as [He1 He2]; by rewrite (H1 e p' He1), (Hc e cps He2).
Qed.

Lemma not_gone_published p : ¬ gone s (pid_of s p) → published s p = 0%nat.
Proof.
  intros Hg. unfold published. destruct (filter _ (events s)) as [|e l] eqn:El; [done|].
  assert (e ∈ filter (λ e, is_exit_of p e = true) (events s)) as Hin by (rewrite El; by left).
  apply list_elem_of_filter in Hin as [Hp Hin]. destruct e; try done. simpl in Hp. apply bool_decide_eq_true in Hp as ->.
  destruct (w_events _ (wf_svc _ Hwf) _ _ _ Hin) as (_ & -> & Hr). destruct Hg.
  by apply (list_elem_of_fmap_2 e_Pid) in Hr.
Qed.

(** The table holds a process under its pid only. *)
Lemma count_running q p : q ≠ pid_of s p → count_cp p (default [] (running s !! q)) = 0%nat.
Proof.
  intros Hq. unfold count_cp. destruct (filter _ _) as [|cp l] eqn:El; [done|].
  assert (cp ∈ filter (λ cp, cp_Process cp = p) (default [] (running s !! q))) as Hin by (rewrite El; by left).
  apply list_elem_of_filter in Hin as [<- Hin]. destruct (running s !! q) as [cps|] eqn:Er; [|by apply elem_of_nil in Hin].
  destruct (w_run _ (wf_svc _ Hwf) _ _ _ Er Hin) as (_ & P & HP & Hpid & _).
  by rewrite (pid_of_lookup _ _ _ HP) in Hq.
Qed.

Lemma not_gone_zero : ¬ gone s 0.
Proof. intros Hg. by destruct (gone_pos s 0 (wf_svc _ Hwf) Hg). Qed.

(** A process without other windows whose exit was not received is registered. *)
Lemma duties_not_gone p :
  ¬ gone s (pid_of s p) → (∀ j k sub, calls t !! j = Some k → window s k ≠ Some (sub, p)) →
  duties t p = registered s p.
Proof.
  intros Hg Hno. unfold duties. rewrite not_gone_exits_duty, not_gone_published by done.
  rewrite sum_zero; [lia|]. intros j k Hj. unfold call_duty. destruct (window s k) as [[sub p']|] eqn:E.
  - rewrite decide_False; [done|]. intros [-> _]. by eapply Hno.
  - by eapply not_gone_handling.
Qed.

(** A pid that was just recorded. *)
Lemma duties_newborn p s' i k' :
  pid_of s p = 0 → calls t !! i ≠ None → running s' = running s → published s' p = published s p →
  pid_of s' p ≠ 0 → call_duty s' p k' = 1%nat →
  (∀ j k, j ≠ i → calls t !! j = Some k → ∀ sub, window s' k ≠ Some (sub, p)) →
  duties (mk_system s' (<[i:=k']> (calls t)) (exits t)) p = 1%nat.
Proof.
  intros Hpid Hi Hr Hev Hpid' Hd Hno. pose proof not_gone_zero as Hg. rewrite <- Hpid in Hg.
  unfold duties. simpl. destruct (calls t !! i) as [k|] eqn:Ei; [|done].
  rewrite (sum_one _ _ i k').
  - rewrite Hd, not_gone_exits_duty by done. unfold registered. rewrite Hr, Hev, not_gone_published by done.
    case_decide; [done|]. rewrite count_running by congruence. done.
  - rewrite list_lookup_insert_eq; [done|]. by apply lookup_lt_Some in Ei.
  - intros j z Hj. rewrite list_lookup_insert_ne by done. intros Hz. unfold call_duty.
    destruct (window s' z) as [[sub p']|] eqn:E; [|by eapply not_gone_handling].
    rewrite decide_False; [done|]. intros [-> _]. by eapply Hno.
Qed.

(** A change of one call that moves its duty. *)
Lemma duties_acts p s' i k k' :
  calls t !! i = Some k → inits_kept s s' → pid_of s' p = pid_of s p → reaped s' = reaped s →
  (∀ x, sub_of k ≠ Some x → is_Some (exitSubscribers s !! x) → exitSubscribers s' !! x = exitSubscribers s !! x) →
  (call_duty s' p k' + registered s' p + published s' p = call_duty s p k + registered s p + published s p)%nat →
  duties (mk_system s' (<[i:=k']> (calls t)) (exits t)) p = duties t p.
Proof.
  intros Hi Hk Hpid Hr Hs Heq. unfold duties. simpl.
  assert (sum_list_with (call_duty s' p) (<[i:=k']> (calls t)) + call_duty s p k =
          sum_list_with (call_duty s p) (calls t) + call_duty s' p k')%nat as Hsum; [|lia].
  apply sum_insert; [done|]. intros j z Hj Hz. apply call_duty_kept; [apply Hwf|done|by apply (wf_call _ Hwf j)|done|done|].
  intros x Hx. apply Hs.
  - destruct (wf_apart _ Hwf j i z k Hj Hz Hi) as (Ha & _). by apply Ha.
  - destruct (wf_call _ Hwf j z Hz) as (Hsub & _). by apply Hsub.
Qed.
End Zero.

(** ** The duties at every action of a handler *)

Lemma advance_reaped self a s k s' k' : advance self a s k = Some (s', k') → reaped s' = reaped s.
Proof. intros Ha. destruct k; cbn [advance Create_step Start_step handleStarted_step Exec_step Delete_step] in Ha; run_all Ha; done. Qed.

Lemma advance_conts self a s k s' k' : advance self a s k = Some (s', k') → inits_kept s s'.
Proof.
  intros Ha. destruct k; cbn [advance Create_step Start_step handleStarted_step Exec_step Delete_step] in Ha; run_all Ha; try done; intros d [D0 HD0]; simpl;
    try (by rewrite (lookup_app_l_Some _ _ _ _ HD0), HD0);
    try (destruct (decide (d = c)) as [->|]; [rewrite list_lookup_alter_eq, HD0|by rewrite list_lookup_alter_ne by done]);
    simpl; try done.
  unfold ReserveProcess in *. repeat case_match; by simplify_eq.
Qed.

Lemma advance_subs self a s k s' k' x :
  swf s → advance self a s k = Some (s', k') → sub_of k ≠ Some x → is_Some (exitSubscribers s !! x) →
  exitSubscribers s' !! x = exitSubscribers s !! x.
Proof.
  intros Hw Ha Hx [m Hm]. destruct (w_subs _ Hw x m Hm) as [Hlt _].
  destruct k; cbn [advance Create_step Start_step handleStarted_step Exec_step Delete_step sub_of] in *; run_all Ha; try done; simpl;
    rewrite ?lookup_insert_ne, ?lookup_delete_ne by (lia || congruence); done.
Qed.

(** The actions that neither change the table nor publish. *)
Definition quiet (k : pc) : bool :=
  match k with StartPre _ _ | HandleLocked _ _ _ | HandleSend _ _ _ _ => false | _ => true end.

Lemma filter_last_no (P : event → Prop) `{∀ e, Decision (P e)} l e : ¬ P e → filter P (l ++ [e]) = filter P l.
Proof. intros He. by rewrite filter_app, filter_cons_False, filter_nil, app_nil_r. Qed.

Lemma advance_quiet self a s k s' k' :
  quiet k = true → advance self a s k = Some (s', k') →
  running s' = running s ∧ ∀ p, published s' p = published s p.
Proof.
  intros Hq Ha. destruct k; try done; cbn [advance Create_step Start_step handleStarted_step Exec_step Delete_step] in Ha; run_all Ha; (split; [done|]); try done; intros p0;
    unfold published; simpl; rewrite filter_last_no; try done.
  unfold started_event. by destruct (decide _).
Qed.

Lemma registered_same s s' p :
  running s' = running s → reaped s' = reaped s → pid_of s' p = pid_of s p → registered s' p = registered s p.
Proof. intros Hr Hre Hp. unfold registered. rewrite Hr, Hp. apply decide_ext. by rewrite Hre. Qed.

(** Two calls with the same window have the same duty. *)
Lemma call_duty_window s s' k k' p sub p0 :
  window s k = Some (sub, p0) → window s' k' = Some (sub, p0) →
  exitSubscribers s' = exitSubscribers s → reaped s' = reaped s → pid_of s' p = pid_of s p →
  call_duty s' p k' = call_duty s p k.
Proof.
  intros Hk Hk' Hs Hr Hp. unfold call_duty. rewrite Hk, Hk'. apply decide_ext. unfold recorded. by rewrite Hs, Hr, Hp.
Qed.

Lemma call_duty_elsewhere s k p sub p0 : window s k = Some (sub, p0) → p0 ≠ p → call_duty s p k = 0%nat.
Proof. intros Hk Hp. unfold call_duty. rewrite Hk. apply decide_False. by intros [-> _]. Qed.

Section Duty.
Context (t : system) (Hwf : wf t) (i : nat) (k : pc) (Hi : calls t !! i = Some k).
Abbreviation s := (svc t).
Context (a : answer) (s' : service) (k' : pc) (Ha : advance (Call i) a s k = Some (s', k')).
Context (p : nat) (P : Process) (HP : procs s !! p = Some P) (Hpid : p_pid P ≠ 0) (Hsame : pid_of s' p = pid_of s p).

Lemma call_duty_quiet :
  quiet k = true → (∀ f, k ≠ StartProcess f) → call_duty s' p k' = call_duty s p k.
Proof.
  intros Hq Hns. pose proof (pid_of_lookup _ _ _ HP) as Epid.
  destruct (wf_call _ Hwf i k Hi) as (_ & _ & Hok).
  assert (p ≠ length (procs s)) as Hlen by (apply lookup_lt_Some in HP; lia).
  destruct k as [| | | |f p0| | |f|f p0|f p0 q0|f p0|f [p0|]|f [p0|] pid|f p0 ees|f p0 e ees|f p0 e ees| | | | | | | | | | | | | |]; try done;
    try (by destruct (Hns f)); cbn [advance Create_step Start_step handleStarted_step Exec_step Delete_step] in Ha.
  all: try (run_all Ha; first [done|by eapply call_duty_elsewhere|by eapply call_duty_window]; fail).
  - destruct (decide (p0 = p)) as [->|Hne].
    + unfold read_pid in Ha. rewrite HP in Ha. simpl in Ha. case_match; [done|]. simplify_eq/=.
      eapply call_duty_window; [done| |done..]. simpl. by rewrite decide_False by done.
    + destruct (read_pid (Some p0) s) as [pid|]; [|done]. simplify_eq/=. unfold call_duty. simpl.
      rewrite (decide_False (P := p0 = p ∧ _)) by (by intros []). case_decide; [done|].
      apply decide_False. by intros [].
  - destruct ees as [|e ees]; run_all Ha; try done. unfold call_duty. simpl. by case_decide.
Qed.
End Duty.

