(* ===== verification/TaskSpec.v ===== *)
(** * Every exit is published once, after the start

    Theorems about Task.v: as long as callers are [orderly], exactly one goroutine or table
    has the duty to publish the exit of a process. *)

From S2P Require Import Prelude.
From S2P Require Import Task.
From S2P Require Import TaskInv.
From S2P Require Import TaskWf.
From S2P Require Import TaskDuty.

(** ** One duty for every process with a pid *)

Definition dutiful (t : system) : Prop :=
  ∀ p P, procs (svc t) !! p = Some P → p_pid P ≠ 0 → duties t p = 1%nat.

Lemma count_cp_app p l l' : count_cp p (l ++ l') = (count_cp p l + count_cp p l')%nat.
Proof. unfold count_cp. by rewrite filter_app, length_app. Qed.

Lemma count_cp_cons p cp l : count_cp p (cp :: l) = ((if decide (cp_Process cp = p) then 1 else 0) + count_cp p l)%nat.
Proof. unfold count_cp. case_decide; [rewrite filter_cons_True|rewrite filter_cons_False]; done. Qed.

Lemma published_exit s s' p p' e :
  send (TaskExit p' (e_Pid e) (e_Status e)) s = Some s' →
  published s' p = (published s p + if decide (p' = p) then 1 else 0)%nat.
Proof.
  intros ->%send_inv. unfold published. simpl. rewrite filter_app, length_app. f_equal.
  case_decide; [rewrite filter_cons_True|rewrite filter_cons_False]; simpl; try done;
    [by apply bool_decide_eq_true|by rewrite bool_decide_eq_false_2].
Qed.

(** The table after [preStart]: the container's processes are gone from the entry of its pid. *)
Lemma preStart_table c s s' sub q : preStart (Some c) s = (s', sub) →
  default [] (running s' !! q) =
    if decide (q = Container_Pid s c) then filter (λ cp, cp_Container cp ≠ c) (default [] (running s !! q))
    else default [] (running s !! q).
Proof.
  unfold preStart. intros E. injection E as <- _. simpl. unfold Container_Pid, pid_of. simpl.
  set (q0 := match conts s !! c with Some _ => _ | None => _ end).
  destruct (filter _ (default [] (running s !! q0))) as [|cp l] eqn:El; case_decide as E; try (subst q; rewrite El);
    rewrite ?lookup_delete_eq, ?lookup_insert_eq, ?lookup_delete_ne, ?lookup_insert_ne by congruence; done.
Qed.

Lemma count_cp_none p cps : (∀ cp, cp ∈ cps → cp_Process cp ≠ p) → count_cp p cps = 0%nat.
Proof.
  intros Hcps. unfold count_cp. destruct (filter _ cps) as [|cp l] eqn:El; [done|].
  assert (cp ∈ filter (λ cp, cp_Process cp = p) cps) as Hin by (rewrite El; by left).
  apply list_elem_of_filter in Hin as [Heq Hin]. by destruct (Hcps cp Hin).
Qed.

Lemma preStart_registered c C s s' sub p P :
  swf s → preStart (Some c) s = (s', sub) → conts s !! c = Some C → procs s !! p = Some P → p_pid P ≠ 0 →
  registered s' p = if decide (c_process C = p) then 0%nat else registered s p.
Proof.
  intros Hw E HC HP Hpid. pose proof (preStart_table c s s' sub (pid_of s p) E) as Ht.
  destruct (preStart_run (Some c) s) as (? & ? & E' & -> & Es & _). rewrite E in E'. injection E' as <- ->.
  assert (reaped s' = reaped s) as Hr by (by rewrite Es). assert (pid_of s' p = pid_of s p) as Hp by (by rewrite Es).
  unfold registered. rewrite Hr, Hp, Ht. assert (Container_Pid s c = pid_of s (c_process C)) as -> by (unfold Container_Pid; by rewrite HC).
  destruct (decide (gone s (pid_of s p))); [by destruct (decide (c_process C = p))|].
  destruct (decide (c_process C = p)) as [Hcp|Hcp].
  - rewrite decide_True by congruence. apply count_cp_none. intros cp [Hne Hin]%list_elem_of_filter Heq.
    destruct (running s !! pid_of s p) as [cps|] eqn:Er; [|by apply elem_of_nil in Hin].
    destruct (w_run _ Hw _ _ _ Er Hin) as (_ & Q & HQ & _ & Hc).
    destruct (w_cont _ Hw c C HC) as [(Q' & HQ' & Hini) _]. rewrite Heq in *. rewrite Hcp in *. assert (Q' = Q) as -> by congruence.
    specialize (Hc Hini). destruct (conts s !! cp_Container cp) as [D|] eqn:HD; [|done]. simpl in Hc.
    apply Hne, (w_cinj _ Hw _ _ D C); congruence.
  - rewrite decide_False; [done|]. intros Heq. apply Hcp. destruct (w_cont _ Hw c C HC) as [(Q & HQ & _) _].
    rewrite (pid_of_lookup _ _ _ HP), (pid_of_lookup _ _ _ HQ) in Heq. symmetry. by eapply (w_inj _ Hw).
Qed.

(** A process gets its pid when its creation or its start is over. *)
Lemma pid_of_set_phase p0 ph s p : pid_of (change_proc p0 (set_phase ph) s) p = pid_of s p.
Proof.
  unfold pid_of. simpl. destruct (decide (p = p0)) as [->|].
  - rewrite list_lookup_alter_eq. by destruct (procs s !! p0).
  - by rewrite list_lookup_alter_ne.
Qed.

Lemma pid_of_new s P p : pid_of (set_procs (procs s ++ [P]) s) p = if decide (p = length (procs s)) then p_pid P else pid_of s p.
Proof.
  unfold pid_of. simpl. case_decide as Hp; [subst; by rewrite lookup_app_r, Nat.sub_diag by lia|].
  destruct (procs s !! p) as [Q|] eqn:HQ; [by rewrite (lookup_app_l_Some _ _ _ _ HQ)|].
  apply lookup_ge_None in HQ. rewrite lookup_app_r by done.
  destruct (p - length (procs s))%nat eqn:E; [lia|done].
Qed.

Lemma advance_new_pid self a s k s' k' p :
  advance self a s k = Some (s', k') → pid_of s p = 0 → pid_of s' p ≠ 0 →
  quiet k = true ∧ ((∃ f, k' = CreateSend f p) ∨ (∃ f, k' = StartSend f p)).
Proof.
  intros Ha H0 H1. destruct k; cbn [advance Create_step Start_step handleStarted_step Exec_step Delete_step] in Ha; run_all Ha; try done; try (by rewrite ?pid_of_set_phase in H1).
  3: { split; [done|]. right. destruct (decide (p = p0)) as [->|Hp]; [by eexists|]. destruct H1. unfold pid_of. simpl.
       by rewrite list_lookup_alter_ne. }
  all: lazymatch type of H1 with context [set_procs (?l ++ [?Q]) ?s0] => change (pid_of (set_procs (l ++ [Q]) s0) p ≠ 0) in H1 end;
    rewrite pid_of_new in H1; case_decide; [subst|done]; simpl in H1; try done; eauto.
Qed.

Section Acts.
Context (t : system) (Hwf : wf t) (Hst : started t) (Hdut : dutiful t).
Context (i : nat) (k : pc) (Hi : calls t !! i = Some k).
Abbreviation s := (svc t).
Context (a : answer) (s' : service) (k' : pc) (Ha : advance (Call i) a s k = Some (s', k')).
Abbreviation t' := (mk_system s' (<[i:=k']> (calls t)) (exits t)).
Context (Hord : orderly t').

Lemma wf_next : wf t'.
Proof. by eapply wf_advance. Qed.

Lemma started_next : started t'.
Proof. by eapply started_acts. Qed.

(** The next state has no second window on a process. *)
Lemma next_alone j kj si sj p :
  j ≠ i → calls t !! j = Some kj → window s' k' = Some (si, p) → window s' kj ≠ Some (sj, p).
Proof.
  intros Hj Hkj Hw Hw'. apply (window_alone t' i j k' kj si sj p wf_next started_next Hord); try done.
  - simpl. rewrite list_lookup_insert_eq; [done|]. by apply lookup_lt_Some in Hi.
  - simpl. by rewrite list_lookup_insert_ne by done.
Qed.

Lemma window_others j kj : calls t !! j = Some kj → window s' kj = window s kj.
Proof. intros Hj. apply window_kept; [by eapply advance_conts|by eapply wf_call]. Qed.

Section Old.
Context (p : nat) (P : Process) (HP : procs s !! p = Some P) (Hpid : p_pid P ≠ 0) (Hsame : pid_of s' p = pid_of s p).

Lemma duty_StartProcess f : k = StartProcess f → call_duty s' p k' = call_duty s p k.
Proof.
  intros ->. destruct (wf_call _ Hwf i _ Hi) as (_ & Hc & _). specialize (Hc _ eq_refl) as [C HC].
  pose proof Hord as [_ Honce]. cbn [advance Create_step Start_step handleStarted_step Exec_step Delete_step] in Ha. unfold Container_Process in Ha. rewrite HC in Ha. simpl in Ha.
  unfold call_duty. simpl. case_decide as Hid.
  - injection Ha as <- <-. simpl. rewrite HC. simpl. unfold recorded. simpl. done.
  - destruct (c_processes C !! f_id f) as [p0|] eqn:Hp0; injection Ha as <- <-; simpl; [|done].
    apply decide_False. intros [-> _].
    destruct (w_cont _ (wf_svc _ Hwf) _ _ HC) as [_ Hex]. destruct (Hex _ _ Hp0) as (Q & HQ & Hini).
    assert (Q = P) as -> by congruence. specialize (Honce p P HP Hini). simpl in Honce.
    pose proof (twice_started (starts s) p (st_pid _ Hst _ _ HP Hini Hpid)). lia.
Qed.

Lemma registered_next : running s' = running s → registered s' p = registered s p.
Proof. intros Hr. apply registered_same; [done|by eapply advance_reaped|done]. Qed.

Lemma duty_StartPre c eid : k = StartPre c eid →
  (call_duty s' p k' + registered s' p + published s' p = call_duty s p k + registered s p + published s p)%nat.
Proof.
  pose proof next_alone as Hal. pose proof window_others as Hwo. pose proof (wf_svc _ Hwf) as Hw.
  pose proof (wf_call _ Hwf i _ Hi) as (_ & Hc & _). intros ->. specialize (Hc _ eq_refl) as [C HC].
  cbn [advance Create_step Start_step handleStarted_step Exec_step Delete_step] in Ha. destruct (preStart _ s) as [s1 sub] eqn:Ep. injection Ha as <- <-.
  destruct (preStart_run (if decide (eid = "") then Some c else None) s) as (? & ? & E' & -> & Es & _). rewrite Ep in E'. injection E' as <- ->.
  assert (published s1 p = published s p) as -> by (by rewrite Es).
  change (call_duty s p (StartPre c eid)) with 0%nat. f_equal. unfold call_duty. simpl. case_decide as Heid.
  - assert (conts s1 !! c = Some C) as HC1 by (by rewrite Es). rewrite HC1. simpl.
    rewrite (preStart_registered c C s s1 _ p P Hw Ep HC HP Hpid). destruct (decide (c_process C = p)) as [Hcp|Hcp].
    + destruct (decide (gone s (pid_of s p))) as [Hg|Hg].
      * rewrite decide_False; [unfold registered; by rewrite decide_True|]. intros [_ Hrec].
        rewrite Es in Hrec. specialize (Hrec Hg). destruct Hrec as [ees Hees]. simpl in Hees.
        rewrite lookup_insert_eq in Hees. done.
      * rewrite decide_True by (split; [done|]; intros Hg'; destruct Hg; by rewrite Es in Hg').
        rewrite <- (duties_not_gone t Hwf p Hg); [by rewrite (Hdut p P HP Hpid)|].
        intros j kj sj Hj Hwin. destruct (decide (j = i)) as [->|Hj']; [by simplify_eq|].
        rewrite <- (Hwo j kj Hj) in Hwin. eapply (Hal j kj _ _ p Hj' Hj); [|done]. simpl. rewrite decide_True by done.
        rewrite HC1. simpl. by rewrite Hcp.
    + rewrite decide_False; [done|]. by intros [].
  - rewrite ?decide_False in Ep by done. clear Es Hwo Hal. by injection Ep as <-.
Qed.

Lemma duty_HandleLocked f po pid : k = HandleLocked f po pid →
  (call_duty s' p k' + registered s' p + published s' p = call_duty s p k + registered s p + published s p)%nat.
Proof.
  pose proof (wf_call _ Hwf i _ Hi) as (_ & _ & Hok). pose proof (wf_svc _ Hwf) as Hw. intros ->.
  cbn [advance Create_step Start_step handleStarted_step Exec_step Delete_step] in Ha. destruct (handleStarted _ _ _ _ _) as [s1 ees] eqn:Eh. injection Ha as <- <-.
  destruct (handleStarted_run (f_sub f) (f_c f) po pid s) as (? & ? & E' & Es & Hr). rewrite Eh in E'. injection E' as <- <-.
  assert (published s1 p = published s p) as -> by (by rewrite Es). f_equal.
  assert (reaped s1 = reaped s) as Hre by (by rewrite Es).
  pose proof (pid_of_lookup _ _ _ HP) as Epid.
  destruct po as [p0|]; simpl in Hok.
  2:{ subst pid. destruct Hr as [(_ & _ & Hr)|[(? & _)|(? & _)]]; [|done..]. by rewrite (registered_same s s1). }
  destruct Hok as [Ht Hpo].
  destruct Hr as [(-> & -> & Hr)|[(Hne & Hees & Hr)|(Hne & Hees & -> & Hr)]].
  - rewrite (registered_same s s1) by done. unfold call_duty. simpl. by case_decide.
  - rewrite (registered_same s s1) by done. unfold call_duty. simpl. rewrite (decide_False (P := pid = 0)) by done.
    specialize (Hpo Hne). subst pid. f_equal. case_decide as Hp0.
    + subst p0. rewrite decide_True by (split; [done|]; intros _; by eexists).
      destruct (exitSubscribers s !! f_sub f) as [m|] eqn:Em; [|done]. destruct (w_subs _ Hw _ _ Em) as [_ Hm].
      by destruct (Hm _ _ Hees) as (e & -> & _).
    + rewrite decide_False; [done|]. by intros [].
  - specialize (Hpo Hne). subst pid. unfold call_duty. simpl. rewrite (decide_False (P := pid_of s p0 = 0)) by done.
    unfold registered. rewrite Hre, Hr, Hsame. destruct (decide (p0 = p)) as [->|Hp0].
    + rewrite lookup_insert_eq. simpl. destruct (decide (gone s (pid_of s p))) as [Hg|Hg].
      * rewrite decide_False; [done|]. intros [_ Hrec]. destruct (Hrec Hg) as [? ?]. congruence.
      * rewrite decide_True by (by split). rewrite count_cp_app, count_cp_cons. simpl. rewrite decide_True by done.
        unfold count_cp at 2. simpl. lia.
    + rewrite lookup_insert_ne.
      * rewrite (decide_False (P := p0 = p ∧ _)); [done|]. by intros [].
      * intros Heq. apply Hp0. destruct (target_lookup t f p0 Ht) as [Q HQ]. rewrite (pid_of_lookup _ _ _ HQ), Epid in Heq.
        apply (w_inj _ Hw _ _ Q P); congruence.
Qed.

Lemma duty_HandleSend f p0 e ees : k = HandleSend f p0 e ees →
  (call_duty s' p k' + registered s' p + published s' p = call_duty s p k + registered s p + published s p)%nat.
Proof.
  pose proof registered_next as Hrn. intros ->. cbn [advance Create_step Start_step handleStarted_step Exec_step Delete_step] in Ha.
  destruct (send _ _) as [s1|] eqn:Es; [|done]. injection Ha as <- <-. pose proof (published_exit _ _ p _ _ Es) as Hpub.
  assert (∀ b : bool, published (if b then s1 else unlock s1) p = published s1 p) as -> by (by intros []). rewrite Hpub.
  rewrite Hrn by (apply send_inv in Es as ->; by destruct (f_locked f)). unfold call_duty. simpl. case_decide; lia.
Qed.

Lemma duty_step :
  (call_duty s' p k' + registered s' p + published s' p = call_duty s p k + registered s p + published s p)%nat.
Proof.
  assert (quiet k = true → call_duty s' p k' = call_duty s p k →
    call_duty s' p k' + registered s' p + published s' p = call_duty s p k + registered s p + published s p)%nat as Hquiet.
  { intros Hq ->. destruct (advance_quiet _ _ _ _ _ _ Hq Ha) as [Hr ->]. by rewrite registered_next. }
  pose proof (call_duty_quiet t Hwf i k Hi a s' k' Ha p P HP Hpid Hsame) as Hcq.
  pose proof duty_StartPre as H1. pose proof duty_StartProcess as H2.
  pose proof duty_HandleLocked as H3. pose proof duty_HandleSend as H4.
  destruct (quiet k) eqn:Eq.
  { apply Hquiet; [done|]. destruct (match k with StartProcess _ => true | _ => false end) eqn:Esp.
    - clear Hcq Hquiet H1 H3 H4. destruct k; try done; eauto.
    - apply Hcq; [done|]. by intros f ->. }
  clear Hquiet Hcq H2. destruct k; try done; eauto.
Qed.

Lemma duties_old : duties t' p = 1%nat.
Proof.
  rewrite <- (Hdut p P HP Hpid). eapply (duties_acts t Hwf); [done|by eapply advance_conts|done|by eapply advance_reaped| |].
  - intros x Hx Hs. by eapply advance_subs; [apply Hwf|..].
  - apply duty_step.
Qed.
End Old.

(** Others do not know the process that has just been created. *)
Lemma duties_new p : pid_of s p = 0 → pid_of s' p ≠ 0 → duties t' p = 1%nat.
Proof.
  intros H0 H1. destruct (advance_new_pid _ _ _ _ _ _ p Ha H0 H1) as [Hq Hk'].
  destruct (advance_quiet _ _ _ _ _ _ Hq Ha) as [Hr Hev].
  pose proof wf_next as Hwf'. pose proof (wf_svc _ Hwf) as Hw. pose proof (wf_call _ Hwf' i k') as Hok. simpl in Hok.
  rewrite list_lookup_insert_eq in Hok by (by apply lookup_lt_Some in Hi). destruct (Hok eq_refl) as (_ & _ & Hm).
  assert (∃ sub, window s' k' = Some (sub, p) ∧ caught s' sub (pid_of s' p)) as (sub & Hwin & Hct).
  { destruct Hk' as [[f ->]|[f ->]]; exists (f_sub f); (split; [done|]); simpl in Hm; by destruct_and!. }
  apply (duties_newborn t Hwf); try done.
  - by rewrite Hi.
  - unfold call_duty. rewrite Hwin. by rewrite decide_True.
  - intros j kj Hj Hkj sj. by eapply next_alone.
Qed.
End Acts.

(** ** The other actions *)

Lemma call_duty_same s s' p k :
  swf s → call_ok s k → conts s' = conts s → pid_of s' p = pid_of s p → reaped s' = reaped s →
  exitSubscribers s' = exitSubscribers s → call_duty s' p k = call_duty s p k.
Proof.
  intros Hw Hok Hc Hpid Hr Hs. apply call_duty_kept; try done; [|by rewrite Hs]. intros c _. by rewrite Hc.
Qed.

Lemma duties_outside t s' k' p :
  wf t → conts s' = conts (svc t) → pid_of s' p = pid_of (svc t) p → reaped s' = reaped (svc t) →
  exitSubscribers s' = exitSubscribers (svc t) → running s' = running (svc t) →
  (exits_duty p k' + published s' p = exits_duty p (exits t) + published (svc t) p)%nat →
  duties (mk_system s' (calls t) k') p = duties t p.
Proof.
  intros Hwf Hc Hpid Hr Hs Hrun He. unfold duties. simpl.
  rewrite (registered_same (svc t) s') by done.
  rewrite (sum_same (call_duty (svc t) p) (call_duty s' p)); [lia|].
  intros j k Hj. apply call_duty_same; try done; [apply Hwf|by apply (wf_call _ Hwf j)].
Qed.


(** Receiving an exit moves the duty of the table to [processExits]; callers with a window
    have the exit recorded. *)
Lemma duties_take t e rest s' cps p P :
  wf t → ec (svc t) = e :: rest → exits t = ExitsIdle → take_exit e (receive e rest (svc t)) = (s', cps) →
  procs (svc t) !! p = Some P → p_pid P ≠ 0 → duties (mk_system s' (calls t) (ExitsTodo e cps)) p = duties t p.
Proof.
  intros Hwf E Hex Et HP Hpid. pose proof (wf_svc _ Hwf) as Hw. pose proof (next_exit _ _ _ Hw E) as Hnew.
  pose proof (pid_of_lookup _ _ _ HP) as Epid.
  destruct (take_exit_run e rest (svc t) E) as (? & ? & Et' & Es & Ecps). rewrite Et in Et'. injection Et' as <- <-.
  assert (pid_of s' p = pid_of (svc t) p) as Hp by (by rewrite Es).
  assert (reaped s' = reaped (svc t) ++ [e]) as Hr by (by rewrite Es).
  assert (published s' p = published (svc t) p) as Hpub by (by rewrite Es).
  assert (running s' = delete (e_Pid e) (running (svc t))) as Hrun by (by rewrite Es).
  assert (∀ q, gone s' q ↔ gone (svc t) q ∨ q = e_Pid e) as Hgone.
  { intros q. rewrite Hr, fmap_app, elem_of_app. apply or_iff_compat_l, list_elem_of_singleton. }
  assert (sum_list_with (call_duty s' p) (calls t) = sum_list_with (call_duty (svc t) p) (calls t)) as Hsum.
  { apply sum_same. intros j k Hj. unfold call_duty.
    rewrite (window_kept (svc t)) by (first [by apply (wf_call _ Hwf j)|by rewrite Es]).
    destruct (window (svc t) k) as [[sub p0]|] eqn:Ewin; [|done]. apply decide_ext.
    destruct (window_target _ _ _ _ Hw (wf_call _ Hwf _ _ Hj) Ewin) as [Hsub _].
    destruct (wf_call _ Hwf _ _ Hj) as (Hs & _). destruct (Hs _ Hsub) as [m Hm].
    assert (∀ q, recorded s' sub q ↔ recorded (svc t) sub q ∨ q = e_Pid e) as Hrec.
    { intros q. unfold recorded. rewrite Es. simpl. rewrite lookup_fmap, Hm. simpl. destruct (decide (q = e_Pid e)) as [->|].
      - rewrite lookup_insert_eq. split; eauto.
      - rewrite lookup_insert_ne by done. naive_solver. }
    rewrite Hp, Hgone, Hrec. intuition congruence. }
  unfold duties. simpl. rewrite Hsum, Hpub, Hex. unfold registered. rewrite Hp, Hrun. subst cps. simpl.
  destruct (decide (pid_of (svc t) p = e_Pid e)) as [Heq|Hne].
  - rewrite decide_True by (apply Hgone; by right). rewrite decide_False by congruence. rewrite Heq. lia.
  - rewrite lookup_delete_ne by done. rewrite (count_running t Hwf) by done.
    rewrite (decide_ext (gone s' (pid_of (svc t) p)) (gone (svc t) (pid_of (svc t) p))); [lia|]. rewrite Hgone. intuition.
Qed.

Lemma duties_processes t s' k' p P :
  wf t → processExits (svc t) (exits t) = Some (s', k') → procs (svc t) !! p = Some P → p_pid P ≠ 0 →
  duties (mk_system s' (calls t) k') p = duties t p.
Proof.
  intros Hwf Ha HP Hpid. destruct (exits t) as [|e cps|e p0 cps|e p0 cps] eqn:Ex; cbn [processExits] in Ha.
  - destruct (ec (svc t)) as [|e rest] eqn:Ee; [done|].
    destruct (take_exit e _) as [s1 cps] eqn:Et. injection Ha as <- <-. by eapply duties_take.
  - destruct cps as [|cp cps].
    + injection Ha as <- <-. apply duties_outside; try done. by rewrite Ex.
    + unfold lock in Ha. destruct (mu (svc t)); [done|]. injection Ha as <- <-.
      apply duties_outside; try done. rewrite Ex. simpl. by rewrite count_cp_cons.
  - unfold SetExited in Ha. destruct (p_phase <$> procs (svc t) !! p0) as [[]|]; try done; injection Ha as <- <-;
      (apply duties_outside; try done; rewrite ?pid_of_set_phase, ?Ex; done).
  - destruct (send _ _) as [s1|] eqn:Es; [|done]. injection Ha as <- <-. pose proof (published_exit _ _ p _ _ Es) as Hpub.
    pose proof (send_inv _ _ _ Es) as Hs1.
    apply duties_outside; [done|by rewrite Hs1..|]. rewrite Ex. simpl. change (published (unlock s1) p) with (published s1 p).
    rewrite Hpub. lia.
Qed.

Lemma duties_arrives t r p : wf t → duties (mk_system (svc t) (calls t ++ [handler r]) (exits t)) p = duties t p.
Proof.
  intros Hwf. unfold duties. simpl. rewrite sum_list_with_app. simpl.
  assert (call_duty (svc t) p (handler r) = 0%nat) as -> by (by destruct r). lia.
Qed.

(** ** The invariant *)

Lemma dutiful_perform l t t' :
  wf t → started t → dutiful t → perform l t = Some t' → orderly t' → dutiful t'.
Proof.
  intros Hwf Hst Hd Ha Ho p P HP Hpid. destruct l as [r|i a| | |pid st|pid st]; simpl in Ha.
  - injection Ha as <-. rewrite duties_arrives by done. by eapply Hd.
  - destruct (calls t !! i) as [k|] eqn:Hi; [|done]. simpl in Ha.
    destruct (advance (Call i) a (svc t) k) as [[s' k']|] eqn:Ea; [|done]. injection Ha as <-. simpl in *.
    pose proof (pid_of_lookup _ _ _ HP) as Ep'. destruct (decide (pid_of (svc t) p = 0)) as [H0|H0].
    + eapply duties_new; try done. congruence.
    + destruct (procs (svc t) !! p) as [Q|] eqn:HQ; [|by unfold pid_of in H0; rewrite HQ in H0].
      rewrite (pid_of_lookup _ _ _ HQ) in H0. eapply duties_old; try done.
      rewrite Ep', (pid_of_lookup _ _ _ HQ).
      destruct (advance_procs _ _ _ _ _ _ Ea p P HP) as [(Q' & HQ' & _ & [Heq|Hs])|[? _]]; [congruence| |congruence].
      destruct k; try done. injection Hs as ->. destruct (wf_call _ Hwf i _ Hi) as (_ & _ & Hok). simpl in Hok.
      destruct_and!. rewrite HQ in *. simpl in *. congruence.
  - destruct (processExits (svc t) (exits t)) as [[s' k']|] eqn:Ep; [|done]. injection Ha as <-. simpl in *.
    destruct (processExits_procs _ _ _ _ Ep) as [_ Hps]. destruct (Hps p P HP) as (Q & HQ & _ & Heq).
    rewrite (duties_processes t s' k' p Q); try done; [|congruence]. apply (Hd p Q HQ). congruence.
  - destruct (buffered (svc t)); [done|]. injection Ha as <-. simpl in *. rewrite duties_outside; try done. by eapply Hd.
  - case_bool_decide; [|done]. injection Ha as <-. simpl in *. rewrite duties_outside; try done. by eapply Hd.
  - case_match; [|done]. injection Ha as <-. simpl in *. rewrite duties_outside; try done. by eapply Hd.
Qed.

(** ** The order of the events *)

Lemma in_order_snoc evs e :
  in_order evs →
  match e with
  | TaskExit p _ _ => announced p evs
  | TaskStart p _ | TaskExecStarted p _ => ∀ e', e' ∈ evs → is_exit_of p e' = false
  | _ => True
  end → in_order (evs ++ [e]).
Proof.
  intros Ho He before e' after Heq. destruct (decide (after = [])) as [->|Hne].
  - by apply app_inj_tail in Heq as [-> ->].
  - destruct (exists_last Hne) as (after0 & e0 & ->). rewrite app_comm_cons, app_assoc in Heq.
    apply app_inj_tail in Heq as [-> _]. by apply (Ho before e' after0).
Qed.

Lemma announced_app p evs e : announced p evs → announced p (evs ++ [e]).
Proof. intros (e0 & ? & ?). exists e0. split; [apply elem_of_app; by left|done]. Qed.

Lemma announced_snoc p evs e : announces p e = true → announced p (evs ++ [e]).
Proof. intros ?. exists e. split; [apply elem_of_app; right; by left|done]. Qed.

(** Which goroutine sends which event. *)
Lemma advance_events self a s k s' k' :
  advance self a s k = Some (s', k') → events s' = events s ∨ ∃ e, events s' = events s ++ [e] ∧
  match e with
  | TaskExit p _ _ => ∃ f ex ees, k = HandleSend f p ex ees
  | TaskStart p _ | TaskExecStarted p _ => ∃ f, k = StartSend f p
  | _ => True
  end.
Proof.
  intros Ha. destruct k; cbn [advance Create_step Start_step handleStarted_step Exec_step Delete_step] in Ha; run_all Ha; try (by left); right; eexists; (split; [done|]); simpl; eauto.
  unfold started_event. destruct (decide _); eauto.
Qed.

Lemma processExits_events s k s' k' :
  processExits s k = Some (s', k') →
  events s' = events s ∨ ∃ e p cps, k = ExitsSend e p cps ∧ events s' = events s ++ [TaskExit p (e_Pid e) (e_Status e)].
Proof.
  intros Ha. destruct k; cbn [processExits] in Ha; unfold take_exit in Ha; run_all Ha; try (by left). right. eauto 6.
Qed.

(** The calls that announce a process. *)
Definition announcing (p : nat) (k : pc) : Prop := ∃ f, k = CreateSend f p ∨ k = StartSend f p.

Lemma announcing_duty s k p : call_ok s k → announcing p k → call_duty s p k = 1%nat.
Proof.
  intros (_ & _ & Hok) [f [->| ->]]; simpl in Hok; destruct_and!; unfold call_duty; simpl; by rewrite decide_True.
Qed.

Lemma announcing_sends self a s k s' k' p :
  announcing p k → advance self a s k = Some (s', k') → announced p (events s').
Proof.
  intros [f [->| ->]] Ha; cbn [advance Create_step Start_step handleStarted_step Exec_step Delete_step] in Ha; (destruct (send _ s) as [s1|] eqn:Es; [|done]); injection Ha as <- <-;
    apply send_inv in Es as ->; simpl; apply announced_snoc; unfold started_event; simpl; [|destruct (decide _); simpl];
    by apply bool_decide_eq_true.
Qed.

Record inv (t : system) : Prop := {
  inv_wf : wf t;
  inv_started : started t;
  inv_dutiful : dutiful t;
  inv_announced : ∀ p, pid_of (svc t) p ≠ 0 →
    announced p (events (svc t)) ∨ ∃ i k, calls t !! i = Some k ∧ announcing p k;
  inv_order : in_order (events (svc t))
}.

Section Order.
Context (t : system) (Hinv : inv t).
Abbreviation s := (svc t).

Lemma duties_one p : pid_of s p ≠ 0 → duties t p = 1%nat.
Proof.
  intros Hp. destruct (procs s !! p) as [P|] eqn:HP; [|by unfold pid_of in Hp; rewrite HP in Hp].
  apply (inv_dutiful _ Hinv p P HP). by rewrite <- (pid_of_lookup _ _ _ HP).
Qed.

(** Who has the duty to publish an exit comes after the announcement. *)
Lemma announced_exit p i0 :
  pid_of s p ≠ 0 →
  (∀ i k, calls t !! i = Some k → announcing p k →
    (1 ≤ exits_duty p (exits t))%nat ∨ ∃ k0, i ≠ i0 ∧ calls t !! i0 = Some k0 ∧ (1 ≤ call_duty s p k0)%nat) →
  announced p (events s).
Proof.
  intros Hp Hex. destruct (inv_announced _ Hinv p Hp) as [|(i & k & Hi & Hk)]; [done|].
  pose proof (announcing_duty s k p (wf_call _ (inv_wf _ Hinv) _ _ Hi) Hk) as Hd.
  pose proof (duties_one p Hp) as H1. unfold duties in H1.
  pose proof (sum_le (call_duty s p) _ _ _ Hi) as Hle.
  destruct (Hex i k Hi Hk) as [?|(k0 & Hne & Hi0 & Hd0)]; [lia|].
  pose proof (sum_two (call_duty s p) _ _ _ _ _ Hne Hi Hi0). lia.
Qed.

Lemma exits_of_pid p e ees : exits_of s p (e :: ees) → pid_of s p ≠ 0.
Proof.
  intros [_ He]. destruct (He e ltac:(by left)) as [Hr <-].
  destruct (gone_pos s (e_Pid e) (wf_svc _ (inv_wf _ Hinv))) as [? _]; [by apply list_elem_of_fmap_2|lia].
Qed.

Lemma not_published p : published s p = 0%nat → ∀ e, e ∈ events s → is_exit_of p e = false.
Proof.
  intros Hp e Hin. destruct (is_exit_of p e) eqn:E; [|done]. unfold published in Hp. apply nil_length_inv in Hp.
  assert (e ∈ filter (λ e, is_exit_of p e = true) (events s)) as Hf by (by apply list_elem_of_filter).
  rewrite Hp in Hf. by apply elem_of_nil in Hf.
Qed.

Lemma order_acts i k a s' k' : calls t !! i = Some k → advance (Call i) a s k = Some (s', k') → in_order (events s').
Proof.
  intros Hi Ha. pose proof (inv_order _ Hinv) as Ho. pose proof (wf_call _ (inv_wf _ Hinv) _ _ Hi) as Hok.
  destruct (advance_events _ _ _ _ _ _ Ha) as [->|(e & -> & He)]; [done|]. apply in_order_snoc; [done|].
  assert (∀ f p, k = StartSend f p → ∀ e', e' ∈ events s → is_exit_of p e' = false) as Hs.
  { intros f p ->. pose proof (announcing_duty s _ p Hok ltac:(eexists; by right)) as Hd. apply not_published.
    pose proof (sum_le (call_duty s p) _ _ _ Hi) as Hle. destruct Hok as (_ & _ & _ & _ & _ & Hp).
    pose proof (duties_one p Hp) as H1. unfold duties in H1. lia. }
  destruct e as [| p|  |p|p|]; try done; [destruct He as [f ->]; by eapply Hs..|].
  destruct He as (f & ex & ees & ->). destruct Hok as (_ & _ & Hok).
  apply (announced_exit p i); [by eapply exits_of_pid|]. intros j kj Hj Hkj. right. eexists. split; [|split; [done|]].
  - intros ->. simplify_eq. by destruct Hkj as [? [?|?]].
  - unfold call_duty. simpl. case_decide; [lia|done].
Qed.

Lemma order_processes s' k' : processExits s (exits t) = Some (s', k') → in_order (events s').
Proof.
  intros Ha. pose proof (inv_order _ Hinv) as Ho. pose proof (wf_exits _ (inv_wf _ Hinv)) as He.
  destruct (processExits_events _ _ _ _ Ha) as [->|(e & p & cps & Ek & ->)]; [done|]. apply in_order_snoc; [done|].
  rewrite Ek in He. destruct He as [He _]. apply (announced_exit p 0); [by eapply exits_of_pid|].
  intros i k _ _. left. rewrite Ek. simpl. rewrite decide_True by done. lia.
Qed.

Lemma announced_acts i k a s' k' p :
  calls t !! i = Some k → advance (Call i) a s k = Some (s', k') → pid_of s' p ≠ 0 →
  announced p (events s') ∨ ∃ j kj, <[i:=k']> (calls t) !! j = Some kj ∧ announcing p kj.
Proof.
  intros Hi Ha Hp. assert (∀ q, announced q (events s) → announced q (events s')) as Hmono.
  { intros q Hq. destruct (advance_events _ _ _ _ _ _ Ha) as [->|(e & -> & _)]; [done|by apply announced_app]. }
  pose proof (lookup_lt_Some _ _ _ Hi) as Hlt. destruct (decide (pid_of s p = 0)) as [H0|H0].
  - right. exists i, k'. rewrite list_lookup_insert_eq by done. split; [done|].
    destruct (advance_new_pid _ _ _ _ _ _ p Ha H0 Hp) as [_ [[f ->]|[f ->]]]; exists f; auto.
  - destruct (inv_announced _ Hinv p H0) as [|(j & kj & Hj & Hkj)]; [by auto|].
    destruct (decide (j = i)) as [->|Hne]; [left; simplify_eq; by eapply announcing_sends|].
    right. exists j, kj. by rewrite list_lookup_insert_ne.
Qed.
End Order.

Lemma inv_initial : inv initial.
Proof.
  constructor; [apply wf_initial|apply started_initial|..]; try done. intros before e after H. by destruct before.
Qed.

Lemma inv_perform l t t' : inv t → perform l t = Some t' → orderly t' → inv t'.
Proof.
  intros Hinv Ha Ho. pose proof Hinv as [Hwf Hst Hd Han Hor].
  assert (wf t' ∧ started t' ∧ dutiful t') as (? & ? & ?)
    by (exact (conj (wf_perform _ _ _ Hwf Ha) (conj (started_perform _ _ _ Hwf Hst Ha Ho) (dutiful_perform _ _ _ Hwf Hst Hd Ha Ho)))).
  constructor; try done; destruct l as [r|i a| | |pid st|pid st]; simpl in Ha.
  - injection Ha as <-. simpl. intros p Hp. destruct (Han p Hp) as [|(i & k & Hi & Hk)]; [by left|]. right.
    exists i, k. split; [by apply lookup_app_l_Some|done].
  - destruct (calls t !! i) as [k|] eqn:Hi; [|done]. simpl in Ha.
    destruct (advance (Call i) a (svc t) k) as [[s' k']|] eqn:Ea; [|done]. injection Ha as <-. simpl.
    intros p Hp. by eapply announced_acts.
  - destruct (processExits (svc t) (exits t)) as [[s' k']|] eqn:Ep; [|done]. injection Ha as <-. simpl.
    intros p Hp. assert (pid_of (svc t) p = pid_of s' p) as Heq.
    { unfold pid_of in *. destruct (procs s' !! p) as [P|] eqn:HP; [|done].
      destruct (processExits_procs _ _ _ _ Ep) as [_ Hps]. by destruct (Hps p P HP) as (Q & -> & _ & ->). }
    rewrite <- Heq in Hp. destruct (Han p Hp) as [Hl|Hr]; [left|by right].
    destruct (processExits_events _ _ _ _ Ep) as [->|(e & p' & cps & _ & ->)]; [done|by apply announced_app].
  - destruct (buffered (svc t)); [done|]. by injection Ha as <-.
  - case_bool_decide; [|done]. by injection Ha as <-.
  - case_match; [|done]. by injection Ha as <-.
  - by injection Ha as <-.
  - destruct (calls t !! i) as [k|] eqn:Hi; [|done]. simpl in Ha.
    destruct (advance (Call i) a (svc t) k) as [[s' k']|] eqn:Ea; [|done]. injection Ha as <-. simpl. by eapply order_acts.
  - destruct (processExits (svc t) (exits t)) as [[s' k']|] eqn:Ep; [|done]. injection Ha as <-. simpl.
    by eapply order_processes.
  - destruct (buffered (svc t)); [done|]. by injection Ha as <-.
  - case_bool_decide; [|done]. by injection Ha as <-.
  - case_match; [|done]. by injection Ha as <-.
Qed.

Lemma reach_inv t : reach t → inv t.
Proof. induction 1; [apply inv_initial|by eapply inv_perform]. Qed.

(** ** Orderly schedules *)

Definition orderlyb (t : system) : bool :=
  bool_decide (NoDup (omap start_window (calls t))) &&
  forallb (λ p, default true (p_init <$> procs (svc t) !! p) ||
                (length (filter (λ p', p' = p) (starts (svc t))) <=? 1)%nat) (starts (svc t)).

Lemma NoDup_omap_distinct {A B} (f : A → option B) l i j x y z :
  NoDup (omap f l) → i ≠ j → l !! i = Some x → l !! j = Some y → f x = Some z → f y ≠ Some z.
Proof.
  revert i j. induction l as [|a l IH]; intros [|i] [|j] Hnd Hne Hi Hj Hx Hy; try done; simpl in *.
  - injection Hi as ->. rewrite Hx in Hnd. apply NoDup_cons in Hnd as [Hnin _]. apply Hnin, list_elem_of_omap.
    exists y. split; [by apply list_elem_of_lookup_2 in Hj|done].
  - injection Hj as ->. rewrite Hy in Hnd. apply NoDup_cons in Hnd as [Hnin _]. apply Hnin, list_elem_of_omap.
    exists x. split; [by apply list_elem_of_lookup_2 in Hi|done].
  - apply (IH i j); try done; [|congruence]. destruct (f a); [by apply NoDup_cons in Hnd as [_ ?]|done].
Qed.

Lemma orderlyb_orderly t : orderlyb t = true → orderly t.
Proof.
  unfold orderlyb. rewrite andb_true_iff, bool_decide_eq_true, forallb_forall. intros [Hnd Hall]. split.
  - intros i j ki kj w Hij Hi Hj Hw. by eapply NoDup_omap_distinct.
  - intros p P HP Hini. destruct (filter (λ p', p' = p) (starts (svc t))) as [|q l] eqn:El; [simpl; lia|].
    assert (In p (starts (svc t))) as Hin.
    { apply list_elem_of_In. assert (q ∈ filter (λ p', p' = p) (starts (svc t))) as Hq by (rewrite El; by left).
      by apply list_elem_of_filter in Hq as [-> ?]. }
    specialize (Hall p Hin). rewrite HP in Hall. simpl in Hall. rewrite Hini, El in Hall. simpl orb in Hall.
    apply Nat.leb_le in Hall. simpl. lia.
Qed.

Fixpoint schedule_orderly (ls : list label) (t : system) : option system :=
  match ls with
  | [] => Some t
  | l :: ls => t ← perform l t; if orderlyb t then schedule_orderly ls t else None
  end.

Lemma reach_schedule ls t t' : reach t → schedule_orderly ls t = Some t' → reach t'.
Proof.
  revert t. induction ls as [|l ls IH]; intros t Ht Hs; simpl in Hs; [congruence|].
  destruct (perform l t) as [t1|] eqn:E; [|done]. simpl in Hs. destruct (orderlyb t1) eqn:Eo; [|done].
  apply (IH t1); [|done]. eapply reach_step; [done|done|]. by apply orderlyb_orderly.
Qed.

(** ** Theorems *)

(** The exits of a process that were published. *)
Definition exits_sent (t : system) (p : nat) : list event :=
  filter (λ e, is_exit_of p e = true) (events (svc t)).

(** Nobody has anything to do. *)
Definition quiescent (t : system) : Prop :=
  Forall (λ k, k = Done) (calls t) ∧ exits t = ExitsIdle ∧ ec (svc t) = [].

(** A container is created and started, a process is added to it and started, and both
    exit; the exec process dies before its start has returned. *)
Definition acts (i : nat) (n : nat) : list label := repeat (Acts i Good) n.
Definition example_schedule : list label :=
  [Arrives (CreateTask "c")] ++ acts 0 2 ++ [Acts 0 (Spawn 10)] ++ acts 0 6 ++
  [Arrives (StartTask "c" "")] ++ acts 1 9 ++
  [Arrives (ExecTask "c" "e")] ++ acts 2 5 ++
  [Arrives (StartTask "c" "e")] ++ acts 3 3 ++ [Acts 3 (Spawn 11); Dies 11 3; Processes; Processes] ++ acts 3 9 ++
  [Dies 10 7] ++ repeat Processes 5.
Definition example_state : system := default initial (schedule example_schedule initial).

Lemma example_reach : reach example_state.
Proof. apply (reach_schedule example_schedule initial); [constructor|vm_compute; reflexivity]. Qed.

Lemma example_events : events (svc example_state) =
  [TaskCreate 0 10; TaskStart 0 10; TaskExecAdded 1; TaskExecStarted 1 11; TaskExit 1 11 3; TaskExit 0 10 7].
Proof. vm_compute. reflexivity. Qed.

(** C16. The events of the shim are in order: however the calls of [orderly] callers - the
    starts of one process do not overlap, an exec process is started once -, [processExits]
    and the exits of processes interleave, a [TaskExit] comes after the [TaskCreate] or the
    start event of its process and no start event of a process comes after its [TaskExit];
    a process has at most one [TaskExit], with its pid and the status that the reaper gave
    for this pid. Without orderly callers there can be two:
    [overlapping_starts_publish_twice], [second_exec_start_publishes_twice]. *)
Theorem exit_events_sound t : reach t →
  in_order (events (svc t)) ∧
  (∀ p, (length (exits_sent t p) ≤ 1)%nat) ∧
  (∀ p pid st, TaskExit p pid st ∈ events (svc t) →
     pid_of (svc t) p = pid ∧ mk_Exit pid st ∈ reaped (svc t)).
Proof.
  intros Ht%reach_inv. pose proof (inv_wf _ Ht) as Hwf. split; [apply Ht|]. split.
  - intros p. change ((published (svc t) p ≤ 1)%nat). destruct (decide (pid_of (svc t) p = 0)) as [H0|H0].
    + rewrite not_gone_published; [lia|done|]. rewrite H0. by apply not_gone_zero.
    + pose proof (duties_one t Ht p H0) as H1. unfold duties in H1. lia.
  - intros p pid st Hin. destruct (w_events _ (wf_svc _ Hwf) _ _ _ Hin) as (_ & -> & ?). done.
Qed.

Lemma exit_events_sound_witness : in_order (events (svc example_state)) ∧
  TaskExit 1 11 3 ∈ events (svc example_state) ∧ mk_Exit 11 3 ∈ reaped (svc example_state).
Proof.
  destruct (exit_events_sound example_state) as (H1 & _ & H2); [exact example_reach|].
  assert (TaskExit 1 11 3 ∈ events (svc example_state)) as Hin by (rewrite example_events; do 4 right; left).
  exact (conj H1 (conj Hin (proj2 (H2 _ _ _ Hin)))).
Defined.

(** C4. No exit is lost, as long as the callers are [orderly] - the starts of one process do
    not overlap and an exec process is started once -, which is part of [reach]: when the
    calls have returned and [processExits] waits with nothing to receive, nobody is
    subscribed and the mutex is free; a process that still runs is registered once in the
    table under its pid and has no [TaskExit]; for a process that has died one [TaskExit]
    was sent, with a status that was reaped for its pid. Without orderly callers two can be
    sent: [overlapping_starts_publish_twice], [second_exec_start_publishes_twice]. *)
Theorem exits_delivered t : reach t → quiescent t →
  exitSubscribers (svc t) = ∅ ∧ mu (svc t) = None ∧
  ∀ p P, procs (svc t) !! p = Some P → p_pid P ≠ 0 →
    (p_pid P ∈ alive (svc t) →
       exits_sent t p = [] ∧
       length (filter (λ cp, cp_Process cp = p) (default [] (running (svc t) !! p_pid P))) = 1%nat) ∧
    (p_pid P ∉ alive (svc t) →
       ∃ st, exits_sent t p = [TaskExit p (p_pid P) st] ∧ mk_Exit (p_pid P) st ∈ reaped (svc t)).
Proof.
  intros Ht%reach_inv (Hcalls & Hex & Hec). pose proof (inv_wf _ Ht) as Hwf. pose proof (wf_svc _ Hwf) as Hw.
  rewrite Forall_lookup in Hcalls. split; [|split].
  - apply map_eq. intros sub. rewrite lookup_empty. destruct (exitSubscribers (svc t) !! sub) eqn:E; [|done].
    destruct (wf_subs _ Hwf sub ltac:(eauto)) as (i & k & Hi & Hk). by rewrite (Hcalls _ _ Hi) in Hk.
  - destruct (mu (svc t)) as [[i|]|] eqn:E; [| |done].
    + destruct (wf_holder _ Hwf i E) as [k Hi]. pose proof (wf_holds _ Hwf i k Hi) as Hh. rewrite (Hcalls _ _ Hi) in Hh.
      simpl in Hh. naive_solver.
    + pose proof (wf_exits_holds _ Hwf) as Hh. rewrite Hex in Hh. simpl in Hh. naive_solver.
  - intros p P HP Hpid. set (es := exits_sent t p). pose proof (inv_dutiful _ Ht p P HP Hpid) as Hd. unfold duties in Hd. rewrite Hex in Hd.
    pose proof (pid_of_lookup _ _ _ HP) as Epid. rewrite sum_zero in Hd.
    2:{ intros j k Hj. by rewrite (Hcalls _ _ Hj). }
    change (published (svc t) p) with (length es) in Hd. unfold registered in Hd. rewrite Epid in Hd. simpl in Hd. split.
    + intros Hal. assert (¬ gone (svc t) (p_pid P)) as Hg by (intros Hg; by destruct (gone_pos _ _ Hw Hg) as (_ & _ & ?)).
      rewrite decide_False in Hd by done. rewrite <- Epid in Hg. pose proof (not_gone_published _ Hwf _ Hg) as Hpub.
      change (length es = 0%nat) in Hpub. split; [by apply nil_length_inv|]. unfold count_cp in Hd. lia.
    + intros Hal. destruct (w_pid _ Hw _ _ HP) as [?|Hu]; [done|]. destruct (w_used _ Hw _ Hu) as [_ [?|Hg]]; [done|].
      rewrite Hec, app_nil_r in Hg. rewrite decide_True in Hd by done. destruct es as [|e [|e' l]] eqn:Ees; try done.
      assert (e ∈ es) as Hin by (rewrite Ees; by left). apply list_elem_of_filter in Hin as [He Hin].
      destruct e as [| | | |p' q st|]; try done. simpl in He. apply bool_decide_eq_true in He as ->.
      destruct (w_events _ Hw _ _ _ Hin) as (_ & -> & Hr). rewrite Epid in *. eauto.
Qed.

Lemma exits_delivered_witness : quiescent example_state ∧ exitSubscribers (svc example_state) = ∅ ∧
  ∃ st, exits_sent example_state 1 = [TaskExit 1 11 st].
Proof.
  assert (quiescent example_state) as Hq by (vm_compute; repeat constructor).
  destruct (exits_delivered example_state) as (H1 & _ & H2); [exact example_reach|exact Hq|].
  destruct (H2 1%nat (mk_Process "e" false 11 Stopped)) as [_ H3]; [reflexivity|discriminate|].
  destruct H3 as (st & H4 & _); [vm_compute; discriminate|]. exact (conj Hq (conj H1 (ex_intro _ st H4))).
Defined.

(** ** What is needed of callers *)

(** Two starts of one init process overlap: the second removes the registration and fails,
    and its [handleStarted] registers the process, as the first one does. The exit is
    published before the start event, and a second time after it. *)
Definition overlapping_starts : list label :=
  [Arrives (CreateTask "c")] ++ acts 0 2 ++ [Acts 0 (Spawn 10)] ++ acts 0 6 ++
  [Arrives (StartTask "c" ""); Arrives (StartTask "c" "")] ++ acts 1 4 ++ acts 2 3 ++ [Acts 2 Bad] ++ acts 2 2 ++
  [Dies 10 7] ++ repeat Processes 5 ++ acts 1 8.

Example overlapping_starts_publish_twice :
  events ∘ svc <$> schedule overlapping_starts initial =
  Some [TaskCreate 0 10; TaskExit 0 10 7; TaskStart 0 10; TaskExit 0 10 7].
Proof. vm_compute. reflexivity. Qed.

(** An exec process that runs is started again, which fails: [preStart] keeps its
    registration, [handleStarted] adds a second one, and its exit is published twice. *)
Definition second_exec_start : list label :=
  [Arrives (CreateTask "c")] ++ acts 0 2 ++ [Acts 0 (Spawn 10)] ++ acts 0 6 ++
  [Arrives (ExecTask "c" "e")] ++ acts 1 5 ++
  [Arrives (StartTask "c" "e")] ++ acts 2 3 ++ [Acts 2 (Spawn 11)] ++ acts 2 6 ++
  [Arrives (StartTask "c" "e")] ++ acts 3 3 ++ [Acts 3 Bad] ++ acts 3 4 ++ [Dies 11 7] ++ repeat Processes 8.

Example second_exec_start_publishes_twice :
  events ∘ svc <$> schedule second_exec_start initial =
  Some [TaskCreate 0 10; TaskExecAdded 1; TaskExecStarted 1 11; TaskExit 1 11 7; TaskExit 1 11 7].
Proof. vm_compute. reflexivity. Qed.
