(* ===== verification/TaskLive.v ===== *)
(** * The task service comes to rest

    Theorems about Task.v for every order of the calls: no deadlock of [s.mu], the event
    channel and the mutexes of processes, and an end of what the goroutines do. *)

From S2P Require Import Prelude.
From S2P Require Import Task.
From S2P Require Import TaskInv.
From S2P Require Import TaskWf.
From S2P Require Import TaskDuty.
From S2P Require Import TaskSpec.

Definition reachable (t : system) : Prop := ∃ ls, schedule ls initial = Some t.

(** The actions of the service itself. *)
Definition internal (l : label) : Prop :=
  match l with Acts _ _ | Processes | Forwards => True | _ => False end.

(** ** No deadlock *)

(** A process that is being started has a call that is starting it. *)
Definition attended (t : system) : Prop :=
  ∀ p, p_phase <$> procs (svc t) !! p = Some Starting → ∃ i f q, calls t !! i = Some (StartSpawned f p q).

Lemma phase_alter (ps : list Process) f q p : p_phase <$> alter f q ps !! p = Some Starting →
  (p = q ∧ ∃ P, ps !! q = Some P ∧ p_phase (f P) = Starting) ∨ (p ≠ q ∧ p_phase <$> ps !! p = Some Starting).
Proof.
  destruct (decide (p = q)) as [->|Hp].
  - rewrite list_lookup_alter_eq. destruct (ps !! q) as [P|]; [|done]. intros [= E]. left. eauto.
  - rewrite list_lookup_alter_ne by done. by right.
Qed.

Lemma phase_new (ps : list Process) P p : p_phase P ≠ Starting →
  p_phase <$> (ps ++ [P]) !! p = Some Starting → p_phase <$> ps !! p = Some Starting.
Proof.
  intros HP. destruct ((ps ++ [P]) !! p) as [Q|] eqn:E; [|done]. apply lookup_new in E as [->|[_ ->]]; [done|].
  simpl. congruence.
Qed.

Lemma advance_starting self a s k s' k' :
  advance self a s k = Some (s', k') → ∀ p, p_phase <$> procs s' !! p = Some Starting →
  (p_phase <$> procs s !! p = Some Starting ∧ starting k ≠ Some p) ∨ ∃ f q, k' = StartSpawned f p q.
Proof.
  intros Ha. destruct k; cbn [advance Create_step Start_step handleStarted_step Exec_step Delete_step] in Ha; run_all Ha; try (intros ? ?; by left); intros p1 Hp1; cbn in Hp1.
  all: try (apply phase_new in Hp1; [|done]; by left).
  all: try (apply phase_alter in Hp1 as [(-> & P1 & HP1 & Hph)|[Hne Hp1]]; [first [by simplify_eq/=|right; by eauto]|left; split; [done|]; simpl; congruence]).
Qed.

Lemma attended_perform l t t' : attended t → perform l t = Some t' → attended t'.
Proof.
  intros Hat Ha. destruct l as [r|i a| | |pid st|pid st]; simpl in Ha.
  - injection Ha as <-. intros p Hp. destruct (Hat p Hp) as (i & f & q & Hi). exists i, f, q. by apply lookup_app_l_Some.
  - destruct (calls t !! i) as [k|] eqn:Hi; [|done]. simpl in Ha.
    destruct (advance (Call i) a (svc t) k) as [[s' k']|] eqn:Ea; [|done]. injection Ha as <-. intros p Hp. simpl in Hp.
    pose proof (lookup_lt_Some _ _ _ Hi) as Hlt. simpl.
    destruct (advance_starting _ _ _ _ _ _ Ea p Hp) as [[Hp0 Hk]|(f & q & ->)].
    + destruct (Hat p Hp0) as (j & f & q & Hj). exists j, f, q. rewrite list_lookup_insert_ne; [done|].
      intros <-. by simplify_eq/=.
    + exists i, f, q. by rewrite list_lookup_insert_eq.
  - destruct (processExits (svc t) (exits t)) as [[s' k']|] eqn:Ep; [|done]. injection Ha as <-. intros p Hp. apply Hat.
    revert p Hp. clear Hat. simpl. destruct (exits t); cbn [processExits] in Ep; unfold take_exit in Ep; run_all Ep; try done;
      intros p1 Hp1; cbn in Hp1; apply phase_alter in Hp1 as [(-> & P1 & HP1 & Hph)|[Hne Hp1]]; done.
  - destruct (buffered (svc t)); [done|]. by injection Ha as <-.
  - case_bool_decide; [|done]. by injection Ha as <-.
  - case_match; [|done]. by injection Ha as <-.
Qed.

(** What a call may wait for. *)
Definition unlocked (t : system) : Prop :=
  (buffered (svc t) < cap)%nat ∧ ∀ p, p_phase <$> procs (svc t) !! p ≠ Some Starting.

Lemma send_unlocked t e : unlocked t → is_Some (send e (svc t)).
Proof. intros [H _]. unfold send. apply Nat.ltb_lt in H. rewrite H. eauto. Qed.

Lemma SetExited_unlocked t p : unlocked t → is_Some (SetExited p (svc t)).
Proof.
  intros [_ H]. unfold SetExited. specialize (H p).
  destruct (p_phase <$> procs (svc t) !! p) as [[]|]; eauto. done.
Qed.

Lemma call_enabled t i k :
  wf t → unlocked t → calls t !! i = Some k → k ≠ Done → mu (svc t) = None ∨ holds k = true →
  is_Some (advance (Call i) Bad (svc t) k).
Proof.
  intros Hwf Hun Hi Hk Hmu. destruct (wf_call _ Hwf _ _ Hi) as (_ & Hc & Hok).
  assert (∀ e, is_Some (send e (svc t))) as Hsend by (intros e; by apply send_unlocked).
  assert (∀ p P, procs (svc t) !! p = Some P → p_phase P ≠ Starting) as Hph.
  { intros p P HP Hph. apply (proj2 Hun p). rewrite HP. simpl. congruence. }
  destruct k as [| | | |f p| | | |f p|f p q|f p|f [p|]|f po pid|f p ees|f p e ees|f p e ees| | | | |c eid| | | | | |id c eid p|id c eid p| | ];
    try done; cbn [advance Create_step Start_step handleStarted_step Exec_step Delete_step holds cont_of] in *;
    try (destruct Hmu as [Hmu|?]; [|done]); unfold lock, getContainer; rewrite ?Hmu; try (by eexists);
    try (match goal with |- context [send ?e _] => destruct (Hsend e) as [s1 ->]; by eexists end).
  - destruct (preStart _ _). by eexists.
  - destruct (Container_Process _ _ _); by eexists.
  - destruct (target_lookup t f p (proj2 Hok)) as [P HP]. unfold run_Start. rewrite HP. simpl.
    specialize (Hph _ _ HP). destruct (p_phase P); try done; by eexists.
  - destruct (target_lookup t f p Hok) as [P HP]. unfold read_pid. rewrite HP. simpl.
    rewrite bool_decide_eq_false_2 by eauto. by eexists.
  - destruct (handleStarted _ _ _ _ _). by eexists.
  - destruct ees; [by eexists|]. destruct Hmu as [-> | ->]; [|by eexists]. destruct (f_locked f); by eexists.
  - destruct (SetExited_unlocked t p Hun) as [s1 ->]. by eexists.
  - destruct (Hc _ eq_refl) as [C ->]. simpl. destruct (ReserveProcess _ _); by eexists.
  - destruct Hok as [P HP]. rewrite HP. simpl. specialize (Hph _ _ HP). destruct (p_phase P); try done; by eexists.
  - case_decide; by eexists.
Qed.

Lemma exits_enabled t :
  unlocked t → mu (svc t) = None ∨ exits_holds (exits t) = true → exits t ≠ ExitsIdle ∨ ec (svc t) ≠ [] →
  is_Some (processExits (svc t) (exits t)).
Proof.
  intros Hun Hmu Hex. destruct (exits t) as [|e cps|e p cps|e p cps]; cbn [processExits exits_holds] in *.
  - destruct Hex as [?|Hec]; [done|]. destruct (ec (svc t)) as [|e rest]; [done|]. destruct (take_exit _ _). by eexists.
  - destruct cps; [by eexists|]. destruct Hmu as [Hmu|?]; [|done]. unfold lock. rewrite Hmu. by eexists.
  - destruct (SetExited_unlocked t p Hun) as [s1 ->]. by eexists.
  - destruct (send_unlocked t (TaskExit p (e_Pid e) (e_Status e)) Hun) as [s1 ->]. by eexists.
Qed.

#[local] Instance done_dec (k : pc) : Decision (k = Done).
Proof. destruct k; first [by left|by right]. Defined.
#[local] Instance idle_dec (k : exits_pc) : Decision (k = ExitsIdle).
Proof. destruct k; first [by left|by right]. Defined.

(** Whoever has something to do can do it, or somebody can whom it waits for. *)
Lemma progress t : wf t → attended t → ¬ quiescent t → ∃ l t', internal l ∧ perform l t = Some t'.
Proof.
  intros Hwf Hat Hq.
  assert (∀ i k, calls t !! i = Some k → is_Some (advance (Call i) Bad (svc t) k) → ∃ l t', internal l ∧ perform l t = Some t') as Hact.
  { intros i k Hi [[s' k'] Ha]. exists (Acts i Bad). simpl. rewrite Hi. simpl. rewrite Ha. simpl. eauto. }
  destruct (buffered (svc t)) as [|n] eqn:Eb.
  2:{ exists Forwards. simpl. rewrite Eb. eauto. }
  destruct (decide (Exists (λ P, p_phase P = Starting) (procs (svc t)))) as [Hs|Hs].
  { apply Exists_exists in Hs as (P & HP & Hph). apply list_elem_of_lookup_1 in HP as [p HP].
    destruct (Hat p) as (i & f & q & Hi); [by rewrite HP; simpl; rewrite Hph|]. apply (Hact i _ Hi). by eexists. }
  assert (unlocked t) as Hun.
  { split; [rewrite Eb; unfold cap; lia|]. intros p Hp. destruct (procs (svc t) !! p) as [P|] eqn:HP; [|done].
    apply Hs, Exists_exists. exists P. split; [by apply list_elem_of_lookup_2 in HP|]. simpl in Hp. congruence. }
  assert (mu (svc t) = None ∨ exits_holds (exits t) = true → exits t ≠ ExitsIdle ∨ ec (svc t) ≠ [] →
    ∃ l t', internal l ∧ perform l t = Some t') as Hexits.
  { intros Hm Hne. destruct (exits_enabled t Hun Hm Hne) as [[s' k'] Ha]. exists Processes. simpl. rewrite Ha. simpl. eauto. }
  destruct (mu (svc t)) as [[i|]|] eqn:Em.
  - destruct (wf_holder _ Hwf i Em) as [k Hi]. pose proof (proj2 (wf_holds _ Hwf i k Hi) Em) as Hh. apply (Hact i k Hi).
    apply call_enabled; try done; [by intros ->|by right].
  - pose proof (proj2 (wf_exits_holds _ Hwf) Em) as Hh. apply Hexits; [by right|]. left. by destruct (exits t).
  - destruct (decide (Forall (λ k, k = Done) (calls t))) as [Hf|Hf].
    + destruct (decide (exits t = ExitsIdle ∧ ec (svc t) = [])) as [[? ?]|Hne]; [by destruct Hq|].
      apply Hexits; [by left|]. destruct (exits t); [right; intros ?; by destruct Hne|by left..].
    + apply not_Forall_Exists, Exists_exists in Hf as (k & Hk & Hne); [|apply _]. apply list_elem_of_lookup_1 in Hk as [i Hi].
      apply (Hact i k Hi), call_enabled; try done. by left.
Qed.

(** ** The work that is left *)

Definition cps_work (cps : list containerProcess) : nat := 4 * length cps.

Definition call_work (k : pc) : nat :=
  match k with
  | Done => 0
  | Leave _ | ExecCancel _ _ => 1
  | Cleanup _ _ | ExecSend _ | DeleteSend _ => 2
  | ExecAdd _ _ _ | DeleteRemove _ _ _ _ => 3
  | ExecRun _ _ | DeleteRun _ _ _ _ => 4
  | ExecReserve _ _ | DeleteProcess _ _ _ => 5
  | ExecGet _ _ | DeleteGet _ _ => 6
  | HandleExits _ _ ees => 2 + 4 * length ees
  | HandleSet _ _ _ ees => 5 + 4 * length ees
  | HandleSend _ _ _ ees => 4 + 4 * length ees
  | HandleLocked _ _ _ => 7
  | HandlePid _ _ => 8
  | CreateSend _ _ | StartSend _ _ => 10
  | CreateSpawned _ _ _ | StartSpawned _ _ _ => 11
  | CreateNew _ _ | StartRun _ _ => 12
  | CreatePre _ | StartProcess _ => 13
  | CreateLock _ | StartPre _ _ => 14
  | StartGet _ _ => 15
  end.

Definition exits_work (k : exits_pc) : nat :=
  match k with
  | ExitsIdle => 0
  | ExitsTodo _ cps => 1 + cps_work cps
  | ExitsSet _ _ cps => 4 + cps_work cps
  | ExitsSend _ _ cps => 3 + cps_work cps
  end.

Definition table_work (m : gmap Z (list containerProcess)) : nat :=
  sum_list_with (λ '(_, cps), cps_work cps) (map_to_list m).

Definition work (t : system) : nat :=
  sum_list_with call_work (calls t) + exits_work (exits t) + table_work (running (svc t))
  + 2 * length (ec (svc t)) + buffered (svc t).

Lemma sum_perm {A} (f : A → nat) l l' : l ≡ₚ l' → sum_list_with f l = sum_list_with f l'.
Proof. induction 1; simpl; lia. Qed.

Lemma table_work_delete q m : (table_work (delete q m) + cps_work (default [] (m !! q)) = table_work m)%nat.
Proof.
  unfold table_work. destruct (m !! q) as [cps|] eqn:E.
  - rewrite <- (sum_perm _ _ _ (map_to_list_delete m q cps E)). simpl. lia.
  - rewrite delete_id by done. simpl. unfold cps_work. simpl. lia.
Qed.

Lemma table_work_insert q cps m : (table_work (<[q := cps]> m) + cps_work (default [] (m !! q)) = table_work m + cps_work cps)%nat.
Proof.
  rewrite <- insert_delete_eq. unfold table_work at 1.
  rewrite (sum_perm _ _ _ (map_to_list_insert (delete q m) q cps (lookup_delete_eq _ _))). simpl.
  pose proof (table_work_delete q m). unfold table_work in *. lia.
Qed.

Lemma preStart_work c s s' sub : preStart c s = (s', sub) → (table_work (running s') ≤ table_work (running s))%nat.
Proof.
  destruct c as [c|]; [|by intros [= <- _]]. unfold preStart. intros E. injection E as <- _. simpl.
  set (q := Container_Pid _ _). set (l := default [] (running s !! q)).
  assert (length (filter (λ cp, cp_Container cp ≠ c) l) ≤ length l)%nat as Hl by apply length_filter.
  destruct (filter _ l) as [|cp cps]; simpl.
  - pose proof (table_work_delete q (running s)). lia.
  - pose proof (table_work_insert q (cp :: cps) (running s)). unfold cps_work in *. simpl in *. fold l in H. lia.
Qed.

(** What is left apart from the program counters. *)
Definition rest_work (s : service) : nat := table_work (running s) + 2 * length (ec s) + buffered s.

Lemma preStart_rest c s s' sub : preStart c s = (s', sub) → (rest_work s' ≤ rest_work s)%nat.
Proof.
  intros E. pose proof (preStart_work _ _ _ _ E). destruct (preStart_run c s) as (? & ? & E' & _ & Es & _).
  rewrite E in E'. injection E' as <- <-. unfold rest_work.
  assert (ec s' = ec s ∧ buffered s' = buffered s) as [-> ->] by (by rewrite Es). lia.
Qed.

Lemma handleStarted_work sub c po pid s s' ees :
  swf s → handleStarted sub c po pid s = (s', ees) → (4 * length ees + rest_work s' ≤ rest_work s + 4)%nat.
Proof.
  intros Hw E. destruct (handleStarted_run sub c po pid s) as (? & ? & E' & Es & Hr). rewrite E in E'. injection E' as <- <-.
  unfold rest_work. assert (ec s' = ec s ∧ buffered s' = buffered s) as [-> ->] by (by rewrite Es).
  destruct Hr as [(_ & -> & ->)|[(_ & Hees & ->)|(_ & _ & -> & ->)]]; [simpl; lia|..].
  - destruct (exitSubscribers s !! sub) as [m|] eqn:Em; [|done]. destruct (w_subs _ Hw _ _ Em) as [_ Hm].
    destruct (Hm _ _ Hees) as (e & -> & _). simpl. lia.
  - destruct po as [p|]; [|simpl; lia].
    pose proof (table_work_insert pid (default [] (running s !! pid) ++ [mk_cp c p]) (running s)) as H.
    unfold cps_work in *. rewrite length_app in H. simpl in *. lia.
Qed.

Lemma send_rest e s s' : send e s = Some s' → rest_work s' = S (rest_work s).
Proof. intros ->%send_inv. unfold rest_work. simpl. lia. Qed.

Lemma advance_work self a s k s' k' :
  swf s → advance self a s k = Some (s', k') → (call_work k' + rest_work s' < call_work k + rest_work s)%nat.
Proof.
  intros Hw Ha. assert (∀ m, rest_work (set_mu m s) = rest_work s) as Hmu by done.
  destruct k as [| | | |f p| | | | | |f p| |f po pid|f p ees|f p e ees|f p e ees| | | | | | | | |p| | | | |p]; cbn [advance Create_step Start_step handleStarted_step Exec_step Delete_step] in Ha;
    try (match type of Ha with context [send ?e s] => destruct (send e s) as [s1|] eqn:Es; [|done] end;
      apply send_rest in Es; injection Ha as <- <-; try (match goal with |- context [f_locked f] => destruct (f_locked f) end);
      try (change (rest_work (unlock s1)) with (rest_work s1)); simpl; lia);
    try (destruct (preStart _ s) as [s1 sub0] eqn:Ep; injection Ha as <- <-; apply preStart_rest in Ep; simpl; lia);
    try (run_all Ha; simpl; unfold rest_work; simpl; lia).
  destruct (handleStarted _ _ _ _ _) as [s1 ees] eqn:Eh. injection Ha as <- <-.
  pose proof (handleStarted_work _ _ _ _ _ _ _ Hw Eh). destruct po; simpl; lia.
Qed.

Lemma processExits_work s k s' k' :
  processExits s k = Some (s', k') → (exits_work k' + rest_work s' < exits_work k + rest_work s)%nat.
Proof.
  intros Ha. destruct k as [|e cps|e p cps|e p cps]; cbn [processExits] in Ha.
  - destruct (ec s) as [|e rest] eqn:E; [done|]. unfold take_exit in Ha. injection Ha as <- <-.
    unfold rest_work. simpl. rewrite E. simpl. pose proof (table_work_delete (e_Pid e) (running s)). lia.
  - destruct cps as [|cp cps]; run_all Ha; unfold rest_work, cps_work; simpl; lia.
  - run_all Ha; unfold rest_work, cps_work; simpl; lia.
  - destruct (send _ s) as [s1|] eqn:Es; [|done]. apply send_rest in Es. injection Ha as <- <-.
    change (rest_work (unlock s1)) with (rest_work s1). simpl. lia.
Qed.

Lemma work_decreases l t t' : wf t → internal l → perform l t = Some t' → (work t' < work t)%nat.
Proof.
  intros Hwf Hl Ha. assert (∀ t, work t = sum_list_with call_work (calls t) + exits_work (exits t) + rest_work (svc t))%nat as Hwork
    by (intros t0; unfold work, rest_work; lia).
  rewrite !Hwork. destruct l as [|i a| | | |]; try done; simpl in Ha.
  - destruct (calls t !! i) as [k|] eqn:Hi; [|done]. simpl in Ha.
    destruct (advance (Call i) a (svc t) k) as [[s' k']|] eqn:Ea; [|done]. injection Ha as <-. simpl.
    pose proof (advance_work _ _ _ _ _ _ (wf_svc _ Hwf) Ea).
    pose proof (sum_insert call_work call_work _ _ _ k' Hi ltac:(done)). lia.
  - destruct (processExits (svc t) (exits t)) as [[s' k']|] eqn:Ep; [|done]. injection Ha as <-. simpl.
    pose proof (processExits_work _ _ _ _ Ep). lia.
  - destruct (buffered (svc t)) as [|n] eqn:E; [done|]. injection Ha as <-. unfold rest_work. simpl. rewrite E. lia.
Qed.

Lemma reachable_good t : reachable t → wf t ∧ attended t.
Proof.
  intros [ls Hls]. assert (wf initial ∧ attended initial) as H0 by (by split; [apply wf_initial|]).
  revert H0 Hls. generalize initial. induction ls as [|l ls IH]; intros t0 [H1 H2] Hls; simpl in Hls; [by simplify_eq|].
  destruct (perform l t0) as [t1|] eqn:E; [|done]. apply (IH t1); [|done].
  split; [by eapply wf_perform|by eapply attended_perform].
Qed.

Lemma reachable_perform l t t' : reachable t → perform l t = Some t' → reachable t'.
Proof.
  intros [ls Hls] Ha. exists (ls ++ [l]). revert Hls. generalize initial.
  induction ls as [|l0 ls IH]; intros t0 Hls; simpl in *.
  - injection Hls as ->. by rewrite Ha.
  - destruct (perform l0 t0) as [t1|]; [|done]. by apply IH.
Qed.

(** ** Theorems *)

(** C7. The service comes to rest, however callers behave: from every state that calls and
    exits can lead to, the goroutines take finitely many steps until the next call or exit
    ([work] bounds their number), and they do not stop before every call has returned and
    [processExits] has handled every exit: there is no deadlock of [s.mu], of the event
    channel (as long as [forward] may run), and of the starts of processes. *)
Theorem comes_to_rest t : reachable t → ∀ ls t', Forall internal ls → schedule ls t = Some t' →
  (length ls + work t' ≤ work t)%nat ∧
  (¬ quiescent t' → ∃ l t'', internal l ∧ perform l t' = Some t'').
Proof.
  intros Ht ls. revert t Ht. induction ls as [|l ls IH]; intros t Ht t' Hls Hs; simpl in Hs.
  - injection Hs as <-. split; [simpl; lia|]. destruct (reachable_good _ Ht). by apply progress.
  - apply Forall_cons in Hls as [Hl Hls]. destruct (perform l t) as [t1|] eqn:E; [|done].
    destruct (IH t1 (reachable_perform _ _ _ Ht E) t' Hls Hs) as [H1 H2]. split; [|done].
    pose proof (work_decreases l t t1 (proj1 (reachable_good _ Ht)) Hl E). simpl. lia.
Qed.

(** A call of [Create] has sent its event and still holds the mutex. *)
Definition creating_schedule : list label :=
  [Arrives (CreateTask "c")] ++ acts 0 2 ++ [Acts 0 (Spawn 10)] ++ acts 0 2.
Definition creating : system := default initial (schedule creating_schedule initial).

Lemma creating_reachable : reachable creating.
Proof. exists creating_schedule. vm_compute. reflexivity. Qed.

Lemma creating_not_quiescent : ¬ quiescent creating.
Proof. intros (H & _). vm_compute in H. inversion H as [|? ? H1]. discriminate H1. Qed.

Lemma comes_to_rest_witness : mu (svc creating) = Some (Call 0) ∧
  ∃ l t', internal l ∧ perform l creating = Some t'.
Proof.
  split; [vm_compute; reflexivity|].
  exact (proj2 (comes_to_rest creating creating_reachable [] creating (Forall_nil_2 _) eq_refl) creating_not_quiescent).
Defined.
