(* ===== verification/Proc.v ===== *)
(** * Processes as programs

    Code that runs in two processes at once, which talk over a socket pair: a program is
    the tree of its calls, a pair of programs takes steps in any order, and a typing
    discipline on programs, a session type with an assertion at every call, makes pairs of
    typed programs safe, free of deadlock and terminating. *)

From S2P Require Import Prelude.

(** ** Programs *)

(** [E] is the type of the calls; a loop starts from a state and goes on with the next one
    or ends with a value. *)
Inductive prog (E : Type → Type) (A : Type) : Type :=
  | Return (r : result A)
  | Call {X : Type} (e : E X) (k : error + X → prog E A)
  | Loop {S X : Type} (body : S → prog E (S + X)) (s : S) (k : result X → prog E A).
Arguments Return {E A} r.
Arguments Call {E A X} e k.
Arguments Loop {E A S X} body s k.

(** What comes after, whatever the outcome. *)
Fixpoint pthen {E A B} (m : prog E A) (f : result A → prog E B) : prog E B :=
  match m with
  | Return r => f r
  | Call e k => Call e (λ a, pthen (k a) f)
  | Loop body s k => Loop body s (λ r, pthen (k r) f)
  end.

Definition pbind {E A B} (m : prog E A) (f : A → prog E B) : prog E B :=
  pthen m (λ r, match r with Ok a => f a | Err e => Return (Err e) | Panic x => Return (Panic x) end).

#[export] Instance prog_ret E : MRet (prog E) := λ A a, Return (Ok a).
#[export] Instance prog_bind E : MBind (prog E) := λ A B f m, pbind m f.

(** A call whose error is returned, and one whose error is a value. *)
Definition call {E X} (e : E X) : prog E X :=
  Call e (λ a, Return (match a with inl e => Err e | inr x => Ok x end)).
Definition pthrow {E A} (e : error) : prog E A := Return (Err e).
Definition ptry {E A} (m : prog E A) : prog E (error + A) :=
  pthen m (λ r, match r with Ok a => Return (Ok (inr a)) | Err e => Return (Ok (inl e)) | Panic x => Return (Panic x) end).
Definition pignore {E A} (m : prog E A) : prog E () := _ ← ptry m; mret tt.
Definition perr {E A} (m : prog E A) : prog E (option error) :=
  r ← ptry m; mret (match r with inl e => Some e | inr _ => None end).
Definition return_error {E} (e : option error) : prog E () :=
  match e with Some e => pthrow e | None => mret tt end.
Definition pmap_err {E A} (f : error → error) (m : prog E A) : prog E A :=
  pthen m (λ r, Return (match r with Err e => Err (f e) | r => r end)).
Definition plift {E A} (r : result A) : prog E A := Return r.

(** [defer d()]. *)
Definition pdefer {E A} (d : prog E ()) (m : prog E A) : prog E A :=
  pthen m (λ r, pthen d (λ r', Return (match r' with Panic x => Panic x | _ => r end))).

(** [defer func() { if retErr != nil { d } }()], where [d] may replace the error. *)
Definition pon_error {E A} (d : error → prog E error) (m : prog E A) : prog E A :=
  pthen m (λ r, match r with
    | Err e => pthen (d e) (λ r', Return (match r' with Ok e' => Err e' | Err e' => Err e' | Panic x => Panic x end))
    | _ => Return r
    end).

(** A deferred call of [recover]. *)
Definition precover {E A} (f : string → error) (m : prog E A) : prog E A :=
  pthen m (λ r, Return (match r with Panic x => Err (f x) | r => r end)).

Definition pwhen {E} (b : bool) (m : prog E ()) : prog E () := if b then m else mret tt.

Fixpoint pfor {E A} (f : A → prog E ()) (l : list A) : prog E () :=
  match l with
  | [] => mret tt
  | x :: l => _ ← f x; pfor f l
  end.

(** ** Calls on the socket and on the peer *)

Inductive pcall (H : Type → Type) (Msg : Type) : Type → Type :=
  | Host {X : Type} (c : H X) : pcall H Msg X
  | PWrite (m : Msg) : pcall H Msg ()
  | PRead : pcall H Msg Msg
  | PShutdown : pcall H Msg ()
  | PClose : pcall H Msg ()
  | PKill : pcall H Msg ()
  | PWait : pcall H Msg ()
  | PExec : pcall H Msg Empty_set
  | PDie : pcall H Msg ().
Arguments Host {H Msg X} c.
Arguments PWrite {H Msg} m.
Arguments PRead {H Msg}.
Arguments PShutdown {H Msg}.
Arguments PClose {H Msg}.
Arguments PKill {H Msg}.
Arguments PWait {H Msg}.
Arguments PExec {H Msg}.
Arguments PDie {H Msg}.

Definition EOF : error := ErrNew "EOF".
Definition EBADF : error := ErrNew "bad file descriptor".
Definition ECONNRESET : error := ErrNew "connection reset by peer".
Definition EPIPE : error := ErrNew "broken pipe".
Definition ErrProcessDone : error := ErrNew "os: process already finished".

(** ** Two processes *)

Section Pair.
Context {H : Type → Type} {Msg : Type}.

(** A call with its answer; [SelfExec] and [SelfKill] have none, [Reaped] is the end of
    the child for who waits for it. *)
Inductive pevent :=
  | Ev {X : Type} (c : H X) (a : error + X)
  | SelfExec
  | SelfKill
  | Reaped.

Abbreviation code := (prog (pcall H Msg) ()).

(** The parent, the child while it lives, what is on the way in each direction, whether
    the parent still writes and the child has its end, what each of them did, and whether
    somebody else killed the child. *)
Record pair := mk_pair {
  parent : code;
  child : option code;
  p2c : list Msg;
  c2p : list Msg;
  p_shut : bool;
  c_closed : bool;
  p_log : list pevent;
  c_log : list pevent;
  killed : bool
}.

(** The answers of the kernel and of the rest of the world. *)
Definition oracle : Type := ∀ X, H X → error + X.

Definition unfold_loop {A S X} (body : S → prog (pcall H Msg) (S + X)) (s : S) (k : result X → prog (pcall H Msg) A)
  : prog (pcall H Msg) A :=
  pthen (body s) (λ r, match r with
    | Ok (inl s') => Loop body s' k
    | Ok (inr x) => k (Ok x)
    | Err e => k (Err e)
    | Panic x => k (Panic x)
    end).

Definition set_parent (m : code) (t : pair) : pair :=
  mk_pair m (child t) (p2c t) (c2p t) (p_shut t) (c_closed t) (p_log t) (c_log t) (killed t).
Definition set_child (m : option code) (t : pair) : pair :=
  mk_pair (parent t) m (p2c t) (c2p t) (p_shut t) (c_closed t) (p_log t) (c_log t) (killed t).

(** The end of the child closes its end of the socket. *)
Definition child_gone (t : pair) : pair :=
  mk_pair (parent t) None (p2c t) (c2p t) (p_shut t) true (p_log t) (c_log t) (killed t).

(** Somebody else kills the child. *)
Definition child_killed (t : pair) : pair :=
  mk_pair (parent t) None (p2c t) (c2p t) (p_shut t) true (p_log t) (c_log t) true.

(** A call of the parent: its answer and the effect; [None] while it blocks. The end of a
    child that has not read everything resets the connection. The answer of [PShutdown]
    and whether [PClose] fails is up to the world. *)
Definition parent_call {X} (o : oracle) (u : option error) (e : pcall H Msg X) (t : pair) : option ((error + X) * pair) :=
  match e in pcall _ _ X return option ((error + X) * pair) with
  | Host c =>
      let a := o _ c in
      Some (a, mk_pair (parent t) (child t) (p2c t) (c2p t) (p_shut t) (c_closed t) (p_log t ++ [Ev c a]) (c_log t) (killed t))
  | PWrite m =>
      if p_shut t || c_closed t then Some (inl EPIPE, t)
      else Some (inr tt, mk_pair (parent t) (child t) (p2c t ++ [m]) (c2p t) (p_shut t) (c_closed t) (p_log t) (c_log t) (killed t))
  | PRead =>
      match c2p t with
      | m :: l => Some (inr m, mk_pair (parent t) (child t) (p2c t) l (p_shut t) (c_closed t) (p_log t) (c_log t) (killed t))
      | [] => if c_closed t then Some (inl match p2c t with [] => EOF | _ => ECONNRESET end, t) else None
      end
  | PShutdown =>
      match u with
      | Some e => Some (inl e, t)
      | None => Some (inr tt, mk_pair (parent t) (child t) (p2c t) (c2p t) true (c_closed t) (p_log t) (c_log t) (killed t))
      end
  | PClose =>
      Some (match u with Some e => inl e | None => inr tt end,
            mk_pair (parent t) (child t) (p2c t) (c2p t) true (c_closed t) (p_log t) (c_log t) (killed t))
  | PKill =>
      Some (match child t with Some _ => inr tt | None => inl ErrProcessDone end, child_gone t)
  | PWait =>
      match child t with
      | Some _ => None
      | None =>
          Some (match u with Some e => inl e | None => inr tt end,
                mk_pair (parent t) None (p2c t) (c2p t) (p_shut t) (c_closed t) (p_log t ++ [Reaped]) (c_log t) (killed t))
      end
  | PExec => None
  | PDie => None
  end.

(** A call of the child, without an answer when it is gone; a write may fail when the
    parent has closed the socket. *)
Definition child_call {X} (o : oracle) (u : option error) (e : pcall H Msg X) (t : pair) : option (option (error + X) * pair) :=
  match e in pcall _ _ X return option (option (error + X) * pair) with
  | Host c =>
      let a := o _ c in
      Some (Some a, mk_pair (parent t) (child t) (p2c t) (c2p t) (p_shut t) (c_closed t) (p_log t) (c_log t ++ [Ev c a]) (killed t))
  | PWrite m =>
      if c_closed t then Some (Some (inl EPIPE), t)
      else if p_shut t && bool_decide (is_Some u) then Some (Some (inl EPIPE), t)
      else Some (Some (inr tt), mk_pair (parent t) (child t) (p2c t) (c2p t ++ [m]) (p_shut t) (c_closed t) (p_log t) (c_log t) (killed t))
  | PRead =>
      if c_closed t then Some (Some (inl EBADF), t) else
      match p2c t with
      | m :: l => Some (Some (inr m), mk_pair (parent t) (child t) l (c2p t) (p_shut t) (c_closed t) (p_log t) (c_log t) (killed t))
      | [] => if p_shut t then Some (Some (inl EOF), t) else None
      end
  | PShutdown => None
  | PClose =>
      Some (Some (match u with Some e => inl e | None => inr tt end),
            mk_pair (parent t) (child t) (p2c t) (c2p t) (p_shut t) true (p_log t) (c_log t) (killed t))
  | PKill => None
  | PWait => None
  | PExec =>
      match u with
      | Some e => Some (Some (inl e), t)
      | None => Some (None, mk_pair (parent t) (child t) (p2c t) (c2p t) (p_shut t) true (p_log t) (c_log t ++ [SelfExec]) (killed t))
      end
  | PDie =>
      match u with
      | Some e => Some (Some (inl e), t)
      | None => Some (None, mk_pair (parent t) (child t) (p2c t) (c2p t) (p_shut t) true (p_log t) (c_log t ++ [SelfKill]) (killed t))
      end
  end.

Inductive side := Parent | Child.

(** Who takes the step, the answers it gets, and whether a call that may fail does;
    [None] is somebody else who kills the child, the kernel when it is out of memory. *)
Record label := mk_label { l_side : option side; l_answers : oracle; l_error : option error }.

(** One step. The child that has returned exits. *)
Definition pstep (l : label) (t : pair) : option pair :=
  match l_side l with
  | Some Parent =>
      match parent t with
      | Return _ => None
      | Call e k => r ← parent_call (l_answers l) (l_error l) e t; Some (set_parent (k r.1) r.2)
      | Loop body s k => Some (set_parent (unfold_loop body s k) t)
      end
  | Some Child =>
      match child t with
      | None => None
      | Some (Return _) => Some (child_gone t)
      | Some (Call e k) =>
          r ← child_call (l_answers l) (l_error l) e t;
          Some (set_child (k <$> r.1) r.2)
      | Some (Loop body s k) => Some (set_child (Some (unfold_loop body s k)) t)
      end
  | None => match child t with None => None | Some _ => Some (child_killed t) end
  end.

Fixpoint psteps (ls : list label) (t : pair) : option pair :=
  match ls with
  | [] => Some t
  | l :: ls => t ← pstep l t; psteps ls t
  end.

Inductive preach (t : pair) : pair → Prop :=
  | preach_refl : preach t t
  | preach_step l t1 t2 : preach t t1 → pstep l t1 = Some t2 → preach t t2.
End Pair.
Arguments pevent H : clear implicits.
Arguments pair H Msg : clear implicits.
Arguments oracle H : clear implicits.
Arguments label H : clear implicits.

(** ** Session types with assertions

    A protocol is an automaton: in each phase one side may send messages, which lead to
    other phases. What one side knows is its phase, whether the other side has left, and
    what an observer has marked of the calls it made. *)

Class Observer (H : Type → Type) (mark : Type) := see : pevent H → option mark.

Definition other (w : side) : side := match w with Parent => Child | Child => Parent end.

#[export] Instance side_eq_dec : EqDecision side.
Proof. solve_decision. Defined.

Class Protocol (Msg phase : Type) := {
  turn : phase → option side;
  next : phase → Msg → option phase;
  phase_rank : phase → nat;
  next_turn φ m φ' : next φ m = Some φ' → is_Some (turn φ);
  next_rank φ m φ' : next φ m = Some φ' → (phase_rank φ' < phase_rank φ)%nat
}.

Section Typing.
Context {H : Type → Type} {Msg phase mark : Type} `{PM : Protocol Msg phase} `{OB : Observer H mark}.

(** Both sides are there, the other one was the first to go, or this one was. *)
Inductive presence := Here | Deserted | Left.

Record local := mk_local { l_phase : phase; l_presence : presence; l_log : list mark }.

Definition l_left (l : local) : bool := match l_presence l with Here => false | _ => true end.
Definition here_or (b : presence) (l : local) : presence := match l_presence l with Here => b | b' => b' end.


Definition logs (e : pevent H) (l : local) : local := mk_local (l_phase l) (l_presence l) (l_log l ++ option_list (see e)).
Definition moves (φ : phase) (l : local) : local := mk_local φ (l_presence l) (l_log l).
Definition leaves (l : local) : local := mk_local (l_phase l) (here_or Left l) (l_log l).
Definition deserts (l : local) : local := mk_local (l_phase l) (here_or Deserted l) (l_log l).

(** What must hold before a call, and how it changes what is known. *)
Definition allowed (w : side) (J : local → Prop) {X} (e : pcall H Msg X) (l : local) : Prop :=
  match e with
  | Host _ | PClose => True
  | PWrite m => l_left l = true ∨ (turn (l_phase l) = Some w ∧ is_Some (next (l_phase l) m))
  | PRead => l_left l = true ∨ turn (l_phase l) = Some (other w)
  | PShutdown | PKill => w = Parent
  | PWait => w = Parent ∧ l_left l = true
  | PExec => w = Child ∧ J (leaves (logs SelfExec l))
  | PDie => w = Child ∧ J (leaves (logs SelfKill l))
  end.

Definition changes {X} (e : pcall H Msg X) : error + X → local → local → Prop :=
  match e in pcall _ _ X return error + X → local → local → Prop with
  | Host c => λ a l l', l' = logs (Ev c a) l
  | PWrite m => λ a l l',
      if l_left l then l' = l
      else match a with inr _ => ∃ φ, next (l_phase l) m = Some φ ∧ l' = moves φ l | inl _ => l' = deserts l end
  | PRead => λ a l l',
      if l_left l then l' = l
      else match a with
           | inr m => ∃ φ, next (l_phase l) m = Some φ ∧ l' = moves φ l
           | inl e => (e = EOF ∨ e = ECONNRESET) ∧ l' = deserts l
           end
  | PShutdown => λ a l l', l' = match a with inr _ => leaves l | inl _ => l end
  | PClose | PKill => λ _ l l', l' = leaves l
  | PWait => λ _ l l', l' = logs Reaped l
  | PExec => λ _ l l', l' = l
  | PDie => λ a l l', match a with inl _ => l' = l | inr _ => False end
  end.

(** [typed w J m l Q]: the program keeps to the protocol from what is known in [l], holds
    [J] at every call, every iteration of a loop has received or sent something, and its
    outcome satisfies [Q]. *)
Fixpoint typed (w : side) (J : local → Prop) {A} (m : prog (pcall H Msg) A) (l : local)
    (Q : local → result A → Prop) {struct m} : Prop :=
  match m with
  | Return r => J l ∧ Q l r
  | Call e k => J l ∧ allowed w J e l ∧ ∀ a l', changes e a l l' → typed w J (k a) l' Q
  | @Loop _ _ St X body s k => J l ∧
      ∃ (I : local → St → Prop) (R : local → result X → Prop), I l s ∧
        (∀ l1 s1, I l1 s1 → typed w J (body s1) l1 (λ l2 r, match r with
           | Ok (inl s2) => I l2 s2 ∧ (phase_rank (l_phase l2) < phase_rank (l_phase l1))%nat
           | Ok (inr x) => R l2 (Ok x)
           | Err e => R l2 (Err e)
           | Panic x => R l2 (Panic x)
           end)) ∧
        (∀ l1 r, R l1 r → typed w J (k r) l1 Q)
  end.

Section Laws.
Context (w : side) (J : local → Prop).

Lemma typed_here {A} (m : prog (pcall H Msg) A) l Q : typed w J m l Q → J l.
Proof. destruct m; simpl; intros Hm; apply Hm. Qed.

Lemma typed_mono {A} (m : prog (pcall H Msg) A) l (Q Q' : local → result A → Prop) :
  typed w J m l Q → (∀ l r, Q l r → Q' l r) → typed w J m l Q'.
Proof.
  revert l Q Q'. induction m as [A r|A X e k IH|A St X body IHb s k IHk]; simpl; intros l Q Q' Hm HQ.
  - destruct Hm. auto.
  - destruct Hm as (? & ? & Hk). split_and!; [done|done|]. intros a l' Hc. eapply IH; eauto.
  - destruct Hm as (? & I & R & ? & Hb & Hk). split; [done|]. exists I, R. split_and!; [done|done|].
    intros l1 r Hr. eapply IHk; eauto.
Qed.

Lemma typed_pthen {A B} (m : prog (pcall H Msg) A) (f : result A → prog (pcall H Msg) B) l Q Q' :
  typed w J m l Q → (∀ l' r, J l' → Q l' r → typed w J (f r) l' Q') → typed w J (pthen m f) l Q'.
Proof.
  revert l Q f. induction m as [A r|A X e k IH|A St X body IHb s k IHk]; simpl; intros l Q f Hm Hf.
  - destruct Hm. auto.
  - destruct Hm as (? & ? & Hk). split_and!; [done|done|]. intros a l' Hc. eapply IH; eauto.
  - destruct Hm as (? & I & R & ? & Hb & Hk). split; [done|]. exists I, R. split_and!; [done|done|].
    intros l1 r Hr. eapply IHk; eauto.
Qed.

(** One turn of a loop. *)
Lemma typed_unfold {A St X} (body : St → prog (pcall H Msg) (St + X)) s (k : result X → prog (pcall H Msg) A) l Q :
  typed w J (Loop body s k) l Q → typed w J (unfold_loop body s k) l Q.
Proof.
  simpl. intros (? & I & R & Hs & Hb & Hk). eapply typed_pthen; [by apply Hb|].
  intros l' [[s'|x]|e|x] HJ Hr; simpl in *; [|by apply Hk..].
  destruct Hr as [? _]. split; [done|]. exists I, R. by split_and!.
Qed.
End Laws.

(** ** Programs that only call the host

    [performs m G]: by the end [m] has left marks that are in [G], at any time before a
    beginning of such marks, and nothing else is changed, for either side. *)

Definition extend (g : list mark) (l : local) : local := mk_local (l_phase l) (l_presence l) (l_log l ++ g).

Lemma extend_nil l : extend [] l = l.
Proof. destruct l. unfold extend. simpl. by rewrite app_nil_r. Qed.

Lemma extend_extend g g' l : extend g' (extend g l) = extend (g ++ g') l.
Proof. unfold extend. simpl. by rewrite app_assoc. Qed.

Definition partial (G : list mark → Prop) (g : list mark) : Prop := ∃ gg, G gg ∧ g `prefix_of` gg.

Definition performed {A} (G : list mark → Prop) (l l' : local) (r : result A) : Prop :=
  match r with
  | Ok _ => ∃ g, G g ∧ l' = extend g l
  | Err _ => ∃ g, partial G g ∧ l' = extend g l
  | Panic _ => False
  end.

Definition performs {A} (m : prog (pcall H Msg) A) (G : list mark → Prop) : Prop :=
  ∀ w J l, (∀ g, partial G g → J (extend g l)) → typed w J m l (performed G l).

(** The marks are known beforehand. *)
Abbreviation does m g := (performs m (eq g)).

Lemma partial_full (G : list mark → Prop) g : G g → partial G g.
Proof. by exists g. Qed.

Lemma partial_mono (G G' : list mark → Prop) g : (∀ g, G g → G' g) → partial G g → partial G' g.
Proof. intros HG (gg & Hg & ?). exists gg. auto. Qed.

Lemma partial_eq g gg : partial (eq gg) g ↔ g `prefix_of` gg.
Proof. split; [by intros (? & <- & ?)|by exists gg]. Qed.

Definition joined (G1 G2 : list mark → Prop) (g : list mark) : Prop := ∃ g1 g2, G1 g1 ∧ G2 g2 ∧ g = g1 ++ g2.

Lemma partial_joined_l (G1 G2 : list mark → Prop) g : (∃ g2, G2 g2) → partial G1 g → partial (joined G1 G2) g.
Proof. intros [g2 H2] (g1 & H1 & ?). exists (g1 ++ g2). split; [by exists g1, g2|by apply prefix_app_r]. Qed.

Lemma partial_joined_r (G1 G2 : list mark → Prop) g1 g2 : G1 g1 → partial G2 g2 → partial (joined G1 G2) (g1 ++ g2).
Proof. intros H1 (gg & H2 & ?). exists (g1 ++ gg). split; [by exists g1, gg|by apply prefix_app]. Qed.

Lemma typed_performs {A B} w J (m : prog (pcall H Msg) A) (k : A → prog (pcall H Msg) B) G l Q :
  performs m G → (∀ g, partial G g → J (extend g l)) →
  (∀ a g, G g → typed w J (k a) (extend g l) Q) → (∀ e g, partial G g → Q (extend g l) (Err e)) →
  typed w J (m ≫= k) l Q.
Proof.
  intros Hm HJ Hk He. eapply typed_pthen; [by apply Hm|]. intros l' [a|e|x] HJ' Hp; simpl in Hp; [| |done].
  - destruct Hp as (g & Hg & ->). by apply Hk.
  - destruct Hp as (g & Hg & ->). split; [done|]. by apply He.
Qed.

Lemma performs_mono {A} (m : prog (pcall H Msg) A) (G G' : list mark → Prop) :
  performs m G → (∀ g, G g → G' g) → performs m G'.
Proof.
  intros Hm HG w J l HJ. eapply typed_mono.
  - apply Hm. intros g Hg. apply HJ. by eapply partial_mono.
  - intros l' [a|e|x]; simpl; [| |done]; intros (g & Hg & ->); exists g; split; auto. by eapply partial_mono.
Qed.

Lemma performs_bind {A B} (m : prog (pcall H Msg) A) (k : A → prog (pcall H Msg) B) G1 G2 :
  performs m G1 → (∃ g, G2 g) → (∀ a, performs (k a) G2) → performs (m ≫= k) (joined G1 G2).
Proof.
  intros Hm Hne Hk w J l HJ. eapply typed_performs; [done|..].
  - intros g Hg. by apply HJ, partial_joined_l.
  - intros a g Hg. eapply typed_mono.
    + apply Hk. intros g' Hg'. rewrite extend_extend. by apply HJ, partial_joined_r.
    + intros l' [b|e|x]; simpl; [| |done]; intros (g' & Hg' & ->); rewrite extend_extend; eexists; (split; [|done]).
      * by exists g, g'.
      * by apply partial_joined_r.
  - intros e g Hg. exists g. split; [|done]. by apply partial_joined_l.
Qed.

Lemma does_bind {A B} (m : prog (pcall H Msg) A) (k : A → prog (pcall H Msg) B) g1 g2 :
  does m g1 → (∀ a, does (k a) g2) → does (m ≫= k) (g1 ++ g2).
Proof.
  intros Hm Hk. eapply performs_mono; [apply (performs_bind _ _ (eq g1) (eq g2)); [done|by exists g2|done]|].
  by intros g (? & ? & <- & <- & ->).
Qed.

Lemma does_ret {A} (a : A) : does (mret a : prog (pcall H Msg) A) [].
Proof. intros w J l HJ. split; [rewrite <- (extend_nil l); by apply HJ, partial_full|]. exists []. by rewrite extend_nil. Qed.

Lemma does_throw {A} e g : does (pthrow e : prog (pcall H Msg) A) g.
Proof.
  intros w J l HJ. assert (partial (eq g) []) as Hn by (apply partial_eq, prefix_nil).
  split; [rewrite <- (extend_nil l); by apply HJ|]. exists []. by rewrite extend_nil.
Qed.

Lemma does_return_error e : does (return_error e : prog (pcall H Msg) ()) [].
Proof. destruct e; [apply does_throw|apply does_ret]. Qed.

(** A call that is marked when it succeeds, or not at all. *)
Lemma does_call {X} (c : H X) o :
  (∀ e, see (Ev c (inl e)) = None) → (∀ x, see (Ev c (inr x)) = o) → does (call (Host c)) (option_list o).
Proof.
  intros He Hx w J l HJ. assert (J l) as Hl by (rewrite <- (extend_nil l); apply HJ, partial_eq, prefix_nil).
  split; [done|]. split; [done|]. intros [e|x] l' ->; unfold logs; rewrite ?He, ?Hx; simpl.
  - rewrite app_nil_r. destruct l. split; [done|]. exists []. split; [apply partial_eq, prefix_nil|by rewrite extend_nil].
  - split; [by apply HJ, partial_full|]. by eexists.
Qed.

(** A call that is marked whatever its answer. *)
Lemma does_attempt {X} (c : H X) o : (∀ a, see (Ev c a) = o) → does (pignore (call (Host c))) (option_list o).
Proof.
  intros Hx w J l HJ. assert (J l) as Hl by (rewrite <- (extend_nil l); apply HJ, partial_eq, prefix_nil).
  split; [done|]. split; [done|]. intros [e|x] l' ->; unfold logs; rewrite ?Hx; simpl; (split; [by apply HJ, partial_full|by eexists]).
Qed.

Lemma does_try {A} (m : prog (pcall H Msg) A) : does m [] → does (ptry m) [].
Proof.
  intros Hm w J l HJ. eapply typed_pthen; [by apply Hm|]. intros l' [a|e|x] HJ' Hr; simpl in Hr; [| |done]; (split; [done|]); simpl.
  - exact Hr.
  - destruct Hr as (g & Hg & ->). apply partial_eq, prefix_nil_inv in Hg as ->. by exists [].
Qed.

Lemma does_pignore {A} (m : prog (pcall H Msg) A) : does m [] → does (pignore m) [].
Proof. intros Hm. apply (does_bind _ _ [] []); [by apply does_try|]. intros. apply does_ret. Qed.

Lemma does_perr {A} (m : prog (pcall H Msg) A) : does m [] → does (perr m) [].
Proof. intros Hm. apply (does_bind _ _ [] []); [by apply does_try|]. intros. apply does_ret. Qed.

Lemma performs_pmap_err {A} f (m : prog (pcall H Msg) A) G : performs m G → performs (pmap_err f m) G.
Proof. intros Hm w J l HJ. eapply typed_pthen; [by apply Hm|]. intros l' [a|e|x] HJ' Hr; [| |done]; by split. Qed.

Lemma does_pwhen b (m : prog (pcall H Msg) ()) g : (b = true → does m g) → does (pwhen b m) (if b then g else []).
Proof. intros Hm. destruct b; [by apply Hm|apply does_ret]. Qed.

Lemma does_pfor {A} (f : A → prog (pcall H Msg) ()) (g : A → list mark) xs :
  (∀ x, does (f x) (g x)) → does (pfor f xs) (concat (map g xs)).
Proof. intros Hf. induction xs as [|x xs IH]; [apply does_ret|]. apply does_bind; [done|]. by intros. Qed.

Lemma does_pfor_map {A} (f : A → prog (pcall H Msg) ()) (g : A → mark) xs :
  (∀ x, does (f x) [g x]) → does (pfor f xs) (map g xs).
Proof.
  intros Hf. replace (map g xs) with (concat (map (λ x, [g x]) xs)); [by apply does_pfor|].
  by induction xs as [|x xs IH]; simpl; [|rewrite IH].
Qed.

(** A deferred program that makes no mark. *)
Lemma performs_pdefer {A} (d : prog (pcall H Msg) ()) (m : prog (pcall H Msg) A) G :
  does d [] → performs m G → performs (pdefer d m) G.
Proof.
  intros Hd Hm w J l HJ. eapply typed_pthen; [by apply Hm|]. intros l' r HJ' Hr. eapply typed_pthen.
  - apply Hd. intros g ->%partial_eq%prefix_nil_inv. by rewrite extend_nil.
  - intros l2 [a|e|x] HJ2 Hr2; simpl in Hr2; [| |done].
    + destruct Hr2 as (g & <- & ->). rewrite extend_nil in *. by split.
    + destruct Hr2 as (g & ->%partial_eq%prefix_nil_inv & ->). rewrite extend_nil in *. by split.
Qed.

(** *** Programs without a mark *)

Lemma silent_bind {A B} (m : prog (pcall H Msg) A) (k : A → prog (pcall H Msg) B) :
  does m [] → (∀ a, does (k a) []) → does (m ≫= k) [].
Proof. apply (does_bind _ _ [] []). Qed.

Lemma silent_pwhen b (m : prog (pcall H Msg) ()) : (b = true → does m []) → does (pwhen b m) [].
Proof. intros Hm. destruct b; [by apply Hm|apply does_ret]. Qed.

Lemma silent_pfor {A} (f : A → prog (pcall H Msg) ()) xs : (∀ x, does (f x) []) → does (pfor f xs) [].
Proof. intros Hf. induction xs as [|x xs IH]; [apply does_ret|]. by apply silent_bind. Qed.

Lemma silent_plift {A} (r : result A) : (∀ x, r ≠ Panic x) → does (plift r : prog (pcall H Msg) A) [].
Proof. destruct r; intros Hr; [apply does_ret|apply does_throw|by edestruct Hr]. Qed.

Lemma silent_call {X} (c : H X) :
  (∀ e, see (Ev c (inl e)) = None) → (∀ x, see (Ev c (inr x)) = None) → does (call (Host c)) [].
Proof. apply (does_call c None). Qed.

(** Before and after the marks of a program. *)
Lemma performs_after {A B} (m : prog (pcall H Msg) A) (k : A → prog (pcall H Msg) B) G :
  does m [] → (∃ g, G g) → (∀ a, performs (k a) G) → performs (m ≫= k) G.
Proof.
  intros Hm Hne Hk. eapply performs_mono; [by apply (performs_bind _ _ (eq []) G)|].
  by intros g (? & ? & <- & ? & ->).
Qed.

Lemma does_before {A B} (m : prog (pcall H Msg) A) (k : A → prog (pcall H Msg) B) g :
  does m g → (∀ a, does (k a) []) → does (m ≫= k) g.
Proof. intros Hm Hk. rewrite <- (app_nil_r g). by apply does_bind. Qed.

(** *** Rules for programs that talk *)

Lemma typed_bind {A B} w J (m : prog (pcall H Msg) A) (k : A → prog (pcall H Msg) B) l (Q1 : local → result A → Prop) Q :
  typed w J m l Q1 → (∀ l' a, J l' → Q1 l' (Ok a) → typed w J (k a) l' Q) →
  (∀ l' e, J l' → Q1 l' (Err e) → Q l' (Err e)) → (∀ l' x, J l' → Q1 l' (Panic x) → Q l' (Panic x)) →
  typed w J (m ≫= k) l Q.
Proof.
  intros Hm Hk He Hp. eapply typed_pthen; [done|]. intros l' [a|e|x] HJ HQ; [by apply Hk|split; auto..].
Qed.

Lemma typed_ptry {A} w J (m : prog (pcall H Msg) A) l (Q1 : local → result A → Prop) Q :
  typed w J m l Q1 → (∀ l' a, J l' → Q1 l' (Ok a) → Q l' (Ok (inr a))) →
  (∀ l' e, J l' → Q1 l' (Err e) → Q l' (Ok (inl e))) → (∀ l' x, J l' → Q1 l' (Panic x) → Q l' (Panic x)) →
  typed w J (ptry m) l Q.
Proof. intros Hm Ha He Hp. eapply typed_pthen; [done|]. intros l' [a|e|x] HJ HQ; split; auto. Qed.

Lemma typed_perr {A} w J (m : prog (pcall H Msg) A) l (Q1 : local → result A → Prop) Q :
  typed w J m l Q1 → (∀ l' a, J l' → Q1 l' (Ok a) → Q l' (Ok None)) →
  (∀ l' e, J l' → Q1 l' (Err e) → Q l' (Ok (Some e))) → (∀ l' x, J l' → Q1 l' (Panic x) → Q l' (Panic x)) →
  typed w J (perr m) l Q.
Proof.
  intros Hm Ha He Hp. eapply typed_bind.
  - eapply (typed_ptry _ _ _ _ _ (λ l' r, match r with
      | Ok (inr _) => Q l' (Ok None) | Ok (inl e) => Q l' (Ok (Some e)) | Err _ => False | Panic x => Q l' (Panic x) end)); eauto.
  - intros l' [e|a] HJ HQ; by split.
  - done.
  - done.
Qed.

Lemma typed_pignore {A} w J (m : prog (pcall H Msg) A) l (Q1 : local → result A → Prop) Q :
  typed w J m l Q1 → (∀ l' a, J l' → Q1 l' (Ok a) → Q l' (Ok tt)) →
  (∀ l' e, J l' → Q1 l' (Err e) → Q l' (Ok tt)) → (∀ l' x, J l' → Q1 l' (Panic x) → Q l' (Panic x)) →
  typed w J (pignore m) l Q.
Proof.
  intros Hm Ha He Hp. eapply typed_bind.
  - eapply (typed_ptry _ _ _ _ _ (λ l' r, match r with Ok _ => Q l' (Ok tt) | Err _ => False | Panic x => Q l' (Panic x) end)); eauto.
  - intros l' a HJ HQ. by split.
  - done.
  - done.
Qed.

Lemma typed_pmap_err {A} w J f (m : prog (pcall H Msg) A) l (Q1 : local → result A → Prop) Q :
  typed w J m l Q1 → (∀ l' a, J l' → Q1 l' (Ok a) → Q l' (Ok a)) →
  (∀ l' e, J l' → Q1 l' (Err e) → Q l' (Err (f e))) → (∀ l' x, J l' → Q1 l' (Panic x) → Q l' (Panic x)) →
  typed w J (pmap_err f m) l Q.
Proof. intros Hm Ha He Hp. eapply typed_pthen; [done|]. intros l' [a|e|x] HJ HQ; split; auto. Qed.

Lemma typed_pdefer {A} w J (d : prog (pcall H Msg) ()) (m : prog (pcall H Msg) A) l Q :
  does d [] → typed w J m l Q → typed w J (pdefer d m) l Q.
Proof.
  intros Hd Hm. eapply typed_pthen; [done|]. intros l' r HJ Hr. eapply typed_pthen.
  - apply Hd. intros g ->%partial_eq%prefix_nil_inv. by rewrite extend_nil.
  - intros l2 [a|e|x] HJ2 Hr2; simpl in Hr2; [| |done].
    + destruct Hr2 as (g & <- & ->). rewrite extend_nil in *. by split.
    + destruct Hr2 as (g & ->%partial_eq%prefix_nil_inv & ->). rewrite extend_nil in *. by split.
Qed.

Lemma typed_done {A} w J (m : prog (pcall H Msg) A) G l Q :
  performs m G → (∀ g, partial G g → J (extend g l)) → (∀ a g, G g → Q (extend g l) (Ok a)) →
  (∀ e g, partial G g → Q (extend g l) (Err e)) → typed w J m l Q.
Proof.
  intros Hm HJ Ha He. eapply typed_mono; [by apply Hm|]. intros l' [a|e|x]; simpl; [| |done]; intros (g & Hg & ->); auto.
Qed.

(** ** Typed programs end *)

(** The steps of one side, whatever the other one does. *)
Definition sstep {A} (c c' : prog (pcall H Msg) A * local) : Prop :=
  match c.1 with
  | Return _ => False
  | Call e k => ∃ a, changes e a c.2 c'.2 ∧ c'.1 = k a
  | Loop body s k => c' = (unfold_loop body s k, c.2)
  end.

Abbreviation ends c := (Acc (λ c2 c1, sstep c1 c2) c).

Lemma ends_pthen w J {A B} (m : prog (pcall H Msg) A) :
  ∀ l Q (f : result A → prog (pcall H Msg) B), typed w J m l Q → (∀ l' r, Q l' r → ends (f r, l')) → ends (pthen m f, l).
Proof.
  induction m as [A r|A X e k IH|A St X body IHb s k IHk]; simpl; intros l Q f Hm Hf.
  - apply Hf, Hm.
  - destruct Hm as (_ & _ & Hk). constructor. intros [m' l'] (a & Hc & E). simpl in *. subst m'.
    eapply IH; [by apply Hk|done].
  - destruct Hm as (_ & I & R & Hs & Hb & Hk).
    remember (phase_rank (l_phase l)) as n eqn:En. revert s l Hs En.
    induction (lt_wf n) as [n _ IHn]. intros s l Hs ->. constructor. intros [m' l'] E. simpl in E. injection E as -> ->.
    eapply IHb; [by apply Hb|]. intros l2 [[s2|x]|e|x] Hr; simpl in *.
    + destruct Hr as [Hr1 Hr2]. by apply (IHn _ Hr2).
    + eapply IHk; [by apply Hk|done].
    + eapply IHk; [by apply Hk|done].
    + eapply IHk; [by apply Hk|done].
Qed.

Lemma typed_ends w J {A} (m : prog (pcall H Msg) A) : ∀ l Q, typed w J m l Q → ends (m, l).
Proof.
  induction m as [A r|A X e k IH|A St X body IHb s k IHk]; simpl; intros l Q Hm.
  - by constructor.
  - destruct Hm as (_ & _ & Hk). constructor. intros [m' l'] (a & Hc & E). simpl in *. subst m'.
    eapply IH. by apply Hk.
  - destruct Hm as (_ & I & R & Hs & Hb & Hk).
    remember (phase_rank (l_phase l)) as n eqn:En. revert s l Hs En.
    induction (lt_wf n) as [n _ IHn]. intros s l Hs ->. constructor. intros [m' l'] E. simpl in E. injection E as -> ->.
    eapply ends_pthen; [by apply Hb|]. intros l2 [[s2|x]|e|x] Hr; simpl in *.
    + destruct Hr as [Hr1 Hr2]. by apply (IHn _ Hr2).
    + eapply IHk. by apply Hk.
    + eapply IHk. by apply Hk.
    + eapply IHk. by apply Hk.
Qed.

(** ** Pairs of typed programs *)

Lemma omap_snoc {A B} (f : A → option B) l x : omap f (l ++ [x]) = omap f l ++ option_list (f x).
Proof. rewrite omap_app. simpl. by destruct (f x). Qed.

(** Messages on the way, all of them sent by one side. *)
Fixpoint sent (w : side) (φ : phase) (q : list Msg) : option phase :=
  match q with
  | [] => Some φ
  | m :: q => if decide (turn φ = Some w) then φ' ← next φ m; sent w φ' q else None
  end.

Lemma sent_app w φ q m φ' : sent w φ q = Some φ' → turn φ' = Some w → sent w φ (q ++ [m]) = next φ' m.
Proof.
  revert φ. induction q as [|m0 q IH]; simpl; intros φ Hq Ht.
  - injection Hq as ->. rewrite decide_True by done. by destruct (next φ' m).
  - case_decide; [|done]. destruct (next φ m0) as [φ1|]; [|done]. simpl in *. by apply IH.
Qed.

Lemma prefix_snoc_inv (q l : list Msg) m : q `prefix_of` l ++ [m] → q `prefix_of` l ∨ q = l ++ [m].
Proof.
  intros [k Hk]. destruct k as [|x k _] using rev_ind; [right; by rewrite app_nil_r in Hk|left].
  rewrite app_assoc in Hk. apply app_inj_tail in Hk as [-> _]. by exists k.
Qed.

Lemma sent_turn w φ q φ' : sent w φ q = Some φ' → turn φ = Some (other w) → q = [].
Proof. destruct q; simpl; [done|]. case_decide as E; [|done]. intros _ E'. rewrite E in E'. by destruct w. Qed.

(** What the parent has done when the child is in a phase. *)
Class Owed (OP : phase → list mark → Prop) := {
  owed_log φ g g' : OP φ g → OP φ (g ++ g');
  owed_child φ m φ' g : turn φ = Some Child → next φ m = Some φ' → OP φ g → OP φ' g
}.

Section Sessions.
Context (JP JC : local → Prop) (QP QC : local → result () → Prop) (OP : phase → list mark → Prop) `{!Owed OP}.
Hypothesis JP_owed : ∀ l, JP l → OP (l_phase l) (l_log l).
Hypothesis QP_left : ∀ l r, QP l r → l_left l = true.
Hypothesis QC_left : ∀ l r, QC l r → l_left l = true ∨ JC (leaves l).

(** The child has gone first, as it may. *)
Definition parted (lc : local) : Prop := ∃ g, g `prefix_of` l_log lc ∧ JC (mk_local (l_phase lc) Left g).

Record paired (t : pair H Msg) (lp lc : local) : Prop := {
  pr_parent : typed Parent JP (parent t) lp QP;
  pr_child : match child t with Some m => typed Child JC m lc QC | None => JC lc ∧ c_closed t = true end;
  pr_plog : omap see (p_log t) = l_log lp;
  pr_clog : omap see (c_log t) = l_log lc;
  pr_shut : p_shut t = true → l_left lp = true;
  pr_pleft : l_left lp = true → p_shut t = true ∨ c_closed t = true;
  pr_cleft : l_left lc = true → p_shut t = true ∨ c_closed t = true;
  pr_closed : c_closed t = true → l_left lc = true ∨ child t = None;
  pr_both : l_left lp = false →
    (c2p t = [] ∧ sent Parent (l_phase lc) (p2c t) = Some (l_phase lp)) ∨
    (p2c t = [] ∧ sent Child (l_phase lp) (c2p t) = Some (l_phase lc));
  pr_p2c : l_left lc = false → is_Some (sent Parent (l_phase lc) (p2c t));
  pr_owed : OP (l_phase lc) (l_log lp) ∧
    (l_left lc = false → ∀ q φ, q `prefix_of` p2c t → sent Parent (l_phase lc) q = Some φ → OP φ (l_log lp));
  pr_parted : c_closed t = true → killed t = true ∨ l_left lp = true ∨ parted lc;
  pr_deserted : l_presence lp = Deserted →
    c_closed t = true ∧ (killed t = true ∨ (parted lc ∧ ∃ q, sent Parent (l_phase lc) q = Some (l_phase lp)))
}.

Lemma alive_both t lp lc :
  paired t lp lc → p_shut t = false → c_closed t = false →
  l_left lp = false ∧ l_left lc = false ∧ is_Some (child t).
Proof.
  intros [] Hs Hc. rewrite Hs, Hc in *. split_and!.
  - destruct (l_left lp); [by destruct pr_pleft0|done].
  - destruct (l_left lc); [by destruct pr_cleft0|done].
  - destruct (child t); [eauto|by destruct pr_child0].
Qed.

Lemma left_presence (l : local) : l_left l = false ↔ l_presence l = Here.
Proof. unfold l_left. by destruct (l_presence l). Qed.

Lemma leaves_left (l : local) : l_left (leaves l) = true.
Proof. unfold leaves, here_or, l_left. simpl. by destruct (l_presence l). Qed.

Lemma deserts_left (l : local) : l_left (deserts l) = true.
Proof. unfold deserts, here_or, l_left. simpl. by destruct (l_presence l). Qed.

Lemma leaves_deserted (l : local) : l_presence (leaves l) = Deserted → l_presence l = Deserted.
Proof. unfold leaves, here_or. simpl. by destruct (l_presence l). Qed.

(** The parent makes a call that changes nothing but what it knows. *)
Lemma paired_moves t lp lc m :
  paired t lp lc → typed Parent JP m lp QP → paired (set_parent m t) lp lc.
Proof. intros [] Hm. by constructor. Qed.

Lemma paired_leaves t lp lc m sh ch cl :
  paired t lp lc → typed Parent JP m (leaves lp) QP → sh = true ∨ cl = true → (c_closed t = true → cl = true) →
  (p_shut t = true → sh = true) → (ch = child t ∧ cl = c_closed t ∨ ch = None ∧ cl = true) →
  paired (mk_pair m ch (p2c t) (c2p t) sh cl (p_log t) (c_log t) (killed t)) (leaves lp) lc.
Proof.
  intros [] Hm Hl Hcl Hsh Hch. pose proof (leaves_left lp) as Elp. constructor; simpl; try done.
  - destruct Hch as [[-> ->]|[-> ->]]; [done|]. split; [|done].
    destruct (child t); [by eapply typed_here|apply pr_child0].
  - destruct Hch as [[-> ->]|[-> ->]]; [done|by auto].
  - rewrite Elp. done.
  - auto.
  - intros Hd%leaves_deserted. destruct (pr_deserted0 Hd). auto.
Qed.

(** The parent learns that the child has gone. *)
Lemma paired_deserts t lp lc m :
  paired t lp lc → l_left lp = false → c_closed t = true → c2p t = [] → typed Parent JP m (deserts lp) QP →
  paired (set_parent m t) (deserts lp) lc.
Proof.
  intros [] Hlp Hcl Hq Hm. pose proof (deserts_left lp) as Elp. constructor; simpl; try done; [by auto|by rewrite Elp|by auto|].
  intros _. split; [done|]. destruct (pr_parted0 Hcl) as [?|[?|?]]; [by left|congruence|]. right. split; [done|].
  destruct (pr_both0 Hlp) as [[_ E]|[_ E]]; [by exists (p2c t)|]. rewrite Hq in E. simpl in E. injection E as E. exists []. simpl. congruence.
Qed.

Lemma paired_parent o u t lp lc t' :
  paired t lp lc → pstep (mk_label (Some Parent) o u) t = Some t' →
  ∃ lp', paired t' lp' lc ∧ sstep (parent t, lp) (parent t', lp') ∧ (child t' = child t ∨ child t' = None).
Proof.
  intros Hp Hs. unfold pstep in Hs. pose proof Hp as []. destruct t as [pa ch q1 q2 sh cl pg cg kd]. simpl in *.
  destruct pa as [r|X e k|St X body s k]; [done| |].
  2:{ injection Hs as <-. exists lp. split; [|split; [done|by left]]. by apply paired_moves, typed_unfold. }
  destruct pr_parent0 as (HJ & Hal & Hk).
  assert (∀ a, changes e a lp lp → paired (set_parent (k a) (mk_pair (Call e k) ch q1 q2 sh cl pg cg kd)) lp lc) as Hsame.
  { intros a Hc. apply paired_moves; [done|]. by apply Hk. }
  destruct e as [X c|m| | | | | | |]; simpl in *.
  - injection Hs as <-. exists (logs (Ev c (o X c)) lp). split; [|split; [by exists (o X c)|by left]].
    constructor; simpl; try done; [by apply Hk|by rewrite omap_snoc, pr_plog0|].
    destruct pr_owed0 as [Ho1 Ho2]. split; [by apply owed_log|]. intros ? q φ ? ?. apply owed_log. by eapply Ho2.
  - destruct (sh || cl) eqn:Esc; simpl in Hs; injection Hs as <-.
    + apply orb_true_iff in Esc. destruct (l_left lp) eqn:El.
      * exists lp. split; [by apply Hsame|split; [|by left]]. exists (inl EPIPE). simpl. by rewrite El.
      * assert (cl = true) as -> by (destruct Esc as [Esh|?]; [specialize (pr_shut0 Esh); congruence|done]).
        destruct Hal as [?|[Ht _]]; [done|].
        exists (deserts lp). split; [|split; [|by left]]; [|exists (inl EPIPE); simpl; by rewrite El].
        apply (paired_deserts _ _ _ _ Hp); [done|done| |by apply Hk].
        simpl. destruct (pr_both0 eq_refl) as [[-> _]|[_ Hq]]; [done|]. by eapply sent_turn.
    + apply orb_false_iff in Esc as [-> ->]. destruct (alive_both _ _ _ Hp eq_refl eq_refl) as (El & Elc & Hch).
      rewrite El in *. destruct Hal as [?|[Ht [φ' Hn]]]; [done|].
      exists (moves φ' lp). split; [|split; [|by left]].
      2:{ exists (inr tt). simpl. rewrite El. eauto. }
      assert (typed Parent JP (k (inr tt)) (moves φ' lp) QP) as Hm by (apply Hk; eauto).
      assert (q2 = [] ∧ sent Parent (l_phase lc) q1 = Some (l_phase lp)) as [-> Hq1].
      { destruct (pr_both0 eq_refl) as [?|[-> Hq]]; [done|]. pose proof (sent_turn _ _ _ _ Hq Ht) as ->.
        split; [done|]. simpl in *. congruence. }
      assert (sent Parent (l_phase lc) (q1 ++ [m]) = Some φ') as Hq1' by (by rewrite (sent_app _ _ _ _ _ Hq1 Ht)).
      assert (l_left (moves φ' lp) = false) as El' by done.
      constructor; simpl; try done.
      * congruence.
      * intros _. by left.
      * destruct pr_owed0 as [Ho1 Ho2]. split; [done|]. intros Hl q φ Hq Hφ.
        apply prefix_snoc_inv in Hq as [Hq| ->]; [by eapply Ho2|]. rewrite Hq1' in Hφ. injection Hφ as <-.
        apply typed_here in Hm. by apply JP_owed in Hm.
      * apply left_presence in El. intros Hd. congruence.
  - destruct q2 as [|m q2]; simpl in Hs.
    + destruct cl; [|done]. simpl in Hs. injection Hs as <-. destruct (l_left lp) eqn:El.
      * exists lp. split; [by apply Hsame|split; [|by left]]. exists (inl match q1 with [] => EOF | _ => ECONNRESET end). simpl. by rewrite El.
      * exists (deserts lp). split; [|split; [|by left]].
        { apply (paired_deserts _ _ _ _ Hp); try done. apply Hk. split; [|done]. destruct q1; auto. }
        exists (inl match q1 with [] => EOF | _ => ECONNRESET end). simpl. rewrite El. split; [split; [destruct q1; auto|done]|done].
    + injection Hs as <-. destruct (l_left lp) eqn:El.
      * exists lp. split; [|split; [|by left]]; [|exists (inr m); simpl; by rewrite El].
        constructor; simpl; try done; [by apply Hk|by intros _; apply pr_pleft0|congruence|by right; left].
      * destruct Hal as [?|Ht]; [done|].
        destruct (pr_both0 eq_refl) as [[? _]|[-> Hq]]; [done|]. simpl in Hq, Ht. rewrite decide_True in Hq by done.
        destruct (next (l_phase lp) m) as [φ1|] eqn:Hn; [|done]. simpl in Hq.
        exists (moves φ1 lp). split; [|split; [|by left]]; [|exists (inr m); simpl; rewrite El; eauto].
        assert (l_left (moves φ1 lp) = false) as El' by done.
        constructor; simpl; try done.
        -- apply Hk. eauto.
        -- intros Hsh. specialize (pr_shut0 Hsh). congruence.
        -- congruence.
        -- intros _. by right.
        -- intros Hc. destruct (pr_parted0 Hc) as [?|[?|?]]; [by left|congruence|by right; right].
        -- apply left_presence in El. congruence.
  - destruct u as [e|]; simpl in Hs; injection Hs as <-.
    + exists lp. split; [by apply Hsame|split; [|by left]]. by exists (inl e).
    + exists (leaves lp). split; [|split; [|by left]]; [|by exists (inr tt)].
      eapply (paired_leaves _ _ _ _ true ch cl Hp); try done; [by apply Hk|by left|by left].
  - injection Hs as <-. exists (leaves lp). split; [|split; [|by left]]; [|by eexists].
    eapply (paired_leaves _ _ _ _ true ch cl Hp); try done; [by apply Hk|by left|by left].
  - injection Hs as <-. exists (leaves lp). split; [|split; [|by right]]; [|by eexists].
    eapply (paired_leaves _ _ _ _ sh None true Hp); try done; [by apply Hk|by right|by right].
  - destruct ch; [done|]. simpl in Hs. injection Hs as <-. exists (logs Reaped lp). split; [|split; [by eexists|by left]].
    constructor; simpl; try done; [by apply Hk|by rewrite omap_snoc, pr_plog0|].
    destruct pr_owed0 as [Ho1 Ho2]. split; [by apply owed_log|]. intros ? q φ ? ?. apply owed_log. by eapply Ho2.
  - done.
  - done.
Qed.

(** What is known of the child when its log grows. *)
Lemma parted_mono lc φ b g : parted lc → φ = l_phase lc → l_log lc `prefix_of` g → parted (mk_local φ b g).
Proof. intros (g0 & Hg & HJ) -> Hp. exists g0. split; [by etrans|done]. Qed.

(** The child has gone, with what it left behind. *)
Lemma paired_child_ends t lp lc cg kd l' :
  paired t lp lc → is_Some (child t) → l_phase l' = l_phase lc → l_log lc `prefix_of` l_log l' → omap see cg = l_log l' →
  JC l' → (l_left l' = false → l_left lc = false) → kd = true ∨ (kd = killed t ∧ (l_left lc = true ∨ parted l')) →
  paired (mk_pair (parent t) None (p2c t) (c2p t) (p_shut t) true (p_log t) cg kd) lp l'.
Proof.
  intros [] Hch Eφ Hlog Hcg HJ Hl Hkd. constructor; simpl; rewrite ?Eφ; try done; try (by auto).
  - destruct pr_owed0 as [Ho1 Ho2]. split; [done|]. intros Hx%Hl. by apply Ho2.
  - intros _. destruct Hkd as [->|[-> [Hlc|?]]]; [by left| |by right; right].
    destruct (pr_cleft0 Hlc) as [?|Hcl]; [right; left; auto|].
    destruct (pr_parted0 Hcl) as [?|[?|Hp]]; [by left|by right; left|]. right; right. destruct l'. by eapply parted_mono.
  - intros Hd. split; [done|]. destruct Hkd as [->|[-> _]]; [by left|].
    destruct (pr_deserted0 Hd) as [_ [?|[Hp ?]]]; [by left|]. right. split; [|done]. destruct l'. by eapply parted_mono.
Qed.

(** The child leaves, or learns that the parent has left. *)
Lemma paired_child_leaves t lp lc m cl l' :
  paired t lp lc → is_Some (child t) → l_phase l' = l_phase lc → l_log l' = l_log lc → l_left l' = true →
  typed Child JC m l' QC → (p_shut t = true ∧ cl = c_closed t ∨ cl = true ∧ (l_left lc = true ∨ parted l')) →
  paired (mk_pair (parent t) (Some m) (p2c t) (c2p t) (p_shut t) cl (p_log t) (c_log t) (killed t)) lp l'.
Proof.
  intros [] Hch Eφ Elog El Hm Hcl. constructor; simpl; rewrite ?Eφ, ?Elog; try done.
  - intros Hlp. destruct (pr_pleft0 Hlp) as [?|?]; [by left|right]. by destruct Hcl as [[_ ->]|[-> _]].
  - intros _. destruct Hcl as [[? _]|[-> _]]; [by left|by right].
  - by left.
  - by rewrite El.
  - destruct pr_owed0 as [Ho1 Ho2]. split; [done|]. by rewrite El.
  - intros Hc. destruct Hcl as [[? ->]|[-> [Hlc|?]]]; [right; left; auto| |by right; right].
    destruct (pr_cleft0 Hlc) as [?|Hcl]; [right; left; auto|].
    destruct (pr_parted0 Hcl) as [?|[?|Hp]]; [by left|by right; left|]. right; right. destruct l'. simpl in *. eapply parted_mono; [done|done|by rewrite Elog].
  - intros Hd. destruct (pr_deserted0 Hd) as [Hc Hk]. split; [by destruct Hcl as [[_ ->]|[-> _]]|].
    destruct Hk as [?|[Hp ?]]; [by left|]. right. split; [|done]. destruct l'. simpl in *. eapply parted_mono; [done|done|by rewrite Elog].
Qed.

(** Before it leaves, the child may leave. *)
Lemma leaves_parted lc : JC (leaves lc) → l_left lc = true ∨ parted (leaves lc).
Proof.
  intros HJ. destruct (l_left lc) eqn:El; [by left|right]. apply left_presence in El. exists (l_log lc). split; [done|].
  unfold leaves, here_or in HJ. by rewrite El in HJ.
Qed.

Lemma paired_child o u t lp lc m t' :
  paired t lp lc → child t = Some m → pstep (mk_label (Some Child) o u) t = Some t' →
  ∃ lc', paired t' lp lc' ∧ parent t' = parent t ∧
    match child t' with Some m' => sstep (m, lc) (m', lc') | None => True end.
Proof.
  intros Hp Hm Hs. unfold pstep in Hs. pose proof Hp as []. destruct t as [pa ch q1 q2 sh cl pg cg kd]. simpl in *. subst ch.
  assert (is_Some (child (mk_pair pa (Some m) q1 q2 sh cl pg cg kd))) as Halive by (by eexists).
  destruct m as [r|X e k|St X body s k].
  { injection Hs as <-. exists lc. split; [|done]. destruct pr_child0 as [HJ HQ].
    apply (paired_child_ends _ _ _ cg kd _ Hp); try done. right. split; [done|].
    destruct (QC_left _ _ HQ) as [?|Hl]; [by left|]. apply leaves_parted in Hl as [?|Hl]; [by left|right]. exact Hl. }
  2:{ injection Hs as <-. exists lc. split; [|done]. constructor; simpl; try done; [|intros Hx; left; by destruct (pr_closed0 Hx)].
      by apply typed_unfold. }
  pose proof pr_child0 as (HJ & Hal & Hk).
  assert (∀ a, changes e a lc lc → paired (mk_pair pa (Some (k a)) q1 q2 sh cl pg cg kd) lp lc) as Hsame.
  { intros a Hc. constructor; simpl; try done; [by apply Hk|intros Hx; left; by destruct (pr_closed0 Hx)]. }
  assert (cl = true → l_left lc = true) as Hcl by (intros Hc; destruct (pr_closed0 Hc); done).
  assert (cl = false → l_presence lp ≠ Deserted) as Hnd by (intros -> Hd; destruct (pr_deserted0 Hd); done).
  destruct e as [X c|m| | | | | | |]; simpl in *; try done.
  - injection Hs as <-. exists (logs (Ev c (o X c)) lc). split; [|split; [done|by exists (o X c)]].
    constructor; simpl; try done; [by apply Hk|by rewrite omap_snoc, pr_clog0|by left; auto| |].
    + intros Hc. destruct (pr_parted0 Hc) as [?|[?|?]]; [by left|by right; left|right; right].
      eapply parted_mono; [done|done|by apply prefix_app_r].
    + intros Hd. destruct (pr_deserted0 Hd) as [? [?|[? ?]]]; (split; [done|]); [by left|right]. split; [|done].
      eapply parted_mono; [done|done|by apply prefix_app_r].
  - destruct cl; [|destruct (sh && bool_decide (is_Some u)) eqn:Eu]; simpl in Hs; injection Hs as <-.
    + rewrite Hcl in * by done. exists lc. split; [by apply Hsame|]. split; [done|]. exists (inl EPIPE). simpl. by rewrite Hcl.
    + apply andb_true_iff in Eu as [-> _]. destruct (l_left lc) eqn:El.
      * exists lc. split; [by apply Hsame|]. split; [done|]. exists (inl EPIPE). simpl. by rewrite El.
      * exists (deserts lc). split; [|split; [done|exists (inl EPIPE); simpl; by rewrite El]].
        eapply (paired_child_leaves _ _ _ _ false _ Hp); try done; [apply deserts_left|by apply Hk|by left].
    + destruct (l_left lc) eqn:El.
      * exists lc. split; [|split; [done|exists (inr tt); simpl; by rewrite El]].
        assert (l_left lp = true) as Elp by (destruct (pr_cleft0 eq_refl); [by apply pr_shut0|done]).
        constructor; simpl; try done; [by apply Hk|by intros _; apply pr_cleft0|congruence|congruence|].
        by destruct pr_owed0; split; [|congruence].
      * destruct Hal as [?|[Ht [φ' Hn]]]; [done|]. exists (moves φ' lc).
        split; [|split; [done|exists (inr tt); simpl; rewrite El; eauto]].
        destruct (pr_p2c0 eq_refl) as [φ1 Hq1]. pose proof (sent_turn _ _ _ _ Hq1 Ht) as ->. clear φ1 Hq1.
        assert (l_left lp = false → sent Child (l_phase lp) (q2 ++ [m]) = Some φ') as Hq2.
        { intros Elp. destruct (pr_both0 Elp) as [[-> E]|[_ E]].
          - simpl in E. injection E as E. simpl. rewrite <- E, decide_True by done. by rewrite Hn.
          - by rewrite (sent_app _ _ _ _ _ E Ht). }
        assert (l_left (moves φ' lc) = false) as El' by done.
        constructor; simpl; try done; [by apply Hk; eauto|congruence|by auto| |by intros Hd%Hnd].
        destruct pr_owed0 as [Ho1 _]. assert (OP φ' (l_log lp)) as Ho by (by eapply owed_child).
        split; [done|]. intros _ q φ [k' Hq]. destruct q; [|done]. by intros [= <-].
  - destruct cl; [|destruct q1 as [|m q1]; [destruct sh; [|done]|]]; simpl in Hs; injection Hs as <-.
    + rewrite Hcl in * by done. exists lc. split; [by apply Hsame|]. split; [done|]. exists (inl EBADF). simpl. by rewrite Hcl.
    + destruct (l_left lc) eqn:El.
      * exists lc. split; [by apply Hsame|]. split; [done|]. exists (inl EOF). simpl. by rewrite El.
      * exists (deserts lc). split; [|split; [done|exists (inl EOF); simpl; rewrite El; auto]].
        eapply (paired_child_leaves _ _ _ _ false _ Hp); try done; [apply deserts_left|by apply Hk; auto|by left].
    + destruct (l_left lc) eqn:El.
      * exists lc. split; [|split; [done|exists (inr m); simpl; by rewrite El]].
        assert (l_left lp = true) as Elp by (destruct (pr_cleft0 eq_refl); [by apply pr_shut0|done]).
        constructor; simpl; try done; [by apply Hk|by intros _; apply pr_cleft0|congruence|congruence|].
        by destruct pr_owed0; split; [|congruence].
      * destruct Hal as [?|Ht]; [done|]. destruct (pr_p2c0 eq_refl) as [φ2 Hq]. simpl in Hq, Ht.
        rewrite decide_True in Hq by done. destruct (next (l_phase lc) m) as [φ1|] eqn:Hn; [|done]. simpl in Hq.
        exists (moves φ1 lc). split; [|split; [done|exists (inr m); simpl; rewrite El; eauto]].
        assert (∀ q φ, sent Parent φ1 q = Some φ → sent Parent (l_phase lc) (m :: q) = Some φ) as Hcons.
        { intros q φ E. simpl. rewrite decide_True by done. by rewrite Hn. }
        destruct pr_owed0 as [_ Ho2]. specialize (Ho2 eq_refl).
        assert (l_left (moves φ1 lc) = false) as El' by done.
        constructor; simpl; try done; [by apply Hk; eauto|congruence| | |by intros ?%Hnd].
        -- intros Elp. left. destruct (pr_both0 Elp) as [[-> E]|[? _]]; [|done].
           split; [done|]. simpl in E. rewrite decide_True in E by done. by rewrite Hn in E.
        -- split; [|intros _ q φ [k' ->] E].
           ++ apply (Ho2 [m]); [by exists q1|]. by apply Hcons.
           ++ apply (Ho2 (m :: q)); [by exists k'|]. by apply Hcons.
  - injection Hs as <-. exists (leaves lc). split; [|split; [done|by eexists]].
    assert (typed Child JC (k match u with Some e => inl e | None => inr tt end) (leaves lc) QC) as Hm by (by apply Hk).
    eapply (paired_child_leaves _ _ _ _ true _ Hp); try done; [apply leaves_left|right].
    split; [done|]. by eapply leaves_parted, typed_here.
  - destruct u as [e|]; simpl in Hs; injection Hs as <-.
    + exists lc. split; [by apply Hsame|]. split; [done|]. by exists (inl e).
    + exists (leaves (logs SelfExec lc)). split; [|done]. destruct Hal as [_ HJe].
      apply (paired_child_ends _ _ _ (cg ++ [SelfExec]) kd _ Hp); try done; [by apply prefix_app_r|by rewrite omap_snoc, pr_clog0|by rewrite leaves_left|].
      right. split; [done|]. by apply leaves_parted in HJe.
  - destruct u as [e|]; simpl in Hs; injection Hs as <-.
    + exists lc. split; [by apply Hsame|]. split; [done|]. by exists (inl e).
    + exists (leaves (logs SelfKill lc)). split; [|done]. destruct Hal as [_ HJe].
      apply (paired_child_ends _ _ _ (cg ++ [SelfKill]) kd _ Hp); try done; [by apply prefix_app_r|by rewrite omap_snoc, pr_clog0|by rewrite leaves_left|].
      right. split; [done|]. by apply leaves_parted in HJe.
Qed.

(** Somebody else kills the child. *)
Lemma paired_killed t lp lc : paired t lp lc → is_Some (child t) → paired (child_killed t) lp lc.
Proof.
  intros Hp Hch. pose proof Hch as [m Em]. apply (paired_child_ends _ _ _ (c_log t) true _ Hp); try done; [by destruct Hp| |by left].
  pose proof (pr_child _ _ _ Hp) as Hm. rewrite Em in Hm. by eapply typed_here.
Qed.

Lemma killed_step o u (t t' : pair H Msg) : pstep (mk_label None o u) t = Some t' → is_Some (child t) ∧ t' = child_killed t.
Proof. unfold pstep. simpl. destruct (child t); [|done]. intros [= <-]. eauto. Qed.

(** *** What follows for every run *)

Lemma paired_step l t lp lc t' : paired t lp lc → pstep l t = Some t' → ∃ lp' lc', paired t' lp' lc'.
Proof.
  intros Hp Hs. destruct l as [[[]|] o u].
  - destruct (paired_parent o u t lp lc t' Hp Hs) as (lp' & ? & _). eauto.
  - destruct (child t) as [m|] eqn:Em; [|unfold pstep in Hs; simpl in Hs; by rewrite Em in Hs].
    destruct (paired_child o u t lp lc m t' Hp Em Hs) as (lc' & ? & _). eauto.
  - destruct (killed_step _ _ _ _ Hs) as [? ->]. exists lp, lc. by apply paired_killed.
Qed.

Lemma paired_reach t lp lc t' : paired t lp lc → preach t t' → ∃ lp' lc', paired t' lp' lc'.
Proof.
  intros Hp. induction 1 as [|l t1 t2 _ (lp1 & lc1 & Hp1) Hs]; [eauto|]. by eapply paired_step.
Qed.

(** A child that was waited for is gone. *)
Lemma reaped_gone t0 (t : pair H Msg) : p_log t0 = [] → preach t0 t → Reaped ∈ p_log t → child t = None.
Proof.
  intros E0. induction 1 as [|l t1 t2 _ IH Hs]; [rewrite E0; by intros ?%elem_of_nil|].
  unfold pstep in Hs. destruct t1 as [pa ch q1 q2 sh cl pg cg kd]. simpl in *. destruct (l_side l) as [[]|].
  - destruct pa as [r|X e k|St X body s k]; [done| |by injection Hs as <-].
    destruct e; simpl in Hs; repeat case_match; try done; injection Hs as <-; simpl in *; try done.
    all: rewrite elem_of_app, list_elem_of_singleton; intros [?|?]; [by auto|done].
  - destruct ch as [[r|X e k|St X body s k]|]; try done; [by injection Hs as <-| |injection Hs as <-; simpl; intros Hin%IH; done].
    destruct e; simpl in Hs; repeat case_match; try done; injection Hs as <-; simpl in *; intros Hin%IH; done.
  - destruct ch; [|done]. by injection Hs as <-.
Qed.

(** Both processes have come to their end. *)
Definition finished (t : pair H Msg) : Prop := child t = None ∧ ∃ r, parent t = Return r.

(** Whoever waits, waits for somebody who can go on. *)
Lemma paired_progress t lp lc : paired t lp lc → ¬ finished t → ∃ w, ∀ o u, is_Some (pstep (mk_label (Some w) o u) t).
Proof.
  intros Hp Hf. pose proof Hp as []. destruct t as [pa ch q1 q2 sh cl pg cg kd]. simpl in *.
  assert ((∀ o u, is_Some (pstep (mk_label (Some Parent) o u) (mk_pair pa ch q1 q2 sh cl pg cg kd))) ∨
    (∃ r, pa = Return r) ∨ (cl = false ∧ q2 = [] ∧ (l_left lp = true ∨ turn (l_phase lp) = Some Child)) ∨
    (is_Some ch ∧ l_left lp = true)) as Hparent.
  { destruct pa as [r|X e k|St X body s k]; [by eauto| |by left; intros; eexists].
    destruct pr_parent0 as (_ & Hal & _). destruct e as [X c|m| | | | | | |]; simpl in Hal.
    - left. intros. by eexists.
    - left. intros. unfold pstep. simpl. destruct (sh || cl); by eexists.
    - destruct q2 as [|m q2]; [|left; intros; by eexists]. destruct cl; [left; intros; by eexists|]. by right; right; left.
    - left. intros o [e|]; by eexists.
    - left. intros. by eexists.
    - left. intros. by eexists.
    - destruct ch; [|left; intros; by eexists]. destruct Hal. right. right. right. by split; [eexists|].
    - by destruct Hal.
    - by destruct Hal. }
  assert (∀ m, ch = Some m → (∀ o u, is_Some (pstep (mk_label (Some Child) o u) (mk_pair pa ch q1 q2 sh cl pg cg kd))) ∨
    (cl = false ∧ q1 = [] ∧ sh = false ∧ (l_left lc = true ∨ turn (l_phase lc) = Some Parent))) as Hchild.
  { intros m ->. destruct m as [r|X e k|St X body s k]; [by left; intros; eexists| |by left; intros; eexists].
    destruct pr_child0 as (_ & Hal & _). destruct e as [X c|m| | | | | | |]; simpl in Hal; try done; try (by destruct Hal).
    - left. intros. by eexists.
    - left. intros. unfold pstep. simpl. destruct cl; [|destruct (sh && _)]; by eexists.
    - destruct cl; [left; intros; by eexists|]. destruct q1 as [|m q1]; [|left; intros; by eexists].
      destruct sh; [left; intros; by eexists|]. by right.
    - left. intros. by eexists.
    - left. intros o [e|]; by eexists.
    - left. intros o [e|]; by eexists. }
  destruct ch as [m|].
  - destruct (Hchild m eq_refl) as [?|(-> & -> & -> & Hc)]; [by exists Child|].
    destruct (alive_both _ _ _ Hp eq_refl eq_refl) as (Elp & Elc & _).
    destruct Hc as [?|Hc]; [congruence|].
    destruct Hparent as [?|[[r ->]|[(_ & -> & [?|Ht])|[_ ?]]]]; [by exists Parent| |congruence| |congruence].
    + destruct pr_parent0 as [_ HQ]. apply QP_left in HQ. congruence.
    + destruct (pr_both0 Elp) as [[_ E]|[_ E]]; simpl in E; congruence.
  - destruct pr_child0 as [_ ->]. destruct Hparent as [?|[[r ->]|[(? & _)|[[? ?] _]]]]; [by exists Parent| |done|done].
    destruct Hf. split; [done|by exists r].
Qed.

(** Without the child only the parent takes steps. *)
Lemma alone_step l (t t' : pair H Msg) : child t = None → pstep l t = Some t' → ∃ o u, l = mk_label (Some Parent) o u.
Proof. intros Hc. destruct l as [[[]|] o u]; unfold pstep; simpl; rewrite ?Hc; [by eauto|done|done]. Qed.

(** Every run ends. *)
Lemma paired_ends t lp lc : paired t lp lc → Acc (λ t2 t1, ∃ l, pstep l t1 = Some t2) t.
Proof.
  intros Hp. assert (ends (parent t, lp)) as Hpe by (eapply typed_ends, pr_parent; done).
  remember (parent t, lp) as cp eqn:Ep. revert t lp lc Hp Ep.
  induction Hpe as [cp _ IHp]. intros t lp lc Hp ->.
  assert (∀ t' o u t2 lc', paired t' lp lc' → parent t' = parent t → pstep (mk_label (Some Parent) o u) t' = Some t2 →
    Acc (λ t2 t1, ∃ l, pstep l t1 = Some t2) t2) as Hparent.
  { intros t' o u t2 lc' Hp' Epa Hs. destruct (paired_parent o u t' lp lc' t2 Hp' Hs) as (lp' & Hp2 & Hss & _).
    rewrite Epa in Hss. by eapply IHp. }
  assert (∀ t' lc', paired t' lp lc' → parent t' = parent t → child t' = None →
    Acc (λ t2 t1, ∃ l, pstep l t1 = Some t2) t') as Halone.
  { intros t' lc' Hp' Epa Hc. constructor. intros t2 [l Hs]. destruct (alone_step _ _ _ Hc Hs) as (o & u & ->). by eapply Hparent. }
  clear IHp. destruct (child t) as [m|] eqn:Em; [|by eapply Halone].
  assert (ends (m, lc)) as Hce.
  { pose proof (pr_child _ _ _ Hp) as Hm. rewrite Em in Hm. by eapply typed_ends. }
  remember (m, lc) as cc eqn:Ec. revert t lc m Hp Em Ec Hparent Halone.
  induction Hce as [cc _ IHc]. intros t lc m Hp Em -> Hparent Halone. constructor. intros t' [[[[]|] o u] Hs].
  - by eapply (Hparent t).
  - destruct (paired_child o u t lp lc m t' Hp Em Hs) as (lc' & Hp' & Epa & Hss).
    rewrite <- Epa in Hparent, Halone. destruct (child t') as [m'|] eqn:Em'; [by eapply IHc|by eapply Halone].
  - destruct (killed_step _ _ _ _ Hs) as [? ->]. eapply Halone; [by apply paired_killed|done|done].
Qed.
End Sessions.
End Typing.
