(* ===== verification/InitSync.v ===== *)
(** * Starting a process: data, environment and synchronisation

    The data [runc create] and [runc exec] give to the process they start
    ([libcontainer/process.go], [init_linux.go]), its command line environment
    ([container_linux.go], from [includeExecFifo] to [newInitConfig]), the calls both sides
    make, and the messages between them ([sync.go]). *)

From S2P Require Import Prelude GoStd GoPath Container Rootfs Proc.

(** ** Data *)

Record network := mk_network { nt_Network : Network; nt_TempVethPeerName : string }.

Record initConfig := mk_initConfig {
  ic_Args : list string;
  ic_Env : list string;
  ic_Cwd : string;
  ic_Capabilities : option Capabilities;
  ic_ProcessLabel : string;
  ic_AppArmorProfile : string;
  ic_NoNewPrivileges : bool;
  ic_User : string;
  ic_AdditionalGroups : list string;
  ic_Config : Config;
  ic_Networks : list network;
  ic_PassedFilesCount : Z;
  ic_ContainerId : string;
  ic_Rlimits : list Rlimit;
  ic_CreateConsole : bool;
  ic_ConsoleWidth : Z;
  ic_ConsoleHeight : Z;
  ic_RootlessEUID : bool;
  ic_RootlessCgroups : bool;
  ic_SpecState : option OCIState
}.

Definition set_Networks (v : list network) (c : initConfig) : initConfig :=
  mk_initConfig (ic_Args c) (ic_Env c) (ic_Cwd c) (ic_Capabilities c) (ic_ProcessLabel c) (ic_AppArmorProfile c)
    (ic_NoNewPrivileges c) (ic_User c) (ic_AdditionalGroups c) (ic_Config c) v (ic_PassedFilesCount c)
    (ic_ContainerId c) (ic_Rlimits c) (ic_CreateConsole c) (ic_ConsoleWidth c) (ic_ConsoleHeight c)
    (ic_RootlessEUID c) (ic_RootlessCgroups c) (ic_SpecState c).
Definition set_SpecState (v : option OCIState) (c : initConfig) : initConfig :=
  mk_initConfig (ic_Args c) (ic_Env c) (ic_Cwd c) (ic_Capabilities c) (ic_ProcessLabel c) (ic_AppArmorProfile c)
    (ic_NoNewPrivileges c) (ic_User c) (ic_AdditionalGroups c) (ic_Config c) (ic_Networks c) (ic_PassedFilesCount c)
    (ic_ContainerId c) (ic_Rlimits c) (ic_CreateConsole c) (ic_ConsoleWidth c) (ic_ConsoleHeight c)
    (ic_RootlessEUID c) (ic_RootlessCgroups c) v.

(** The files that are handed to the child: those of the process, by a name, and those of
    [newParentProcess]. *)
Inductive File := PassedFile (name : string) | ConsoleSocketFile | ChildInitPipe | ChildLogPipe | ExecFifo.

(** [Process] as it is handed to [newParentProcess]; a missing [ConsoleSocket] is [false]. *)
Record Process := mk_Process {
  pr_Args : list string;
  pr_Env : list string;
  pr_User : string;
  pr_AdditionalGroups : list string;
  pr_Cwd : string;
  pr_ExtraFiles : list File;
  pr_ConsoleWidth : Z;
  pr_ConsoleHeight : Z;
  pr_Capabilities : option Capabilities;
  pr_AppArmorProfile : string;
  pr_Label : string;
  pr_NoNewPrivileges : option bool;
  pr_Rlimits : list Rlimit;
  pr_ConsoleSocket : bool;
  pr_Init : bool;
  pr_LogLevel : string
}.

Definition newInitConfig (c : Config) (id : string) (p : Process) : initConfig :=
  let sg := cf_Settings c in {|
  ic_Args := pr_Args p;
  ic_Env := pr_Env p;
  ic_Cwd := pr_Cwd p;
  ic_Capabilities := pr_Capabilities p;
  ic_ProcessLabel := if decide (pr_Label p = "") then sg_ProcessLabel sg else pr_Label p;
  ic_AppArmorProfile := if decide (pr_AppArmorProfile p = "") then sg_AppArmorProfile sg else pr_AppArmorProfile p;
  ic_NoNewPrivileges := match pr_NoNewPrivileges p with Some b => b | None => sg_NoNewPrivileges sg end;
  ic_User := pr_User p;
  ic_AdditionalGroups := pr_AdditionalGroups p;
  ic_Config := c;
  ic_Networks := [];
  ic_PassedFilesCount := Z.of_nat (length (pr_ExtraFiles p));
  ic_ContainerId := id;
  ic_Rlimits := match pr_Rlimits p with [] => sg_Rlimits sg | l => l end;
  ic_CreateConsole := pr_ConsoleSocket p;
  ic_ConsoleWidth := pr_ConsoleWidth p;
  ic_ConsoleHeight := pr_ConsoleHeight p;
  ic_RootlessEUID := cf_RootlessEUID c;
  ic_RootlessCgroups := cf_RootlessCgroups c;
  ic_SpecState := None
|}.

(** *** The environment of the child *)

Definition stdioFdCount : Z := 3.
Definition initSetns : string := "setns".
Definition initStandard : string := "standard".

(** [exec.Cmd]: the files that are handed on, and the environment. *)
Record Cmd := mk_Cmd { cmd_ExtraFiles : list File; cmd_Env : list string }.

Definition cmd_file (f : File) (c : Cmd) : Cmd := mk_Cmd (cmd_ExtraFiles c ++ [f]) (cmd_Env c).
Definition cmd_env (kv : string) (c : Cmd) : Cmd := mk_Cmd (cmd_ExtraFiles c) (cmd_Env c ++ [kv]).
Definition cmd_fd (c : Cmd) : Z := stdioFdCount + Z.of_nat (length (cmd_ExtraFiles c)) - 1.

Definition commandTemplate (maxprocs root : string) (p : Process) : Cmd :=
  let c := mk_Cmd (pr_ExtraFiles p) ["GOMAXPROCS=" +:+ maxprocs] in
  let c := if pr_ConsoleSocket p
           then let c := cmd_file ConsoleSocketFile c in cmd_env ("_LIBCONTAINER_CONSOLE=" +:+ Itoa (cmd_fd c)) c
           else c in
  let c := cmd_file ChildInitPipe c in
  let c := cmd_env ("_LIBCONTAINER_INITPIPE=" +:+ Itoa (cmd_fd c)) c in
  let c := cmd_env ("_LIBCONTAINER_STATEDIR=" +:+ root) c in
  let c := cmd_file ChildLogPipe c in
  let c := cmd_env ("_LIBCONTAINER_LOGPIPE=" +:+ Itoa (cmd_fd c)) c in
  cmd_env ("_LIBCONTAINER_LOGLEVEL=" +:+ pr_LogLevel p) c.

(** [includeExecFifo], when the FIFO can be opened. *)
Definition includeExecFifo (c : Cmd) : Cmd :=
  let c := cmd_file ExecFifo c in cmd_env ("_LIBCONTAINER_FIFOFD=" +:+ Itoa (cmd_fd c)) c.

(** The command of [newParentProcess]. *)
Definition newCommand (maxprocs root : string) (p : Process) : Cmd :=
  let c := commandTemplate maxprocs root p in
  if pr_Init p then cmd_env ("_LIBCONTAINER_INITTYPE=" +:+ initStandard) (includeExecFifo c)
  else cmd_env ("_LIBCONTAINER_INITTYPE=" +:+ initSetns) c.

(** [os.Getenv]: the first assignment of the variable. *)
Fixpoint Getenv (env : list string) (k : string) : string :=
  match env with
  | [] => ""
  | kv :: env' =>
      match cut "=" kv with
      | Some (k', v) => if decide (k' = k) then v else Getenv env' k
      | None => Getenv env' k
      end
  end.

(** ** Errors *)

(** [newSystemErrorWithCause(err, cause)] for an [err] that may be nil. *)
Definition newSystemErrorWithCause (err : option error) (cause : string) : error :=
  match err with Some e => ErrWrap cause e | None => ErrNew cause end.
Definition newSystemError (err : option error) : error := newSystemErrorWithCause err "".

(** [errors.Cause]. *)
Fixpoint Cause (e : error) : error :=
  match e with ErrWrap _ e' => Cause e' | e => e end.

Definition ENOSYS : Z := 38.
Definition EINVAL : Z := 22.

(** ** Calls *)

Record ExecUser := mk_ExecUser { eu_Uid : Z; eu_Gid : Z; eu_Sgids : list Z; eu_Home : string }.

(** What the two sides ask of the kernel, the cgroup managers, the files and the rest of
    runc; functions without an error have none in their answer's use. *)
Inductive hcall : Type → Type :=
  (* the parent: the process and its first two stages *)
  | CmdStart : hcall Z (* the pid *)
  | CopyBootstrap : hcall ()
  | ReadPid : hcall (Z * Z)
  | WriteCgroupns : hcall ()
  | FirstStageWait : hcall bool (* its status: success? *)
  | FirstStageKill : hcall ()
  | CmdWait : hcall ()
  | WaitFirstChild (pid : Z) : hcall ()
  | FindProcess (pid : Z) : hcall ()
  | PipeFds (pid : Z) : hcall (list string)
  (* the parent: cgroups, hooks, the container *)
  | OOMKillCount : hcall Z
  | DebugLevel : hcall bool
  | ManagerApply (pid : Z) : hcall ()
  | ManagerSet (c : Config) : hcall ()
  | ManagerDestroy : hcall ()
  | KillAllProcesses : hcall ()
  | IntelApply (pid : Z) : hcall ()
  | IntelSet (c : Config) : hcall ()
  | IntelDestroy : hcall ()
  | CurrentOCIState : hcall OCIState
  | RunHooks (name : string) (s : OCIState) : hcall ()
  | Prlimit (pid : Z) (r : Rlimit) : hcall ()
  | SetCreated : hcall () (* the time and the state of the container *)
  | UpdateState (fds : list string) : hcall Z (* InitProcessStartTime *)
  | SetStartTime (t : Z) : hcall ()
  | EnterPid (paths : gmap string string) (pid : Z) : hcall ()
  | IsCgroup2UnifiedMode : hcall bool
  | ParseCgroupFile (path : string) : hcall (gmap string string)
  | WriteCgroupProc (dir : string) (pid : Z) : hcall ()
  | OsStat (path : string) : hcall ()
  | WriteIntelRdtTasks (path : string) (pid : Z) : hcall ()
  (* the parent: before and after the start *)
  | Mkfifo (path : string) (mode : Z) : hcall ()
  | Chown (path : string) (uid gid : Z) : hcall ()
  | OsRemove (path : string) : hcall ()
  | NewSockPair : hcall ()
  | OsPipe : hcall ()
  | OpenPath (path : string) : hcall ()
  | CurrentState : hcall State
  | BootstrapData (init : bool) (nsPaths : gmap string string) : hcall ()
  (* the child: environment and sessions *)
  | Clearenv : hcall ()
  | Setenv (k v : string) : hcall ()
  | GetHome : hcall string
  | Getppid : hcall Z
  | Getpid : hcall Z
  | CloseConsoleSocket : hcall ()
  | SetKeyLabel (label : string) : hcall ()
  | JoinSessionKeyring (name : string) : hcall Z
  | ModKeyringPerm (key mask setbits : Z) : hcall ()
  | LinkSetUp (name : string) : hcall ()
  | ParseCIDR (s : string) : hcall string
  | ParseIP (s : string) : hcall (option string)
  | LinkByName (name : string) : hcall Z
  | RouteAdd (dst src gw : string) (index : Z) : hcall ()
  | GetEnabled : hcall ()
  (* the child: the root file system *)
  | PrepareRoot (c : Config) : hcall ()
  | MountCmd (cmd : string) : hcall ()
  | MountToRootfs (m : Mount) (rootfs label : string) (cgroupns : bool) : hcall ()
  | CreateDevices (c : Config) : hcall ()
  | SetupPtmx (c : Config) : hcall ()
  | SetupDevSymlinks (rootfs : string) : hcall ()
  | Chdir (path : string) : hcall ()
  | MsMoveRoot (rootfs : string) : hcall ()
  | PivotRoot (rootfs : string) : hcall ()
  | Chroot : hcall ()
  | ReOpenDevNull : hcall ()
  | MkdirAll (path : string) : hcall ()
  | RemountReadonly (m : Mount) : hcall ()
  | SetReadonly : hcall ()
  | Umask (mask : Z) : hcall Z (* the mask before *)
  (* the child: console *)
  | NewPty : hcall string (* the path of the slave *)
  | PtyResize (height width : Z) : hcall ()
  | PtyClose : hcall ()
  | MountConsole (slave : string) : hcall ()
  | SendFd : hcall ()
  | DupStdio (slave : string) : hcall ()
  | Setctty : hcall ()
  (* the child: confinement *)
  | Sethostname (name : string) : hcall ()
  | ApplyProfile (name : string) : hcall ()
  | WriteSystemProperty (k v : string) : hcall ()
  | ReadonlyPath (path : string) : hcall ()
  | MaskPath (path label : string) : hcall ()
  | GetParentDeathSignal : hcall Z
  | SetParentDeathSignal (sig : Z) : hcall ()
  | SetNoNewPrivs : hcall ()
  | SetExecLabel (label : string) : hcall ()
  | InitSeccomp (profile : Z) : hcall ()
  | CloseExecFrom (fd : Z) : hcall ()
  | CapabilitiesNew (c : Capabilities) : hcall ()
  | ApplyBoundingSet (c : Capabilities) : hcall ()
  | SetKeepCaps : hcall ()
  | ClearKeepCaps : hcall ()
  | ApplyCaps (c : Capabilities) : hcall ()
  (* the child: the user *)
  | GetPasswdPath : hcall string
  | GetGroupPath : hcall string
  | GetExecUserPath (user : string) (defaults : ExecUser) (passwd group : string) : hcall ExecUser
  | GetAdditionalGroupsPath (groups : list string) (group : string) : hcall (list Z)
  | StatRdev (path : string) : hcall Z
  | Fstat (fd : Z) : hcall (Z * Z) (* Rdev, Gid *)
  | Fchown (fd uid gid : Z) : hcall ()
  | ReadFile (path : string) : hcall string
  | Setgroups (groups : list Z) : hcall ()
  | Setgid (gid : Z) : hcall ()
  | Setuid (uid : Z) : hcall ()
  (* the child: the program *)
  | LookPath (file : string) : hcall string
  | OpenExecFifo (path : string) : hcall Z
  | WriteExecFifo (fd : Z) : hcall ()
  | CloseFd (fd : Z) : hcall ().

(** ** Messages

    What [WriteJSON] puts on the socket. A decoder ignores the fields it does not know, so
    an object of another kind decodes to the zero value. *)

Inductive json :=
  | JConfig (c : initConfig)
  | JSync (t : string)
  | JError (e : error).

Definition procError : string := "procError".
Definition procReady : string := "procReady".
Definition procRun : string := "procRun".
Definition procHooks : string := "procHooks".
Definition procResume : string := "procResume".

Definition decode_sync (m : json) : string := match m with JSync t => t | _ => "" end.
Definition decode_error (m : json) : error := match m with JError e => e | _ => ErrNew "" end.

(** The zero [initConfig] has no configuration, which is used at once. *)
Definition decode_config (m : json) : result initConfig :=
  match m with JConfig c => Ok c | _ => Panic "nil pointer dereference" end.

Abbreviation P A := (prog (pcall hcall json) A).

Definition host {X} (c : hcall X) : P X := call (Host c).

(** A call without an error. *)
Definition host_or {X} (d : X) (c : hcall X) : P X :=
  r ← ptry (host c); mret (match r with inr x => x | inl _ => d end).

Definition writeSync (t : string) : P () := call (PWrite (JSync t)).

Definition readSync (expected : string) : P () :=
  r ← ptry (call PRead);
  match r with
  | inl e =>
      if decide (e = EOF) then pthrow (ErrNew "parent closed synchronisation channel")
      else pthrow (ErrWrap "failed reading error from parent" e)
  | inr m =>
      if decide (decode_sync m = procError) then
        ierr ← pmap_err (ErrWrap "failed reading error from parent") (call PRead);
        pthrow (decode_error ierr)
      else if decide (decode_sync m = expected) then mret tt
      else pthrow (ErrNew "invalid synchronisation flag from parent")
  end.

(** One turn of the loop of [parseSync], on the variables of the callback: the next turn,
    or the end with the error. *)
Definition parseSync_turn {S} (fn : S → string → P (S * option error)) (s : S) : P (S + (S * option error)) :=
  r ← ptry (call PRead);
  match r with
  | inl e => mret (inr (s, if decide (e = EOF) then None else Some e))
  | inr m =>
      if decide (decode_sync m = procError) then
        r ← ptry (call PRead);
        match r with
        | inl e =>
            if decide (e = EOF) then plift (Panic "No error following JSON procError payload.")
            else mret (inr (s, Some (newSystemErrorWithCause (Some e) "decoding proc error from init")))
        | inr m => mret (inr (s, Some (decode_error m)))
        end
      else
        r ← fn s (decode_sync m);
        match r with
        | (s', None) => mret (inl s')
        | (s', Some e) => mret (inr (s', Some e))
        end
  end.

Definition parseSync {S} (fn : S → string → P (S * option error)) (s : S) : P (S * option error) :=
  Loop (parseSync_turn fn) s Return.
