(* ===== verification/InitParent.v ===== *)
(** * Starting a process: the parent

    [initProcess] and [setnsProcess] of [libcontainer/process_linux.go]. Until its first
    stage has exited, [cmd.Process] is that stage; from then on it is the child of the
    pair, so the deferred cleanup is written once for each of them. *)

From S2P Require Import Prelude GoStd GoPath Container Proc InitSync.

Definition Prestart : string := "prestart".
Definition CreateRuntime : string := "createRuntime".
Definition StateCreating : string := "creating".

Definition with_Pid (pid : Z) (status : string) (s : OCIState) : OCIState :=
  mk_OCIState (os_Version s) (os_ID s) status pid (os_Bundle s) (os_Annotations s).

Fixpoint create_networks (configs : list Network) (acc : list network) : result (list network) :=
  match configs with
  | [] => Ok acc
  | n :: configs' =>
      match getStrategy (nw_Type n) with
      | Ok _ => create_networks configs' (acc ++ [mk_network n ""])
      | Err e => Err e
      | Panic x => Panic x
      end
  end.

Definition setupRlimits (limits : list Rlimit) (pid : Z) : P () :=
  pfor (λ r, pmap_err (ErrWrap "error setting rlimit type") (host (Prlimit pid r))) limits.

(** The process a call of [cmd.Process] concerns. *)
Inductive target := FirstStage | FinalChild.

Definition target_Kill (g : target) : P () :=
  match g with FirstStage => host FirstStageKill | FinalChild => call PKill end.
Definition cmd_Wait (g : target) : P () :=
  match g with FirstStage => host CmdWait | FinalChild => call PWait end.

(** What all starts do first. *)
Definition first_child (r : Z * Z) : P Z :=
  _ ← pignore (host (WaitFirstChild r.2)); mret r.1.

(** ** [initProcess] *)

Section Init.
Context (config : initConfig) (intelRdt sharePidns : bool).

Let Config := ic_Config config.
Let newns : bool := ns_Contains (cf_Namespaces Config) NEWNS.

Definition init_wait (g : target) : P (option error) :=
  err ← perr (cmd_Wait g);
  _ ← pwhen sharePidns (pignore (host KillAllProcesses));
  mret err.

Definition init_terminate (g : target) : P (option error) :=
  err ← perr (target_Kill g);
  werr ← init_wait g;
  mret (match err with Some e => Some e | None => werr end).

Definition oomError : string := "container init was OOM-killed (memory limit too low?)".

(** The deferred cleanup. *)
Definition init_cleanup (g : target) (retErr : error) : P error :=
  oom ← ptry (host OOMKillCount);
  retErr ← match oom with
           | inl _ => mret retErr
           | inr n =>
               if 0 <? n then
                 debug ← host_or false DebugLevel;
                 mret (if debug : bool then newSystemErrorWithCause (Some retErr) oomError
                       else newSystemError (Some (ErrNew oomError)))
               else mret retErr
           end;
  _ ← init_terminate g;
  _ ← pignore (host ManagerDestroy);
  _ ← pwhen intelRdt (pignore (host IntelDestroy));
  mret retErr.

Definition getChildPid : P Z :=
  r ← ptry (host ReadPid);
  match r with
  | inl e => _ ← pignore (host CmdWait); pthrow e
  | inr r => first_child r
  end.

Definition waitForChildExit (childPid : Z) : P () :=
  r ← ptry (host FirstStageWait);
  match r with
  | inl e => _ ← pignore (host CmdWait); pthrow e
  | inr false => _ ← pignore (host CmdWait); pthrow (ErrNew "exit status")
  | inr true => host (FindProcess childPid)
  end.

(** [init_start], until its process is the final child: the pid and the descriptors. *)
Definition init_launch (pid : Z) : P (Z * list string) :=
  _ ← pmap_err (ErrWrap "applying cgroup configuration for process") (host (ManagerApply pid));
  _ ← pwhen intelRdt (pmap_err (ErrWrap "applying Intel RDT configuration for process") (host (IntelApply pid)));
  _ ← pmap_err (ErrWrap "copying bootstrap data to pipe") (host CopyBootstrap);
  childPid ← pmap_err (ErrWrap "getting the final child's pid from pipe") getChildPid;
  fds ← pmap_err (ErrWrap "getting pipe fds for pid") (host (PipeFds childPid));
  _ ← pwhen (ns_Contains (cf_Namespaces Config) NEWCGROUP
             && bool_decide (ns_PathOf (cf_Namespaces Config) NEWCGROUP = ""))
        (pmap_err (ErrWrap "sending synchronization value to init process") (host WriteCgroupns));
  _ ← pmap_err (ErrWrap "waiting for our first child to exit") (waitForChildExit childPid);
  mret (childPid, fds).

Definition createNetworkInterfaces (c : initConfig) : P initConfig :=
  nets ← plift (create_networks (cf_Networks (ic_Config c)) (ic_Networks c));
  mret (set_Networks nets c).

Definition updateSpecState (c : initConfig) : P initConfig :=
  s ← host CurrentOCIState;
  mret (set_SpecState (Some s) c).

Definition sendConfig (c : initConfig) : P () := call (PWrite (JConfig c)).

(** The cgroups and the hooks, in the callback. *)
Definition set_cgroups (when : string) : P () :=
  _ ← pmap_err (ErrWrap ("setting cgroup config for " +:+ when +:+ " process")) (host (ManagerSet Config));
  pwhen intelRdt
    (pmap_err (ErrWrap ("setting Intel RDT config for " +:+ when +:+ " process")) (host (IntelSet Config))).

Definition run_hooks (pid : Z) : P () :=
  pwhen (cf_Hooks Config)
    (s ← host CurrentOCIState;
     let s := with_Pid pid StateCreating s in
     _ ← host (RunHooks Prestart s);
     host (RunHooks CreateRuntime s)).

Definition on_ready (pid : Z) (fds : list string) : P () :=
  _ ← pmap_err (ErrWrap "setting rlimits for ready process") (setupRlimits (ic_Rlimits config) pid);
  _ ← pwhen (negb newns) (_ ← set_cgroups "ready"; run_hooks pid);
  _ ← pignore (host SetCreated);
  state ← ptry (host (UpdateState fds));
  match state with
  | inl uerr => pthrow (newSystemErrorWithCause None "store init state")
  | inr startTime =>
      _ ← pignore (host (SetStartTime startTime));
      pmap_err (ErrWrap "writing syncT 'run'") (writeSync procRun)
  end.

Definition on_hooks (pid : Z) : P () :=
  _ ← set_cgroups "procHooks";
  _ ← run_hooks pid;
  pmap_err (ErrWrap "writing syncT 'resume'") (writeSync procResume).

(** [sentRun] and [sentResume]. *)
Record sentT := mk_sentT { sentRun : bool; sentResume : bool }.

(** The callback of [parseSync]. *)
Definition init_on_sync (pid : Z) (fds : list string) (s : sentT) (t : string) : P (sentT * option error) :=
  if decide (t = procReady) then
    err ← perr (on_ready pid fds);
    mret (match err with None => mk_sentT true (sentResume s) | _ => s end, err)
  else if decide (t = procHooks) then
    err ← perr (on_hooks pid);
    mret (match err with None => mk_sentT (sentRun s) true | _ => s end, err)
  else mret (s, Some (newSystemError (Some (ErrNew "invalid JSON payload from child")))).

(** The rest of [init_start]. *)
Definition init_synchronise (pid : Z) (fds : list string) : P () :=
  c ← pmap_err (ErrWrap "creating network interfaces") (createNetworkInterfaces config);
  c ← pmap_err (ErrWrap "updating the spec state") (updateSpecState c);
  _ ← pmap_err (ErrWrap "sending config to init process") (sendConfig c);
  r ← parseSync (init_on_sync pid fds) (mk_sentT false false);
  let '(sent, ierr) := r in
  if negb (sentRun sent) then pthrow (newSystemErrorWithCause ierr "container init")
  else if newns && negb (sentResume sent) then
    pthrow (newSystemError (Some (ErrNew
      "could not synchronise after executing prestart and CreateRuntime hooks with container process")))
  else
    _ ← pmap_err (ErrWrap "shutting down init pipe") (call PShutdown);
    match ierr with
    | Some e => _ ← init_wait FinalChild; pthrow e
    | None => mret tt
    end.

Definition init_start : P () :=
  pdefer (pignore (call PClose))
    (pid ← pmap_err (ErrWrap "starting init process command") (host CmdStart);
     r ← pon_error (init_cleanup FirstStage) (init_launch pid);
     pon_error (init_cleanup FinalChild) (init_synchronise r.1 r.2)).
End Init.

(** ** [setnsProcess] *)

Record setnsProcess := mk_setnsProcess {
  sp_cgroupPaths : gmap string string;
  sp_rootlessCgroups : bool;
  sp_intelRdtPath : string;
  sp_config : initConfig;
  sp_bootstrapData : bool; (* is it there? *)
  sp_initProcessPid : Z
}.

Definition UnifiedMountpoint : string := "/sys/fs/cgroup".

Section Setns.
Context (p : setnsProcess).

Definition setns_wait (g : target) : P (option error) := perr (cmd_Wait g).

Definition setns_terminate (g : target) : P (option error) :=
  err ← perr (target_Kill g);
  werr ← setns_wait g;
  mret (match err with Some e => Some e | None => werr end).

Definition setns_cleanup (oom : Z) (g : target) (retErr : error) : P error :=
  newOom ← ptry (host OOMKillCount);
  let retErr := match newOom with
                | inr n => if n =? oom then retErr else newSystemErrorWithCause (Some retErr) "possibly OOM-killed"
                | inl _ => retErr
                end in
  _ ← setns_terminate g;
  mret retErr.

Definition execSetns : P Z :=
  r ← ptry (host FirstStageWait);
  match r with
  | inl e => _ ← pignore (host CmdWait); pthrow (newSystemErrorWithCause (Some e) "waiting on setns process to finish")
  | inr false => _ ← pignore (host CmdWait); pthrow (newSystemError (Some (ErrNew "exit status")))
  | inr true =>
      r ← ptry (host ReadPid);
      match r with
      | inl e => _ ← pignore (host CmdWait); pthrow (newSystemErrorWithCause (Some e) "reading pid from init pipe")
      | inr r =>
          pid ← first_child r;
          _ ← host (FindProcess pid);
          mret pid
      end
  end.

(** [setns_start], until its process is the final child. *)
Definition setns_launch : P Z :=
  _ ← pwhen (sp_bootstrapData p) (pmap_err (ErrWrap "copying bootstrap data to pipe") (host CopyBootstrap));
  pmap_err (ErrWrap "executing setns process") execSetns.

(** The process joins the cgroups of the container, on cgroup v2 the one of its init. *)
Definition enter_cgroups (pid : Z) : P () :=
  pwhen (negb (bool_decide (sp_cgroupPaths p = ∅)))
    (err ← perr (host (EnterPid (sp_cgroupPaths p) pid));
     match err with
     | Some e =>
         if sp_rootlessCgroups p then mret tt
         else
           v2 ← host_or false IsCgroup2UnifiedMode;
           err ← (if v2 : bool then
                    initCg ← ptry (host (ParseCgroupFile ("/proc/" +:+ Itoa (sp_initProcessPid p) +:+ "/cgroup")));
                    match initCg with
                    | inr cg => match cg !! "" with
                                | Some path => perr (host (WriteCgroupProc (path_Join UnifiedMountpoint path) pid))
                                | None => mret (Some e)
                                end
                    | inl _ => mret (Some e)
                    end
                  else mret (Some e));
           match err with
           | Some e => pthrow (newSystemErrorWithCause (Some e) ("adding pid " +:+ Itoa pid +:+ " to cgroups"))
           | None => mret tt
           end
     | None => mret tt
     end).

Definition enter_rdt (pid : Z) : P () :=
  pwhen (negb (bool_decide (sp_intelRdtPath p = "")))
    (err ← perr (host (OsStat (sp_intelRdtPath p)));
     match err with
     | None =>
         pmap_err (ErrWrap ("adding pid " +:+ Itoa pid +:+ " to Intel RDT resource control filesystem"))
           (host (WriteIntelRdtTasks (sp_intelRdtPath p) pid))
     | Some _ => mret tt
     end).

Definition setns_on_sync (_ : ()) (t : string) : P (() * option error) :=
  if decide (t = procReady) then plift (Panic "unexpected procReady in setns")
  else if decide (t = procHooks) then plift (Panic "unexpected procHooks in setns")
  else mret (tt, Some (newSystemError (Some (ErrNew "invalid JSON payload from child")))).

(** The rest of [setns_start]. *)
Definition setns_synchronise (pid : Z) : P () :=
  _ ← enter_cgroups pid;
  _ ← enter_rdt pid;
  _ ← pmap_err (ErrWrap "setting rlimits for process") (setupRlimits (ic_Rlimits (sp_config p)) pid);
  _ ← pmap_err (ErrWrap "writing config to pipe") (call (PWrite (JConfig (sp_config p))));
  r ← parseSync setns_on_sync tt;
  _ ← pmap_err (ErrWrap "calling shutdown on init pipe") (call PShutdown);
  match r.2 with
  | Some e => _ ← setns_wait FinalChild; pthrow e
  | None => mret tt
  end.

Definition setns_start : P () :=
  pdefer (pignore (call PClose))
    (oom ← host_or 0 OOMKillCount;
     _ ← pmap_err (ErrWrap "starting setns process") (host CmdStart);
     pid ← pon_error (setns_cleanup oom FirstStage) setns_launch;
     pon_error (setns_cleanup oom FinalChild) (setns_synchronise pid)).
End Setns.

(** ** [container_linux.go]: [Start] *)

(** [newInitProcess] and [newSetnsProcess]. *)
Inductive starting :=
  | StartInit (config : initConfig) (intelRdt sharePidns : bool)
  | StartSetns (p : setnsProcess).

Definition starting_start (s : starting) : P () :=
  match s with
  | StartInit config intelRdt share => init_start config intelRdt share
  | StartSetns p => setns_start p
  end.

Definition starting_terminate (s : starting) : P (option error) :=
  match s with
  | StartInit _ _ share => init_terminate share FinalChild
  | StartSetns _ => setns_terminate FinalChild
  end.

Definition Poststart : string := "poststart".

Section Start.
Context (cf : Config) (id root : string) (skipDevices intelRdt : bool).

Let fifoName : string := path_Join root execFifoFilename.

Definition createExecFifo : P () :=
  rootuid ← plift (HostUID cf 0);
  rootgid ← plift (HostGID cf 0);
  r ← ptry (host (OsStat fifoName));
  match r with
  | inr _ => pthrow (ErrNew ("exec fifo " +:+ fifoName +:+ " already exists"))
  | inl _ =>
      oldMask ← host_or 0 (Umask 0);
      r ← ptry (host (Mkfifo fifoName 402 (* 0622 *)));
      _ ← pignore (host (Umask oldMask));
      match r with
      | inl e => pthrow e
      | inr _ => host (Chown fifoName rootuid rootgid)
      end
  end.

Definition deleteExecFifo : P () := pignore (host (OsRemove fifoName)).

(** The namespaces to join. *)
Definition ns_maps : gmap string string :=
  foldl (λ m ns, if decide (ns_Path ns = "") then m else <[ns_Type ns := ns_Path ns]> m) ∅ (cf_Namespaces cf).

Definition share_pidns : bool := bool_decide (is_Some (ns_maps !! NEWPID)).

Definition newInitProcess (p : Process) : P starting :=
  _ ← host (BootstrapData true ns_maps);
  mret (StartInit (newInitConfig cf id p) intelRdt share_pidns).

Definition newSetnsProcess (p : Process) : P starting :=
  state ← pmap_err (ErrWrap "getting container's current state") (host CurrentState);
  _ ← host (BootstrapData false (s_NamespacePaths state));
  mret (StartSetns (mk_setnsProcess (s_CgroupPaths state) (cf_RootlessCgroups cf) (s_IntelRdtPath state)
    (newInitConfig cf id p) true (s_InitProcessPid state))).

Definition newParentProcess (p : Process) : P starting :=
  _ ← pmap_err (ErrWrap "creating new init pipe") (host NewSockPair);
  _ ← pmap_err (ErrWrap "Unable to create the log pipe") (host OsPipe);
  if negb (pr_Init p) then newSetnsProcess p
  else
    _ ← pmap_err (ErrWrap "including execfifo in cmd.Exec setup") (host (OpenPath fifoName));
    newInitProcess p.

(** The hooks that run once the process is there. *)
Definition run_poststart (parent : starting) : P () :=
  s ← host CurrentOCIState;
  err ← perr (host (RunHooks Poststart s));
  match err with
  | Some e => _ ← starting_terminate parent; pthrow e
  | None => mret tt
  end.

(** [start], and [Start]. *)
Definition start_process (p : Process) : P () :=
  parent ← pmap_err (ErrWrap "creating new parent process") (newParentProcess p);
  _ ← pmap_err (ErrWrap "starting container process") (starting_start parent);
  pwhen (pr_Init p && cf_Hooks cf) (run_poststart parent).

Definition Container_Start (p : Process) : P () :=
  if skipDevices then pthrow (newGenericError "can't start container with SkipDevices set" ConfigInvalid)
  else
    _ ← pwhen (pr_Init p) createExecFifo;
    err ← perr (start_process p);
    match err with
    | Some e => _ ← pwhen (pr_Init p) deleteExecFifo; pthrow e
    | None => mret tt
    end.

(** The command, at whose end its files are closed. *)
Definition runc_command (p : Process) : P () := pdefer (pignore (call PClose)) (Container_Start p).
End Start.
