(* ===== verification/InitChild.v ===== *)
(** * Starting a process: the child

    [StartInitialization] of [libcontainer/factory_linux.go], [init_linux.go],
    [standard_init_linux.go], [setns_init_linux.go], and from [rootfs_linux.go] the order
    in which the root file system is set up. *)

From S2P Require Import Prelude GoStd GoPath Container Rootfs Proc InitSync InitParent.

Definition CreateContainer : string := "createContainer".
Definition StartContainer : string := "startContainer".
Definition StateCreated : string := "created".

(** [*p] of a pointer that may be nil. *)
Definition deref {A} (p : option A) : result A :=
  match p with Some x => Ok x | None => Panic "nil pointer dereference" end.

(** ** [init_linux.go] *)

(** [strings.SplitN(pair, "=", 2)] has two parts when there is a separator. *)
Definition populateProcessEnvironment (env : list string) : P () :=
  pfor (λ pair, match cut "=" pair with
                | Some (k, v) => host (Setenv k v)
                | None => pthrow (ErrNew ("invalid environment '" +:+ pair +:+ "'"))
                end) env.

(** Standard input, error and output. *)
Definition fixStdioPermissions (u : ExecUser) : P () :=
  null ← host (StatRdev "/dev/null");
  pfor (λ fd,
    s ← host (Fstat fd);
    if fst s =? null then mret tt
    else
      r ← perr (host (Fchown fd (eu_Uid u) (snd s)));
      match r with
      | None => mret tt
      | Some e => if decide (e = ErrSys EINVAL ∨ e = ErrSys EPERM) then mret tt else pthrow e
      end) [0; 2; 1].

Definition setupUser (config : initConfig) : P () :=
  let defaultExecUser := mk_ExecUser 0 0 [] "/" in
  passwdPath ← host GetPasswdPath;
  groupPath ← host GetGroupPath;
  execUser ← host (GetExecUserPath (ic_User config) defaultExecUser passwdPath groupPath);
  addGroups ← match ic_AdditionalGroups config with
              | [] => mret []
              | groups => host (GetAdditionalGroupsPath groups groupPath)
              end;
  _ ← pmap_err (λ _, ErrNew "cannot set uid to unmapped user in user namespace")
        (plift (HostUID (ic_Config config) (eu_Uid execUser)));
  _ ← pmap_err (λ _, ErrNew "cannot set gid to unmapped user in user namespace")
        (plift (HostGID (ic_Config config) (eu_Gid execUser)));
  _ ← pwhen (ic_RootlessEUID config && negb (bool_decide (addGroups = [])))
        (pthrow (ErrNew "cannot set any additional groups in a rootless container"));
  _ ← fixStdioPermissions execUser;
  r ← ptry (host (ReadFile "/proc/self/setgroups"));
  setgroups ← match r with
              | inl e => if IsNotExist e then mret "" else pthrow e
              | inr s => mret s
              end;
  let allowSupGroups := negb (ic_RootlessEUID config) && negb (bool_decide (TrimSpace setgroups = "deny")) in
  _ ← pwhen allowSupGroups (host (Setgroups (eu_Sgids execUser ++ addGroups)));
  _ ← host (Setgid (eu_Gid execUser));
  _ ← host (Setuid (eu_Uid execUser));
  envHome ← host_or "" GetHome;
  pwhen (bool_decide (envHome = "")) (host (Setenv "HOME" (eu_Home execUser))).

Definition no_capabilities : Capabilities := mk_Capabilities [] [] [] [] [].

(** The capabilities the process is to have. *)
Definition process_caps (config : initConfig) : Capabilities :=
  match ic_Capabilities config with
  | Some c => c
  | None => match sg_Capabilities (cf_Settings (ic_Config config)) with Some c => c | None => no_capabilities end
  end.

Definition finalizeNamespace (config : initConfig) : P () :=
  _ ← pmap_err (ErrWrap "close exec fds") (host (CloseExecFrom (ic_PassedFilesCount config + 3)));
  let caps := process_caps config in
  _ ← host (CapabilitiesNew caps);
  _ ← pmap_err (ErrWrap "apply bounding set") (host (ApplyBoundingSet caps));
  _ ← pmap_err (ErrWrap "set keep caps") (host SetKeepCaps);
  _ ← pmap_err (ErrWrap "setup user") (setupUser config);
  _ ← pwhen (negb (bool_decide (ic_Cwd config = "")))
        (pmap_err (ErrWrap "chdir to cwd set in config.json failed") (host (Chdir (ic_Cwd config))));
  _ ← pmap_err (ErrWrap "clear keep caps") (host ClearKeepCaps);
  pmap_err (ErrWrap "apply caps") (host (ApplyCaps caps)).

Definition setupConsole (config : initConfig) (mount : bool) : P () :=
  pdefer (pignore (host CloseConsoleSocket))
    (slavePath ← host NewPty;
     pdefer (pignore (host PtyClose))
       (_ ← pwhen (negb (ic_ConsoleHeight config =? 0) && negb (ic_ConsoleWidth config =? 0))
              (host (PtyResize (ic_ConsoleHeight config) (ic_ConsoleWidth config)));
        _ ← pwhen mount (host (MountConsole slavePath));
        _ ← host SendFd;
        host (DupStdio slavePath))).

Definition syncParentReady : P () := _ ← writeSync procReady; readSync procRun.
Definition syncParentHooks : P () := _ ← writeSync procHooks; readSync procResume.

Definition setupNetwork (config : initConfig) : P () :=
  pfor (λ n, _ ← plift (getStrategy (nw_Type (nt_Network n))); host (LinkSetUp "lo")) (ic_Networks config).

Definition setupRoute (config : Config) : P () :=
  pfor (λ r,
    dst ← host (ParseCIDR (rt_Destination r));
    src ← host_or None (ParseIP (rt_Source r));
    match src with
    | None => pthrow (ErrNew ("Invalid source for route: " +:+ rt_Source r))
    | Some src =>
        gw ← host_or None (ParseIP (rt_Gateway r));
        match gw with
        | None => pthrow (ErrNew ("Invalid gateway for route: " +:+ rt_Gateway r))
        | Some gw => l ← host (LinkByName (rt_InterfaceName r)); host (RouteAdd dst src gw l)
        end
    end) (sg_Routes (cf_Settings config)).

(** ** [rootfs_linux.go] *)

Definition MS_RDONLY : Z := 1.

Definition needsSetupDev (config : Config) : bool :=
  forallb (λ m, negb (bool_decide (mt_Device m = "bind") && bool_decide (CleanPath (mt_Destination m) = "/dev")))
    (cf_Mounts config).

Definition setup_mount (config : Config) (hasCgroupns : bool) (m : Mount) : P () :=
  _ ← pfor (λ cmd, pmap_err (ErrWrap "running premount command") (host (MountCmd cmd)))
        (mo_PremountCmds (mt_Options m));
  _ ← pmap_err (ErrWrap ("mounting " +:+ mt_Source m +:+ " to rootfs at " +:+ mt_Destination m))
        (host (MountToRootfs m (cf_Rootfs config) (sg_MountLabel (cf_Settings config)) hasCgroupns));
  pfor (λ cmd, pmap_err (ErrWrap "running postmount command") (host (MountCmd cmd)))
    (mo_PostmountCmds (mt_Options m)).

(** [prepareRootfs] before the hooks of the parent, and after them. *)
Definition mount_rootfs (config : Config) : P () :=
  _ ← pmap_err (ErrWrap "preparing rootfs") (host (PrepareRoot config));
  _ ← pfor (setup_mount config (ns_Contains (cf_Namespaces config) NEWCGROUP)) (cf_Mounts config);
  pwhen (needsSetupDev config)
    (_ ← pmap_err (ErrWrap "creating device nodes") (host (CreateDevices config));
     _ ← pmap_err (ErrWrap "setting up ptmx") (host (SetupPtmx config));
     pmap_err (ErrWrap "setting up /dev symlinks") (host (SetupDevSymlinks (cf_Rootfs config)))).

Definition jail (config : Config) : P () :=
  if sg_NoPivotRoot (cf_Settings config) then host (MsMoveRoot (cf_Rootfs config))
  else if ns_Contains (cf_Namespaces config) NEWNS then host (PivotRoot (cf_Rootfs config))
  else host Chroot.

(** The hooks that run in the child. *)
Definition container_hooks (iConfig : initConfig) (name status : string) : P () :=
  s ← plift (deref (ic_SpecState iConfig));
  pid ← host_or 0 Getpid;
  pwhen (cf_Hooks (ic_Config iConfig)) (host (RunHooks name (with_Pid pid status s))).

Definition enter_rootfs (iConfig : initConfig) : P () :=
  let config := ic_Config iConfig in
  _ ← pmap_err (ErrWrap ("changing dir to " +:+ cf_Rootfs config)) (host (Chdir (cf_Rootfs config)));
  _ ← container_hooks iConfig CreateContainer StateCreating;
  _ ← pmap_err (ErrWrap "jailing process inside rootfs") (jail config);
  _ ← pwhen (needsSetupDev config)
        (pmap_err (ErrWrap "reopening /dev/null inside container") (host ReOpenDevNull));
  pwhen (negb (bool_decide (ic_Cwd iConfig = ""))) (host (MkdirAll (ic_Cwd iConfig))).

Definition prepareRootfs (iConfig : initConfig) : P () :=
  _ ← mount_rootfs (ic_Config iConfig);
  _ ← syncParentHooks;
  enter_rootfs iConfig.

Definition finalizeRootfs (config : Config) : P () :=
  _ ← match list_find (λ m, CleanPath (mt_Destination m) = "/dev") (cf_Mounts config) with
      | Some (_, m) =>
          pwhen (Z.land (mo_Flags (mt_Options m)) MS_RDONLY =? MS_RDONLY)
            (pmap_err (ErrWrap ("remounting " +:+ mt_Destination m +:+ " as readonly")) (host (RemountReadonly m)))
      | None => mret tt
      end;
  _ ← pwhen (sg_Readonlyfs (cf_Settings config))
        (pmap_err (ErrWrap "setting rootfs as readonly") (host SetReadonly));
  pignore (host (Umask (match sg_Umask (cf_Settings config) with Some m => m | None => 18 (* 0022 *) end))).

(** ** [standard_init_linux.go] *)

Definition session_ring (config : initConfig) : string := "_ses." +:+ ic_ContainerId config.

Definition getSessionRingParams (config : initConfig) : string * Z * Z :=
  (session_ring config, 0xffffffff,
   if ns_Contains (cf_Namespaces (ic_Config config)) NEWUSER then 0x8 else 0x80000).

(** A key ring that is not supported is no error. *)
Definition join_keyring (name : string) (then_ : Z → P ()) : P () :=
  r ← ptry (host (JoinSessionKeyring name));
  match r with
  | inl e => if decide (Cause e = ErrSys ENOSYS) then mret tt else pthrow (ErrWrap "join session keyring" e)
  | inr key => then_ key
  end.

Definition pdeath_Restore (p : Z) : P () :=
  if p =? 0 then mret tt
  else
    current ← host GetParentDeathSignal;
    if p =? current then mret tt else host (SetParentDeathSignal p).

(** [if config.Seccomp != nil && ... { InitSeccomp }] *)
Definition init_seccomp (config : initConfig) (b : bool) : P () :=
  match sg_Seccomp (cf_Settings (ic_Config config)) with
  | Some s => pwhen b (host (InitSeccomp s))
  | None => mret tt
  end.

(** [config.Args[0]]. *)
Definition arg0 (config : initConfig) : result string :=
  match ic_Args config with a :: _ => Ok a | [] => Panic "index out of range" end.

(** [unix.Exec], which only returns with an error. *)
Definition unix_Exec : P () := r ← call PExec; match r : Empty_set with end.

Section Standard.
Context (config : initConfig) (parentPid fifoFd : Z).

Let cf := ic_Config config.
Let sg := cf_Settings cf.
Let keyring : bool := negb (sg_NoNewKeyring sg).

(** [Init] in the order of its body: before the console, up to the readiness of the
    process, the confinement, and the program. *)
Definition setup_session : P () :=
  _ ← pwhen keyring
        (let '(ringname, keepperms, newperms) := getSessionRingParams config in
         join_keyring ringname (λ key,
           pmap_err (ErrWrap "mod keyring permissions") (host (ModKeyringPerm key keepperms newperms))));
  _ ← setupNetwork config;
  _ ← setupRoute cf;
  pignore (host GetEnabled).

Definition setup_container : P Z :=
  _ ← pwhen (ic_CreateConsole config)
        (_ ← setupConsole config true; pmap_err (ErrWrap "setctty") (host Setctty));
  _ ← pwhen (ns_Contains (cf_Namespaces cf) NEWNS) (finalizeRootfs cf);
  _ ← pwhen (negb (bool_decide (sg_Hostname sg = "")))
        (pmap_err (ErrWrap "sethostname") (host (Sethostname (sg_Hostname sg))));
  _ ← pmap_err (ErrWrap "apply apparmor profile") (host (ApplyProfile (ic_AppArmorProfile config)));
  _ ← pfor (λ kv, pmap_err (ErrWrap ("write sysctl key " +:+ fst kv)) (host (WriteSystemProperty (fst kv) (snd kv))))
        (map_to_list (sg_Sysctl sg));
  _ ← pfor (λ path, pmap_err (ErrWrap ("readonly path " +:+ path)) (host (ReadonlyPath path))) (sg_ReadonlyPaths sg);
  _ ← pfor (λ path, pmap_err (ErrWrap ("mask path " +:+ path)) (host (MaskPath path (sg_MountLabel sg))))
        (cf_MaskPaths cf);
  pdeath ← pmap_err (ErrWrap "get pdeath signal") (host GetParentDeathSignal);
  _ ← pwhen (ic_NoNewPrivileges config) (pmap_err (ErrWrap "set nonewprivileges") (host SetNoNewPrivs));
  mret pdeath.

Definition confine (pdeath : Z) : P () :=
  _ ← init_seccomp config (negb (ic_NoNewPrivileges config));
  _ ← finalizeNamespace config;
  pmap_err (ErrWrap "restore pdeath signal") (pdeath_Restore pdeath).

(** Up to the program, once the socket is closed. *)
Definition await_start : P () :=
  fd ← pmap_err (ErrWrap "open exec fifo") (host (OpenExecFifo ("/proc/self/fd/" +:+ Itoa fifoFd)));
  _ ← pmap_err (ErrWrap "write 0 exec fifo") (host (WriteExecFifo fd));
  _ ← pignore (host (CloseFd fifoFd));
  _ ← pmap_err (ErrWrap "init seccomp") (init_seccomp config (ic_NoNewPrivileges config));
  _ ← container_hooks config StartContainer StateCreated;
  pmap_err (ErrWrap "exec user process") unix_Exec.

Definition run_program : P () :=
  ppid ← host_or 0 Getppid;
  if negb (ppid =? parentPid) then call PDie
  else
    arg ← plift (arg0 config);
    _ ← host (LookPath arg);
    _ ← pignore (call PClose);
    await_start.

Definition Standard_Init : P () :=
  _ ← pwhen keyring (host (SetKeyLabel (ic_ProcessLabel config)));
  pdefer (pwhen keyring (pignore (host (SetKeyLabel ""))))
    (_ ← setup_session;
     _ ← prepareRootfs config;
     pdeath ← setup_container;
     _ ← pmap_err (ErrWrap "sync ready") syncParentReady;
     _ ← pmap_err (ErrWrap "set process label") (host (SetExecLabel (ic_ProcessLabel config)));
     pdefer (pignore (host (SetExecLabel "")))
       (_ ← confine pdeath; run_program)).
End Standard.

(** ** [setns_init_linux.go] *)

(** [system.Execv]. *)
Definition Execv (file : string) : P () := _ ← host (LookPath file); unix_Exec.

Definition Setns_Init (config : initConfig) : P () :=
  let keyring := negb (sg_NoNewKeyring (cf_Settings (ic_Config config))) in
  _ ← pwhen keyring (host (SetKeyLabel (ic_ProcessLabel config)));
  pdefer (pwhen keyring (pignore (host (SetKeyLabel ""))))
    (_ ← pwhen keyring (join_keyring (session_ring config) (λ _, mret tt));
     _ ← pwhen (ic_CreateConsole config) (_ ← setupConsole config false; host Setctty);
     _ ← pwhen (ic_NoNewPrivileges config) (host SetNoNewPrivs);
     _ ← host (SetExecLabel (ic_ProcessLabel config));
     pdefer (pignore (host (SetExecLabel "")))
       (_ ← init_seccomp config (negb (ic_NoNewPrivileges config));
        _ ← finalizeNamespace config;
        _ ← host (ApplyProfile (ic_AppArmorProfile config));
        _ ← pmap_err (ErrWrap "init seccomp") (init_seccomp config (ic_NoNewPrivileges config));
        arg ← plift (arg0 config);
        Execv arg)).

(** ** [factory_linux.go] *)

Inductive initer :=
  | linuxSetnsInit (config : initConfig)
  | linuxStandardInit (config : initConfig) (parentPid fifoFd : Z).

Definition newContainerInit (t : string) (fifoFd : Z) : P initer :=
  m ← call PRead;
  config ← plift (decode_config m);
  _ ← populateProcessEnvironment (ic_Env config);
  if decide (t = initSetns) then mret (linuxSetnsInit config)
  else if decide (t = initStandard) then
    parentPid ← host_or 0 Getppid;
    mret (linuxStandardInit config parentPid fifoFd)
  else pthrow (ErrNew ("unknown init type " +:+ t)).

Definition initer_Init (i : initer) : P () :=
  match i with
  | linuxSetnsInit config => Setns_Init config
  | linuxStandardInit config parentPid fifoFd => Standard_Init config parentPid fifoFd
  end.

(** The deferred report of the error. *)
Definition send_error (err : option error) : P () :=
  werr ← perr (writeSync procError);
  match werr with
  | Some _ => mret tt
  | None => pignore (call (PWrite (JError (newSystemError err))))
  end.

Definition error_of {A} (r : result A) : option error := match r with Err e => Some e | _ => None end.

Definition reporting (m : P ()) : P () := pthen m (λ r, pthen (send_error (error_of r)) (λ _, Return r)).

(** The number in a variable of the environment. *)
Definition env_fd (env : list string) (name : string) : result Z :=
  match Atoi (Getenv env name) with
  | (n, None) => Ok n
  | _ => Err (ErrNew ("unable to convert " +:+ name +:+ " to int"))
  end.

Definition initialize (it : string) (fifofd : Z) : P () :=
  _ ← pignore (host Clearenv);
  reporting (precover (λ x, ErrNew ("panic from initialization: " +:+ x))
    (i ← newContainerInit it fifofd; initer_Init i)).

(** In the environment [env]. *)
Definition StartInitialization (env : list string) : P () :=
  _ ← plift (env_fd env "_LIBCONTAINER_INITPIPE");
  pdefer (pignore (call PClose))
    (let it := Getenv env "_LIBCONTAINER_INITTYPE" in
     fifofd ← (if decide (it = initStandard) then plift (env_fd env "_LIBCONTAINER_FIFOFD") else mret (-1));
     if decide (Getenv env "_LIBCONTAINER_CONSOLE" = "") then initialize it fifofd
     else
       _ ← plift (env_fd env "_LIBCONTAINER_CONSOLE");
       pdefer (pignore (host CloseConsoleSocket)) (initialize it fifofd)).
