(* ===== verification/InitSpec.v ===== *)
(** * Starting a process: the protocol and the plans

    The conversation of the parent and the child as an automaton, and what each of them
    leaves behind in each of its phases, as lists of marks. *)

From S2P Require Import Prelude GoStd Container Rootfs Proc InitSync InitParent InitChild.

(** ** The protocol *)

(** Up to [procHooks], up to [procReady], and after [procRun]. *)
Inductive stage := Setup | Resumed | Released.

Inductive phase :=
  | PConfig
  | PTurn (c : initConfig) (s : stage)
  | PResume (c : initConfig)
  | PRun (c : initConfig)
  | PFailing (c : initConfig) (s : stage)
  | PFailed (c : initConfig) (s : stage).

Definition phase_turn (φ : phase) : option side :=
  match φ with
  | PConfig | PResume _ | PRun _ => Some Parent
  | PTurn _ _ | PFailing _ _ => Some Child
  | PFailed _ _ => None
  end.

(** A process that joins a container ([standard] is [false]) only hears of its
    configuration; one that starts a container, of its state as well. *)
Definition first_stage (standard : bool) : stage := if standard then Setup else Released.

Definition phase_next (standard : bool) (φ : phase) (m : json) : option phase :=
  match φ, m with
  | PConfig, JConfig c =>
      if standard && negb (bool_decide (is_Some (ic_SpecState c))) then None
      else Some (PTurn c (first_stage standard))
  | PTurn c s, JSync t =>
      if decide (t = procError) then Some (PFailing c s)
      else match s with
           | Setup => if decide (t = procHooks) then Some (PResume c) else None
           | Resumed => if decide (t = procReady) then Some (PRun c) else None
           | Released => None
           end
  | PResume c, JSync t => if decide (t = procResume) then Some (PTurn c Resumed) else None
  | PRun c, JSync t => if decide (t = procRun) then Some (PTurn c Released) else None
  | PFailing c s, JError _ => Some (PFailed c s)
  | _, _ => None
  end.

Definition phase_height (φ : phase) : nat :=
  match φ with
  | PConfig => 7 | PTurn _ Setup => 6 | PResume _ => 5 | PTurn _ Resumed => 4
  | PRun _ => 3 | PTurn _ Released => 2 | PFailing _ _ => 1 | PFailed _ _ => 0
  end.

Lemma phase_next_turn standard φ m φ' : phase_next standard φ m = Some φ' → is_Some (phase_turn φ).
Proof. destruct φ, m; simpl; try done; by eexists. Qed.

Lemma phase_next_height standard φ m φ' :
  phase_next standard φ m = Some φ' → (phase_height φ' < phase_height φ)%nat.
Proof.
  intros Hn. destruct φ as [|c s| | | |], m; simpl in Hn; try done.
  all: repeat case_decide; try done; try destruct s; try done; repeat case_decide; try done.
  all: destruct standard; simpl in Hn; try case_bool_decide; simpl in Hn; try done; injection Hn as <-; simpl; lia.
Qed.

#[export] Instance start_protocol standard : Protocol json phase := {|
  turn := phase_turn;
  next := phase_next standard;
  phase_rank := phase_height;
  next_turn := phase_next_turn standard;
  next_rank := phase_next_height standard
|}.

(** The configuration the child has, and how far it is. *)
Definition position (φ : phase) : option (initConfig * stage) :=
  match φ with
  | PConfig => None
  | PTurn c s | PFailing c s | PFailed c s => Some (c, s)
  | PResume c => Some (c, Setup)
  | PRun c => Some (c, Resumed)
  end.

(** ** Marks *)

Inductive jailed := ByMove | ByPivot | ByChroot.

Inductive mark :=
  | MApply | MIntelApply | MEntered
  | MSet (c : Config) | MIntelSet (c : Config)
  | MHook (name : string)
  | MRlimit (r : Rlimit)
  | MSaved (fds : list string)
  | MDestroy | MIntelDestroy
  | MReaped | MFifoGone
  | MMount (m : Mount)
  | MJail (j : jailed)
  | MReadonlyRoot
  | MProfile (name : string)
  | MReadonly (path : string) | MMask (path : string)
  | MNoNewPrivs
  | MExecLabel (label : string)
  | MSeccomp (profile : Z)
  | MBounding (c : Capabilities) | MKeepCaps | MClearKeepCaps | MCaps (c : Capabilities)
  | MGroups (groups : list Z) | MGid (gid : Z) | MUid (uid : Z)
  | MFifo
  | MExec.

(** The calls that succeeded are marked; what cleans up is marked in any case. *)
Definition mark_call {X} (c : hcall X) : option mark :=
  match c with
  | ManagerApply _ => Some MApply
  | IntelApply _ => Some MIntelApply
  | EnterPid _ _ | WriteCgroupProc _ _ => Some MEntered
  | ManagerSet c => Some (MSet c)
  | IntelSet c => Some (MIntelSet c)
  | RunHooks name _ => Some (MHook name)
  | Prlimit _ r => Some (MRlimit r)
  | UpdateState fds => Some (MSaved fds)
  | MountToRootfs m _ _ _ => Some (MMount m)
  | MsMoveRoot _ => Some (MJail ByMove)
  | PivotRoot _ => Some (MJail ByPivot)
  | Chroot => Some (MJail ByChroot)
  | SetReadonly => Some MReadonlyRoot
  | ApplyProfile name => Some (MProfile name)
  | ReadonlyPath path => Some (MReadonly path)
  | MaskPath path _ => Some (MMask path)
  | SetNoNewPrivs => Some MNoNewPrivs
  | SetExecLabel label => if decide (label = "") then None else Some (MExecLabel label)
  | InitSeccomp profile => Some (MSeccomp profile)
  | ApplyBoundingSet c => Some (MBounding c)
  | SetKeepCaps => Some MKeepCaps
  | ClearKeepCaps => Some MClearKeepCaps
  | ApplyCaps c => Some (MCaps c)
  | Setgroups groups => Some (MGroups groups)
  | Setgid gid => Some (MGid gid)
  | Setuid uid => Some (MUid uid)
  | WriteExecFifo _ => Some MFifo
  | ManagerDestroy => Some MDestroy
  | IntelDestroy => Some MIntelDestroy
  | OsRemove _ => Some MFifoGone
  | _ => None
  end.

Definition mark_failure {X} (c : hcall X) : option mark :=
  match c with
  | ManagerDestroy => Some MDestroy
  | IntelDestroy => Some MIntelDestroy
  | OsRemove _ => Some MFifoGone
  | _ => None
  end.

Definition mark_event (e : pevent hcall) : option mark :=
  match e with
  | Ev c (inr _) => mark_call c
  | Ev c (inl _) => mark_failure c
  | SelfExec => Some MExec
  | SelfKill => None
  | Reaped => Some MReaped
  end.

#[export] Instance start_observer : Observer hcall mark := mark_event.

Definition mark_if (b : bool) (m : mark) : list mark := if b then [m] else [].

(** ** What the parent does *)

Section ParentPlan.
Context (config : initConfig) (intelRdt : bool).
Let Config := ic_Config config.

Definition launch_plan : list mark := MApply :: mark_if intelRdt MIntelApply.

Definition hooks_plan : list mark :=
  MSet Config :: mark_if intelRdt (MIntelSet Config) ++
  (if cf_Hooks Config then [MHook Prestart; MHook CreateRuntime] else []).

Definition ready_plan (fds : list string) : list mark :=
  map MRlimit (ic_Rlimits config) ++
  (if ns_Contains (cf_Namespaces Config) NEWNS then [] else hooks_plan) ++
  [MSaved fds].

Definition cleanup_plan : list mark := MDestroy :: mark_if intelRdt MIntelDestroy.

(** All of it, for a start that succeeds. *)
Definition parent_plan (fds : list string) : list mark := launch_plan ++ hooks_plan ++ ready_plan fds.
End ParentPlan.

(** ** What the child does *)

Section ChildPlan.
Context (c : initConfig).
Let cf := ic_Config c.
Let sg := cf_Settings cf.
Let newns : bool := ns_Contains (cf_Namespaces cf) NEWNS.

Definition child_hooks (name : string) : list mark := mark_if (cf_Hooks cf) (MHook name).

Definition setup_plan : list mark := map MMount (cf_Mounts cf).

Definition jail_kind : jailed := if sg_NoPivotRoot sg then ByMove else if newns then ByPivot else ByChroot.

Definition enter_plan : list mark :=
  child_hooks CreateContainer ++ [MJail jail_kind] ++
  (if newns then mark_if (sg_Readonlyfs sg) MReadonlyRoot else []) ++
  [MProfile (ic_AppArmorProfile c)] ++
  map MReadonly (sg_ReadonlyPaths sg) ++ map MMask (cf_MaskPaths cf) ++
  mark_if (ic_NoNewPrivileges c) MNoNewPrivs.

Definition label_plan : list mark := if decide (ic_ProcessLabel c = "") then [] else [MExecLabel (ic_ProcessLabel c)].

Definition seccomp_plan (b : bool) : list mark :=
  match sg_Seccomp sg with Some s => mark_if b (MSeccomp s) | None => [] end.

(** The user is looked up by the child; the groups may be out of its reach. *)
Definition user_plan (u : ExecUser) (groups : option (list Z)) : list mark :=
  match groups with Some g => [MGroups g] | None => [] end ++ [MGid (eu_Gid u); MUid (eu_Uid u)].

Definition privileges_plan (u : ExecUser) (groups : option (list Z)) : list mark :=
  [MBounding (process_caps c); MKeepCaps] ++ user_plan u groups ++ [MClearKeepCaps; MCaps (process_caps c)].

(** Before the socket is closed, and afterwards. *)
Definition confined_plan (u : ExecUser) (groups : option (list Z)) : list mark :=
  label_plan ++ seccomp_plan (negb (ic_NoNewPrivileges c)) ++ privileges_plan u groups.

Definition release_plan (u : ExecUser) (groups : option (list Z)) : list mark :=
  confined_plan u groups ++ [MFifo] ++ seccomp_plan (ic_NoNewPrivileges c) ++ child_hooks StartContainer ++ [MExec].

(** A process that joins a container. *)
Definition setns_plan (u : ExecUser) (groups : option (list Z)) : list mark :=
  mark_if (ic_NoNewPrivileges c) MNoNewPrivs ++ label_plan ++
  seccomp_plan (negb (ic_NoNewPrivileges c)) ++ privileges_plan u groups ++
  [MProfile (ic_AppArmorProfile c)] ++ seccomp_plan (ic_NoNewPrivileges c) ++ [MExec].
End ChildPlan.

(** What is done before a stage, and what may be done in it. *)
Definition done_before (standard : bool) (c : initConfig) (s : stage) : list mark :=
  if standard then
    match s with Setup => [] | Resumed => setup_plan c | Released => setup_plan c ++ enter_plan c end
  else [].

Definition during (standard : bool) (c : initConfig) (s : stage) (g : list mark) : Prop :=
  if standard then
    match s with
    | Setup => g = setup_plan c
    | Resumed => g = enter_plan c
    | Released => ∃ u groups, g = release_plan c u groups
    end
  else ∃ u groups, g = setns_plan c u groups.

(** When the child may be the first to go: it has reported its error, it is confined and
    awaits the start of the container, or it runs the program it was to run there. *)
Definition may_leave (standard : bool) (φ : phase) (g : list mark) : Prop :=
  match φ with
  | PTurn c Released => ∃ u groups k,
      g = done_before standard c Released ++ (if standard then confined_plan c u groups else setns_plan c u groups) ++ k
  | PFailed _ _ => True
  | _ => False
  end.

(** What the child keeps to. *)
Definition plan_kept (standard : bool) (φ : phase) (g : list mark) : Prop :=
  match position φ with
  | None => g = []
  | Some (c, s) => ∃ k, g = done_before standard c s ++ k ∧ partial (during standard c s) k
  end.

Definition child_inv (standard : bool) (l : local (phase := phase) (mark := mark)) : Prop :=
  plan_kept standard (l_phase l) (l_log l) ∧ (l_presence l = Left → may_leave standard (l_phase l) (l_log l)).
