(* ===== verification/InitChildSpec.v ===== *)
(** * Starting a process: the child keeps to its plan

    What the functions of InitChild.v leave behind, and that [StartInitialization] is a
    typed program of the child in the protocol of InitSpec.v. *)

From S2P Require Import Prelude GoStd Container Rootfs Proc InitSync InitParent InitChild InitSpec.

(** One step of the proof that a program makes no mark. *)
Ltac silent1 :=
  match goal with
  | |- performs (mret _) _ => apply does_ret
  | |- performs (pthrow _) _ => apply does_throw
  | |- performs (host _) (eq []) => apply silent_call; reflexivity
  | |- performs (host_or _ _) _ => unfold host_or
  | |- performs (_ ≫= _) (eq []) => apply silent_bind; [|intros ?]
  | |- performs (ptry _) _ => apply does_try
  | |- performs (pignore _) _ => apply does_pignore
  | |- performs (perr _) _ => apply does_perr
  | |- performs (pmap_err _ _) _ => apply performs_pmap_err
  | |- performs (pwhen _ _) (eq []) => apply silent_pwhen; intros ?
  | |- performs (pfor _ _) (eq []) => apply silent_pfor; intros ?
  | |- performs (pdefer _ _) _ => apply performs_pdefer
  | |- performs (plift _) (eq []) => apply silent_plift; intros ?
  | |- performs (match ?x with _ => _ end) _ => destruct x
  end.
Ltac silent := repeat silent1; try done.

(** A call that leaves its mark. *)
Ltac marks := repeat apply performs_pmap_err; apply (does_call _ (Some _)); intros; reflexivity.

Definition nobody : ExecUser := mk_ExecUser 0 0 [] "".

Section Functions.
Context {standard : bool}.
#[local] Existing Instance start_protocol.

Abbreviation performs := (performs (PM := start_protocol standard)).
Abbreviation does m g := (performs m (eq g)).

Lemma getStrategy_total t x : getStrategy t ≠ Panic x.
Proof. unfold getStrategy. by case_decide. Qed.

Lemma HostUID_total c n x : HostUID c n ≠ Panic x.
Proof. unfold HostUID. by repeat case_match. Qed.

Lemma HostGID_total c n x : HostGID c n ≠ Panic x.
Proof. unfold HostGID. by repeat case_match. Qed.

Lemma silent_env env : does (populateProcessEnvironment env) [].
Proof. unfold populateProcessEnvironment. silent. Qed.

Lemma silent_console c b : does (setupConsole c b) [].
Proof. unfold setupConsole. silent. Qed.

Lemma silent_session c : does (setup_session c) [].
Proof.
  unfold setup_session, join_keyring, setupNetwork, setupRoute. silent; by eapply getStrategy_total.
Qed.

Lemma silent_stdio u : does (fixStdioPermissions u) [].
Proof. unfold fixStdioPermissions. silent. Qed.

Lemma does_setup_mount cf b m : does (setup_mount cf b m) [MMount m].
Proof.
  apply (does_bind _ _ [] [MMount m]); [silent|intros _]. apply does_before; [marks|intros _]. silent.
Qed.

Lemma does_mount_rootfs c : does (mount_rootfs (ic_Config c)) (setup_plan c).
Proof.
  apply (does_bind _ _ [] (setup_plan c)); [silent|intros _]. apply does_before; [|intros _; silent].
  apply does_pfor_map, does_setup_mount.
Qed.

Lemma does_hooks c name status :
  is_Some (ic_SpecState c) → does (container_hooks c name status) (child_hooks c name).
Proof.
  intros [s Es]. unfold container_hooks, child_hooks, mark_if. rewrite Es.
  apply (does_bind _ _ [] (if cf_Hooks _ then _ else _)); [silent|intros s']. apply (does_bind _ _ [] (if cf_Hooks _ then _ else _)); [silent|intros pid].
  apply does_pwhen. intros _. marks.
Qed.

Lemma does_jail c : does (jail (ic_Config c)) [MJail (jail_kind c)].
Proof.
  unfold jail, jail_kind. destruct (sg_NoPivotRoot _); [marks|]. destruct (ns_Contains _ _); marks.
Qed.

Lemma does_enter_rootfs c :
  is_Some (ic_SpecState c) → does (enter_rootfs c) (child_hooks c CreateContainer ++ [MJail (jail_kind c)]).
Proof.
  intros Hs. apply (does_bind _ _ []); [silent|intros _]. apply does_bind; [by apply does_hooks|intros _].
  apply does_before; [apply performs_pmap_err, does_jail|intros _]. silent.
Qed.

Lemma does_finalizeRootfs c :
  does (finalizeRootfs (ic_Config c)) (mark_if (sg_Readonlyfs (cf_Settings (ic_Config c))) MReadonlyRoot).
Proof.
  apply (does_bind _ _ [] (mark_if _ _)); [silent|intros _]. apply does_before; [|intros _; silent].
  apply does_pwhen. intros _. marks.
Qed.

Lemma does_setup_container c :
  does (setup_container c)
    ((if ns_Contains (cf_Namespaces (ic_Config c)) NEWNS
      then mark_if (sg_Readonlyfs (cf_Settings (ic_Config c))) MReadonlyRoot else []) ++
     [MProfile (ic_AppArmorProfile c)] ++
     map MReadonly (sg_ReadonlyPaths (cf_Settings (ic_Config c))) ++ map MMask (cf_MaskPaths (ic_Config c)) ++
     mark_if (ic_NoNewPrivileges c) MNoNewPrivs).
Proof.
  apply (does_bind _ _ []); [silent; apply silent_console|intros _].
  apply does_bind; [apply does_pwhen; intros _; apply does_finalizeRootfs|intros _].
  apply (does_bind _ _ []); [silent|intros _]. apply (does_bind _ _ [_]); [marks|intros _].
  apply (does_bind _ _ []); [silent|intros _].
  apply does_bind; [apply does_pfor_map; intros; marks|intros _].
  apply does_bind; [apply does_pfor_map; intros; marks|intros _].
  apply (does_bind _ _ []); [silent|intros pdeath].
  apply does_before; [|intros _; apply does_ret]. apply does_pwhen. intros _. marks.
Qed.

Lemma does_seccomp c b : does (init_seccomp c b) (seccomp_plan c b).
Proof.
  unfold init_seccomp, seccomp_plan. destruct (sg_Seccomp _); [|apply does_ret]. apply does_pwhen. intros _. marks.
Qed.

Lemma does_label c : does (host (SetExecLabel (ic_ProcessLabel c))) (label_plan c).
Proof.
  unfold label_plan.
  replace (if decide _ then [] else _) with (option_list (mark_call (SetExecLabel (ic_ProcessLabel c)))) by (simpl; by case_decide).
  apply does_call; reflexivity.
Qed.

(** *** The user *)

Lemma performs_setupUser c : performs (setupUser c) (λ g, ∃ u groups, g = user_plan u groups).
Proof.
  assert (∃ g u groups, g = user_plan u groups) as Hne by (by exists (user_plan nobody None), nobody, None).
  unfold setupUser. do 2 (apply performs_after; [silent|done|intros ?]). apply performs_after; [silent|done|intros u].
  apply performs_after; [silent|done|intros addGroups].
  apply performs_after; [silent; by eapply HostUID_total|done|intros _].
  apply performs_after; [silent; by eapply HostGID_total|done|intros _].
  apply performs_after; [silent|done|intros _]. apply performs_after; [apply silent_stdio|done|intros _].
  apply performs_after; [silent|done|intros r]. apply performs_after; [silent|done|intros setgroups].
  set (b := negb _ && negb _). set (gs := eu_Sgids u ++ addGroups).
  apply (performs_mono _ (eq (user_plan u (if b then Some gs else None)))); [|intros g <-; eauto].
  apply does_bind; [destruct b; [marks|apply does_ret]|intros _].
  apply (does_bind _ _ [_]); [marks|intros _]. apply does_before; [marks|intros _]. silent.
Qed.

Lemma performs_finalizeNamespace c :
  performs (finalizeNamespace c) (λ g, ∃ u groups, g = privileges_plan c u groups).
Proof.
  set (U := λ g, ∃ u groups, g = user_plan u groups). set (caps := process_caps c).
  set (G3 := joined U (eq [MClearKeepCaps; MCaps caps])). set (G2 := joined (eq [MKeepCaps]) G3).
  set (G1 := joined (eq [MBounding caps]) G2).
  assert (∃ g, G3 g) as H3 by (exists (user_plan nobody None ++ [MClearKeepCaps; MCaps caps]), (user_plan nobody None); eexists; split_and!; [by exists nobody, None|done|done]).
  assert (∃ g, G2 g) as H2 by (destruct H3 as [g ?]; by exists (MKeepCaps :: g), [MKeepCaps], g).
  assert (∃ g, G1 g) as H1 by (destruct H2 as [g ?]; by exists (MBounding caps :: g), [MBounding caps], g).
  apply (performs_mono _ G1).
  - unfold finalizeNamespace. do 2 (apply performs_after; [silent|done|intros _]).
    apply performs_bind; [marks|done|intros _]. apply performs_bind; [marks|done|intros _].
    apply performs_bind; [apply performs_pmap_err, performs_setupUser|by eexists|intros _].
    apply (does_bind _ _ []); [silent|intros _]. apply (does_bind _ _ [_]); [marks|intros _]. marks.
  - intros g (? & ? & <- & (? & ? & <- & (? & ? & (u & groups & ->) & <- & ->) & ->) & ->). by exists u, groups.
Qed.

Lemma performs_confine c pdeath :
  performs (confine c pdeath)
    (λ g, ∃ u groups, g = seccomp_plan c (negb (ic_NoNewPrivileges c)) ++ privileges_plan c u groups).
Proof.
  set (G := λ g, ∃ u groups, g = privileges_plan c u groups).
  apply (performs_mono _ (joined (eq (seccomp_plan c (negb (ic_NoNewPrivileges c)))) (joined G (eq [])))).
  - apply performs_bind; [apply does_seccomp|exists (privileges_plan c nobody None ++ []), (privileges_plan c nobody None), []; split_and!; [by exists nobody, None|done|done]|intros _].
    apply performs_bind; [apply performs_finalizeNamespace|by eexists|intros _]. unfold pdeath_Restore. silent.
  - intros g (? & ? & <- & (? & ? & (u & groups & ->) & <- & ->) & ->). exists u, groups. by rewrite app_nil_r.
Qed.
End Functions.

(** ** The conversation of the child *)

Abbreviation facts := (local (phase := phase) (mark := mark)).

(** After an error the child may report it, or nobody listens. *)
Definition working (φ : phase) : bool := match φ with PTurn _ _ => true | _ => false end.
Definition speaks (l : facts) : Prop := l_left l = true ∨ working (l_phase l) = true.

Section Talk.
Context {standard : bool} (J : facts → Prop).
#[local] Instance talk_protocol : Protocol json phase := start_protocol standard.

Lemma typed_writeSync t φ' φ g (Q : facts → result () → Prop) :
  phase_turn φ = Some Child → phase_next standard φ (JSync t) = Some φ' →
  J (mk_local φ Here g) → J (mk_local φ Deserted g) → J (mk_local φ' Here g) →
  Q (mk_local φ' Here g) (Ok tt) → (∀ e, Q (mk_local φ Deserted g) (Err e)) →
  typed Child J (writeSync t) (mk_local φ Here g) Q.
Proof.
  intros Ht Hn HJ HJl HJm Hok Herr. split; [done|]. split; [right; by eauto|].
  intros [e|[]] l'; simpl; [by intros ->|]. intros (φ2 & Hn2 & ->). rewrite Hn in Hn2. by injection Hn2 as <-.
Qed.

Lemma typed_readSync t φ' φ g (Q : facts → result () → Prop) :
  phase_turn φ = Some Parent → t ≠ procError →
  (∀ m φ2, phase_next standard φ m = Some φ2 → m = JSync t ∧ φ2 = φ') →
  J (mk_local φ Here g) → J (mk_local φ Deserted g) → J (mk_local φ' Here g) →
  Q (mk_local φ' Here g) (Ok tt) → (∀ e, Q (mk_local φ Deserted g) (Err e)) →
  typed Child J (readSync t) (mk_local φ Here g) Q.
Proof.
  intros Ht Ht' Hn HJ HJl HJm Hok Herr. split; [done|]. split; [by right|].
  intros [e|m] l'; simpl.
  - intros [_ ->]. case_decide; by split.
  - intros (φ2 & Hn2 & ->). apply Hn in Hn2 as [-> ->]. simpl. rewrite decide_False by done. by rewrite decide_True.
Qed.
End Talk.

Lemma may_leave_mono standard φ g g' : may_leave standard φ g → may_leave standard φ (g ++ g').
Proof.
  destruct φ as [|c []| | | |]; simpl; try done. intros (u & groups & k & ->). exists u, groups, (k ++ g').
  by rewrite <- !app_assoc.
Qed.

(** A program that talks to nobody, in the middle of a stage. *)
Lemma typed_stage standard {A B} c s (m : P A) (k : A → P B) G φ b k0 (Q : facts → result B → Prop) :
  (b = Left → may_leave standard φ (done_before standard c s ++ k0)) →
  position φ = Some (c, s) → performs (PM := start_protocol standard) m G →
  (∀ g, partial G g → partial (during standard c s) (k0 ++ g)) →
  (∀ a g, G g → typed (PM := start_protocol standard) Child (child_inv standard) (k a)
     (mk_local φ b (done_before standard c s ++ k0 ++ g)) Q) →
  (∀ e g, Q (mk_local φ b g) (Err e)) →
  typed (PM := start_protocol standard) Child (child_inv standard) (m ≫= k)
    (mk_local φ b (done_before standard c s ++ k0)) Q.
Proof.
  intros Hb Hφ Hm Hd Hk He. eapply typed_performs; [done|..].
  - intros g Hg. split.
    + unfold plan_kept. simpl. rewrite Hφ. exists (k0 ++ g). split; [by rewrite app_assoc|auto].
    + intros E. simpl. by apply may_leave_mono, Hb.
  - intros a g Hg. unfold extend. simpl. rewrite <- app_assoc. auto.
  - intros e g Hg. apply He.
Qed.

Lemma inv_stage standard φ c s b k :
  (b = Left → may_leave standard φ (done_before standard c s ++ k)) →
  position φ = Some (c, s) → partial (during standard c s) k → child_inv standard (mk_local φ b (done_before standard c s ++ k)).
Proof. intros Hb Hφ Hk. split; [|exact Hb]. unfold plan_kept. simpl. rewrite Hφ. eauto. Qed.

Lemma partial_nil (G : list mark → Prop) : (∃ g, G g) → partial G [].
Proof. intros [g ?]. exists g. split; [done|apply prefix_nil]. Qed.

(** A beginning of a part of the plan is a beginning of the plan. *)
Lemma partial_part (D : list mark → Prop) k0 mid post g :
  D (k0 ++ mid ++ post) → g `prefix_of` mid → partial D (k0 ++ g).
Proof. intros HD Hg. exists (k0 ++ mid ++ post). split; [done|]. by apply prefix_app, prefix_app_r. Qed.

Lemma partial_last (D : list mark → Prop) k0 mid g : D (k0 ++ mid) → g `prefix_of` mid → partial D (k0 ++ g).
Proof. intros HD Hg. exists (k0 ++ mid). split; [done|]. by apply prefix_app. Qed.

Lemma partial_all (D : list mark → Prop) k post : D (k ++ post) → partial D k.
Proof. intros HD. exists (k ++ post). split; [done|]. by apply prefix_app_r. Qed.

Ltac plan_eq := unfold release_plan, confined_plan, setns_plan, enter_plan; rewrite <- ?app_assoc; reflexivity.
Ltac plan := first [exists nobody, None; plan_eq|do 2 eexists; plan_eq|plan_eq].
Ltac in_plan :=
  let Hg := fresh "Hg" in intros ? Hg; apply partial_eq in Hg;
  first [eapply partial_part; [|exact Hg]; simpl; plan|eapply partial_last; [|exact Hg]; simpl; plan].

(** The child is there, or may have left. *)
Ltac may_go :=
  first [done|intros _; do 2 eexists; first [exists []; rewrite app_nil_r; plan_eq|eexists; plan_eq]].

(** The marks so far are a beginning of the plan. *)
Ltac so_far :=
  apply inv_stage; [may_go|done|]; first [eapply partial_all; simpl; plan|apply partial_full; simpl; plan].

Lemma typed_Exec standard (l : facts) (Q : facts → result () → Prop) :
  child_inv standard l → child_inv standard (leaves (extend [MExec] l)) → (∀ e, Q l (Err e)) →
  typed (PM := start_protocol standard) Child (child_inv standard) unix_Exec l Q.
Proof.
  intros HJ HJe He. split; [done|]. split; [split; [done|exact HJe]|]. intros [e|[]] l' ->. by split.
Qed.

(** A value that is there. *)
Ltac pure_step :=
  match goal with |- typed ?w ?J (plift (Ok ?x) ≫= ?k) ?l ?Q => change (typed w J (k x) l Q) end.

(** The next part of a program, which makes the marks [g]. *)
Ltac part c s g tac :=
  eapply (typed_stage _ c s _ _ (eq g)); [may_go|done|tac|in_plan|intros ? ? <-|by right].

Section Standard.
Context (c : initConfig) (parentPid fifoFd : Z) (Hstate : is_Some (ic_SpecState c)).
#[local] Instance standard_protocol : Protocol json phase := start_protocol true.

Abbreviation JC := (child_inv true).
Abbreviation QC := (λ l' _, speaks l').
Abbreviation at_ φ b s k := (mk_local φ b (done_before true c s ++ k)).
Abbreviation confined := (confined_plan c).

Lemma typed_await_start u groups :
  typed Child JC (await_start c fifoFd) (at_ (PTurn c Released) Left Released (confined u groups)) QC.
Proof.
  unfold await_start. part c Released (@nil mark) ltac:(silent). part c Released [MFifo] ltac:(marks).
  part c Released (@nil mark) ltac:(silent).
  part c Released (seccomp_plan c (ic_NoNewPrivileges c)) ltac:(apply performs_pmap_err, does_seccomp).
  part c Released (child_hooks c StartContainer) ltac:(by apply does_hooks).
  apply (typed_pmap_err _ _ _ _ _ QC); [|done..].
  apply typed_Exec; [so_far| |by right].
  unfold leaves, extend, here_or. cbn [l_phase l_presence l_log]. rewrite <- app_assoc. so_far.
Qed.

Lemma typed_run_program u groups :
  typed Child JC (run_program c parentPid fifoFd) (at_ (PTurn c Released) Here Released (confined u groups)) QC.
Proof.
  assert (∀ b, JC (at_ (PTurn c Released) b Released (confined u groups))) as HJ.
  { intros []; [so_far|so_far|]. rewrite <- (app_nil_r (confined _ _)). so_far. }
  unfold run_program. part c Released (@nil mark) ltac:(silent). rewrite app_nil_r.
  destruct (negb (_ =? _)).
  - split; [done|]. split.
    + split; [done|]. unfold leaves, logs, here_or. cbn [l_phase l_presence l_log]. rewrite app_nil_r. apply HJ.
    + intros [e|[]] l'; [|done]. intros ->. split; [done|by right].
  - destruct (arg0 c) as [arg|e|x]; [|split; [done|by right]..].
    pure_step. part c Released (@nil mark) ltac:(silent). rewrite app_nil_r.
    apply (typed_bind _ _ _ _ _ (λ l' r, l' = leaves (at_ (PTurn c Released) Here Released (confined u groups)) ∧ r = Ok tt)).
    + split; [done|]. split; [done|]. intros [e|[]] l' ->; by (split; [apply (HJ Left)|]).
    + intros l' [] _ [-> _]. apply typed_await_start.
    + by intros ? ? ? [].
    + by intros ? ? ? [].
Qed.

Lemma inv_deserted φ g : JC (mk_local φ Here g) → JC (mk_local φ Deserted g).
Proof. intros [Hp _]. by split. Qed.

(** A flag is sent and its answer awaited. *)
Lemma typed_syncParent (t t' : string) φ φ1 φ2 g :
  phase_turn φ = Some Child → phase_next true φ (JSync t) = Some φ1 → phase_turn φ1 = Some Parent → t' ≠ procError →
  (∀ m φ3, phase_next true φ1 m = Some φ3 → m = JSync t' ∧ φ3 = φ2) →
  JC (mk_local φ Here g) → JC (mk_local φ1 Here g) → JC (mk_local φ2 Here g) →
  typed Child JC (_ ← writeSync t; readSync t') (mk_local φ Here g)
    (λ l' r, match r with Ok _ => l' = mk_local φ2 Here g | Err _ => l_left l' = true | Panic _ => False end).
Proof.
  intros Ht Hn Ht1 Hp Hn1 HJ HJ1 HJ2.
  apply (typed_bind _ _ _ _ _ (λ l' r, match r with Ok _ => l' = mk_local φ1 Here g | Err _ => l_left l' = true | Panic _ => False end)).
  - by apply (typed_writeSync _ _ φ1); [..|apply inv_deserted| | |].
  - intros l' [] _ ->. by apply (typed_readSync _ _ φ2); [..|apply inv_deserted| | |].
  - by intros.
  - by intros.
Qed.

Lemma typed_release pdeath :
  typed Child JC
    (_ ← pmap_err (ErrWrap "set process label") (host (SetExecLabel (ic_ProcessLabel c)));
     pdefer (pignore (host (SetExecLabel ""))) (_ ← confine c pdeath; run_program c parentPid fifoFd))
    (at_ (PTurn c Released) Here Released []) QC.
Proof.
  part c Released (label_plan c) ltac:(apply performs_pmap_err, does_label).
  apply typed_pdefer; [silent|].
  eapply (typed_stage _ c Released _ _ _); [done|done|apply performs_confine| | |by right].
  - intros g (gg & (u & groups & ->) & Hg). eapply partial_part; [|done]. do 2 eexists. plan_eq.
  - intros [] g (u & groups & ->). apply typed_run_program.
Qed.

Lemma typed_prepareRootfs :
  typed Child JC (prepareRootfs c) (at_ (PTurn c Setup) Here Setup []) (λ l' r, match r with
    | Ok _ => l' = at_ (PTurn c Resumed) Here Resumed (child_hooks c CreateContainer ++ [MJail (jail_kind c)])
    | _ => speaks l' end).
Proof.
  unfold prepareRootfs, syncParentHooks. part c Setup (setup_plan c) ltac:(apply does_mount_rootfs).
  eapply typed_bind; [apply (typed_syncParent procHooks procResume _ (PResume c) (PTurn c Resumed)); try done|..].
  - intros m φ3. destruct m; simpl; [done| |done]. case_decide; [|done]. intros [= <-]. by subst.
  - so_far.
  - apply (inv_stage true _ c Setup); [done|done|]. by apply partial_full.
  - rewrite <- (app_nil_r (_ ++ _)). apply (inv_stage true _ c Resumed); [done|done|]. apply partial_nil. by eexists.
  - intros l' [] _ ->.
    rewrite <- (app_nil_r (_ ++ _)). change (_ ++ [] ++ setup_plan c) with (done_before true c Resumed).
    eapply (typed_done _ _ _ (eq (child_hooks c CreateContainer ++ [MJail (jail_kind c)]))); [by apply does_enter_rootfs|..].
    + intros g Hg%partial_eq. unfold extend. cbn [l_phase l_presence l_log]. rewrite <- app_assoc. apply (inv_stage true _ c Resumed); [done|done|].
      eapply partial_part; [|exact Hg]. simpl. plan_eq.
    + intros ? g <-. unfold extend. cbn [l_phase l_presence l_log]. by rewrite app_nil_r.
    + by right.
  - intros l' e _. by left.
  - done.
Qed.

Lemma typed_Standard_Init : typed Child JC (Standard_Init c parentPid fifoFd) (at_ (PTurn c Setup) Here Setup []) QC.
Proof.
  unfold Standard_Init, syncParentReady. part c Setup (@nil mark) ltac:(silent). apply typed_pdefer; [silent|].
  part c Setup (@nil mark) ltac:(apply silent_session).
  eapply typed_bind; [apply typed_prepareRootfs| |by intros..]. intros l' [] _ ->.
  eapply (typed_stage _ c Resumed _ _ (eq _)); [done|done|apply does_setup_container|in_plan|intros pdeath ? <-|by right].
  assert (enter_plan c = (child_hooks c CreateContainer ++ [MJail (jail_kind c)]) ++
     (if ns_Contains (cf_Namespaces (ic_Config c)) NEWNS
      then mark_if (sg_Readonlyfs (cf_Settings (ic_Config c))) MReadonlyRoot else []) ++
     [MProfile (ic_AppArmorProfile c)] ++
     map MReadonly (sg_ReadonlyPaths (cf_Settings (ic_Config c))) ++ map MMask (cf_MaskPaths (ic_Config c)) ++
     mark_if (ic_NoNewPrivileges c) MNoNewPrivs) as <- by plan_eq.
  eapply (typed_bind _ _ _ _ _ (λ l' r, match r with
    | Ok _ => l' = at_ (PTurn c Released) Here Released [] | Err _ => l_left l' = true | Panic _ => False end)).
  - eapply typed_pmap_err; [apply (typed_syncParent procReady procRun _ (PRun c) (PTurn c Released)); try done|..].
    + intros m φ3. destruct m; simpl; [done| |done]. case_decide; [|done]. intros [= <-]. by subst.
    + by apply (inv_stage true _ c Resumed), partial_full.
    + by apply (inv_stage true _ c Resumed), partial_full.
    + rewrite <- (app_nil_r (_ ++ _)). apply (inv_stage true _ c Released); [done|done|]. apply partial_nil. by exists (release_plan c nobody None), nobody, None.
    + intros l' a2 _ ->. by rewrite app_nil_r.
    + by intros.
    + by intros.
  - intros l' [] _ ->. apply typed_release.
  - intros l' e _. by left.
  - done.
Qed.
End Standard.

Section Joining.
Context (c : initConfig).
#[local] Instance setns_protocol : Protocol json phase := start_protocol false.

Lemma typed_Setns_Init :
  typed Child (child_inv false) (Setns_Init c) (mk_local (PTurn c Released) Here []) (λ l' _, speaks l').
Proof.
  unfold Setns_Init. change (@nil mark) with (done_before false c Released ++ []).
  part c Released (@nil mark) ltac:(silent). apply typed_pdefer; [silent|].
  part c Released (@nil mark) ltac:(unfold join_keyring; silent).
  part c Released (@nil mark) ltac:(silent; apply silent_console).
  part c Released (mark_if (ic_NoNewPrivileges c) MNoNewPrivs) ltac:(apply does_pwhen; intros ?; marks).
  part c Released (label_plan c) ltac:(apply does_label). apply typed_pdefer; [silent|].
  part c Released (seccomp_plan c (negb (ic_NoNewPrivileges c))) ltac:(apply does_seccomp).
  eapply (typed_stage _ c Released _ _ _); [done|done|apply performs_finalizeNamespace| | |by right].
  { intros g (gg & (u & groups & ->) & Hg). eapply partial_part; [|done]. exists u, groups. plan_eq. }
  intros [] g (u & groups & ->).
  part c Released [MProfile (ic_AppArmorProfile c)] ltac:(marks).
  part c Released (seccomp_plan c (ic_NoNewPrivileges c)) ltac:(apply performs_pmap_err, does_seccomp).
  destruct (arg0 c) as [arg|e|x]; [pure_step|split; [so_far|by right]..].
  part c Released (@nil mark) ltac:(silent). 
  apply typed_Exec; [so_far| |by right].
  unfold extend. cbn [l_phase l_presence l_log]. rewrite <- app_assoc. so_far.
Qed.
End Joining.

(** ** The whole child *)

Lemma child_inv_moves standard φ l :
  position φ = position (l_phase l) → l_left l = false → child_inv standard l → child_inv standard (moves φ l).
Proof.
  intros Eφ El%left_presence [Hp _]. split; [|simpl; congruence]. unfold plan_kept, moves in *. simpl. by rewrite Eφ.
Qed.

Lemma child_inv_deserts standard l : l_left l = false → child_inv standard l → child_inv standard (deserts l).
Proof. intros El%left_presence [Hp _]. split; [done|]. unfold deserts, here_or. by rewrite El. Qed.

(** The child may close its end: nobody listens, or its error is told. *)
Definition away (l : facts) : Prop := l_left l = true ∨ ∃ c s, l_phase l = PFailed c s.

Lemma child_inv_leaves standard l : away l → child_inv standard l → child_inv standard (leaves l).
Proof.
  intros Ha [Hp Hl]. split; [done|]. destruct Ha as [El|(c & s & Eφ)]; [|intros _; simpl; by rewrite Eφ].
  unfold leaves, here_or, l_left in *. simpl. by destruct (l_presence l).
Qed.

Lemma typed_initer standard c i :
  (standard = true → is_Some (ic_SpecState c)) →
  (if standard then ∃ ppid fd, i = linuxStandardInit c ppid fd else i = linuxSetnsInit c) →
  typed (PM := start_protocol standard) Child (child_inv standard) (initer_Init i)
    (mk_local (PTurn c (first_stage standard)) Here []) (λ l' _, speaks l').
Proof.
  intros Hc Hi. destruct standard; simpl.
  - destruct Hi as (ppid & fd & ->). exact (typed_Standard_Init c ppid fd (Hc eq_refl)).
  - subst i. exact (typed_Setns_Init c).
Qed.

Section Whole.
Context (standard : bool).
#[local] Instance child_protocol : Protocol json phase := start_protocol standard.
Abbreviation JC := (child_inv standard).
Abbreviation start_facts := (mk_local (mark := mark) PConfig Here []).

Lemma typed_write_left (m : json) (l : facts) (Q : facts → result () → Prop) :
  l_left l = true → JC l → (∀ r, Q l r) → typed Child JC (call (PWrite m)) l Q.
Proof. intros Hl HJ HQ. split; [done|]. split; [by left|]. intros a l'. simpl. rewrite Hl. intros ->. by split. Qed.

Lemma typed_send_error err l : speaks l → JC l → typed Child JC (send_error err) l (λ l' _, away l').
Proof.
  intros Hs HJ. unfold send_error, writeSync. destruct (l_left l) eqn:El.
  { eapply (typed_bind _ _ _ _ _ (λ l' r, l_left l' = true)); [|intros l' [e|] HJ' El'|by left..].
    - eapply (typed_perr _ _ _ _ (λ l' _, l_left l' = true)); [|done..]. split; [done|]. split; [by left|].
      intros a l'. simpl. rewrite El. by intros ->.
    - split; [done|by left].
    - apply (typed_pignore _ _ _ _ (λ l' _, away l')); [|done..]. by apply typed_write_left; [..|left]. }
  destruct Hs as [?|Hs]; [congruence|]. destruct (l_phase l) as [|c s| | | |] eqn:Eφ; try done.
  eapply (typed_bind _ _ _ _ _ (λ l' r, match r with
    | Ok (Some _) => l_left l' = true | Ok None => l_phase l' = PFailing c s ∧ l_left l' = false | _ => False end)).
  - eapply (typed_perr _ _ _ _ (λ l' r, match r with
      | Ok _ => l_phase l' = PFailing c s ∧ l_left l' = false | Err _ => l_left l' = true | Panic _ => False end)); [|by intros..].
    split; [done|]. split; [right; rewrite Eφ; by split; [|eexists]|].
    intros [e|[]] l'; simpl; rewrite El; [intros ->|intros (φ2 & Hn & ->)].
    + split; [by apply child_inv_deserts|apply deserts_left].
    + rewrite Eφ in Hn. injection Hn as <-. split; [|done]. apply child_inv_moves; [by rewrite Eφ|done|done].
  - intros l' [e|] HJ' Hl'; [by split; [|left]|]. destruct Hl' as [Eφ' El'].
    apply (typed_pignore _ _ _ _ (λ l' _, away l')); [|by intros..].
    split; [done|]. split; [right; rewrite Eφ'; by split; [|eexists]|].
    intros [e|[]] l2; simpl; rewrite El'; [intros ->|intros (φ2 & Hn & ->)].
    + split; [by apply child_inv_deserts|left; apply deserts_left].
    + rewrite Eφ' in Hn. injection Hn as <-. split; [|right; by eauto]. apply child_inv_moves; [by rewrite Eφ'|done|done].
  - by intros.
  - by intros.
Qed.

Lemma typed_reporting m l :
  typed Child JC m l (λ l' _, speaks l') → typed Child JC (reporting m) l (λ l' _, away l').
Proof.
  intros Hm. eapply typed_pthen; [done|]. intros l' r HJ Hs. eapply typed_pthen; [by apply typed_send_error|]. by intros.
Qed.

Lemma typed_initialize it fifofd :
  it = (if standard then initStandard else initSetns) → typed Child JC (initialize it fifofd) start_facts (λ l _, away l).
Proof.
  intros Hit. unfold initialize. assert (JC start_facts) as HJ0 by (by split).
  set (m := reporting _). enough (typed Child JC m start_facts (λ l _, away l)) as Hm by
    (split; [done|]; split; [done|]; intros [e|[]] l' ->; exact Hm).
  subst m. apply typed_reporting. eapply typed_pthen with (Q := λ l' _, speaks l'); [|intros l' r HJ Hs; by split].
  unfold newContainerInit.
  eapply (typed_bind _ _ _ _ _ (λ l' r, match r with
    | Ok i => ∃ c, l' = mk_local (PTurn c (first_stage standard)) Here [] ∧ (standard = true → is_Some (ic_SpecState c)) ∧
        (if standard then ∃ ppid fd, i = linuxStandardInit c ppid fd else i = linuxSetnsInit c)
    | _ => speaks l' end)); [| |by intros..].
  - eapply (typed_bind _ _ _ _ _ (λ l' r, match r with
      | Ok m => ∃ c, m = JConfig c ∧ l' = mk_local (PTurn c (first_stage standard)) Here [] ∧ (standard = true → is_Some (ic_SpecState c))
      | _ => speaks l' end)); [| |by intros..].
    + split; [done|]. split; [by right|]. intros [e|m] l'; simpl; [intros [_ ->]; split; [by split|by left]|].
      intros (φ2 & Hn & ->). destruct m as [c| |]; try done.
      destruct (standard && _) eqn:Es; [done|]. injection Hn as <-.
      split; [|exists c; split_and!; [done|done|]].
      * split; [|done]. unfold plan_kept. simpl. exists []. destruct standard; (split; [done|]); apply partial_nil; simpl; [by eexists|].
        by exists (setns_plan c nobody None), nobody, None.
      * intros ->. simpl in Es. by case_bool_decide.
    + intros l' m HJ (c & -> & -> & Hc). simpl decode_config. pure_step.
      apply (typed_performs _ _ _ _ (eq [])); [apply silent_env|by intros g ->%partial_eq%prefix_nil_inv|intros [] ? <-|by right].
      rewrite extend_nil. subst it. destruct standard.
      * rewrite decide_False, decide_True by done.
        apply (typed_performs _ _ _ _ (eq [])); [silent|by intros g ->%partial_eq%prefix_nil_inv|intros ppid ? <-|by right].
        split; [done|]. exists c. split_and!; [done|done|by eauto].
      * rewrite decide_True by done. split; [done|]. by exists c.
  - intros l' i _ (c & -> & Hc & Hi). by apply typed_initer.
Qed.

(** The environment of a process that [newParentProcess] starts. *)
Definition env_ok (env : list string) : Prop :=
  (∃ n, env_fd env "_LIBCONTAINER_INITPIPE" = Ok n) ∧
  Getenv env "_LIBCONTAINER_INITTYPE" = (if standard then initStandard else initSetns) ∧
  (standard = true → ∃ n, env_fd env "_LIBCONTAINER_FIFOFD" = Ok n) ∧
  (Getenv env "_LIBCONTAINER_CONSOLE" = "" ∨ ∃ n, env_fd env "_LIBCONTAINER_CONSOLE" = Ok n).

Lemma typed_StartInitialization env :
  env_ok env → typed Child JC (StartInitialization env) start_facts (λ l _, l_left l = true).
Proof.
  intros ([fd Efd] & Hit & Hfifo & Hcons). unfold StartInitialization. rewrite Efd. pure_step.
  eapply typed_pthen with (Q := λ l _, away l).
  2:{ intros l' r HJ Ha. eapply typed_pthen with (Q := λ l _, l_left l = true); [|intros; by split].
      apply (typed_pignore _ _ _ _ (λ l _, l_left l = true)); [|by intros..]. split; [done|]. split; [done|].
      intros a l2 ->. split; [|apply leaves_left]. by apply child_inv_leaves. }
  assert (∀ fifofd, typed Child JC (if decide (Getenv env "_LIBCONTAINER_CONSOLE" = "") then initialize (Getenv env "_LIBCONTAINER_INITTYPE") fifofd
    else _ ← plift (env_fd env "_LIBCONTAINER_CONSOLE"); pdefer (pignore (host CloseConsoleSocket)) (initialize (Getenv env "_LIBCONTAINER_INITTYPE") fifofd))
    start_facts (λ l _, away l)) as Hc.
  { intros fifofd. case_decide as Ec; [by apply typed_initialize|]. destruct Hcons as [?|[k ->]]; [done|]. pure_step.
    apply typed_pdefer; [silent|by apply typed_initialize]. }
  destruct (decide (Getenv env "_LIBCONTAINER_INITTYPE" = initStandard)) as [Es|]; [|exact (Hc (-1))].
  destruct Hfifo as [k ->]; [|pure_step; apply Hc]. by destruct standard; [|rewrite Hit in Es].
Qed.
End Whole.
