(* ===== verification/InitParentSpec.v ===== *)
(** * Starting a process: the parent keeps to its plan

    That [start] of [initProcess] and of [setnsProcess] is a typed program of the parent in
    the protocol of InitSpec.v, with what it has done when it returns. *)

From S2P Require Import Prelude GoStd GoPath Container Rootfs Proc InitSync InitParent InitChild InitSpec InitChildSpec.

(** The program comes to its end with what is known in [l]. *)
Abbreviation fine l := (λ l' r, l' = l ∧ ∃ a, r = Ok a).

Section Rules.
Context {standard : bool}.
#[local] Instance rules_protocol : Protocol json phase := start_protocol standard.
Context (J : facts → Prop) (J_extend : ∀ g l, J l → J (extend g l)) (J_leaves : ∀ l, J l → J (leaves l))
  (J_deserts : ∀ l, J l → J (deserts l)).

Lemma does_rlimits limits pid : performs (setupRlimits limits pid) (eq (map MRlimit limits)).
Proof. apply does_pfor_map. intros r. marks. Qed.

Lemma parent_performs {A B} (m : P A) (k : A → P B) G l Q :
  performs m G → J l → (∀ a g, G g → J (extend g l) → typed Parent J (k a) (extend g l) Q) →
  (∀ e g, partial G g → Q (extend g l) (Err e)) → typed Parent J (m ≫= k) l Q.
Proof. intros Hm HJ Hk He. eapply typed_performs; eauto. Qed.

Lemma parent_silent {A B} (m : P A) (k : A → P B) l Q :
  performs m (eq []) → J l → (∀ a, typed Parent J (k a) l Q) → (∀ e, Q l (Err e)) → typed Parent J (m ≫= k) l Q.
Proof.
  intros Hm HJ Hk He. eapply parent_performs; [done|done|..].
  - intros a g <-. rewrite extend_nil. by intros.
  - intros e g ->%partial_eq%prefix_nil_inv. by rewrite extend_nil.
Qed.

(** Calls whose failure is not returned. *)
Lemma typed_ptry_host {X} (c : hcall X) l :
  (∀ a, mark_event (Ev c a) = None) → J l → typed Parent J (ptry (host c)) l (fine l).
Proof.
  intros Hc HJ. split; [done|]. split; [done|]. intros a l' ->. unfold logs, see, start_observer. rewrite Hc. simpl.
  rewrite app_nil_r. destruct l, a; split; eauto.
Qed.

Lemma typed_attempt {X} (c : hcall X) o l :
  (∀ a, mark_event (Ev c a) = o) → J l → typed Parent J (pignore (host c)) l (fine (extend (option_list o) l)).
Proof.
  intros Hc HJ. split; [done|]. split; [done|]. intros a l' ->. unfold logs, see, start_observer. rewrite Hc.
  destruct a; (split; [by apply (J_extend (option_list o))|]); eauto.
Qed.

Lemma typed_fine {A B} (m : P A) (k : A → P B) l l1 Q :
  typed Parent J m l (fine l1) → (∀ a, J l1 → typed Parent J (k a) l1 Q) → typed Parent J (m ≫= k) l Q.
Proof.
  intros Hm Hk. eapply typed_bind; [done| |by intros ? ? _ [_ [? ?]]|by intros ? ? _ [_ [? ?]]].
  intros l' a HJ [-> _]. auto.
Qed.

Lemma typed_host_or {X} (d : X) (c : hcall X) l :
  (∀ a, mark_event (Ev c a) = None) → J l → typed Parent J (host_or d c) l (fine l).
Proof. intros Hc HJ. eapply typed_fine; [by apply typed_ptry_host|]. intros a HJ'. split; eauto. Qed.

Lemma typed_attempt_silent {X} (c : hcall X) l :
  (∀ a, mark_event (Ev c a) = None) → J l → typed Parent J (pignore (host c)) l (fine l).
Proof. intros Hc HJ. eapply typed_mono; [by apply (typed_attempt _ None)|]. intros l' r [-> ?]. split; [apply extend_nil|done]. Qed.

Lemma typed_attempt_if b (c : hcall ()) m l :
  (∀ a, mark_event (Ev c a) = Some m) → J l → typed Parent J (pwhen b (pignore (host c))) l (fine (extend (mark_if b m) l)).
Proof.
  intros Hc HJ. destruct b; [by apply (typed_attempt _ (Some m))|]. unfold mark_if. rewrite extend_nil. split; eauto.
Qed.

(** Killing the process, and waiting for it. *)
Lemma typed_Kill g l : J l → ∃ l1, typed Parent J (perr (target_Kill g)) l (fine l1) ∧
  J l1 ∧ l_phase l1 = l_phase l ∧ l_log l1 = l_log l ∧ (g = FinalChild → l_left l1 = true).
Proof.
  intros HJ. destruct g; [exists l|exists (leaves l)].
  - split_and!; [|done..]. apply (typed_perr _ _ _ _ (λ l' r, l' = l ∧ ∀ x, r ≠ Panic x)).
    + split; [done|]. split; [done|]. intros a l' ->. change (logs _ l) with (extend (option_list (mark_event (Ev FirstStageKill a))) l).
      destruct a; change (option_list _) with (@nil mark); rewrite extend_nil; by split.
    + intros l' a _ [-> _]. eauto.
    + intros l' e _ [-> _]. eauto.
    + intros l' x _ [_ Hx]. by destruct (Hx x).
  - split_and!; [|auto|done|done|intros _; apply leaves_left]. apply (typed_perr _ _ _ _ (λ l' r, l' = leaves l ∧ ∀ x, r ≠ Panic x)).
    + split; [done|]. split; [done|]. intros a l' ->. destruct a; split; auto.
    + intros l' a _ [-> _]. eauto.
    + intros l' e _ [-> _]. eauto.
    + intros l' x _ [_ Hx]. by destruct (Hx x).
Qed.

(** Only the end of the child itself is marked. *)
Definition reaped (g : target) : list mark := match g with FirstStage => [] | FinalChild => [MReaped] end.

Lemma typed_cmd_Wait g l :
  J l → (g = FinalChild → l_left l = true) → typed Parent J (perr (cmd_Wait g)) l (fine (extend (reaped g) l)).
Proof.
  intros HJ Hl. assert (J (extend (reaped g) l)) as HJ' by auto.
  apply (typed_perr _ _ _ _ (λ l' r, l' = extend (reaped g) l ∧ ∀ x, r ≠ Panic x)).
  - destruct g.
    + split; [done|]. split; [done|]. intros a l' ->. change (logs _ l) with (extend (option_list (mark_event (Ev CmdWait a))) l).
      destruct a; change (option_list _) with (@nil mark); by split.
    + split; [done|]. split; [by split; [|apply Hl]|]. intros a l' ->. change (logs _ l) with (extend [MReaped] l). by destruct a.
  - intros l' a _ [-> _]. eauto.
  - intros l' e _ [-> _]. eauto.
  - intros l' x _ [_ Hx]. by destruct (Hx x).
Qed.

(** A message of the parent. *)
Lemma typed_send (m : json) φ' l (Q : facts → result () → Prop) :
  l_left l = false → phase_turn (l_phase l) = Some Parent → phase_next standard (l_phase l) m = Some φ' →
  J l → J (moves φ' l) → Q (moves φ' l) (Ok tt) → (∀ e, Q (deserts l) (Err e)) →
  typed Parent J (call (PWrite m)) l Q.
Proof.
  intros Hl Ht Hn HJ HJm Hok Herr. split; [done|]. split; [right; by eauto|].
  intros [e|[]] l'; simpl; rewrite Hl; [intros ->; split; auto|].
  intros (φ2 & Hn2 & ->). rewrite Hn in Hn2. injection Hn2 as <-. by split.
Qed.

(** The deferred cleanup, when it changes the marks only. *)
Lemma typed_pon_error {A} (d : error → P error) (m : P A) l (Q1 : facts → result A → Prop) (Q : facts → result A → Prop) :
  typed Parent J m l Q1 → (∀ l' a, J l' → Q1 l' (Ok a) → Q l' (Ok a)) → (∀ l' x, J l' → Q1 l' (Panic x) → Q l' (Panic x)) →
  (∀ l' e, J l' → Q1 l' (Err e) → typed Parent J (d e) l' (λ l2 r, match r with
     | Ok e' => Q l2 (Err e') | Err e' => Q l2 (Err e') | Panic x => Q l2 (Panic x) end)) →
  typed Parent J (pon_error d m) l Q.
Proof.
  intros Hm Ha Hp He. eapply typed_pthen; [done|]. intros l' [a|e|x] HJ HQ; [split; auto| |split; auto].
  eapply typed_pthen; [by apply He|]. intros l2 [e'|e'|x] HJ2 HQ2; by split.
Qed.

(** The socket is closed at the end. *)
Lemma typed_closing (m : P ()) l (Q1 : facts → result () → Prop) (Q : facts → result () → Prop) :
  typed Parent J m l Q1 → (∀ l' r, Q1 l' r → Q (leaves l') r) → typed Parent J (pdefer (pignore (call PClose)) m) l Q.
Proof.
  intros Hm HQ. eapply typed_pthen; [done|]. intros l' r HJ Hr.
  apply (typed_pthen _ _ _ _ _ (λ l2 r2, l2 = leaves l' ∧ r2 = Ok tt)).
  - apply (typed_pignore _ _ _ _ (λ l2 r2, l2 = leaves l' ∧ ∀ x, r2 ≠ Panic x)).
    + split; [done|]. split; [done|]. intros a l2 ->. destruct a; split; auto.
    + by intros l2 a _ [-> _].
    + by intros l2 a _ [-> _].
    + intros l2 x _ [_ Hx]. by destruct (Hx x).
  - intros l2 r2 HJ2 [-> ->]. split; auto.
Qed.

(** ** The loop on the messages of the child

    [I] holds of the callback's variables between two messages, [Q] at the end. *)
Lemma typed_parseSync {S} (fn : S → string → P (S * option error)) (I : facts → S → Prop)
    (Q : facts → result (S * option error) → Prop) (s : S) l :
  (∀ φ l, position φ = position (l_phase l) → J l → J (moves φ l)) →
  (∀ l1 s1, I l1 s1 → J l1 ∧ l_left l1 = false ∧ ∃ c st, l_phase l1 = PTurn c st) →
  (∀ l1 s1 e, I l1 s1 → Q (deserts l1) (Ok (s1, e))) →
  (∀ l1 s1 c st e, I l1 s1 → l_phase l1 = PTurn c st → Q (moves (PFailed c st) l1) (Ok (s1, Some e))) →
  (∀ l1 s1 c st r, I l1 s1 → l_phase l1 = PTurn c st → (∃ e, r = Ok (s1, Some e)) ∨ (∃ x, r = Panic x) →
     Q (deserts (moves (PFailing c st) l1)) r) →
  (∀ l1 s1 t φ, I l1 s1 → t ≠ procError → phase_next standard (l_phase l1) (JSync t) = Some φ → J (moves φ l1) →
     typed Parent J (fn s1 t) (moves φ l1) (λ l2 r, match r with
       | Ok (s2, None) => I l2 s2 ∧ (phase_height (l_phase l2) < phase_height (l_phase l1))%nat
       | Ok (s2, Some e) => Q l2 (Ok (s2, Some e))
       | Panic x => Q l2 (Panic x)
       | Err _ => False
       end)) →
  I l s → typed Parent J (parseSync fn s) l Q.
Proof.
  intros J_moves HI Heof Herr Hpanic Hfn Hs. split; [by apply (HI _ _ Hs)|].
  exists I, (λ l' r, J l' ∧ Q l' r). split; [done|]. split; [|by intros l1 r].
  clear l s Hs. intros l s Hs. destruct (HI _ _ Hs) as (HJ & Hl & c & st & Eφ).
  split; [done|]. split; [right; simpl; by rewrite Eφ|].
  intros [e|m] l'; simpl; rewrite Hl; [intros [_ ->]; repeat split; auto|].
  intros (φ & Hn & ->). rewrite Eφ in Hn. destruct m as [|t|]; try done.
  simpl decode_sync. destruct (decide (t = procError)) as [->|Ht]; simpl.
  - simpl in Hn. injection Hn as <-.
    assert (J (moves (PFailing c st) l)) as HJf by (apply J_moves; [by rewrite Eφ|done]).
    assert (l_left (moves (PFailing c st) l) = false) as Hlm by exact Hl.
    split; [done|]. split; [by right|]. intros [e|m] l'; simpl; rewrite Hlm.
    + intros [_ ->]. case_decide; (split; [auto|]); [split; [auto|]; eapply Hpanic; eauto|split; [auto|]; eapply Hpanic; eauto].
    + intros (φ & Hn & ->). destruct m as [| |e]; try done. injection Hn as <-.
      assert (J (moves (PFailed c st) (moves (PFailing c st) l))) as HJf2 by (by apply J_moves).
      split; [done|]. split; [done|]. by apply (Herr l s c st e).
  - assert (J (moves φ l)) as HJm.
    { apply J_moves; [|done]. rewrite Eφ. simpl in Hn. rewrite decide_False in Hn by done.
      destruct st; [case_decide; [|done]|case_decide; [|done]|done]; by injection Hn as <-. }
    eapply typed_bind; [apply Hfn; [done|done|by rewrite Eφ|done]|..].
    + intros l' [s2 [e|]] HJ' HQ; simpl; split; auto.
    + by intros.
    + intros l' x HJ' HQ. simpl. auto.
Qed.
End Rules.

(** ** The start of a container *)

(** What the child is sent: the configuration with its networks and the state. *)
Definition sent_config (config c : initConfig) : Prop := ∃ nets s, c = set_SpecState s (set_Networks nets config).

(** What the parent has done when the child is in a phase. *)
Definition owed (config : initConfig) (intelRdt : bool) (φ : phase) (g : list mark) : Prop :=
  match position φ with
  | None => True
  | Some (c, s) => sent_config config c ∧
      match s with
      | Setup => launch_plan intelRdt `prefix_of` g
      | Resumed => launch_plan intelRdt ++ hooks_plan config intelRdt `prefix_of` g
      | Released => ∃ fds, parent_plan config intelRdt fds `prefix_of` g
      end
  end.

Definition parent_inv (config : initConfig) (intelRdt : bool) (l : facts) : Prop := owed config intelRdt (l_phase l) (l_log l).

Lemma owed_mono config rdt φ g g' : owed config rdt φ g → owed config rdt φ (g ++ g').
Proof.
  unfold owed. destruct (position φ) as [[c s]|]; [|done]. intros [Hc Hs]. split; [done|].
  destruct s; [by apply prefix_app_r..|]. destruct Hs as [fds ?]. exists fds. by apply prefix_app_r.
Qed.

Lemma child_position standard φ m φ' :
  phase_turn φ = Some Child → phase_next standard φ m = Some φ' → position φ' = position φ.
Proof.
  destruct φ as [|c s| | |c s|], m; simpl; try done; intros _.
  - case_decide; [by intros [= <-]|]. destruct s; [case_decide; [|done]|case_decide; [|done]|done]; by intros [= <-].
  - by intros [= <-].
Qed.

#[export] Instance start_owed config rdt : Owed (PM := start_protocol true) (owed config rdt).
Proof.
  split; [apply owed_mono|]. intros φ m φ' g Ht Hn. unfold owed. by rewrite (child_position _ _ _ _ Ht Hn).
Qed.

(** What a [start] that fails leaves behind: nothing, or a beginning of the plan and the
    cleanup, of the first stage or of the child. *)
Definition start_failed (config : initConfig) (intelRdt : bool) (g : list mark) : Prop :=
  g = [] ∨
  (∃ g0, g0 `prefix_of` launch_plan intelRdt ∧ g = g0 ++ cleanup_plan intelRdt) ∨
  (∃ fds g0 k, g0 `prefix_of` parent_plan config intelRdt fds ∧ k `prefix_of` [MReaped] ∧
     g = g0 ++ k ++ [MReaped] ++ cleanup_plan intelRdt).

(** What [start] has done when it returns. *)
Definition start_outcome (config : initConfig) (intelRdt : bool) (l : facts) (r : result ()) : Prop :=
  match r with
  | Ok _ => l_presence l = Deserted ∧ ∃ fds c, l_log l = parent_plan config intelRdt fds ∧ l_phase l = PTurn c Released
  | Err _ => start_failed config intelRdt (l_log l)
  | Panic _ => l_presence l = Deserted ∧
      ∃ fds c s, l_log l `prefix_of` parent_plan config intelRdt fds ∧ l_phase l = PFailing c s
  end.

Lemma leaves_keeps (l : facts) : l_presence l = Deserted → l_presence (leaves l) = Deserted.
Proof. unfold leaves, here_or. simpl. by intros ->. Qed.

Section StartInit.
Context (config : initConfig) (rdt share : bool).
#[local] Instance init_protocol : Protocol json phase := start_protocol true.

Abbreviation JP := (parent_inv config rdt).

Lemma JP_extend g l : JP l → JP (extend g l).
Proof. apply owed_mono. Qed.
Lemma JP_leaves l : JP l → JP (leaves l).
Proof. done. Qed.
Lemma JP_deserts l : JP l → JP (deserts l).
Proof. done. Qed.
Lemma JP_moves φ l : position φ = position (l_phase l) → JP l → JP (moves φ l).
Proof. unfold parent_inv, owed. simpl. by intros ->. Qed.

Lemma does_launch pid : performs (init_launch config rdt pid) (eq (launch_plan rdt)).
Proof.
  apply (does_bind _ _ [_]); [marks|intros _]. apply does_before; [apply does_pwhen; intros; marks|intros _].
  unfold getChildPid, waitForChildExit, first_child. silent.
Qed.

Lemma does_set_cgroups when_ : performs (set_cgroups config rdt when_)
  (eq (MSet (ic_Config config) :: mark_if rdt (MIntelSet (ic_Config config)))).
Proof. apply (does_bind _ _ [_]); [marks|intros _]. apply does_pwhen. intros. marks. Qed.

Lemma does_run_hooks pid : performs (run_hooks config pid)
  (eq (if cf_Hooks (ic_Config config) then [MHook Prestart; MHook CreateRuntime] else [])).
Proof.
  apply does_pwhen. intros _. apply (does_bind _ _ []); [silent|intros s]. apply (does_bind _ _ [_]); [marks|intros _]. marks.
Qed.

Lemma does_hooks_plan when_ pid :
  performs (_ ← set_cgroups config rdt when_; run_hooks config pid) (eq (hooks_plan config rdt)).
Proof.
  change (hooks_plan config rdt) with
    ((MSet (ic_Config config) :: mark_if rdt (MIntelSet (ic_Config config))) ++
     if cf_Hooks (ic_Config config) then [MHook Prestart; MHook CreateRuntime] else []).
  apply does_bind; [apply does_set_cgroups|intros _; apply does_run_hooks].
Qed.

(** *** The cleanup *)

Lemma does_destroy (e : error) : performs
  (_ ← pignore (host ManagerDestroy); _ ← pwhen rdt (pignore (host IntelDestroy)); mret e : P error) (eq (cleanup_plan rdt)).
Proof.
  apply (does_bind _ _ [MDestroy]); [apply (does_attempt _ (Some _)); by intros []|intros _].
  apply does_before; [|intros _; apply does_ret]. unfold mark_if. apply does_pwhen. intros _.
  apply (does_attempt _ (Some _)). by intros [].
Qed.

Lemma typed_wait g l : JP l → (g = FinalChild → l_left l = true) →
  typed Parent JP (init_wait share g) l (fine (extend (reaped g) l)).
Proof.
  intros HJ Hl. eapply typed_fine; [by apply (typed_cmd_Wait _ JP_extend)|intros e HJ'].
  destruct share.
  - eapply typed_fine; [by apply (typed_attempt_silent _ JP_extend); [intros []|]|intros _ _].
    split; eauto.
  - eapply typed_fine; [split; [done|split; [done|by exists tt]]|intros _ _]. split; eauto.
Qed.

Lemma typed_terminate g l : JP l → ∃ l1, typed Parent JP (init_terminate share g) l (fine l1) ∧
  JP l1 ∧ l_phase l1 = l_phase l ∧ l_log l1 = l_log l ++ reaped g.
Proof.
  intros HJ. destruct (typed_Kill (standard := true) _ JP_leaves g l HJ) as (l1 & Hk & HJ1 & Eφ & El & Hl).
  exists (extend (reaped g) l1). split_and!; [|by apply JP_extend|done|simpl; by rewrite El].
  eapply typed_fine; [exact Hk|intros e _].
  eapply typed_fine; [by apply typed_wait|intros e' HJ']. split; eauto.
Qed.

Lemma typed_cleanup g e l : JP l →
  typed Parent JP (init_cleanup rdt share g e) l (λ l' r,
    (∃ a, r = Ok a) ∧ l_phase l' = l_phase l ∧ l_log l' = l_log l ++ reaped g ++ cleanup_plan rdt).
Proof.
  intros HJ. unfold init_cleanup.
  eapply typed_fine; [by apply typed_ptry_host; [intros []|]|intros oom _].
  eapply (typed_fine _ _ _ l l); [|intros retErr _].
  { destruct oom as [|n]; [by split; eauto|]. case_match; [|by split; eauto].
    eapply typed_fine; [by apply typed_host_or; [intros []|]|intros debug _]. split; eauto. }
  destruct (typed_terminate g l HJ) as (l1 & Ht & HJ1 & Eφ & El).
  eapply typed_fine; [exact Ht|intros werr _].
  eapply typed_fine; [by apply (typed_attempt _ JP_extend _ (Some MDestroy)); [intros []|]|intros _ HJ'].
  eapply typed_fine; [by apply (typed_attempt_if _ JP_extend _ _ MIntelDestroy); [intros []|]|intros _ HJ2].
  split; [done|]. split_and!; [by eexists|done|]. simpl. by rewrite El, <- !app_assoc.
Qed.

(** *** The callback *)

Section Callback.
Context (pid : Z) (fds : list string).

Abbreviation the_plan := (parent_plan config rdt fds).

Definition log_of (st : stage) : list mark :=
  match st with
  | Setup => launch_plan rdt
  | Resumed => launch_plan rdt ++ hooks_plan config rdt
  | Released => the_plan
  end.

Definition sent_of (st : stage) : sentT :=
  match st with
  | Setup => mk_sentT false false
  | Resumed => mk_sentT false true
  | Released => mk_sentT true true
  end.

Abbreviation turn_facts c st := (mk_local (PTurn c st) Here (log_of st)).

Lemma log_of_prefix st : log_of st `prefix_of` the_plan.
Proof.
  destruct st; unfold log_of, parent_plan; [by apply prefix_app_r| |done].
  rewrite app_assoc. by apply prefix_app_r.
Qed.

Lemma prefix_middle (l1 l2 l3 g : list mark) : g `prefix_of` l2 → l1 ++ g `prefix_of` l1 ++ l2 ++ l3.
Proof. intros Hg. by apply prefix_app, prefix_app_r. Qed.

Lemma owed_log_of c st : sent_config config c → owed config rdt (PTurn c st) (log_of st).
Proof. intros Hc. split; [done|]. destruct st; [done|done|by exists fds]. Qed.

Lemma typed_on_hooks c : sent_config config c →
  typed Parent JP (on_hooks config rdt pid) (mk_local (PResume c) Here (log_of Setup)) (λ l' r, match r with
    | Ok _ => l' = turn_facts c Resumed
    | Err _ => l_log l' `prefix_of` the_plan
    | Panic _ => False end).
Proof.
  intros Hc. unfold on_hooks.
  assert (JP (mk_local (PResume c) Here (log_of Setup))) as HJ0 by exact (owed_log_of c Setup Hc).
  assert (hooks_plan config rdt = (MSet (ic_Config config) :: mark_if rdt (MIntelSet (ic_Config config))) ++
     if cf_Hooks (ic_Config config) then [MHook Prestart; MHook CreateRuntime] else []) as Eh by done.
  eapply (parent_performs _ JP_extend); [apply does_set_cgroups|done|intros _ g <- HJ1|].
  2:{ intros e g Hg%partial_eq. unfold parent_plan. rewrite Eh, <- app_assoc. by apply prefix_middle. }
  eapply (parent_performs _ JP_extend); [apply does_run_hooks|done|intros _ g <- HJ2|].
  2:{ intros e g Hg%partial_eq. unfold extend. cbn [l_log log_of]. unfold parent_plan. rewrite Eh, <- !app_assoc.
      apply prefix_app, prefix_middle, Hg. }
  rewrite extend_extend in HJ2 |- *. unfold extend in HJ2 |- *. cbn [l_phase l_presence l_log] in HJ2 |- *. rewrite <- Eh in HJ2 |- *.
  apply typed_pmap_err with (Q1 := λ l' r, match r with
    | Ok _ => l' = turn_facts c Resumed | Err _ => l_log l' `prefix_of` the_plan | Panic _ => False end); [|done..].
  apply (typed_send _ JP_deserts _ (PTurn c Resumed)); try done.
  intros e. apply (log_of_prefix Resumed).
Qed.

Lemma typed_on_ready c : sent_config config c →
  typed Parent JP (on_ready config rdt pid fds) (mk_local (PRun c) Here (log_of Resumed)) (λ l' r, match r with
    | Ok _ => l' = turn_facts c Released
    | Err _ => l_log l' `prefix_of` the_plan
    | Panic _ => False end).
Proof.
  intros Hc. unfold on_ready. set (newns := ns_Contains _ NEWNS).
  assert (JP (mk_local (PRun c) Here (log_of Resumed))) as HJ0 by exact (owed_log_of c Resumed Hc).
  set (again := if newns then [] else hooks_plan config rdt).
  assert (the_plan = log_of Resumed ++ map MRlimit (ic_Rlimits config) ++ again ++ [MSaved fds]) as Ep
    by (unfold parent_plan, ready_plan, log_of; by rewrite <- app_assoc).
  eapply (parent_performs _ JP_extend); [apply performs_pmap_err, does_rlimits|done|intros _ g <- HJ1|].
  2:{ intros e g Hg%partial_eq. rewrite Ep. by apply prefix_middle. }
  eapply (parent_performs _ JP_extend _ _ (eq again)); [|done|intros _ g <- HJ2|].
  { unfold again. destruct newns; [apply does_ret|apply does_hooks_plan]. }
  2:{ intros e g Hg%partial_eq. rewrite Ep. unfold extend. cbn [l_log]. rewrite <- !app_assoc. by apply prefix_app, prefix_middle. }
  rewrite extend_extend in HJ2 |- *. set (l0 := extend _ _) in HJ2 |- *.
  assert (the_plan = l_log l0 ++ [MSaved fds]) as E0 by (unfold l0, extend; cbn [l_log]; by rewrite Ep, <- !app_assoc).
  eapply typed_fine; [by apply (typed_attempt_silent _ JP_extend); [intros []|]|intros _ _].
  split; [done|]. split; [done|]. intros [e|t] l' ->.
  - change (logs _ l0) with (extend [] l0). rewrite extend_nil. split; [done|]. rewrite E0. by apply prefix_app_r.
  - change (logs _ l0) with (mk_local (PRun c) Here (l_log l0 ++ [MSaved fds])). rewrite <- E0.
    assert (∀ φ, φ = PRun c ∨ φ = PTurn c Released → JP (mk_local φ Here the_plan)) as HJ3.
    { intros φ [-> | ->]; [|exact (owed_log_of c Released Hc)]. rewrite Ep. by apply (owed_mono config rdt (PRun c)). }
    assert (JP (mk_local (PRun c) Here the_plan)) as HJ4 by auto.
    match goal with |- typed _ _ ?m _ _ => change (typed Parent JP
      (_ ← pignore (host (SetStartTime t)); pmap_err (ErrWrap "writing syncT 'run'") (writeSync procRun))
      (mk_local (PRun c) Here the_plan) (λ l' r, match r with
        | Ok _ => l' = turn_facts c Released | Err _ => l_log l' `prefix_of` the_plan | Panic _ => False end)) end.
    eapply typed_fine; [by apply (typed_attempt_silent _ JP_extend); [intros []|]|intros _ _].
    apply typed_pmap_err with (Q1 := λ l' r, match r with
      | Ok _ => l' = turn_facts c Released | Err _ => l_log l' `prefix_of` the_plan | Panic _ => False end); [|done..].
    apply (typed_send _ JP_deserts _ (PTurn c Released)); try done. by apply HJ3; right.
Qed.

(** Between two messages, and at the end of the loop. *)
Definition between (l : facts) (s : sentT) : Prop :=
  ∃ c st, sent_config config c ∧ l = turn_facts c st ∧ s = sent_of st.

Definition received (l : facts) (r : result (sentT * option error)) : Prop :=
  match r with
  | Ok (s, err) =>
      (s = sent_of Released ∧ l_log l = the_plan ∧
        (err = None → l_presence l = Deserted ∧ ∃ c, l_phase l = PTurn c Released)) ∨
      (sentRun s = false ∧ l_log l `prefix_of` the_plan)
  | Err _ => False
  | Panic _ => l_presence l = Deserted ∧ l_log l `prefix_of` the_plan ∧ ∃ c st, l_phase l = PFailing c st
  end.

Lemma received_fails l st e : l_log l `prefix_of` the_plan → st ≠ Released → received l (Ok (sent_of st, Some e)).
Proof. intros Hl Hst. right. split; [by destruct st|done]. Qed.

Lemma received_left c st err φ b :
  (err = None → b = Deserted ∧ φ = PTurn c st) → received (mk_local φ b (log_of st)) (Ok (sent_of st, err)).
Proof.
  intros He. destruct st; [right; split; [done|apply (log_of_prefix Setup)]|right; split; [done|apply (log_of_prefix Resumed)]|].
  left. split_and!; [done..|]. intros [-> ->]%He. by split; [|eexists].
Qed.

Lemma typed_on_sync l s t φ :
  between l s → t ≠ procError → phase_next true (l_phase l) (JSync t) = Some φ →
  typed Parent JP (init_on_sync config rdt pid fds s t) (moves φ l) (λ l2 r, match r with
    | Ok (s2, None) => between l2 s2 ∧ (phase_height (l_phase l2) < phase_height (l_phase l))%nat
    | Ok (s2, Some e) => received l2 (Ok (s2, Some e))
    | Panic x => received l2 (Panic x)
    | Err _ => False
    end).
Proof.
  intros (c & st & Hc & -> & ->) Ht Hn. simpl in Hn. rewrite decide_False in Hn by done.
  destruct st; [case_decide as E; [|done]|case_decide as E; [|done]|done]; injection Hn as <-; subst t; unfold init_on_sync.
  - rewrite decide_False, decide_True by done.
    eapply typed_bind; [eapply (typed_perr _ _ _ _ _ (λ l' r, match r with
      | Ok None => l' = turn_facts c Resumed | Ok (Some _) => l_log l' `prefix_of` the_plan | _ => False end));
      [by apply typed_on_hooks|by intros..]| |by intros..].
    intros l' [e|] HJ HQ; (split; [done|]); [by apply (received_fails _ Setup)|].
    subst l'. split; [by exists c, Resumed|]. simpl. lia.
  - rewrite decide_True by done.
    eapply typed_bind; [eapply (typed_perr _ _ _ _ _ (λ l' r, match r with
      | Ok None => l' = turn_facts c Released | Ok (Some _) => l_log l' `prefix_of` the_plan | _ => False end));
      [by apply typed_on_ready|by intros..]| |by intros..].
    intros l' [e|] HJ HQ; (split; [done|]); [by apply (received_fails _ Resumed)|].
    subst l'. split; [by exists c, Released|]. simpl. lia.
Qed.

Lemma typed_receive c : sent_config config c →
  typed Parent JP (parseSync (init_on_sync config rdt pid fds) (mk_sentT false false)) (turn_facts c Setup) received.
Proof.
  intros Hc. eapply (typed_parseSync _ JP_deserts _ between received).
  - apply JP_moves.
  - intros l s (c1 & st & Hc1 & -> & ->). split_and!; [by apply owed_log_of|done|by eauto].
  - intros l s e (c1 & st & Hc1 & -> & ->). by apply (received_left c1).
  - intros l s c2 st2 e (c1 & st & Hc1 & -> & ->) _. by apply (received_left c1).
  - intros l s c2 st2 r (c1 & st & Hc1 & -> & ->) E. injection E as <- <-. intros [[e ->]|[x ->]].
    + by apply (received_left c1).
    + split; [done|]. split; [apply log_of_prefix|by eauto].
  - intros l s t φ HI Ht Hn _. by apply typed_on_sync.
  - by exists c, Setup.
Qed.

(** *** The whole start *)

Lemma create_networks_total nets acc x : create_networks nets acc ≠ Panic x.
Proof.
  revert acc. induction nets as [|n nets IH]; intros acc; simpl; [done|].
  destruct (getStrategy _) as [u|e|y] eqn:E; [apply IH|done|by apply getStrategy_total in E].
Qed.

Definition synchronised (l : facts) (r : result ()) : Prop :=
  match r with
  | Ok _ => l_presence l = Deserted ∧ l_log l = the_plan ∧ ∃ c, l_phase l = PTurn c Released
  | Err _ => ∃ g k, g `prefix_of` the_plan ∧ k `prefix_of` [MReaped] ∧ l_log l = g ++ k
  | Panic _ => l_presence l = Deserted ∧ l_log l `prefix_of` the_plan ∧ ∃ c st, l_phase l = PFailing c st
  end.

Lemma synchronised_fails l e : l_log l `prefix_of` the_plan → synchronised l (Err e).
Proof. intros Hl. exists (l_log l), []. split_and!; [done|apply prefix_nil|by rewrite app_nil_r]. Qed.

(** What follows the loop. *)
Lemma typed_conclude (sent : sentT) ierr l :
  JP l → received l (Ok (sent, ierr)) →
  typed Parent JP
    (if negb (sentRun sent) then pthrow (newSystemErrorWithCause ierr "container init")
     else if ns_Contains (cf_Namespaces (ic_Config config)) NEWNS && negb (sentResume sent) then
       pthrow (newSystemError (Some (ErrNew
         "could not synchronise after executing prestart and CreateRuntime hooks with container process")))
     else
       _ ← pmap_err (ErrWrap "shutting down init pipe") (call PShutdown);
       match ierr with
       | Some e => _ ← init_wait share FinalChild; pthrow e
       | None => mret tt
       end) l synchronised.
Proof.
  intros HJ [(-> & El & Hd)|[-> Hl]]; [|by split; [|apply synchronised_fails]]. simpl negb. rewrite andb_false_r.
  split; [done|]. split; [done|]. intros [e|[]] l' ->.
  - split; [done|]. apply synchronised_fails. by rewrite El.
  - destruct ierr as [e|].
    + change (typed Parent JP (_ ← init_wait share FinalChild; pthrow e) (leaves l) synchronised).
      eapply typed_fine; [by apply typed_wait; [|intros _; apply leaves_left]|intros a HJ']. split; [done|].
      exists the_plan, [MReaped]. split_and!; [done..|]. simpl. by rewrite El.
    + destruct (Hd eq_refl) as [Ed [c Eφ]]. split; [done|]. split; [by apply leaves_keeps|]. split; [done|]. by exists c.
Qed.

Lemma typed_synchronise :
  typed Parent JP (init_synchronise config rdt share pid fds) (mk_local PConfig Here (launch_plan rdt)) synchronised.
Proof.
  unfold init_synchronise. set (l0 := mk_local PConfig Here (launch_plan rdt)).
  assert (l_log l0 `prefix_of` the_plan) as Hl0 by apply (log_of_prefix Setup).
  apply (typed_bind _ _ _ _ _ (λ l' r, l' = l0 ∧ match r with
    | Ok c => (∃ nets, c = set_Networks nets config) | Err _ => True | Panic _ => False end));
    [|intros l' c _ [-> Hc]|intros l' e _ [-> _]; by apply synchronised_fails|by intros l' x _ [_ []]].
  { unfold createNetworkInterfaces.
    destruct (create_networks _ _) as [nets|e|x] eqn:En; [split; [done|split; [done|by eexists]]|by split|by apply create_networks_total in En]. }
  unfold updateSpecState.
  apply (typed_bind _ _ _ _ _ (λ l' r, l' = l0 ∧ match r with
    | Ok c => sent_config config c ∧ is_Some (ic_SpecState c) | Err _ => True | Panic _ => False end)).
  - split; [done|]. split; [done|]. intros [e|s] l' ->.
    + change (logs _ l0) with (extend [] l0). rewrite extend_nil. by split.
    + change (logs _ l0) with (extend [] l0). rewrite extend_nil. destruct Hc as [nets ->].
      split; [done|]. split; [done|]. split; [by exists nets, (Some s)|]. by eexists.
  - clear c Hc. intros l' c _ [-> [Hc [s Es]]].
    apply (typed_bind _ _ _ _ _ (λ l' r, match r with
      | Ok _ => l' = turn_facts c Setup | Err _ => l_log l' `prefix_of` the_plan | Panic _ => False end)); [| |by intros; apply synchronised_fails|done].
    + apply typed_pmap_err with (Q1 := λ l' r, match r with
        | Ok _ => l' = turn_facts c Setup | Err _ => l_log l' `prefix_of` the_plan | Panic _ => False end); [|done..].
      apply (typed_send _ JP_deserts _ (PTurn c Setup)); try done.
      simpl. by rewrite Es.
    + intros l' [] _ ->.
      eapply typed_bind; [by apply typed_receive| |done|].
      * intros l' [sent ierr] HJ Hr. by apply typed_conclude.
      * by intros l' x _ Hr.
  - intros l' e _ [-> _]. by apply synchronised_fails.
  - by intros l' x _ [_ []].
Qed.
End Callback.


Theorem typed_start : typed Parent JP (init_start config rdt share) (mk_local PConfig Here [])
  (λ l r, l_left l = true ∧ start_outcome config rdt l r).
Proof.
  unfold init_start. eapply (typed_closing _ JP_leaves _ _ (start_outcome config rdt)).
  2:{ intros l r Hr. split; [apply leaves_left|]. destruct r as [[]|e|x]; [|done|]; destruct Hr; (split; [by apply leaves_keeps|done]). }
  eapply (parent_silent _ JP_extend); [silent|done|intros pid|by left].
  apply (typed_bind _ _ _ _ _ (λ l' r, match r with
    | Ok _ => l' = mk_local PConfig Here (launch_plan rdt)
    | Err e => start_outcome config rdt l' (Err e) | Panic _ => False end)); [| |by intros..].
  - eapply typed_pon_error.
    + apply (typed_done _ _ _ (eq (launch_plan rdt)) _ (λ l' r, match r with
        | Ok _ => l' = mk_local PConfig Here (launch_plan rdt)
        | Err e => ∃ g, g `prefix_of` launch_plan rdt ∧ l' = mk_local PConfig Here g
        | Panic _ => False end)); [apply does_launch|done|by intros a g <-|].
      intros e g Hg%partial_eq. by exists g.
    + by intros.
    + by intros.
    + intros l' e _ (g & Hg & ->).
      eapply typed_mono; [by apply typed_cleanup|]. intros l2 r ([a ->] & Eφ & El). right. left. by exists g.
  - intros l' [pid' fds] _ ->.
    eapply typed_pon_error; [apply typed_synchronise|..].
    + intros l' [] _ (Ed & El & c & Eφ). split; [done|]. by exists fds, c.
    + intros l' x _ (Ed & Hl & c & st & Eφ). split; [done|]. by exists fds, c, st.
    + intros l' e HJ (g & k & Hg & Hk & El').
      eapply typed_mono; [by apply typed_cleanup|]. intros l2 r ([a ->] & Eφ & El). right. right. exists fds, g, k.
      split_and!; [done..|]. by rewrite El, El', <- !app_assoc.
Qed.
End StartInit.

(** ** [Start] of a container *)

Definition poststart_plan (c : initConfig) : list mark := mark_if (cf_Hooks (ic_Config c)) (MHook Poststart).

(** What [Start] has done when it returns; the last case of an error is that the hooks at
    the end fail. *)
Definition create_outcome (config : initConfig) (intelRdt : bool) (l : facts) (r : result ()) : Prop :=
  match r with
  | Ok _ => l_presence l = Deserted ∧
      ∃ fds c, l_log l = parent_plan config intelRdt fds ++ poststart_plan config ∧ l_phase l = PTurn c Released
  | Err _ => l_log l = [] ∨
      (∃ g, start_failed config intelRdt g ∧ l_log l = g ++ [MFifoGone]) ∨
      (∃ fds k, k `prefix_of` [MReaped] ∧ l_log l = parent_plan config intelRdt fds ++ k ++ [MFifoGone])
  | Panic _ => start_outcome config intelRdt l r
  end.

Section Create.
Context (cf : Config) (id root : string) (skipDevices rdt : bool) (p : Process) (Hinit : pr_Init p = true).
#[local] Instance create_protocol : Protocol json phase := start_protocol true.

Abbreviation config := (newInitConfig cf id p).
Abbreviation JP := (parent_inv config rdt).
Abbreviation share := (share_pidns cf).
Abbreviation here := (mk_local PConfig Here []).

Lemma silent_createExecFifo : performs (createExecFifo cf root) (eq []).
Proof.
  unfold createExecFifo. silent; first [by eapply HostUID_total | by eapply HostGID_total].
Qed.

Lemma typed_newParentProcess :
  typed Parent JP (newParentProcess cf id root rdt p) here (λ l' r, l' = here ∧
    match r with Ok s => s = StartInit config rdt share | Err _ => True | Panic _ => False end).
Proof.
  unfold newParentProcess.
  eapply (parent_silent _ (JP_extend config rdt)); [silent|done|intros []|done].
  eapply (parent_silent _ (JP_extend config rdt)); [silent|done|intros []|done].
  rewrite Hinit. simpl negb. cbv iota.
  eapply (parent_silent _ (JP_extend config rdt)); [silent|done|intros []|done]. unfold newInitProcess.
  eapply (parent_silent _ (JP_extend config rdt)); [silent|done|intros []|done]. by split.
Qed.

Lemma typed_run_poststart l : JP l → typed Parent JP (run_poststart (StartInit config rdt share)) l (λ l' r, match r with
  | Ok _ => l' = extend [MHook Poststart] l
  | Err _ => ∃ k, k `prefix_of` [MReaped] ∧ l_log l' = l_log l ++ k
  | Panic _ => False end).
Proof.
  intros HJ. unfold run_poststart.
  eapply (parent_silent _ (JP_extend config rdt)); [silent|done|intros s|intros e; exists []; split; [apply prefix_nil|by rewrite app_nil_r]].
  split; [done|]. split; [done|]. intros [e|[]] l' ->.
  - change (logs _ l) with (extend [] l). rewrite extend_nil.
    destruct (typed_terminate config rdt share FinalChild l HJ) as (l1 & Ht & HJ1 & Eφ & El).
    change (typed Parent JP (_ ← init_terminate share FinalChild; pthrow e : P ()) l (λ l' r, match r with
      | Ok _ => l' = extend [MHook Poststart] l | Err _ => ∃ k, k `prefix_of` [MReaped] ∧ l_log l' = l_log l ++ k | Panic _ => False end)).
    eapply typed_fine; [exact Ht|intros a _]. split; [done|]. by exists [MReaped].
  - change (logs _ l) with (extend [MHook Poststart] l). split; [by apply JP_extend|done].
Qed.

Definition process_outcome (l : facts) (r : result ()) : Prop :=
  match r with
  | Ok _ => create_outcome config rdt l (Ok tt)
  | Err _ => start_failed config rdt (l_log l) ∨
      ∃ fds k, k `prefix_of` [MReaped] ∧ l_log l = parent_plan config rdt fds ++ k
  | Panic _ => start_outcome config rdt l r
  end.

Lemma typed_start_process : typed Parent JP (start_process cf id root rdt p) here process_outcome.
Proof.
  unfold start_process.
  eapply (typed_bind _ _ _ _ _ (λ l' r, l' = here ∧
    match r with Ok s => s = StartInit config rdt share | Err _ => True | Panic _ => False end)).
  - eapply typed_pmap_err; [apply typed_newParentProcess|done|by intros l' e _ [-> _]|by intros l' x _ [_ []]].
  - intros l' s _ [-> ->]. simpl starting_start.
    eapply (typed_bind _ _ _ _ _ (λ l' r, start_outcome config rdt l' r)).
    + eapply typed_pmap_err; [apply typed_start|by intros l' a _ [_ ?]..].
    + intros l' [] HJ (Ed & fds & c & El & Eφ). rewrite Hinit. simpl andb. unfold process_outcome, create_outcome, poststart_plan.
      destruct (cf_Hooks cf) eqn:Eh; simpl pwhen; change (ic_Config config) with cf; rewrite Eh; simpl mark_if.
      * eapply typed_mono; [by apply typed_run_poststart|]. intros l2 [[]|e|x]; [|intros (k & Hk & E2)|done].
        -- intros ->. split; [exact Ed|]. exists fds, c. split; [|exact Eφ]. simpl. by rewrite El.
        -- right. exists fds, k. split; [done|]. by rewrite E2, El.
      * split; [done|]. split; [done|]. exists fds, c. by rewrite app_nil_r.
    + intros l' e _ Ho. by left.
    + intros l' x _ Ho. exact Ho.
  - intros l' e _ [-> _]. left. by left.
  - by intros l' x _ [_ []].
Qed.

Theorem typed_create : typed Parent JP (runc_command cf id root skipDevices rdt p) here
  (λ l r, l_left l = true ∧ create_outcome config rdt l r).
Proof.
  unfold runc_command. eapply (typed_closing _ (JP_leaves config rdt) _ _ (create_outcome config rdt)).
  2:{ intros l r Hr. split; [apply leaves_left|]. destruct r as [[]|e|x]; [|done|]; destruct Hr; (split; [by apply leaves_keeps|done]). }
  unfold Container_Start. destruct skipDevices; [split; [done|by left]|]. rewrite Hinit. simpl pwhen.
  eapply (parent_silent _ (JP_extend config rdt)); [apply silent_createExecFifo|done|intros []|by left].
  eapply (typed_bind _ _ _ _ _ (λ l' r, match r with
    | Ok None => process_outcome l' (Ok tt)
    | Ok (Some e) => process_outcome l' (Err e)
    | Err _ => False
    | Panic x => process_outcome l' (Panic x) end)).
  - eapply typed_perr; [apply typed_start_process|by intros l' []|by intros|by intros].
  - intros l' [e|] HJ Ho; [|by split].
    change (typed Parent JP (_ ← pignore (host (OsRemove (path_Join root execFifoFilename))); pthrow e : P ()) l' (create_outcome config rdt)).
    eapply typed_fine; [by apply (typed_attempt _ (JP_extend config rdt) _ (Some MFifoGone)); [intros []|]|intros _ HJ'].
    split; [done|]. simpl. right. destruct Ho as [Hf|(fds & k & Hk & El)]; [left; by exists (l_log l')|right].
    exists fds, k. split; [done|]. by rewrite El, <- app_assoc.
  - done.
  - intros l' x _ Ho. exact Ho.
Qed.
End Create.

(** ** The start of a process that joins a container *)

Definition entered (p : setnsProcess) (g : list mark) : Prop :=
  g = [MEntered] ∨ (g = [] ∧ (sp_cgroupPaths p = ∅ ∨ sp_rootlessCgroups p = true)).

Definition setns_parent_plan (p : setnsProcess) : list mark → Prop :=
  joined (entered p) (eq (map MRlimit (ic_Rlimits (sp_config p)))).

Definition setns_owed (p : setnsProcess) (φ : phase) (g : list mark) : Prop :=
  match position φ with
  | None => True
  | Some (c, _) => c = sp_config p ∧ ∃ g0, setns_parent_plan p g0 ∧ g0 `prefix_of` g
  end.

Definition setns_parent_inv (p : setnsProcess) (l : facts) : Prop := setns_owed p (l_phase l) (l_log l).

Definition setns_outcome (p : setnsProcess) (l : facts) (r : result ()) : Prop :=
  match r with
  | Ok _ => l_presence l = Deserted ∧ setns_parent_plan p (l_log l) ∧ ∃ c, l_phase l = PTurn c Released
  | Err _ => l_log l = [] ∨
      ∃ g k, partial (setns_parent_plan p) g ∧ k `prefix_of` [MReaped] ∧ l_log l = g ++ k ++ [MReaped]
  | Panic _ => l_presence l = Deserted ∧ setns_parent_plan p (l_log l) ∧ ∃ c s, l_phase l = PFailing c s
  end.

#[export] Instance setns_owed_laws p : Owed (PM := start_protocol false) (setns_owed p).
Proof.
  split.
  - intros φ g g'. unfold setns_owed. destruct (position φ) as [[c s]|]; [|done]. intros (Hc & g0 & ? & ?). split; [done|]. exists g0. split; [done|]. by apply prefix_app_r.
  - intros φ m φ' g Ht Hn. unfold setns_owed. by rewrite (child_position _ _ _ _ Ht Hn).
Qed.

Section StartSetns.
Context (p : setnsProcess).
#[local] Instance setns_protocol' : Protocol json phase := start_protocol false.
Abbreviation JP := (setns_parent_inv p).

Lemma setns_extend g l : JP l → JP (extend g l).
Proof. apply (owed_log (PM := start_protocol false) (OP := setns_owed p)). Qed.
Lemma setns_leaves l : JP l → JP (leaves l).
Proof. done. Qed.
Lemma setns_deserts l : JP l → JP (deserts l).
Proof. done. Qed.
Lemma setns_moves φ l : position φ = position (l_phase l) → JP l → JP (moves φ l).
Proof. unfold setns_parent_inv, setns_owed. simpl. by intros ->. Qed.

Lemma performs_enter_cgroups pid : performs (enter_cgroups p pid) (entered p).
Proof.
  intros w J l HJ.
  assert (J l) as HJ0 by (rewrite <- (extend_nil l); apply HJ; exists [MEntered]; split; [by left|by exists [MEntered]]).
  assert (J (extend [MEntered] l)) as HJ1 by (apply HJ, partial_full; by left).
  assert (∀ e : error, ∃ g, partial (entered p) g ∧ l = extend g l) as Herr
    by (intros _; exists []; split; [exists [MEntered]; split; [by left|by exists [MEntered]]|by rewrite extend_nil]).
  assert (logs (OB := start_observer) SelfKill l = l) as Hlogs by (destruct l; unfold logs; simpl; by rewrite app_nil_r).
  unfold enter_cgroups, pwhen. destruct (bool_decide _) eqn:Ep; simpl negb; cbv iota.
  { split; [done|]. apply bool_decide_eq_true in Ep. exists []. split; [by right; split; [|left]|by rewrite extend_nil]. }
  split; [done|]. split; [done|]. intros [e|[]] l' ->; [change (logs _ l) with (logs (OB := start_observer) SelfKill l); rewrite Hlogs|
    change (logs _ l) with (extend [MEntered] l); split; [done|exists [MEntered]; split; [by left|done]]].
  destruct (sp_rootlessCgroups p) eqn:Er.
  { split; [done|]. exists []. split; [by right; split; [|right]|by rewrite extend_nil]. }
  split; [done|]. split; [done|]. intros [e2|v2] l' ->; change (logs _ l) with (logs (OB := start_observer) SelfKill l); rewrite Hlogs.
  { split; [done|by apply Herr]. }
  destruct v2; [|split; [done|by apply Herr]].
  split; [done|]. split; [done|]. intros [e2|cg] l' ->; change (logs _ l) with (logs (OB := start_observer) SelfKill l); rewrite Hlogs.
  { split; [done|by apply Herr]. }
  simpl. destruct (cg !! "") as [path|]; [|split; [done|by apply Herr]].
  split; [done|]. split; [done|]. intros [e2|[]] l' ->.
  - change (logs _ l) with (logs (OB := start_observer) SelfKill l). rewrite Hlogs. split; [done|by apply Herr].
  - change (logs _ l) with (extend [MEntered] l). split; [done|]. exists [MEntered]. split; [by left|done].
Qed.

Lemma silent_setns_launch : performs (setns_launch p) (eq []).
Proof. unfold setns_launch, execSetns, first_child. silent. Qed.

Lemma silent_enter_rdt pid : performs (enter_rdt p pid) (eq []).
Proof. unfold enter_rdt. silent. Qed.

Lemma typed_setns_cleanup oom g e l : JP l →
  typed Parent JP (setns_cleanup oom g e) l (λ l' r,
    (∃ a, r = Ok a) ∧ l_phase l' = l_phase l ∧ l_log l' = l_log l ++ reaped g).
Proof.
  intros HJ. unfold setns_cleanup.
  eapply typed_fine; [by apply typed_ptry_host; [intros []|]|intros newOom _].
  destruct (typed_Kill (standard := false) _ setns_leaves g l HJ) as (l1 & Hk & HJ1 & Eφ & El & Hl).
  eapply (typed_fine _ _ _ _ (extend (reaped g) l1)); [|intros werr HJ'; split; [done|split; [by eexists|split; [done|simpl; by rewrite El]]]].
  eapply typed_fine; [exact Hk|intros e1 _].
  eapply typed_fine; [by apply (typed_cmd_Wait _ setns_extend)|intros e2 HJ']. split; eauto.
Qed.

(** Between two messages, and at the end of the loop. *)
Definition waiting (l : facts) (_ : ()) : Prop :=
  l_phase l = PTurn (sp_config p) Released ∧ l_left l = false ∧ setns_parent_plan p (l_log l).

Definition told (l : facts) (r : result (() * option error)) : Prop :=
  match r with
  | Ok (_, err) => setns_parent_plan p (l_log l) ∧ (err = None → l_presence l = Deserted ∧ ∃ c, l_phase l = PTurn c Released)
  | Err _ => False
  | Panic _ => l_presence l = Deserted ∧ setns_parent_plan p (l_log l) ∧ ∃ c s, l_phase l = PFailing c s
  end.

Lemma waiting_inv l s : waiting l s → JP l.
Proof. intros (Eφ & _ & Hp). unfold setns_parent_inv, setns_owed. rewrite Eφ. split; [done|]. by exists (l_log l). Qed.

Lemma deserts_here (l : facts) : l_left l = false → l_presence (deserts l) = Deserted.
Proof. unfold l_left, deserts, here_or. simpl. by destruct (l_presence l). Qed.

Lemma typed_told l : waiting l tt → typed Parent JP (parseSync setns_on_sync tt) l told.
Proof.
  intros Hw. eapply (typed_parseSync _ setns_deserts _ waiting told); [apply setns_moves|..|done].
  - intros l1 [] Hw1. split; [by eapply waiting_inv|]. destruct Hw1 as (Eφ & El & _). eauto.
  - intros l1 [] e (Eφ & El & Hp). split; [done|]. intros _. split; [by apply deserts_here|]. by eexists.
  - intros l1 [] c2 st e (Eφ & El & Hp) _. by split.
  - intros l1 [] c2 st r (Eφ & El & Hp) _ [[e ->]|[x ->]]; [by split|]. split; [by apply deserts_here|]. split; [done|]. by exists c2, st.
  - intros l1 [] t φ (Eφ & El & Hp) Ht Hn _. rewrite Eφ in Hn. simpl in Hn. by rewrite decide_False in Hn.
Qed.

(** What has been done before the cleanup. *)
Definition setns_synchronised (l : facts) (r : result ()) : Prop :=
  match r with
  | Ok _ | Panic _ => setns_outcome p l r
  | Err _ => ∃ g k, partial (setns_parent_plan p) g ∧ k `prefix_of` [MReaped] ∧ l_log l = g ++ k
  end.

Lemma setns_fails l e : partial (setns_parent_plan p) (l_log l) → setns_synchronised l (Err e).
Proof. intros Hl. exists (l_log l), []. split_and!; [done|apply prefix_nil|by rewrite app_nil_r]. Qed.

Lemma typed_setns_synchronise pid :
  typed Parent JP (setns_synchronise p pid) (mk_local PConfig Here []) setns_synchronised.
Proof.
  unfold setns_synchronise.
  eapply (parent_performs _ setns_extend); [apply performs_enter_cgroups|done|intros [] g Hg _|].
  2:{ intros e g Hg. apply setns_fails. simpl. apply partial_joined_l; [by eexists|done]. }
  eapply (parent_silent _ setns_extend); [apply silent_enter_rdt|done|intros []|].
  2:{ intros e. apply setns_fails. simpl. rewrite <- (app_nil_r g). apply partial_joined_r; [done|]. apply partial_eq, prefix_nil. }
  eapply (parent_performs _ setns_extend); [apply performs_pmap_err, does_rlimits|done|intros [] g2 <- _|].
  2:{ intros e g2 Hg2. apply setns_fails. simpl. by apply partial_joined_r. }
  rewrite !extend_extend. unfold extend. cbn [l_phase l_presence l_log]. rewrite !app_nil_l.
  assert (setns_parent_plan p (g ++ map MRlimit (ic_Rlimits (sp_config p)))) as Hplan by (by exists g, (map MRlimit (ic_Rlimits (sp_config p)))).
  set (g0 := g ++ _) in Hplan |- *.
  apply (typed_bind _ _ _ _ _ (λ l' r, match r with
    | Ok _ => l' = mk_local (PTurn (sp_config p) Released) Here g0 | Err _ => l_log l' = g0 | Panic _ => False end)).
  - apply typed_pmap_err with (Q1 := λ l' r, match r with
      | Ok _ => l' = mk_local (PTurn (sp_config p) Released) Here g0 | Err _ => l_log l' = g0 | Panic _ => False end); [|done..].
    apply (typed_send _ setns_deserts _ (PTurn (sp_config p) Released)); try done. split; [done|]. by exists g0.
  - intros l' [] _ ->. eapply typed_bind; [by apply typed_told| |done|by intros l' x _].
    intros l' [[] err] HJ [Hp Hd]. split; [done|]. split; [done|]. intros [e|[]] l2 ->.
    + split; [done|]. by apply setns_fails, partial_full.
    + destruct err as [e|].
      * change (typed Parent JP (_ ← setns_wait FinalChild; pthrow e) (leaves l') setns_synchronised).
        eapply typed_fine; [by apply (typed_cmd_Wait _ setns_extend); [|intros _; apply leaves_left]|intros a HJ2]. split; [done|].
        exists (l_log l'), [MReaped]. split_and!; [by apply partial_full|done..].
      * destruct (Hd eq_refl) as [Ed Hc]. split; [done|]. split; [by apply leaves_keeps|done].
  - intros l' e _ El. apply setns_fails. rewrite El. by apply partial_full.
  - done.
Qed.

Theorem typed_setns_start :
  typed Parent JP (setns_start p) (mk_local PConfig Here []) (λ l r, l_left l = true ∧ setns_outcome p l r).
Proof.
  unfold setns_start. eapply (typed_closing _ setns_leaves _ _ (setns_outcome p)).
  2:{ intros l r Hr. split; [apply leaves_left|]. destruct r as [[]|e|x]; [|done|]; destruct Hr; (split; [by apply leaves_keeps|done]). }
  eapply typed_fine; [by apply typed_host_or; [intros []|]|intros oom _].
  eapply (parent_silent _ setns_extend); [silent|done|intros pid|by left].
  apply (typed_bind _ _ _ _ _ (λ l' r, match r with
    | Ok _ => l' = mk_local PConfig Here [] | Err _ => l_log l' = [] | Panic _ => False end)); [| |by intros l' e _ El; left|done].
  - eapply typed_pon_error.
    + apply (typed_done _ _ _ (eq []) _ (λ l' r, match r with
        | Ok _ => l' = mk_local PConfig Here [] | Err e => l' = mk_local PConfig Here [] | Panic _ => False end));
        [apply silent_setns_launch|done|by intros a g <-|]. by intros e g ->%partial_eq%prefix_nil_inv.
    + by intros.
    + by intros.
    + intros l' e _ ->. eapply typed_mono; [by apply typed_setns_cleanup|]. by intros l2 r ([a ->] & _ & El).
  - intros l' pid' _ ->. eapply typed_pon_error; [apply typed_setns_synchronise|by intros..|].
    intros l' e HJ (g & k & Hg & Hk & El'). eapply typed_mono; [by apply typed_setns_cleanup|].
    intros l2 r ([a ->] & Eφ & El). right. exists g, k. split_and!; [done..|]. by rewrite El, El', <- !app_assoc.
Qed.
End StartSetns.
