(* ===== verification/InitRun.v ===== *)
(** * Starting a process: both sides together

    The runs of [runc create] and of [setnsProcess.start] with the child they start:
    whatever the kernel answers and whoever takes the next step. *)

From S2P Require Import Prelude GoStd GoPath Container Rootfs Proc InitSync InitParent InitChild InitSpec InitChildSpec InitParentSpec.

(** A parent and its child, before the first call of the parent. The child only ever waits
    for the parent, so it may be there from the beginning. *)
Definition start_pair (m : P ()) (env : list string) : pair hcall json :=
  mk_pair m (Some (StartInitialization env)) [] [] false false [] [] false.

Definition parent_marks (t : pair hcall json) : list mark := omap mark_event (p_log t).
Definition child_marks (t : pair hcall json) : list mark := omap mark_event (c_log t).

(** ** Every run is a run of typed programs *)

(** A parent that keeps to the protocol: its invariant, what it has done when the child is
    in a phase, and its outcome. *)
Record sound (standard : bool) (m : P ()) (J : facts → Prop) (O : phase → list mark → Prop)
    (Q : facts → result () → Prop) : Prop := {
  sound_owed : Owed (PM := start_protocol standard) O;
  sound_log l : J l → O (l_phase l) (l_log l);
  sound_left l r : Q l r → l_left l = true;
  sound_typed : typed (PM := start_protocol standard) Parent J m (mk_local PConfig Here []) Q
}.

Section Runs.
Context (standard : bool) (m : P ()) (J : facts → Prop) (O : phase → list mark → Prop) (Q : facts → result () → Prop).
Context (Hm : sound standard m J O Q) (env : list string) (Henv : env_ok standard env).
#[local] Instance run_protocol : Protocol json phase := start_protocol standard.
#[local] Instance run_owed : Owed O := sound_owed _ _ _ _ _ Hm.

Abbreviation JC := (child_inv standard).
Abbreviation QC := (λ (l : facts) (_ : result ()), l_left l = true).
Abbreviation paired := (paired J JC Q QC O).

Lemma child_outcome_left l (r : result ()) : QC l r → l_left l = true ∨ JC (leaves l).
Proof. by left. Qed.

Lemma paired_start : paired (start_pair m env) (mk_local PConfig Here []) (mk_local PConfig Here []).
Proof.
  assert (O PConfig []) as HO by (apply (sound_log _ _ _ _ _ Hm (mk_local PConfig Here [])); eapply typed_here, sound_typed, Hm).
  constructor; simpl; try done.
  - eapply sound_typed, Hm.
  - by apply typed_StartInitialization.
  - by left.
  - split; [done|]. intros _ q φ ->%prefix_nil_inv. simpl. by intros [= <-].
Qed.

Lemma reach_paired t : preach (start_pair m env) t → ∃ lp lc, paired t lp lc.
Proof.
  eapply (paired_reach _ _ _ _ _ (sound_log _ _ _ _ _ Hm) child_outcome_left), paired_start.
Qed.

Lemma run_progress t :
  preach (start_pair m env) t → ¬ finished t → ∃ w, ∀ o u, is_Some (pstep (mk_label (Some w) o u) t).
Proof.
  intros (lp & lc & Hp)%reach_paired. by eapply (paired_progress _ _ _ _ _ (sound_left _ _ _ _ _ Hm)).
Qed.

Lemma run_ends : Acc (λ t2 t1, ∃ l, pstep l t1 = Some t2) (start_pair m env).
Proof. eapply (paired_ends _ _ _ _ _ (sound_log _ _ _ _ _ Hm) child_outcome_left), paired_start. Qed.

(** *** What a run has come to *)

Context (t : pair hcall json) (Ht : preach (start_pair m env) t).

(** The child is in some phase: it keeps to its plan, the parent has done its duty. *)
Lemma reached_child : ∃ φ, plan_kept standard φ (child_marks t) ∧ O φ (parent_marks t).
Proof.
  destruct (reach_paired _ Ht) as (lp & lc & Hp). exists (l_phase lc).
  pose proof (pr_clog _ _ _ _ _ _ _ _ Hp) as Ec. pose proof (pr_plog _ _ _ _ _ _ _ _ Hp) as Ep.
  unfold child_marks, parent_marks. change mark_event with (see (Observer := start_observer)). rewrite Ec, Ep.
  split; [|apply (pr_owed _ _ _ _ _ _ _ _ Hp)].
  pose proof (pr_child _ _ _ _ _ _ _ _ Hp) as Hc. destruct (child t); [apply typed_here in Hc; apply Hc|apply Hc].
Qed.

(** The parent has returned; the child that was the first to go was killed, or had done
    what lets it go. *)
Lemma reached_outcome r : parent t = Return r → ∃ lp,
  Q lp r ∧ l_log lp = parent_marks t ∧
  (l_presence lp = Deserted → killed t = true ∨ ∃ φ g q,
     plan_kept standard φ (child_marks t) ∧ O φ (parent_marks t) ∧
     g `prefix_of` child_marks t ∧ may_leave standard φ g ∧ sent Parent φ q = Some (l_phase lp)).
Proof.
  intros Er. destruct (reach_paired _ Ht) as (lp & lc & Hp). exists lp.
  pose proof (pr_parent _ _ _ _ _ _ _ _ Hp) as Hr. rewrite Er in Hr. destruct Hr as [_ HQ].
  pose proof (pr_clog _ _ _ _ _ _ _ _ Hp) as Ec. pose proof (pr_plog _ _ _ _ _ _ _ _ Hp) as Ep.
  split; [done|]. split; [done|]. intros Hd.
  destruct (pr_deserted _ _ _ _ _ _ _ _ Hp Hd) as [_ [?|[(g & Hg & Hk & Hl) [q Hq]]]]; [by left|right].
  exists (l_phase lc), g, q. unfold child_marks, parent_marks. change mark_event with (see (Observer := start_observer)).
  rewrite Ec, Ep. split_and!; [|apply (pr_owed _ _ _ _ _ _ _ _ Hp)|done|by apply Hl|done].
  pose proof (pr_child _ _ _ _ _ _ _ _ Hp) as Hc. destruct (child t); [apply typed_here in Hc; apply Hc|apply Hc].
Qed.

Lemma mark_reaped e : mark_event e = Some MReaped → e = Reaped.
Proof. destruct e as [X c [e|x]| | |]; [..|done]; try done; destruct c; simpl; try done. by case_decide. Qed.

(** A parent that has waited for the child has outlived it. *)
Lemma reached_reaped : MReaped ∈ parent_marks t → child t = None.
Proof.
  clear Hm Henv. intros (e & He & ->%mark_reaped)%list_elem_of_omap. by apply (reaped_gone (start_pair m env)).
Qed.
End Runs.

(** The child may only leave, in a turn of its own, when it has nothing to say. *)
Lemma sent_to_turn standard φ q c s :
  sent (PM := start_protocol standard) Parent φ q = Some (PTurn c s) → φ = PTurn c s ∨ phase_turn φ = Some Parent.
Proof. destruct q as [|m q]; simpl; [intros [= ->]; by left|]. case_decide; [by right|done]. Qed.

Lemma sent_to_failing standard φ q c s :
  sent (PM := start_protocol standard) Parent φ q = Some (PFailing c s) → φ = PFailing c s.
Proof.
  revert φ. induction q as [|m q IH]; intros φ; simpl; [by intros [= ->]|]. case_decide as Et; [|done].
  destruct (phase_next standard φ m) as [φ'|] eqn:Hn; [|done]. simpl. intros ->%IH.
  destruct φ, m; simpl in *; try done; by repeat case_match.
Qed.

Lemma may_leave_turn standard φ g : may_leave standard φ g → phase_turn φ ≠ Some Parent.
Proof. by destruct φ. Qed.

(** ** The program that is executed comes last *)

Definition no_exec : list mark → Prop := Forall (λ m, m ≠ MExec).

Lemma no_exec_map {A} (f : A → mark) l : (∀ x, f x ≠ MExec) → no_exec (map f l).
Proof. intros Hf. induction l; constructor; auto. Qed.

Lemma no_exec_if b m : m ≠ MExec → no_exec (mark_if b m).
Proof. destruct b; by repeat constructor. Qed.

Lemma no_exec_seccomp c b : no_exec (seccomp_plan c b).
Proof. unfold seccomp_plan. destruct (sg_Seccomp _); [by apply no_exec_if|constructor]. Qed.

Lemma no_exec_label c : no_exec (label_plan c).
Proof. unfold label_plan. case_decide; by repeat constructor. Qed.

Lemma no_exec_privileges c u groups : no_exec (privileges_plan c u groups).
Proof. unfold privileges_plan, user_plan. destruct groups; by repeat constructor. Qed.

Lemma no_exec_app l l' : no_exec (l ++ l') ↔ no_exec l ∧ no_exec l'.
Proof. apply Forall_app. Qed.

#[local] Hint Resolve no_exec_map no_exec_if no_exec_seccomp no_exec_label no_exec_privileges : plans.
#[local] Hint Extern 1 (_ ≠ _) => discriminate : plans.
Ltac no_exec := rewrite ?no_exec_app; repeat split; first [solve [auto with plans] | by (unfold no_exec; repeat constructor)].

(** A beginning of a plan that ends with the execution, with the execution in it. *)
Lemma executed_all l l' : no_exec l' → l `prefix_of` l' ++ [MExec] → MExec ∈ l → l = l' ++ [MExec].
Proof.
  intros Hn [[k Hk]|?]%prefix_snoc_inv Hin; [|done]. exfalso. unfold no_exec in Hn. rewrite Hk, Forall_app in Hn.
  destruct Hn as [Hn _]. rewrite Forall_forall in Hn. by apply (Hn MExec).
Qed.

(** ** Starting a container *)

(** All the child does. *)
Definition container_plan (c : initConfig) (u : ExecUser) (groups : option (list Z)) : list mark :=
  setup_plan c ++ enter_plan c ++ release_plan c u groups.

Lemma setup_no_exec c : no_exec (setup_plan c ++ enter_plan c).
Proof. unfold setup_plan, enter_plan, child_hooks. destruct (ns_Contains _ _); no_exec. Qed.

Lemma container_no_exec c u groups : ∃ l, container_plan c u groups = l ++ [MExec] ∧ no_exec l.
Proof.
  exists ((setup_plan c ++ enter_plan c) ++ confined_plan c u groups ++ [MFifo] ++
    seccomp_plan c (ic_NoNewPrivileges c) ++ child_hooks c StartContainer).
  split; [unfold container_plan, release_plan; by rewrite <- !app_assoc|]. rewrite no_exec_app.
  split; [apply setup_no_exec|]. unfold confined_plan, child_hooks. no_exec.
Qed.

(** ** The environment of the child *)

Definition assignment (kv : string * string) : string := kv.1 +:+ String "=" kv.2.

(** The files that come before the pipe. *)
Definition before_pipe (p : Process) : list File :=
  pr_ExtraFiles p ++ (if pr_ConsoleSocket p then [ConsoleSocketFile] else []).
Definition command_files (p : Process) : list File :=
  before_pipe p ++ [ChildInitPipe; ChildLogPipe] ++ (if pr_Init p then [ExecFifo] else []).

Definition fd_of (n : nat) : Z := stdioFdCount + Z.of_nat n.

Definition console_vars (p : Process) : list (string * string) :=
  if pr_ConsoleSocket p then [("_LIBCONTAINER_CONSOLE", Itoa (fd_of (length (pr_ExtraFiles p))))] else [].

Definition command_vars (maxprocs root : string) (p : Process) : list (string * string) :=
  let n := length (before_pipe p) in
  [("GOMAXPROCS", maxprocs)] ++ console_vars p ++
  [("_LIBCONTAINER_INITPIPE", Itoa (fd_of n)); ("_LIBCONTAINER_STATEDIR", root);
   ("_LIBCONTAINER_LOGPIPE", Itoa (fd_of (n + 1))); ("_LIBCONTAINER_LOGLEVEL", pr_LogLevel p)] ++
  (if pr_Init p then [("_LIBCONTAINER_FIFOFD", Itoa (fd_of (n + 2))); ("_LIBCONTAINER_INITTYPE", initStandard)]
   else [("_LIBCONTAINER_INITTYPE", initSetns)]).

Lemma cmd_fd_file f c : cmd_fd (cmd_file f c) = fd_of (length (cmd_ExtraFiles c)).
Proof. unfold cmd_fd, cmd_file, fd_of. simpl. rewrite length_app. simpl. lia. Qed.

Lemma newCommand_spec maxprocs root p :
  newCommand maxprocs root p = mk_Cmd (command_files p) (map assignment (command_vars maxprocs root p)).
Proof.
  unfold newCommand, includeExecFifo, commandTemplate. cbv zeta.
  destruct p as [? ? ? ? ? l ? ? ? ? ? ? ? [] [] ?]; cbn [pr_ExtraFiles pr_ConsoleSocket pr_Init];
    rewrite !cmd_fd_file; unfold command_files, command_vars, console_vars, before_pipe, cmd_file, cmd_env;
    cbn [cmd_ExtraFiles cmd_Env pr_ExtraFiles pr_ConsoleSocket pr_Init]; rewrite ?app_nil_r, ?length_app, <- ?app_assoc;
    cbn [length app map]; rewrite ?Nat.add_assoc, <- ?Nat.add_assoc; reflexivity.
Qed.

(** The first assignment of a name counts. *)
Fixpoint lookup_var (vars : list (string * string)) (name : string) : string :=
  match vars with
  | [] => ""
  | (k, v) :: vars => if decide (k = name) then v else lookup_var vars name
  end.

Lemma cut_assignment k v : "="%char ∉ String.list_ascii_of_string k → cut "=" (assignment (k, v)) = Some (k, v).
Proof.
  unfold assignment. simpl. induction k as [|c k IH]; intros Hk; [done|]. simpl in Hk |- *. apply not_elem_of_cons in Hk as [? Hk].
  rewrite decide_False by done. by rewrite IH.
Qed.

Lemma Getenv_vars vars name : Forall (λ kv, "="%char ∉ String.list_ascii_of_string kv.1) vars →
  Getenv (map assignment vars) name = lookup_var vars name.
Proof.
  induction 1 as [|[k v] vars Hk _ IH]; [done|]. cbn [map Getenv lookup_var]. rewrite cut_assignment by done. by rewrite IH.
Qed.

Lemma newCommand_Getenv maxprocs root p name :
  Getenv (cmd_Env (newCommand maxprocs root p)) name = lookup_var (command_vars maxprocs root p) name.
Proof.
  rewrite newCommand_spec. apply Getenv_vars. unfold command_vars, console_vars.
  destruct (pr_ConsoleSocket p), (pr_Init p); repeat constructor; simpl; by apply (bool_decide_unpack _).
Qed.

Lemma env_fd_Itoa env name n : Getenv env name = Itoa n → 0 ≤ n < 2 ^ 63 → env_fd env name = Ok n.
Proof. intros E Hn. unfold env_fd. rewrite E, Atoi_Itoa by lia. done. Qed.

(** The number of files is a length of Go. *)
Definition few_files (p : Process) : Prop := Z.of_nat (length (pr_ExtraFiles p)) < 2 ^ 62.

(** Entry [i] of [ExtraFiles] becomes the descriptor [3 + i] of the child. *)
Definition child_file (c : Cmd) (fd : Z) : option File :=
  if decide (stdioFdCount ≤ fd) then cmd_ExtraFiles c !! Z.to_nat (fd - stdioFdCount) else None.

Lemma child_file_at c n : child_file c (fd_of n) = cmd_ExtraFiles c !! n.
Proof. unfold child_file, fd_of. rewrite decide_True by lia. f_equal. lia. Qed.

(** The descriptor that a variable of the environment names is this very file, and comes
    behind the files of the process. *)
Definition hands_over (c : Cmd) (p : Process) (name : string) (f : File) : Prop :=
  ∃ n, env_fd (cmd_Env c) name = Ok (fd_of n) ∧ child_file c (fd_of n) = Some f ∧ (length (pr_ExtraFiles p) ≤ n)%nat.

Section Environment.
Context (maxprocs root : string) (p : Process) (Hn : few_files p).
Abbreviation cmd := (newCommand maxprocs root p).

Lemma hands_over_at name f n :
  lookup_var (command_vars maxprocs root p) name = Itoa (fd_of n) → command_files p !! n = Some f →
  (length (pr_ExtraFiles p) ≤ n)%nat → hands_over cmd p name f.
Proof using Hn.
  intros Ev Hf Hl. exists n. rewrite child_file_at, newCommand_spec. split; [|by split].
  rewrite <- newCommand_spec. apply env_fd_Itoa; [by rewrite newCommand_Getenv|].
  apply lookup_lt_Some in Hf. unfold few_files in Hn. unfold command_files, before_pipe in Hf. unfold fd_of, stdioFdCount.
  rewrite !length_app in Hf. destruct (pr_ConsoleSocket p), (pr_Init p); simpl in Hf; lia.
Qed.

Lemma before_pipe_length : (length (pr_ExtraFiles p) ≤ length (before_pipe p))%nat.
Proof. unfold before_pipe. rewrite length_app. lia. Qed.

Lemma behind n : command_files p !! (length (before_pipe p) + n)%nat =
  ([ChildInitPipe; ChildLogPipe] ++ if pr_Init p then [ExecFifo] else []) !! n.
Proof. unfold command_files. rewrite lookup_app_r by lia. f_equal. lia. Qed.

Lemma command_env :
  hands_over cmd p "_LIBCONTAINER_INITPIPE" ChildInitPipe ∧
  hands_over cmd p "_LIBCONTAINER_LOGPIPE" ChildLogPipe ∧
  (pr_Init p = true → hands_over cmd p "_LIBCONTAINER_FIFOFD" ExecFifo) ∧
  (pr_ConsoleSocket p = true → hands_over cmd p "_LIBCONTAINER_CONSOLE" ConsoleSocketFile).
Proof using Hn.
  pose proof before_pipe_length. split_and!; [| |intros Ei|intros Ec].
  - apply (hands_over_at _ _ (length (before_pipe p))); [|by rewrite <- (Nat.add_0_r (length _)), behind|done].
    unfold command_vars, console_vars. by destruct (pr_ConsoleSocket p).
  - apply (hands_over_at _ _ (length (before_pipe p) + 1)); [|by rewrite behind|lia].
    unfold command_vars, console_vars. by destruct (pr_ConsoleSocket p).
  - apply (hands_over_at _ _ (length (before_pipe p) + 2)); [|by rewrite behind, Ei|lia].
    unfold command_vars, console_vars. rewrite Ei. by destruct (pr_ConsoleSocket p).
  - apply (hands_over_at _ _ (length (pr_ExtraFiles p))); [unfold command_vars, console_vars; by rewrite Ec| |lia].
    unfold command_files, before_pipe. rewrite Ec, <- app_assoc. cbn [app]. by rewrite list_lookup_middle.
Qed.

Lemma environment_ok : env_ok (pr_Init p) (cmd_Env cmd).
Proof using Hn.
  destruct command_env as ((? & Hpipe & _) & _ & Hfifo & Hcons).
  pose proof (newCommand_Getenv maxprocs root p) as Hv.
  split_and!; [by eexists| |intros (? & ? & _)%Hfifo; by eexists|].
  - rewrite Hv. unfold command_vars, console_vars. by destruct (pr_ConsoleSocket p), (pr_Init p).
  - destruct (pr_ConsoleSocket p) eqn:Ec; [right|left].
    + destruct Hcons as (? & ? & _); [done|by eexists].
    + rewrite Hv. unfold command_vars, console_vars. rewrite Ec. by destruct (pr_Init p).
Qed.
End Environment.

(** ** The two commands *)

Record invocation := mk_invocation {
  iv_config : Config;
  iv_id : string;
  iv_root : string;
  iv_maxprocs : string;
  iv_skipDevices : bool;
  iv_intelRdt : bool;
  iv_process : Process
}.

Definition iv_initConfig (iv : invocation) : initConfig := newInitConfig (iv_config iv) (iv_id iv) (iv_process iv).
Definition iv_env (iv : invocation) : list string := cmd_Env (newCommand (iv_maxprocs iv) (iv_root iv) (iv_process iv)).

Definition iv_ok (init : bool) (iv : invocation) : Prop :=
  pr_Init (iv_process iv) = init ∧ few_files (iv_process iv).

(** A container is started; a process joins a container. *)
Definition create_pair (iv : invocation) : pair hcall json :=
  start_pair (runc_command (iv_config iv) (iv_id iv) (iv_root iv) (iv_skipDevices iv) (iv_intelRdt iv) (iv_process iv)) (iv_env iv).
Definition exec_pair (sp : setnsProcess) (iv : invocation) : pair hcall json := start_pair (setns_start sp) (iv_env iv).

Lemma iv_env_ok init iv : iv_ok init iv → env_ok init (iv_env iv).
Proof. intros [<- Hn]. by apply environment_ok. Qed.

Lemma create_sound iv : pr_Init (iv_process iv) = true →
  sound true (runc_command (iv_config iv) (iv_id iv) (iv_root iv) (iv_skipDevices iv) (iv_intelRdt iv) (iv_process iv))
    (parent_inv (iv_initConfig iv) (iv_intelRdt iv)) (owed (iv_initConfig iv) (iv_intelRdt iv))
    (λ l r, l_left l = true ∧ create_outcome (iv_initConfig iv) (iv_intelRdt iv) l r).
Proof. intros Hi. split; [apply _|done|by intros ? ? []|by apply typed_create]. Qed.

Lemma exec_sound sp : sound false (setns_start sp) (setns_parent_inv sp) (setns_owed sp)
  (λ l r, l_left l = true ∧ setns_outcome sp l r).
Proof. split; [apply _|done|by intros ? ? []|apply typed_setns_start]. Qed.

Section Container.
Context (iv : invocation) (Hiv : iv_ok true iv) (t : pair hcall json) (Ht : preach (create_pair iv) t).

Abbreviation config := (iv_initConfig iv).
Abbreviation rdt := (iv_intelRdt iv).

Lemma container_child : ∃ u groups, child_marks t `prefix_of` container_plan config u groups ∧
  (child_marks t `prefix_of` setup_plan config ∨
   launch_plan rdt ++ hooks_plan config rdt `prefix_of` parent_marks t ∧
   (child_marks t `prefix_of` setup_plan config ++ enter_plan config ∨
    ∃ fds, parent_plan config rdt fds `prefix_of` parent_marks t)).
Proof.
  destruct (reached_child _ _ _ _ _ (create_sound iv (proj1 Hiv)) _ (iv_env_ok _ _ Hiv) t Ht) as (φ & Hk & Ho).
  unfold plan_kept in Hk. unfold owed in Ho.
  destruct (position φ) as [[c st]|]; [|rewrite Hk; exists nobody, None; split; [apply prefix_nil|left; apply prefix_nil]].
  destruct Ho as [(nets & os & ->) Ho], Hk as (k & -> & gg & Hg & Hp). destruct st; simpl in Hg, Ho; [subst gg..|].
  - exists nobody, None. split; [by apply prefix_app_r|by left].
  - exists nobody, None. split; [by apply prefix_app, prefix_app_r|]. right. split; [done|left]. by apply prefix_app.
  - destruct Hg as (u & groups & ->), Ho as [fds Ho]. exists u, groups. split.
    + unfold container_plan. simpl. rewrite <- app_assoc. by do 2 apply prefix_app.
    + right. split; [|right; by exists fds]. etrans; [|exact Ho]. unfold parent_plan. rewrite app_assoc. by apply prefix_app_r.
Qed.

Lemma container_outcome r : parent t = Return r → ∃ lp, create_outcome config rdt lp r ∧ l_log lp = parent_marks t ∧
  match r with
  | Ok _ => killed t = true ∨ ∃ u groups,
      setup_plan config ++ enter_plan config ++ confined_plan config u groups `prefix_of` child_marks t
  | Err _ => True
  | Panic _ => killed t = true
  end.
Proof.
  intros Er. destruct (reached_outcome _ _ _ _ _ (create_sound iv (proj1 Hiv)) _ (iv_env_ok _ _ Hiv) t Ht r Er)
    as (lp & [_ Ho] & El & Hd).
  exists lp. split; [done|]. split; [done|]. destruct r as [[]|e|x]; [|done|].
  - destruct Ho as (Ed & fds & c & Hl & Eφ). destruct (Hd Ed) as [?|(φ & g & q & _ & Ho & Hg & Hm & Hq)]; [by left|right].
    rewrite Eφ in Hq. destruct (sent_to_turn _ _ _ _ _ Hq) as [-> |Ht']; [|by destruct (may_leave_turn _ _ _ Hm)].
    destruct Ho as [(nets & st & ->) _], Hm as (u & groups & k & ->). exists u, groups.
    etrans; [|exact Hg]. rewrite !app_assoc. by apply prefix_app_r.
  - destruct Ho as (Ed & fds & c & st & Hl & Eφ). destruct (Hd Ed) as [?|(φ & g & q & _ & _ & _ & Hm & Hq)]; [done|].
    rewrite Eφ in Hq. by rewrite (sent_to_failing _ _ _ _ _ Hq) in Hm.
Qed.
End Container.



Section Joining.
Context (sp : setnsProcess) (iv : invocation) (Hiv : iv_ok false iv).
Context (t : pair hcall json) (Ht : preach (exec_pair sp iv) t).

Lemma setns_no_exec c u groups : ∃ l, setns_plan c u groups = l ++ [MExec] ∧ no_exec l.
Proof.
  exists (mark_if (ic_NoNewPrivileges c) MNoNewPrivs ++ label_plan c ++ seccomp_plan c (negb (ic_NoNewPrivileges c)) ++
    privileges_plan c u groups ++ [MProfile (ic_AppArmorProfile c)] ++ seccomp_plan c (ic_NoNewPrivileges c)).
  split; [unfold setns_plan; by rewrite <- !app_assoc|]. no_exec.
Qed.

Lemma setns_child : ∃ u groups, child_marks t `prefix_of` setns_plan (sp_config sp) u groups ∧
  (child_marks t = [] ∨ ∃ g, setns_parent_plan sp g ∧ g `prefix_of` parent_marks t).
Proof.
  destruct (reached_child _ _ _ _ _ (exec_sound sp) _ (iv_env_ok _ _ Hiv) t Ht) as (φ & Hk & Ho).
  unfold plan_kept in Hk. unfold setns_owed in Ho.
  destruct (position φ) as [[c st]|]; [|rewrite Hk; exists nobody, None; split; [apply prefix_nil|by left]].
  destruct Ho as [-> Ho], Hk as (k & -> & gg & (u & groups & ->) & Hp). exists u, groups. split; [exact Hp|by right].
Qed.
End Joining.

(** *** The hooks of the parent *)

Definition is_hook (name : string) (m : mark) : bool := match m with MHook n => bool_decide (n = name) | _ => false end.
Definition hook_runs (name : string) (g : list mark) : nat := length (List.filter (is_hook name) g).

Lemma hook_runs_app name g g' : hook_runs name (g ++ g') = (hook_runs name g + hook_runs name g')%nat.
Proof. unfold hook_runs. by rewrite List.filter_app, length_app. Qed.

Lemma hook_runs_map {A} name (f : A → mark) l : (∀ x, is_hook name (f x) = false) → hook_runs name (map f l) = 0%nat.
Proof. intros Hf. unfold hook_runs. induction l as [|x l IH]; simpl; [done|]. by rewrite Hf. Qed.

Lemma hook_runs_hooks_plan c rdt name :
  name = Prestart ∨ name = CreateRuntime → hook_runs name (hooks_plan c rdt) = if cf_Hooks (ic_Config c) then 1%nat else 0%nat.
Proof. intros [-> | ->]; unfold hooks_plan; destruct rdt, (cf_Hooks _); reflexivity. Qed.

(** ** The properties *)

(** C3. Starting a container and starting a process in one come to their end, with the
    child they start, in every order of their steps and whatever the kernel answers: every
    run is finite, and unless both processes have come to their end one of them can go on.
    [parseSync], [readSync], the deferred cleanups and the wait for a killed child never
    wait for each other. *)
Theorem start_ends iv sp :
  iv_ok (pr_Init (iv_process iv)) iv →
  let t0 := if pr_Init (iv_process iv) then create_pair iv else exec_pair sp iv in
  Acc (λ t2 t1, ∃ l, pstep l t1 = Some t2) t0 ∧
  ∀ t, preach t0 t → ¬ finished t → ∃ w, ∀ o u, is_Some (pstep (mk_label (Some w) o u) t).
Proof.
  intros Hiv%iv_env_ok t0. subst t0. destruct (pr_Init (iv_process iv)) eqn:Ei.
  - split; [by eapply run_ends; [apply create_sound|]|]. intros t. by apply (run_progress _ _ _ _ _ (create_sound iv Ei)).
  - split; [by eapply run_ends; [apply exec_sound|]|]. intros t. by apply (run_progress _ _ _ _ _ (exec_sound sp)).
Qed.

(** C10. The order in which a container is started, at any time: the child does its plan
    step by step; it enters its root file system only after the parent has put it into its
    cgroups, limited them and run the prestart and createRuntime hooks, and it takes on
    the user and the seccomp filter only after the parent has set its limits and saved the
    state. *)
Theorem start_in_step iv t :
  iv_ok true iv → preach (create_pair iv) t →
  let config := iv_initConfig iv in
  ∃ u groups, child_marks t `prefix_of` container_plan config u groups ∧
    (child_marks t `prefix_of` setup_plan config ∨
     launch_plan (iv_intelRdt iv) ++ hooks_plan config (iv_intelRdt iv) `prefix_of` parent_marks t ∧
     (child_marks t `prefix_of` setup_plan config ++ enter_plan config ∨
      ∃ fds, parent_plan config (iv_intelRdt iv) fds `prefix_of` parent_marks t)).
Proof. intros Hiv Ht. by apply container_child. Qed.

(** C2. When the program of a container is executed, all of the plan has been done, by the
    child and by the parent: the mounts, the hooks, the root, the profile, the masked and
    read-only paths, the label, the seccomp filter, the bounding set, the user, the
    capabilities and the wait for [runc start], in this order and each of them once. *)
Theorem executed_is_confined iv t :
  iv_ok true iv → preach (create_pair iv) t → MExec ∈ child_marks t →
  ∃ u groups fds, child_marks t = container_plan (iv_initConfig iv) u groups ∧
    parent_plan (iv_initConfig iv) (iv_intelRdt iv) fds `prefix_of` parent_marks t.
Proof.
  intros Hiv Ht Hin. destruct (container_child _ Hiv _ Ht) as (u & groups & Hp & Hk). exists u, groups.
  assert (child_marks t = container_plan (iv_initConfig iv) u groups) as E.
  { destruct (container_no_exec (iv_initConfig iv) u groups) as (l & El & Hl). rewrite El in Hp |- *. by apply executed_all. }
  assert (¬ child_marks t `prefix_of` setup_plan (iv_initConfig iv) ++ enter_plan (iv_initConfig iv)) as Hn.
  { intros [k Hk']. pose proof (setup_no_exec (iv_initConfig iv)) as Hs. rewrite Hk', no_exec_app in Hs. destruct Hs as [Hs _].
    unfold no_exec in Hs. rewrite Forall_forall in Hs. by apply (Hs MExec). }
  destruct Hk as [[k Hk']|[_ [?|[fds ?]]]]; [|done|by exists fds].
  destruct Hn. rewrite Hk', <- app_assoc. by apply prefix_app_r.
Qed.


(** C11. [setnsProcess.start], for a process that joins a container: without an error the
    process is in the cgroups of the container, has its limits and, unless somebody else
    killed it, executes its program after all that confines it; with an error it is gone,
    if it was told anything; the confinement never comes before the cgroups and the
    limits. It only panics when somebody else killed the child. *)
Theorem setns_outcome_spec sp iv t :
  iv_ok false iv → preach (exec_pair sp iv) t →
  (∃ u groups, child_marks t `prefix_of` setns_plan (sp_config sp) u groups ∧
    (child_marks t = [] ∨ ∃ g, setns_parent_plan sp g ∧ g `prefix_of` parent_marks t)) ∧
  ∀ r, parent t = Return r →
  match r with
  | Ok _ => setns_parent_plan sp (parent_marks t) ∧
      (killed t = true ∨ ∃ u groups, child_marks t = setns_plan (sp_config sp) u groups)
  | Err _ => parent_marks t = [] ∨ child t = None ∧ ∃ g k, partial (setns_parent_plan sp) g ∧ k `prefix_of` [MReaped] ∧
      parent_marks t = g ++ k ++ [MReaped]
  | Panic _ => killed t = true ∧ setns_parent_plan sp (parent_marks t)
  end.
Proof.
  intros Hiv Ht. pose proof (setns_child sp iv Hiv t Ht) as Hc. split; [done|]. intros r Er.
  destruct (reached_outcome _ _ _ _ _ (exec_sound sp) _ (iv_env_ok _ _ Hiv) t Ht r Er) as (lp & [_ Ho] & El & Hd).
  unfold setns_outcome in Ho. rewrite El in Ho. destruct r as [[]|e|x].
  - destruct Ho as (Ed & Hl & c & Eφ). split; [done|].
    destruct (Hd Ed) as [?|(φ & g & q & _ & Ho & Hg & Hm & Hq)]; [by left|right].
    rewrite Eφ in Hq. destruct (sent_to_turn _ _ _ _ _ Hq) as [-> |Ht']; [|by destruct (may_leave_turn _ _ _ Hm)].
    destruct Ho as [-> _], Hm as (u & groups & k & ->), Hc as (u2 & groups2 & Hp & _). simpl in Hg.
    exists u2, groups2. destruct (setns_no_exec (sp_config sp) u2 groups2) as (l & E2 & Hn). rewrite E2 in Hp |- *.
    apply executed_all; [done..|]. destruct Hg as [k' ->]. destruct (setns_no_exec (sp_config sp) u groups) as (l1 & -> & _).
    rewrite !elem_of_app. left. left. right. by left.
  - destruct Ho as [?|(g & k & Hg & Hk & E)]; [by left|right]. split; [|by exists g, k].
    apply (reached_reaped _ _ t Ht). rewrite E, !elem_of_app. right. right. by left.
  - destruct Ho as (Ed & Hl & c & st & Eφ). split; [|done].
    destruct (Hd Ed) as [?|(φ & g & q & _ & _ & _ & Hm & Hq)]; [done|].
    rewrite Eφ in Hq. by rewrite (sent_to_failing _ _ _ _ _ Hq) in Hm.
Qed.

(** A start without an error has run the prestart and the createRuntime hooks exactly
    once when the container has a mount namespace of its own, and twice when it has none:
    the child asks for them in any case, and the parent runs them again for a ready
    process without a mount namespace. *)
Theorem hooks_of_a_start iv t name :
  iv_ok true iv → preach (create_pair iv) t → parent t = Return (Ok tt) →
  name = Prestart ∨ name = CreateRuntime →
  hook_runs name (parent_marks t) =
    if cf_Hooks (iv_config iv) then if ns_Contains (cf_Namespaces (iv_config iv)) NEWNS then 1%nat else 2%nat else 0%nat.
Proof.
  intros Hiv Ht Er Hname. destruct (container_outcome _ Hiv _ Ht _ Er) as (lp & (_ & fds & c & Hl & _) & El & _).
  rewrite <- El, Hl. unfold parent_plan, ready_plan, poststart_plan.
  rewrite !hook_runs_app, hook_runs_map, hook_runs_hooks_plan by done.
  assert (hook_runs name (launch_plan (iv_intelRdt iv)) = 0%nat) as -> by (by destruct (iv_intelRdt iv)).
  assert (hook_runs name (mark_if (cf_Hooks (ic_Config (iv_initConfig iv))) (MHook Poststart)) = 0%nat) as ->.
  { destruct (cf_Hooks _); [|done]. by destruct Hname as [-> | ->]. }
  change (ic_Config (iv_initConfig iv)) with (iv_config iv).
  destruct (ns_Contains _ _); [|rewrite hook_runs_hooks_plan by done]; change (ic_Config (iv_initConfig iv)) with (iv_config iv);
    destruct (cf_Hooks _); reflexivity.
Qed.

(** C37. The command of a child and its environment. The files of the process keep their
    numbers in the child. Behind them come the files of [newParentProcess], and each of
    their variables, read back the way the child reads it, names that very file: the
    init pipe, the log pipe, for a container the FIFO, and the console socket if there is
    one. Nothing else is handed over: every descriptor behind the files of the process,
    from where [finalizeNamespace] closes, is one of these. The other variables say
    where the state is and what the child is started for. *)
Theorem environment_roundtrip maxprocs root config id p :
  few_files p →
  let cmd := newCommand maxprocs root p in
  (∀ n, (n < length (pr_ExtraFiles p))%nat → child_file cmd (fd_of n) = pr_ExtraFiles p !! n) ∧
  hands_over cmd p "_LIBCONTAINER_INITPIPE" ChildInitPipe ∧
  hands_over cmd p "_LIBCONTAINER_LOGPIPE" ChildLogPipe ∧
  (pr_Init p = true → hands_over cmd p "_LIBCONTAINER_FIFOFD" ExecFifo) ∧
  (pr_ConsoleSocket p = true → hands_over cmd p "_LIBCONTAINER_CONSOLE" ConsoleSocketFile) ∧
  (∀ fd f, ic_PassedFilesCount (newInitConfig config id p) + 3 ≤ fd → child_file cmd fd = Some f →
     f ∈ [ChildInitPipe; ChildLogPipe] ∨ f = ExecFifo ∧ pr_Init p = true ∨ f = ConsoleSocketFile ∧ pr_ConsoleSocket p = true) ∧
  Getenv (cmd_Env cmd) "_LIBCONTAINER_STATEDIR" = root ∧
  Getenv (cmd_Env cmd) "_LIBCONTAINER_INITTYPE" = if pr_Init p then initStandard else initSetns.
Proof.
  intros Hn cmd. destruct (command_env maxprocs root p Hn) as (Hpipe & Hlog & Hfifo & Hcons).
  pose proof (newCommand_Getenv maxprocs root p) as Hv. subst cmd.
  split_and!; [|done..| | |].
  - intros n Hlt. rewrite child_file_at, newCommand_spec. unfold command_files, before_pipe. simpl.
    by rewrite <- app_assoc, lookup_app_l.
  - intros fd f. cbn [ic_PassedFilesCount newInitConfig]. intros Hfd. rewrite newCommand_spec.
    assert (fd = fd_of (Z.to_nat (fd - 3))) as -> by (unfold fd_of, stdioFdCount; lia).
    rewrite child_file_at. unfold command_files, before_pipe. simpl. rewrite <- app_assoc, lookup_app_r by lia.
    intros Hf%list_elem_of_lookup_2. rewrite !elem_of_app in Hf.
    destruct (pr_ConsoleSocket p), (pr_Init p); set_solver.
  - rewrite Hv. unfold command_vars, console_vars. by destruct (pr_ConsoleSocket p).
  - rewrite Hv. unfold command_vars, console_vars. by destruct (pr_ConsoleSocket p), (pr_Init p).
Qed.

(** ** Concrete runs *)

(** A world in which every call succeeds and no file is in the way. *)
Definition world : oracle hcall := λ X c,
  match c in hcall Y return (error + Y)%type with
  | CmdStart | OOMKillCount | UpdateState _ | Getppid | Getpid | JoinSessionKeyring _ | LinkByName _ | Umask _
    | GetParentDeathSignal | StatRdev _ | OpenExecFifo _ => inr 0
  | CopyBootstrap | WriteCgroupns | FirstStageKill | CmdWait | WaitFirstChild _ | FindProcess _ | ManagerApply
    _ | ManagerSet _ | ManagerDestroy | KillAllProcesses | IntelApply _ | IntelSet _ | IntelDestroy | RunHooks
    _ _ | Prlimit _ _ | SetCreated | SetStartTime _ | EnterPid _ _ | WriteCgroupProc _ _ | WriteIntelRdtTasks
    _ _ | Mkfifo _ _ | Chown _ _ _ | OsRemove _ | NewSockPair | OsPipe | OpenPath _ | BootstrapData _ _ |
    Clearenv | Setenv _ _ | CloseConsoleSocket | SetKeyLabel _ | ModKeyringPerm _ _ _ | LinkSetUp _ | RouteAdd
    _ _ _ _ | GetEnabled | PrepareRoot _ | MountCmd _ | MountToRootfs _ _ _ _ | CreateDevices _ | SetupPtmx _
    | SetupDevSymlinks _ | Chdir _ | MsMoveRoot _ | PivotRoot _ | Chroot | ReOpenDevNull | MkdirAll _ |
    RemountReadonly _ | SetReadonly | PtyResize _ _ | PtyClose | MountConsole _ | SendFd | DupStdio _ |
    Setctty | Sethostname _ | ApplyProfile _ | WriteSystemProperty _ _ | ReadonlyPath _ | MaskPath _ _ |
    SetParentDeathSignal _ | SetNoNewPrivs | SetExecLabel _ | InitSeccomp _ | CloseExecFrom _ |
    CapabilitiesNew _ | ApplyBoundingSet _ | SetKeepCaps | ClearKeepCaps | ApplyCaps _ | Fchown _ _ _ |
    Setgroups _ | Setgid _ | Setuid _ | WriteExecFifo _ | CloseFd _ => inr tt
  | ReadPid | Fstat _ => inr (0, 0)
  | FirstStageWait | DebugLevel | IsCgroup2UnifiedMode => inr true
  | PipeFds _ => inr []
  | CurrentOCIState => inr (mk_OCIState "" "" "" 0 "" ∅)
  | ParseCgroupFile _ => inr ∅
  | CurrentState => inr (mk_State "" (mk_Config "" [] [] [] false false None [] false [] [] [] [] 0
    no_settings) 1 0 0 false ∅ "" ∅ [])
  | GetHome | ParseCIDR _ | NewPty | GetPasswdPath | GetGroupPath | ReadFile _ | LookPath _ => inr ""
  | ParseIP _ => inr (Some "")
  | GetExecUserPath _ _ _ _ => inr nobody
  | GetAdditionalGroupsPath _ _ => inr []
  | OsStat _ => inl (ErrSys 2)
  end.

(** The parent goes first, the child when the parent waits. *)
Fixpoint drive (n : nat) (o : oracle hcall) (t : pair hcall json) : pair hcall json :=
  match n with
  | O => t
  | S n =>
      match pstep (mk_label (Some Parent) o None) t with
      | Some t' => drive n o t'
      | None => match pstep (mk_label (Some Child) o None) t with Some t' => drive n o t' | None => t end
      end
  end.

Lemma drive_reach n o t0 t : preach t0 t → preach t0 (drive n o t).
Proof.
  revert t. induction n as [|n IH]; intros t Ht; [done|]. simpl.
  destruct (pstep (mk_label (Some Parent) o None) t) eqn:Ep; [by eapply IH, preach_step|].
  destruct (pstep (mk_label (Some Child) o None) t) eqn:Ec; [by eapply IH, preach_step|done].
Qed.

Definition demo_mount : Mount := mk_Mount "proc" "/proc" "proc" no_options.
Definition demo_Config (newns : bool) : Config :=
  mk_Config "/rootfs" (if newns then [mk_Namespace NEWNS ""] else []) [] [] false false None [] true
    [mk_Mount "proc" "/proc" "proc" no_options] ["/proc/kcore"] [] [] 0
    (mk_Settings false None true 0 "" "c1" None [] "docker-default" "label" [mk_Rlimit 7 1024 1024] ["/proc/sys"] ∅
      (Some 1) false false).

Definition demo_Process (init : bool) : Process :=
  mk_Process ["sh"] ["PATH=/bin"] "" [] "/" [PassedFile "a"; PassedFile "b"] 0 0 None "" "" None [] true init "info".

Definition demo_config (newns init : bool) : initConfig := newInitConfig (demo_Config newns) "c1" (demo_Process init).
Definition demo_env (init : bool) : list string := cmd_Env (newCommand "" "/run/runc" (demo_Process init)).

Definition demo (newns init : bool) : invocation :=
  mk_invocation (demo_Config newns) "c1" "/run/runc/c1" "" false false (demo_Process init).

Definition demo_setns : setnsProcess :=
  mk_setnsProcess {[ "" := "/c1" ]} false "" (iv_initConfig (demo true false)) true 1.

Definition demo_run (o : oracle hcall) (t : pair hcall json) : pair hcall json := drive 1000 o t.
Definition demo_create : pair hcall json := create_pair (demo true true).
Definition demo_exec : pair hcall json := exec_pair demo_setns (demo true false).

(** A world in which the root file system cannot be prepared. *)
Definition no_root : oracle hcall := λ X c,
  match c in hcall Y return (error + Y)%type with
  | PrepareRoot _ => inl (ErrNew "EPERM")
  | c => world _ c
  end.

(** The child reports its error, is killed after the first of the two messages, and the
    parent reads on. *)
Definition killed_run : pair hcall json := drive 1000 no_root (child_killed (drive 31 no_root demo_create)).

Lemma killed_reach : preach demo_create killed_run.
Proof.
  apply drive_reach, (preach_step _ (mk_label None no_root None) (drive 31 no_root demo_create)).
  - apply drive_reach, preach_refl.
  - vm_compute. reflexivity.
Qed.

Lemma demo_ok newns init : iv_ok init (demo newns init).
Proof. by destruct init. Qed.

Lemma demo_reach o t : preach t (demo_run o t).
Proof. apply drive_reach, preach_refl. Qed.

(** A child that is killed, by the kernel for want of memory or by hand, between the
    two messages that report its error makes [parseSync] panic: [runc create] ends without
    its deferred cleanup, and the cgroups and the FIFO it made stay behind. *)
Theorem killed_child_panics :
  ∃ iv t x, iv_ok true iv ∧ preach (create_pair iv) t ∧ finished t ∧ parent t = Return (Panic x) ∧
    MApply ∈ parent_marks t ∧ MDestroy ∉ parent_marks t ∧ MFifoGone ∉ parent_marks t.
Proof.
  exists (demo true true), killed_run, "No error following JSON procError payload.".
  assert (parent_marks killed_run = [MApply]) as -> by (vm_compute; reflexivity).
  split_and!; [done|apply killed_reach| |vm_compute; reflexivity|by left|..].
  - split; [vm_compute; reflexivity|eexists; vm_compute; reflexivity].
  - by intros ?%list_elem_of_singleton.
  - by intros ?%list_elem_of_singleton.
Qed.

(** The state for the poststart hooks cannot be read when everything else has been done:
    [Start] returns the error and removes the FIFO, but the child and its cgroups stay, and
    the child goes on to execute its program. *)
Definition no_state : oracle hcall := λ X c,
  match c in hcall Y return (error + Y)%type with
  | CurrentOCIState => inl (ErrNew "EIO")
  | c => world _ c
  end.
Definition unread_run : pair hcall json := drive 1000 no_state (drive 60 world demo_create).

Theorem unread_state_leaves_child :
  ∃ e, preach demo_create unread_run ∧ parent unread_run = Return (Err e) ∧ MFifoGone ∈ parent_marks unread_run ∧
    MDestroy ∉ parent_marks unread_run ∧ MReaped ∉ parent_marks unread_run ∧ MExec ∈ child_marks unread_run.
Proof.
  eexists. split_and!.
  - apply drive_reach, drive_reach, preach_refl.
  - vm_compute. reflexivity.
  - vm_compute parent_marks. repeat first [by left|right].
  - vm_compute parent_marks. rewrite !not_elem_of_cons. split_and!; done || apply not_elem_of_nil.
  - vm_compute parent_marks. rewrite !not_elem_of_cons. split_and!; done || apply not_elem_of_nil.
  - vm_compute child_marks. repeat first [by left|right].
Qed.

Lemma start_ends_witness :
  finished (demo_run world demo_create) ∧ finished (demo_run world demo_exec) ∧
  Acc (λ t2 t1, ∃ l, pstep l t1 = Some t2) demo_create ∧ Acc (λ t2 t1, ∃ l, pstep l t1 = Some t2) demo_exec.
Proof.
  split; [split; [vm_compute; reflexivity|eexists; vm_compute; reflexivity]|].
  split; [split; [vm_compute; reflexivity|eexists; vm_compute; reflexivity]|].
  split; [apply (start_ends (demo true true) demo_setns), demo_ok|apply (start_ends (demo true false) demo_setns), demo_ok].
Defined.

Lemma start_in_step_witness : ∃ u groups,
  child_marks (demo_run world demo_create) `prefix_of` container_plan (iv_initConfig (demo true true)) u groups.
Proof.
  destruct (start_in_step (demo true true) (demo_run world demo_create) (demo_ok _ _) (demo_reach _ _)) as (u & groups & Hp & _).
  by exists u, groups.
Defined.

Lemma executed_is_confined_witness : MExec ∈ child_marks (demo_run world demo_create) ∧
  ∃ u groups, child_marks (demo_run world demo_create) = container_plan (iv_initConfig (demo true true)) u groups.
Proof.
  assert (MExec ∈ child_marks (demo_run world demo_create)) as Hin by (vm_compute child_marks; repeat first [by left|right]).
  split; [done|].
  destruct (executed_is_confined (demo true true) _ (demo_ok _ _) (demo_reach world _) Hin) as (u & groups & fds & E & _).
  by exists u, groups.
Defined.


Lemma setns_outcome_spec_witness : ∃ u groups,
  child_marks (demo_run world demo_exec) = setns_plan (sp_config demo_setns) u groups.
Proof.
  destruct (setns_outcome_spec demo_setns (demo true false) (demo_run world demo_exec) (demo_ok _ _) (demo_reach _ _)) as [_ Hr].
  destruct (Hr (Ok tt)) as [_ [Hk|Hc]]; [vm_compute; reflexivity|vm_compute in Hk; discriminate|exact Hc].
Defined.

Lemma hooks_of_a_start_witness :
  hook_runs Prestart (parent_marks (demo_run world (create_pair (demo true true)))) = 1%nat ∧
  hook_runs Prestart (parent_marks (demo_run world (create_pair (demo false true)))) = 2%nat.
Proof.
  split.
  - apply (hooks_of_a_start (demo true true)); [apply demo_ok|apply demo_reach|vm_compute; reflexivity|by left].
  - apply (hooks_of_a_start (demo false true)); [apply demo_ok|apply demo_reach|vm_compute; reflexivity|by left].
Defined.

Lemma environment_roundtrip_witness :
  let cmd := newCommand "" "/run/runc/c1" (demo_Process true) in
  child_file cmd 4 = Some (PassedFile "b") ∧ child_file cmd 6 = Some ChildInitPipe ∧
  hands_over cmd (demo_Process true) "_LIBCONTAINER_FIFOFD" ExecFifo.
Proof.
  split_and!; [reflexivity|reflexivity|].
  apply (environment_roundtrip "" "/run/runc/c1" (demo_Config true) "c1" (demo_Process true)); reflexivity.
Defined.
