(* ===== verification/Users.v ===== *)
(** * Users and groups ([libcontainer/user])

    The parsers of passwd, group, subordinate id and id map files ([user.go]), the
    resolution of the user a process runs as ([GetExecUser]) and of its additional groups,
    the look-ups by name and id ([lookup.go], [lookup_unix.go]), and what
    [libcontainer/system] reads from an id map. Files are read through a function [open]. *)

From S2P Require Import Prelude GoStd InitSync.

(** ** Fields of a line

    The variables a line is scanned into: their type says how, their value is what the
    variable holds. *)

Inductive field :=
  | FString (s : string)
  | FInt (n : Z)
  | FInt64 (n : Z)
  | FList (l : list string).

#[export] Instance field_eq_dec : EqDecision field.
Proof. solve_decision. Defined.

(** One turn of the loop of [parseParts]: the errors of the conversions are dropped. *)
Definition parse_field (e : field) (p : string) : field :=
  match e with
  | FString _ => FString p
  | FInt _ => FInt (fst (Atoi p))
  | FInt64 _ => FInt64 (fst (ParseInt p 64))
  | FList _ => FList (if decide (p = "") then [] else Split "," p)
  end.

Fixpoint parseParts (parts : list string) (v : list field) : list field :=
  match parts, v with
  | p :: parts', e :: v' => parse_field e p :: parseParts parts' v'
  | _, _ => v
  end.

Definition parseLine (line : string) (v : list field) : list field := parseParts (Split ":" line) v.

(** ** Entries

    The nil and the empty list of members are not told apart. *)

Record User := mk_User {
  u_Name : string; u_Pass : string; u_Uid : Z; u_Gid : Z;
  u_Gecos : string; u_Home : string; u_Shell : string
}.

Record Group := mk_Group { g_Name : string; g_Pass : string; g_Gid : Z; g_List : list string }.

Record SubID := mk_SubID { si_Name : string; si_SubID : Z; si_Count : Z }.

Record IDMap := mk_IDMap { id_ID : Z; id_ParentID : Z; id_Count : Z }.

#[export] Instance User_eq_dec : EqDecision User.
Proof. solve_decision. Defined.
#[export] Instance Group_eq_dec : EqDecision Group.
Proof. solve_decision. Defined.
#[export] Instance SubID_eq_dec : EqDecision SubID.
Proof. solve_decision. Defined.
#[export] Instance IDMap_eq_dec : EqDecision IDMap.
Proof. solve_decision. Defined.

(** What the loops of the parsers need of an entry: its fields, in the order of the line,
    and the entry with given fields; [zero] is the value the loops start from. *)
Class Entry (R : Type) := {
  fields : R → list field;
  of_fields : list field → option R;
  zero : R;
  of_fields_fields r : of_fields (fields r) = Some r
}.

#[export, refine] Instance User_entry : Entry User := {|
  fields p := [FString (u_Name p); FString (u_Pass p); FInt (u_Uid p); FInt (u_Gid p);
               FString (u_Gecos p); FString (u_Home p); FString (u_Shell p)];
  of_fields v := match v with
    | [FString n; FString p; FInt u; FInt g; FString c; FString h; FString s] => Some (mk_User n p u g c h s)
    | _ => None
    end;
  zero := mk_User "" "" 0 0 "" "" "";
  of_fields_fields := _
|}.
Proof. by intros []. Defined.

#[export, refine] Instance Group_entry : Entry Group := {|
  fields p := [FString (g_Name p); FString (g_Pass p); FInt (g_Gid p); FList (g_List p)];
  of_fields v := match v with
    | [FString n; FString p; FInt g; FList l] => Some (mk_Group n p g l)
    | _ => None
    end;
  zero := mk_Group "" "" 0 [];
  of_fields_fields := _
|}.
Proof. by intros []. Defined.

#[export, refine] Instance SubID_entry : Entry SubID := {|
  fields p := [FString (si_Name p); FInt64 (si_SubID p); FInt64 (si_Count p)];
  of_fields v := match v with
    | [FString n; FInt64 s; FInt64 c] => Some (mk_SubID n s c)
    | _ => None
    end;
  zero := mk_SubID "" 0 0;
  of_fields_fields := _
|}.
Proof. by intros []. Defined.

#[export, refine] Instance IDMap_entry : Entry IDMap := {|
  fields p := [FInt64 (id_ID p); FInt64 (id_ParentID p); FInt64 (id_Count p)];
  of_fields v := match v with
    | [FInt64 i; FInt64 p; FInt64 c] => Some (mk_IDMap i p c)
    | _ => None
    end;
  zero := mk_IDMap 0 0 0;
  of_fields_fields := _
|}.
Proof. by intros []. Defined.

(** An entry scanned from the parts of a line, and from a line with colons. *)
Definition scan_parts {R} `{Entry R} (parts : list string) : R :=
  default zero (of_fields (parseParts parts (fields zero))).
Definition scan_line {R} `{Entry R} (line : string) : R :=
  default zero (of_fields (parseLine line (fields zero))).

(** ** Files of lines *)

(** [filter == nil || filter(p)] *)
Definition selected {R} (filter : option (R → bool)) (p : R) : bool :=
  match filter with None => true | Some f => f p end.

(** The loop of the parsers over the lines [s.Scan] delivers: [line] is what a line says,
    [None] when it is skipped. *)
Fixpoint scan_loop {R} (line : string → option R) (filter : option (R → bool))
    (lines : list string) (out : list R) : list R :=
  match lines with
  | [] => out
  | l :: lines' =>
      scan_loop line filter lines'
        match line l with
        | None => out
        | Some p => if selected filter p then out ++ [p] else out
        end
  end.

Definition parse_lines {R} (what : string) (line : string → option R)
    (r : option reader) (filter : option (R → bool)) : result (list R) :=
  match r with
  | None => Err (ErrNew ("nil source for " +:+ what +:+ "-formatted data"))
  | Some r =>
      let '(lines, err) := scan_lines r in
      let out := scan_loop line filter lines [] in
      match err with Some e => Err e | None => Ok out end
  end.

Definition passwd_line (text : string) : option User :=
  let line := TrimSpace text in
  if decide (line = "") then None else Some (scan_line line).

(** A line of a group file is not trimmed. *)
Definition group_line (text : string) : option Group :=
  if decide (text = "") then None else Some (scan_line text).

Definition subid_line (text : string) : option SubID :=
  let line := TrimSpace text in
  if decide (line = "") then None else Some (scan_line line).

Definition idmap_line (text : string) : option IDMap :=
  let line := TrimSpace text in
  if decide (line = "") then None else Some (scan_parts (Fields line)).

Definition ParsePasswdFilter := parse_lines "passwd" passwd_line.
Definition ParseGroupFilter := parse_lines "group" group_line.
Definition ParseSubIDFilter := parse_lines "subid" subid_line.
Definition ParseIDMapFilter := parse_lines "idmap" idmap_line.

Definition ParsePasswd (passwd : option reader) : result (list User) := ParsePasswdFilter passwd None.
Definition ParseGroup (group : option reader) : result (list Group) := ParseGroupFilter group None.
Definition ParseSubID (subid : option reader) : result (list SubID) := ParseSubIDFilter subid None.
Definition ParseIDMap (r : option reader) : result (list IDMap) := ParseIDMapFilter r None.

(** ** The user a process runs as *)

Definition minId : Z := 0.
Definition maxId : Z := 2 ^ 31 - 1.
Definition ErrIdRange : error := ErrNew "uids and gids must be in range 0-2147483647".
Definition ErrNoPasswdEntries : error := ErrNew "no matching entries in passwd file".
Definition ErrNoGroupEntries : error := ErrNew "no matching entries in group file".

Definition in_range (id : Z) : bool := negb ((id <? minId) || (maxId <? id)).

(** The filters of [GetExecUser]. An argument is numeric when [Atoi] has no error. *)
Definition user_filter (userArg : string) (uid : Z) (u : User) : bool :=
  if decide (userArg = "") then u_Uid u =? uid
  else match Atoi userArg with
       | (uidArg, None) => uidArg =? u_Uid u
       | _ => bool_decide (u_Name u = userArg)
       end.

Definition group_filter (groupArg matchedUserName : string) (g : Group) : bool :=
  if decide (groupArg = "") then existsb (λ u, bool_decide (u = matchedUserName)) (g_List g)
  else match Atoi groupArg with
       | (gidArg, None) => gidArg =? g_Gid g
       | _ => bool_decide (g_Name g = groupArg)
       end.

(** [ids[0]] or the number itself; [None] when the argument is blank. *)
Definition choose_user (userArg : string) (users : list User) (user : ExecUser)
    : result (ExecUser * string) :=
  match users with
  | u :: _ => Ok (mk_ExecUser (u_Uid u) (u_Gid u) (eu_Sgids user) (u_Home u), u_Name u)
  | [] =>
      if decide (userArg = "") then Ok (user, "")
      else match Atoi userArg with
           | (_, Some _) => Err (ErrWrap ("unable to find user " +:+ userArg) ErrNoPasswdEntries)
           | (uidArg, None) =>
               if in_range uidArg
               then Ok (mk_ExecUser uidArg (eu_Gid user) (eu_Sgids user) (eu_Home user), "")
               else Err ErrIdRange
           end
  end.

Definition with_gid (gid : Z) (u : ExecUser) : ExecUser :=
  mk_ExecUser (eu_Uid u) gid (eu_Sgids u) (eu_Home u).
Definition with_sgids (gids : list Z) (u : ExecUser) : ExecUser :=
  mk_ExecUser (eu_Uid u) (eu_Gid u) gids (eu_Home u).

Definition choose_group (groupArg : string) (groups : list Group) (user : ExecUser) : result ExecUser :=
  if decide (groupArg = "") then
    Ok match groups with [] => user | _ => with_sgids (g_Gid <$> groups) user end
  else match groups with
  | g :: _ => Ok (with_gid (g_Gid g) user)
  | [] => match Atoi groupArg with
          | (_, Some _) => Err (ErrWrap ("unable to find group " +:+ groupArg) ErrNoGroupEntries)
          | (gidArg, None) => if in_range gidArg then Ok (with_gid gidArg user) else Err ErrIdRange
          end
  end.

(** [ids, err := Parse(r, ..); if err != nil && r != nil]: the error of a file that is not
    there is dropped, with no entries. *)
Definition entries_or {A} (msg : string) (r : option reader) (res : result (list A)) : result (list A) :=
  match res, r with
  | Err e, Some _ => Err (ErrWrap msg e)
  | Err _, None => Ok []
  | _, _ => res
  end.

(** [parseLine(userSpec, &userArg, &groupArg)] *)
Definition spec_args (userSpec : string) : string * string :=
  match parseLine userSpec [FString ""; FString ""] with
  | [FString userArg; FString groupArg] => (userArg, groupArg)
  | _ => ("", "")
  end.

Definition GetExecUser (userSpec : string) (defaults : option ExecUser) (passwd group : option reader)
    : result ExecUser :=
  let user := default (mk_ExecUser 0 0 [] "") defaults in
  let '(userArg, groupArg) := spec_args userSpec in
  let! users := entries_or ("unable to find user "
                            +:+ (if decide (userArg = "") then Itoa (eu_Uid user) else userArg))
                  passwd (ParsePasswdFilter passwd (Some (user_filter userArg (eu_Uid user)))) in
  let! (user, matchedUserName) := choose_user userArg users user in
  if decide (groupArg = "" ∧ matchedUserName = "") then Ok user
  else
    let! groups := entries_or ("unable to find groups for spec " +:+ matchedUserName)
                     group (ParseGroupFilter group (Some (group_filter groupArg matchedUserName))) in
    choose_group groupArg groups user.

(** ** Additional groups *)

Definition ag_matches (ag : string) (g : Group) : bool :=
  bool_decide (g_Name g = ag) || bool_decide (Itoa (g_Gid g) = ag).

(** One turn of the loop over the groups asked for; [gidMap] holds the ids found so far. *)
Definition add_group (groups : list Group) (gidMap : gset Z) (ag : string) : result (gset Z) :=
  match list_find (λ g, ag_matches ag g = true ∧ g_Gid g ∉ gidMap) groups with
  | Some (_, g) => Ok ({[g_Gid g]} ∪ gidMap)
  | None =>
      match ParseInt ag 64 with
      | (_, Some _) => Err (ErrNew ("Unable to find group " +:+ ag))
      | (gid, None) => if in_range gid then Ok ({[gid]} ∪ gidMap) else Err ErrIdRange
      end
  end.

Definition GetAdditionalGroups (additionalGroups : list string) (group : option reader) : result (list Z) :=
  let! groups := match group with
                 | None => Ok []
                 | Some _ =>
                     wrap_err "Unable to find additional groups"
                       (ParseGroupFilter group (Some (λ g, existsb (λ ag, ag_matches ag g) additionalGroups)))
                 end in
  let! gidMap := foldM (add_group groups) ∅ additionalGroups in
  Ok (elements gidMap).

(** ** Files and look-ups *)

Definition head_or {A} (e : error) (l : list A) : result A :=
  match l with [] => Err e | x :: _ => Ok x end.

Definition ok_of {A} (r : result A) : option A := match r with Ok a => Some a | _ => None end.

Section Files.
(** [os.Open], what can be read from a path. *)
Context (open : string → result reader).

Definition ParsePasswdFileFilter (path : string) (filter : option (User → bool)) : result (list User) :=
  let! passwd := open path in ParsePasswdFilter (Some passwd) filter.
Definition ParseGroupFileFilter (path : string) (filter : option (Group → bool)) : result (list Group) :=
  let! group := open path in ParseGroupFilter (Some group) filter.
Definition ParseSubIDFileFilter (path : string) (filter : option (SubID → bool)) : result (list SubID) :=
  let! subid := open path in ParseSubIDFilter (Some subid) filter.
Definition ParseIDMapFileFilter (path : string) (filter : option (IDMap → bool)) : result (list IDMap) :=
  let! r := open path in ParseIDMapFilter (Some r) filter.

Definition ParsePasswdFile (path : string) : result (list User) := let! passwd := open path in ParsePasswd (Some passwd).
Definition ParseGroupFile (path : string) : result (list Group) := let! group := open path in ParseGroup (Some group).
Definition ParseSubIDFile (path : string) : result (list SubID) := let! subid := open path in ParseSubID (Some subid).
Definition ParseIDMapFile (path : string) : result (list IDMap) := let! r := open path in ParseIDMap (Some r).

Definition GetExecUserPath (userSpec : string) (defaults : option ExecUser) (passwdPath groupPath : string)
    : result ExecUser :=
  GetExecUser userSpec defaults (ok_of (open passwdPath)) (ok_of (open groupPath)).

Definition GetAdditionalGroupsPath (additionalGroups : list string) (groupPath : string) : result (list Z) :=
  GetAdditionalGroups additionalGroups (ok_of (open groupPath)).

Definition unixPasswdPath : string := "/etc/passwd".
Definition unixGroupPath : string := "/etc/group".
Definition GetPasswdPath : string := unixPasswdPath.
Definition GetGroupPath : string := unixGroupPath.
Definition GetPasswd : result reader := open unixPasswdPath.
Definition GetGroup : result reader := open unixGroupPath.

Definition lookupUserFunc (filter : User → bool) : result User :=
  let! passwd := open unixPasswdPath in
  let! users := ParsePasswdFilter (Some passwd) (Some filter) in
  head_or ErrNoPasswdEntries users.

Definition lookupGroupFunc (filter : Group → bool) : result Group :=
  let! group := open unixGroupPath in
  let! groups := ParseGroupFilter (Some group) (Some filter) in
  head_or ErrNoGroupEntries groups.

Definition LookupUser (username : string) : result User := lookupUserFunc (λ u, bool_decide (u_Name u = username)).
Definition LookupUid (uid : Z) : result User := lookupUserFunc (λ u, u_Uid u =? uid).
Definition LookupGroup (groupname : string) : result Group := lookupGroupFunc (λ g, bool_decide (g_Name g = groupname)).
Definition LookupGid (gid : Z) : result Group := lookupGroupFunc (λ g, g_Gid g =? gid).

(** [CurrentUser] and [CurrentGroup]; [uid] and [gid] are the answers of [unix.Getuid] and [unix.Getgid]. *)
Definition CurrentUser (uid : Z) : result User := LookupUid uid.
Definition CurrentGroup (gid : Z) : result Group := LookupGid gid.

Definition currentUserSubIDs (uid : Z) (fileName : string) : result (list SubID) :=
  let! u := CurrentUser uid in
  ParseSubIDFileFilter fileName
    (Some (λ entry, bool_decide (si_Name entry = u_Name u) || bool_decide (si_Name entry = Itoa (u_Uid u)))).

Definition CurrentUserSubUIDs (uid : Z) : result (list SubID) := currentUserSubIDs uid "/etc/subuid".
Definition CurrentUserSubGIDs (uid : Z) : result (list SubID) := currentUserSubIDs uid "/etc/subgid".

Definition CurrentProcessUIDMap : result (list IDMap) := ParseIDMapFile "/proc/self/uid_map".
Definition CurrentProcessGIDMap : result (list IDMap) := ParseIDMapFile "/proc/self/gid_map".

(** [libcontainer/system/linux.go]: what an id map says of the namespace of the caller. *)
Definition UIDMapInUserNS (uidmap : list IDMap) : bool :=
  match uidmap with
  | [m] => negb ((id_ID m =? 0) && (id_ParentID m =? 0) && (id_Count m =? 4294967295))
  | _ => true
  end.

Definition RunningInUserNS : bool :=
  match CurrentProcessUIDMap with Ok uidmap => UIDMapInUserNS uidmap | _ => false end.

Definition GetParentNSeuid (euid : Z) : Z :=
  match CurrentProcessUIDMap with
  | Ok uidmap =>
      match list_find (λ um, id_ID um ≤ euid ∧ euid ≤ wraps 64 (id_ID um + id_Count um - 1)) uidmap with
      | Some (_, um) => wraps 64 (id_ParentID um + euid - id_ID um)
      | None => euid
      end
  | _ => euid
  end.
End Files.
