(* ===== verification/UsersSpec.v ===== *)
(** * What the resolution of users and groups promises *)

From S2P Require Import Prelude GoStd Container ContainerState InitSync Users.

(** ** Printed entries *)

Definition format_field (e : field) : string :=
  match e with
  | FString s => s
  | FInt n | FInt64 n => FormatInt n
  | FList l => Join "," l
  end.

Definition format_line {R} `{Entry R} (r : R) : string := Join ":" (format_field <$> fields r).

(** A file that consists of the given entries. *)
Definition file_of {R} `{Entry R} (rs : list R) : reader := mk_reader (unlines (format_line <$> rs)) None.

Definition is_int64 (n : Z) : Prop := - 2 ^ 63 ≤ n < 2 ^ 63.

(** A field that can be written between colons. *)
Definition field_ok (e : field) : Prop :=
  match e with
  | FString s => contains_char ":" s = false
  | FInt n | FInt64 n => is_int64 n
  | FList l => l ≠ [""] ∧ Forall (λ s, contains_char ":" s = false ∧ contains_char "," s = false) l
  end.

Definition same_kind (a b : field) : bool :=
  match a, b with
  | FString _, FString _ | FInt _, FInt _ | FInt64 _, FInt64 _ | FList _, FList _ => true
  | _, _ => false
  end.

Lemma contains_Join c sep l :
  contains_char c sep = false → Forall (λ s, contains_char c s = false) l → contains_char c (Join sep l) = false.
Proof.
  intros Hsep Hl. induction Hl as [|x l Hx _ IH]; [done|].
  destruct l as [|y l]; [done|].
  change (Join sep (x :: y :: l)) with (x +:+ sep +:+ Join sep (y :: l)).
  by rewrite !contains_char_app, Hx, Hsep, IH.
Qed.

Lemma FormatInt_no_char c n : digit_val c = None → c ≠ "-"%char → contains_char c (FormatInt n) = false.
Proof.
  intros Hc Hm.
  assert (∀ k, 0 ≤ k → contains_char c (FormatInt k) = false) as Hpos.
  { intros k Hk. destruct (FormatInt_nonneg k Hk) as (c' & s & -> & Hd). by apply all_digits_contains. }
  destruct (Z.ltb_spec n 0); [|by apply Hpos].
  assert (FormatInt n = String "-" (FormatInt (- n))) as ->.
  { unfold FormatInt. rewrite Z.abs_opp.
    destruct (Z.ltb_spec n 0), (Z.ltb_spec (- n) 0); (lia || done). }
  simpl. rewrite bool_decide_eq_false_2 by done. apply Hpos. lia.
Qed.

Lemma field_no_colon e : field_ok e → contains_char ":" (format_field e) = false.
Proof.
  destruct e as [s|n|n|l]; simpl; [done|by intros; apply FormatInt_no_char..|].
  intros [_ Hl]. apply contains_Join; [done|]. eapply Forall_impl; [done|]. by intros ? [].
Qed.

Lemma Join_comma_empty l : l ≠ [""] → Join "," l = "" → l = [].
Proof.
  destruct l as [|x [|y l]]; [done|simpl; congruence|].
  change (Join "," (x :: y :: l)) with (x +:+ "," +:+ Join "," (y :: l)). by destruct x.
Qed.

Lemma parse_format_field e z : field_ok e → same_kind e z = true → parse_field z (format_field e) = e.
Proof.
  destruct e as [s|n|n|l], z; simpl; try done.
  - intros Hn _. unfold Atoi. by rewrite ParseInt_FormatInt by (unfold is_int64 in Hn; lia).
  - intros Hn _. by rewrite ParseInt_FormatInt by (unfold is_int64 in Hn; lia).
  - intros [Hne Hl] _. f_equal. case_decide as He; [by rewrite (Join_comma_empty l)|].
    apply Split_Join; [by intros ->|]. rewrite Forall_forall in Hl. naive_solver.
Qed.

Lemma parse_format_line vs zs :
  vs ≠ [] → Forall field_ok vs → Forall2 (λ v z, same_kind v z = true) vs zs →
  parseLine (Join ":" (format_field <$> vs)) zs = vs.
Proof.
  intros Hne Hok Hk. unfold parseLine.
  rewrite Split_Join; [|by destruct vs|].
  - clear Hne. induction Hk as [|v z vs zs Hv _ IH]; [done|].
    apply Forall_cons in Hok as [Hv' Hok]. csimpl. by rewrite parse_format_field, IH.
  - intros x (e & -> & He)%list_elem_of_fmap. rewrite Forall_forall in Hok. by apply field_no_colon, Hok.
Qed.

(** Every entry has the kinds of the zero entry, and at least one field. *)
Class LawfulEntry (R : Type) `{Entry R} := {
  fields_kind r : Forall2 (λ v z, same_kind v z = true) (fields r) (fields zero);
  fields_some r : fields r ≠ []
}.

#[export] Instance User_lawful : LawfulEntry User.
Proof. split; intros []; by repeat constructor. Qed.
#[export] Instance Group_lawful : LawfulEntry Group.
Proof. split; intros []; by repeat constructor. Qed.
#[export] Instance SubID_lawful : LawfulEntry SubID.
Proof. split; intros []; by repeat constructor. Qed.

Lemma scan_format_line {R} `{LawfulEntry R} (r : R) :
  Forall field_ok (fields r) → scan_line (format_line r) = r.
Proof.
  intros Hr. unfold scan_line, format_line.
  rewrite parse_format_line by (done || apply fields_some || apply fields_kind).
  by rewrite of_fields_fields.
Qed.

(** ** Parsers as filters *)

Lemma scan_loop_filter {R} (line : string → option R) filter lines out :
  scan_loop line filter lines out = out ++ List.filter (selected filter) (omap line lines).
Proof.
  revert out; induction lines as [|l lines IH]; intros out; simpl; [by rewrite app_nil_r|].
  rewrite IH. destruct (line l) as [p|]; [|done]. simpl.
  destruct (selected filter p); [|done]. by rewrite <- app_assoc.
Qed.

Lemma parse_lines_unlines {R} what (line : string → option R) ls filter :
  Forall line_ok ls →
  parse_lines what line (Some (mk_reader (unlines ls) None)) filter
  = Ok (List.filter (selected filter) (omap line ls)).
Proof. intros Hls. unfold parse_lines. by rewrite scan_unlines, scan_loop_filter. Qed.

Lemma parse_lines_filter {R} what (line : string → option R) r all filter :
  parse_lines what line (Some r) None = Ok all →
  parse_lines what line (Some r) (Some filter) = Ok (List.filter filter all).
Proof.
  unfold parse_lines. destruct (scan_lines r) as [ls [e|]]; intros Hall; simplify_eq.
  rewrite !scan_loop_filter. simpl. f_equal. f_equal.
  induction (omap line ls) as [|x l IH]; [done|]. simpl. by f_equal.
Qed.

Lemma parse_lines_total {R} what (line : string → option R) r filter x :
  parse_lines what line r filter ≠ Panic x.
Proof. unfold parse_lines. by destruct r as [r|]; [destruct (scan_lines r) as [? []]|]. Qed.

(** An entry that can be written to a file and read back: no field breaks the line, and
    trimming does not touch it. *)
Definition entry_ok {R} `{Entry R} (r : R) : Prop :=
  Forall field_ok (fields r) ∧ line_ok (format_line r) ∧ format_line r ≠ "" ∧
  TrimSpace (format_line r) = format_line r.

Lemma omap_format {R} `{LawfulEntry R} (line : string → option R) rs :
  (∀ r : R, entry_ok r → line (format_line r) = Some (scan_line (format_line r))) →
  Forall entry_ok rs → omap line (format_line <$> rs) = rs.
Proof.
  intros Hline. induction 1 as [|r rs Hr _ IH]; [done|]. csimpl. rewrite Hline by done.
  rewrite scan_format_line by apply Hr. by rewrite IH.
Qed.

Lemma passwd_line_format (u : User) : entry_ok u → passwd_line (format_line u) = Some (scan_line (format_line u)).
Proof. intros (_ & _ & Hne & Ht). unfold passwd_line. by rewrite Ht, decide_False. Qed.

Lemma group_line_format (g : Group) : entry_ok g → group_line (format_line g) = Some (scan_line (format_line g)).
Proof. intros (_ & _ & Hne & _). unfold group_line. by rewrite decide_False. Qed.

Lemma entries_line_ok {R} `{Entry R} (rs : list R) : Forall entry_ok rs → Forall line_ok (format_line <$> rs).
Proof. intros Hrs. apply Forall_fmap. eapply Forall_impl; [done|]. by intros ? (? & ? & ?). Qed.

Lemma parse_passwd_file us f :
  Forall entry_ok us → ParsePasswdFilter (Some (file_of us)) (Some f) = Ok (List.filter f us).
Proof.
  intros Hus. apply parse_lines_filter. unfold file_of. rewrite parse_lines_unlines by by apply entries_line_ok.
  rewrite omap_format by (done || apply passwd_line_format). simpl. f_equal.
  clear. by induction us as [|u us IH]; simpl; [|f_equal].
Qed.

Lemma parse_group_file gs f :
  Forall entry_ok gs → ParseGroupFilter (Some (file_of gs)) (Some f) = Ok (List.filter f gs).
Proof.
  intros Hus. apply parse_lines_filter. unfold file_of. rewrite parse_lines_unlines by by apply entries_line_ok.
  rewrite omap_format by (done || apply group_line_format). simpl. f_equal.
  clear. by induction gs as [|u us IH]; simpl; [|f_equal].
Qed.

(** ** Resolution of a user specification *)

(** What a part of a user specification asks for. *)
Inductive id_spec := Blank | ById (n : Z) | ByName (s : string).

#[export] Instance id_spec_eq_dec : EqDecision id_spec.
Proof. solve_decision. Defined.

Definition print_id (s : id_spec) : string :=
  match s with Blank => "" | ById n => Itoa n | ByName x => x end.

Definition id_ok (s : id_spec) : Prop :=
  match s with
  | Blank => True
  | ById n => is_int64 n
  | ByName x => x ≠ "" ∧ contains_char ":" x = false ∧ is_Some (snd (Atoi x))
  end.

Definition spec_text (text : string) (u g : id_spec) : Prop :=
  text = print_id u +:+ String ":" (print_id g) ∨ g = Blank ∧ text = print_id u.

(** [dflt] is the id a blank part stands for. *)
Definition is_user (dflt : Z) (s : id_spec) (u : User) : Prop :=
  match s with Blank => u_Uid u = dflt | ById n => u_Uid u = n | ByName x => u_Name u = x end.
Definition is_group (s : id_spec) (g : Group) : Prop :=
  match s with Blank => False | ById n => g_Gid g = n | ByName x => g_Name g = x end.

#[export] Instance is_user_dec d s u : Decision (is_user d s u).
Proof. destruct s; simpl; apply _. Defined.
#[export] Instance is_group_dec s g : Decision (is_group s g).
Proof. destruct s; simpl; apply _. Defined.

Definition legal_id (n : Z) : Prop := 0 ≤ n ≤ 2147483647.

Definition resolve_user (us : list User) (d : ExecUser) (s : id_spec) : result (ExecUser * string) :=
  match list_find (is_user (eu_Uid d) s) us, s with
  | Some (_, u), _ => Ok (mk_ExecUser (u_Uid u) (u_Gid u) (eu_Sgids d) (u_Home u), u_Name u)
  | None, Blank => Ok (d, "")
  | None, ById n =>
      if decide (legal_id n) then Ok (mk_ExecUser n (eu_Gid d) (eu_Sgids d) (eu_Home d), "") else Err ErrIdRange
  | None, ByName x => Err (ErrWrap ("unable to find user " +:+ x) ErrNoPasswdEntries)
  end.

Definition resolve_group (gs : list Group) (name : string) (s : id_spec) (u : ExecUser) : result ExecUser :=
  match s with
  | Blank =>
      let mine := g_Gid <$> filter (λ g, name ∈ g_List g) gs in
      Ok (if decide (name = "" ∨ mine = []) then u else with_sgids mine u)
  | _ =>
      match list_find (is_group s) gs, s with
      | Some (_, g), _ => Ok (with_gid (g_Gid g) u)
      | None, ById n => if decide (legal_id n) then Ok (with_gid n u) else Err ErrIdRange
      | None, _ => Err (ErrWrap ("unable to find group " +:+ print_id s) ErrNoGroupEntries)
      end
  end.

(** What a file says; a missing file says nothing. *)
Definition passwd_table (passwd : option reader) (us : list User) : Prop :=
  match passwd with None => us = [] | Some _ => ParsePasswd passwd = Ok us end.
Definition group_table (group : option reader) (gs : list Group) : Prop :=
  match group with None => gs = [] | Some _ => ParseGroup group = Ok gs end.

Lemma Itoa_nonempty n : Itoa n ≠ "".
Proof.
  unfold Itoa, FormatInt. case_match; [done|].
  destruct (format_digits_cons (Z.to_nat (Z.log2_up (Z.abs n + 1))) n "") as (c & s & ->). done.
Qed.

Lemma print_id_no_colon s : id_ok s → contains_char ":" (print_id s) = false.
Proof. destruct s; simpl; [done|intros _; by apply FormatInt_no_char|naive_solver]. Qed.

Lemma spec_args_text text u g :
  id_ok u → id_ok g → spec_text text u g → spec_args text = (print_id u, print_id g).
Proof.
  intros Hu Hg [->|[-> ->]]; unfold spec_args, parseLine.
  - rewrite Split_app, Split_single by (by apply print_id_no_colon). done.
  - by rewrite Split_single by (by apply print_id_no_colon).
Qed.

Lemma in_range_legal n : in_range n = bool_decide (legal_id n).
Proof. unfold in_range, minId, maxId, legal_id. symmetry. case_bool_decide; destruct (Z.ltb_spec n 0), (Z.ltb_spec (2 ^ 31 - 1) n); simpl; lia. Qed.

Lemma filter_find {A} (P : A → Prop) `{∀ x, Decision (P x)} (f : A → bool) l :
  (∀ x, f x = bool_decide (P x)) → head (List.filter f l) = snd <$> list_find P l.
Proof.
  intros Hf. induction l as [|x l IH]; [done|]. simpl. rewrite Hf.
  case_bool_decide; [by rewrite decide_True|]. rewrite decide_False, IH by done.
  by destruct (list_find P l) as [[]|].
Qed.

Lemma user_filter_spec d s u : id_ok s → user_filter (print_id s) d u = bool_decide (is_user d s u).
Proof.
  unfold user_filter. destruct s as [|n|x]; simpl; intros Hs.
  - apply eq_true_iff_eq. by rewrite Z.eqb_eq, bool_decide_eq_true.
  - rewrite decide_False, Atoi_Itoa by (done || apply Itoa_nonempty).
    apply eq_true_iff_eq. rewrite Z.eqb_eq, bool_decide_eq_true. naive_solver.
  - destruct Hs as (Hne & _ & e & He). rewrite decide_False by done.
    destruct (Atoi x) as [? o]. simpl in He. by subst.
Qed.

Lemma group_filter_spec name s g :
  id_ok s → s ≠ Blank → group_filter (print_id s) name g = bool_decide (is_group s g).
Proof.
  unfold group_filter. destruct s as [|n|x]; simpl; intros Hs Hb; [done|..].
  - rewrite decide_False, Atoi_Itoa by (done || apply Itoa_nonempty).
    apply eq_true_iff_eq. rewrite Z.eqb_eq, bool_decide_eq_true. naive_solver.
  - destruct Hs as (Hne & _ & e & He). rewrite decide_False by done.
    destruct (Atoi x) as [? o]. simpl in He. by subst.
Qed.

Lemma member_filter name gs :
  List.filter (group_filter "" name) gs = filter (λ g, name ∈ g_List g) gs.
Proof.
  induction gs as [|g gs IH]; [done|]. rewrite filter_cons. simpl. rewrite IH.
  unfold group_filter at 1. rewrite decide_True by done.
  assert (existsb (λ u, bool_decide (u = name)) (g_List g) = bool_decide (name ∈ g_List g)) as ->.
  { apply eq_true_iff_eq. rewrite bool_decide_eq_true, existsb_exists, list_elem_of_In.
    setoid_rewrite bool_decide_eq_true. naive_solver. }
  by case_bool_decide; [rewrite decide_True|rewrite decide_False].
Qed.

Lemma choose_user_spec us d s :
  id_ok s →
  choose_user (print_id s) (List.filter (user_filter (print_id s) (eu_Uid d)) us) d = resolve_user us d s.
Proof.
  intros Hs. unfold resolve_user.
  pose proof (filter_find (is_user (eu_Uid d) s) (user_filter (print_id s) (eu_Uid d)) us
                (λ u, user_filter_spec _ _ u Hs)) as Hh.
  destruct (list_find _ us) as [[i u]|] eqn:E; simpl in Hh; destruct (List.filter _ us); simplify_eq/=; [done|].
  destruct s as [|n|x]; simpl in *; [done|..].
  - rewrite decide_False, Atoi_Itoa, in_range_legal by (done || apply Itoa_nonempty).
    case_bool_decide; [by rewrite decide_True|by rewrite decide_False].
  - destruct Hs as (Hne & _ & e & He). rewrite decide_False by done.
    destruct (Atoi x) as [? o]. simpl in He. by subst.
Qed.

Lemma choose_group_spec gs name d s :
  id_ok s → s ≠ Blank →
  choose_group (print_id s) (List.filter (group_filter (print_id s) name) gs) d = resolve_group gs name s d.
Proof.
  intros Hs Hb. unfold choose_group, resolve_group.
  rewrite decide_False by (destruct s; [done|apply Itoa_nonempty|apply Hs]).
  pose proof (filter_find (is_group s) (group_filter (print_id s) name) gs
                (λ g, group_filter_spec _ _ g Hs Hb)) as Hh.
  destruct s as [|n|x]; [done|..];
    destruct (list_find _ gs) as [[i u]|] eqn:E; simpl in Hh; destruct (List.filter _ gs); simplify_eq/=; try done.
  - rewrite Atoi_Itoa, in_range_legal by done.
    case_bool_decide; [by rewrite decide_True|by rewrite decide_False].
  - destruct Hs as (Hne & _ & e & He). destruct (Atoi x) as [? o]. simpl in He. by subst.
Qed.

(** What the parsers return to [GetExecUser]. *)
Lemma passwd_entries msg passwd us f :
  passwd_table passwd us → entries_or msg passwd (ParsePasswdFilter passwd (Some f)) = Ok (List.filter f us).
Proof.
  destruct passwd as [r|]; [|by intros ->]. intros H. unfold ParsePasswdFilter.
  by rewrite (parse_lines_filter _ _ _ _ _ H).
Qed.

Lemma group_entries msg group gs f :
  group_table group gs → entries_or msg group (ParseGroupFilter group (Some f)) = Ok (List.filter f gs).
Proof.
  destruct group as [r|]; [|by intros ->]. intros H. unfold ParseGroupFilter.
  by rewrite (parse_lines_filter _ _ _ _ _ H).
Qed.


(** C15. Resolving a user specification in passwd and group files is looking its parts up in
    what the files say: the first entry with the number or the name asked for; a number
    without an entry is itself, if it is a legal id; without a group part the user gets the
    groups that list it as a member; a name without an entry is an error. *)
Theorem GetExecUser_spec text u g us gs passwd group d :
  passwd_table passwd us → group_table group gs → id_ok u → id_ok g → spec_text text u g →
  GetExecUser text (Some d) passwd group
  = let! (user, name) := resolve_user us d u in resolve_group gs name g user.
Proof.
  intros Hus Hgs Hu Hg Ht. unfold GetExecUser. rewrite (spec_args_text _ _ _ Hu Hg Ht). simpl.
  rewrite (passwd_entries _ _ _ _ Hus). simpl. rewrite choose_user_spec by done.
  destruct (resolve_user us d u) as [[user name]|e|x]; [simpl|done|done].
  destruct (decide (g = Blank)) as [->|Hb]; simpl.
  - destruct (decide (name = "")) as [->|Hn].
    + rewrite decide_True by done. by rewrite decide_True by (by left).
    + rewrite decide_False by naive_solver. rewrite (group_entries _ _ _ _ Hgs). simpl.
      rewrite member_filter. unfold choose_group. rewrite decide_True by done. f_equal.
      destruct (filter _ gs) as [|g' gs']; [by rewrite decide_True by (by right)|].
      by rewrite decide_False by (by intros []).
  - rewrite decide_False
      by (intros [? _]; destruct g; [done|by eapply Itoa_nonempty|naive_solver]).
    rewrite (group_entries _ _ _ _ Hgs). simpl. by apply choose_group_spec.
Qed.

(** ** Additional groups *)

(** The id a name or number stands for: that of the first entry it matches, by name or by
    number, or the number itself. *)
Definition group_id (gs : list Group) (ag : string) : option Z :=
  match list_find (λ g, ag_matches ag g = true) gs with
  | Some (_, g) => Some (g_Gid g)
  | None => match ParseInt ag 64 with
            | (n, None) => if decide (legal_id n) then Some n else None
            | _ => None
            end
  end.

(** The ids a name or number may get when the first one is taken. *)
Definition some_id (gs : list Group) (ag : string) (n : Z) : Prop :=
  (∃ g, g ∈ gs ∧ ag_matches ag g = true ∧ g_Gid g = n) ∨ ParseInt ag 64 = (n, None) ∧ legal_id n.

Lemma add_group_ok gs m ag m' :
  add_group gs m ag = Ok m' → ∃ n, m' = {[n]} ∪ m ∧ some_id gs ag n.
Proof.
  unfold add_group. destruct (list_find _ gs) as [[i g]|] eqn:E; intros H; simplify_eq.
  - apply list_find_Some in E as (Hi & [Hm _] & _). exists (g_Gid g). split; [done|left].
    exists g. split; [by eapply list_elem_of_lookup_2|done].
  - destruct (ParseInt ag 64) as [n [e|]] eqn:Ep; [done|]. rewrite in_range_legal in H.
    case_bool_decide; simplify_eq. exists n. split; [done|by right].
Qed.

Lemma add_group_first gs m ag m' n :
  add_group gs m ag = Ok m' → group_id gs ag = Some n → n ∈ m'.
Proof.
  unfold add_group, group_id. destruct (list_find (λ g, ag_matches ag g = true ∧ _) gs) as [[i g]|] eqn:E.
  - apply list_find_Some in E as (Hi & [Hm Hnew] & Hpre). intros [= <-].
    destruct (list_find (λ g, ag_matches ag g = true) gs) as [[j g']|] eqn:E'.
    + intros [= <-]. apply list_find_Some in E' as (Hj & Hm' & Hpre').
      destruct (decide (i = j)) as [->|]; [simplify_eq; set_solver|].
      destruct (decide (j < i)%nat); [|specialize (Hpre' i g Hi ltac:(lia)); naive_solver].
      specialize (Hpre j g' Hj ltac:(lia)). destruct (decide (g_Gid g' ∈ m)); [set_solver|naive_solver].
    + exfalso. apply list_find_None in E'. rewrite Forall_forall in E'.
      eapply E'; [by eapply list_elem_of_lookup_2|done].
  - apply list_find_None in E. rewrite Forall_forall in E.
    destruct (list_find (λ g, ag_matches ag g = true) gs) as [[j g']|] eqn:E'.
    + intros H [= <-]. apply list_find_Some in E' as (Hj & Hm' & _).
      assert (g_Gid g' ∈ m) as Hin.
      { destruct (decide (g_Gid g' ∈ m)); [done|]. exfalso. eapply E; [by eapply list_elem_of_lookup_2|done]. }
      destruct (ParseInt ag 64) as [k [e|]]; [done|]. destruct (in_range k); simplify_eq. set_solver.
    + destruct (ParseInt ag 64) as [k [e|]]; [done|]. rewrite in_range_legal.
      case_bool_decide; [|done]. intros [= <-]. rewrite decide_True by done. intros [= ->]. set_solver.
Qed.

Lemma add_group_fresh gs m ag n :
  group_id gs ag = Some n → n ∉ m → add_group gs m ag = Ok ({[n]} ∪ m).
Proof.
  unfold add_group, group_id.
  destruct (list_find (λ g, ag_matches ag g = true) gs) as [[j g]|] eqn:E.
  - intros [= <-] Hn. apply list_find_Some in E as (Hj & Hm & Hpre).
    assert (list_find (λ g, ag_matches ag g = true ∧ g_Gid g ∉ m) gs = Some (j, g)) as ->; [|done].
    apply list_find_Some. split; [done|]. split; [done|]. intros k y Hk Hlt [Hy _]. by eapply Hpre.
  - intros Hid Hn. apply list_find_None in E. rewrite Forall_forall in E.
    assert (list_find (λ g, ag_matches ag g = true ∧ g_Gid g ∉ m) gs = None) as ->.
    { apply list_find_None, Forall_forall. intros g Hg [Hm _]. by eapply E. }
    destruct (ParseInt ag 64) as [k [e|]]; [done|]. rewrite in_range_legal.
    case_decide; simplify_eq. by rewrite bool_decide_eq_true_2.
Qed.

(** The ids collected by the loop. *)
Lemma add_groups_ok gs ags m m' :
  foldM (add_group gs) m ags = Ok m' →
  m ⊆ m' ∧ (∀ n, n ∈ m' → n ∈ m ∨ ∃ ag, ag ∈ ags ∧ some_id gs ag n) ∧
  (∀ ag n, ag ∈ ags → group_id gs ag = Some n → n ∈ m').
Proof.
  revert m; induction ags as [|ag ags IH]; intros m; simpl.
  - intros [= <-]. split; [done|]. split; [by left|]. intros ? ? H. by apply elem_of_nil in H.
  - intros (m1 & H1 & H2)%rbind_ok. destruct (IH _ H2) as (Hsub & Hsound & Hall).
    pose proof (add_group_ok _ _ _ _ H1) as (n1 & -> & Hn1).
    split; [set_solver|]. split.
    + intros n Hn. destruct (Hsound n Hn) as [Hin|(ag' & ? & ?)]; [|right; exists ag'; set_solver].
      apply elem_of_union in Hin as [->%elem_of_singleton|]; [right; exists ag; set_solver|by left].
    + intros ag' n [->|Hin]%elem_of_cons Hid; [|by eapply Hall].
      apply Hsub. by eapply add_group_first.
Qed.

Lemma add_groups_distinct gs ags ids m :
  Forall2 (λ ag n, group_id gs ag = Some n) ags ids → NoDup ids → (∀ n, n ∈ ids → n ∉ m) →
  foldM (add_group gs) m ags = Ok (list_to_set ids ∪ m).
Proof.
  intros Hids. revert m. induction Hids as [|ag n ags ids Hid _ IH]; intros m Hnd Hfr; simpl.
  - f_equal. set_solver.
  - apply NoDup_cons in Hnd as [Hn Hnd]. rewrite (add_group_fresh _ _ _ n) by (done || set_solver). simpl.
    rewrite IH; [f_equal; set_solver|done|]. intros k Hk. specialize (Hfr k). set_solver.
Qed.

(** Dropping the entries nobody asked for changes nothing. *)
Lemma filter_matches (f : Group → bool) ag gs (Q : Group → Prop) `{∀ g, Decision (Q g)} :
  (∀ g, ag_matches ag g = true → f g = true) →
  snd <$> list_find (λ g, ag_matches ag g = true ∧ Q g) (List.filter f gs)
  = snd <$> list_find (λ g, ag_matches ag g = true ∧ Q g) gs.
Proof.
  intros Hf. induction gs as [|g gs IH]; [done|]. cbn [List.filter].
  assert (∀ (P : Group → Prop) `{∀ g, Decision (P g)} (x : Group) l,
    snd <$> list_find P (x :: l) = if decide (P x) then Some x else snd <$> list_find P l) as Hcons.
  { intros P ? x l. simpl. case_decide; [done|]. by destruct (list_find P l) as [[]|]. }
  rewrite (Hcons _ _ g gs). destruct (f g) eqn:E.
  - rewrite (Hcons _ _ g). by rewrite IH.
  - rewrite decide_False; [done|]. intros [? _]. by rewrite Hf in E.
Qed.

Lemma add_group_filter f gs m ag :
  (∀ g, ag_matches ag g = true → f g = true) → add_group (List.filter f gs) m ag = add_group gs m ag.
Proof.
  intros Hf. unfold add_group. pose proof (filter_matches f ag gs (λ g, g_Gid g ∉ m) Hf) as H.
  destruct (list_find _ (List.filter f gs)) as [[]|], (list_find _ gs) as [[]|]; by simplify_eq/=.
Qed.

Lemma GetAdditionalGroups_run ags group gs :
  group_table group gs →
  GetAdditionalGroups ags group = let! m := foldM (add_group gs) ∅ ags in Ok (elements m).
Proof.
  intros Hgs. unfold GetAdditionalGroups. destruct group as [r|]; [|by rewrite Hgs].
  rewrite (parse_lines_filter _ _ _ _ _ Hgs : ParseGroupFilter (Some r) (Some _) = _).
  unfold wrap_err. cbn [rbind]. f_equal.
  set (f := λ g, existsb (λ ag, ag_matches ag g) ags).
  assert (∀ l, (∀ ag, ag ∈ l → ag ∈ ags) → ∀ m,
    foldM (add_group (List.filter f gs)) m l = foldM (add_group gs) m l) as H; [|by apply H].
  induction l as [|ag l IH]; intros Hl m; [done|]. simpl. rewrite add_group_filter.
  - destruct (add_group gs m ag); simpl; [|done..]. apply IH. set_solver.
  - intros g Hg. apply existsb_exists. exists ag. split; [|done]. apply list_elem_of_In, Hl. by left.
Qed.

(** C39. The additional groups of a process: groups that stand for pairwise different ids
    are resolved to exactly these ids. Whenever there is a result it has no duplicates,
    every id in it is that of an entry that was asked for or a legal number that was, and
    nothing that was asked for is missing. *)
Theorem GetAdditionalGroups_spec ags group gs :
  group_table group gs →
  (∀ ids, Forall2 (λ ag n, group_id gs ag = Some n) ags ids → NoDup ids →
     ∃ l, GetAdditionalGroups ags group = Ok l ∧ l ≡ₚ ids) ∧
  (∀ l, GetAdditionalGroups ags group = Ok l →
     NoDup l ∧ (∀ n, n ∈ l → ∃ ag, ag ∈ ags ∧ some_id gs ag n) ∧
     ∀ ag n, ag ∈ ags → group_id gs ag = Some n → n ∈ l).
Proof.
  intros Hgs. rewrite (GetAdditionalGroups_run _ _ _ Hgs). split.
  - intros ids Hids Hnd. rewrite (add_groups_distinct _ _ _ _ Hids Hnd) by set_solver. simpl.
    eexists. split; [done|]. rewrite union_empty_r_L. by apply elements_list_to_set.
  - intros l (m & Hm & [= <-])%rbind_ok. destruct (add_groups_ok _ _ _ _ Hm) as (_ & Hsound & Hall).
    split; [apply NoDup_elements|]. split.
    + intros n Hn%elem_of_elements. destruct (Hsound n Hn) as [?|?]; [set_solver|done].
    + intros ag n Hag Hid. apply elem_of_elements. by eapply Hall.
Qed.

Lemma add_group_total gs m ag x : add_group gs m ag ≠ Panic x.
Proof. unfold add_group. destruct (list_find _ _) as [[]|], (ParseInt ag 64) as [? []]; [done..|]. by destruct (in_range _). Qed.

Lemma foldM_total {S A} (f : S → A → result S) l s x :
  (∀ s a y, f s a ≠ Panic y) → foldM f s l ≠ Panic x.
Proof.
  intros Hf. revert s; induction l as [|a l IH]; intros s; simpl; [done|].
  destruct (f s a) eqn:E; simpl; [apply IH|done|]. by apply Hf in E.
Qed.

(** Naming a group twice is refused: when a name that is no number follows a name of
    the same group, which may be itself, the group is not found. *)
Theorem repeated_group_refused l1 a l2 b l3 group gs n :
  group_table group gs → group_id gs a = Some n →
  is_Some (snd (ParseInt b 64)) → (∀ g, g ∈ gs → ag_matches b g = true → g_Gid g = n) →
  ∃ e, GetAdditionalGroups (l1 ++ a :: l2 ++ b :: l3) group = Err e.
Proof.
  intros Hgs Ha [e He] Hb. rewrite (GetAdditionalGroups_run _ _ _ Hgs).
  destruct (foldM _ _ _) as [m|e'|x] eqn:E; simpl; [|by eexists|].
  2:{ by eapply foldM_total in E; [|apply add_group_total]. }
  exfalso. rewrite foldM_app in E. apply rbind_ok in E as (m1 & _ & E). simpl in E.
  apply rbind_ok in E as (m2 & E2 & E). rewrite foldM_app in E.
  apply rbind_ok in E as (m3 & E3 & E). simpl in E. apply rbind_ok in E as (m4 & E4 & _).
  pose proof (add_group_first _ _ _ _ _ E2 Ha) as Hn.
  apply (proj1 (add_groups_ok _ _ _ _ E3)) in Hn.
  unfold add_group in E4. destruct (list_find _ gs) as [[i g]|] eqn:Ef.
  - apply list_find_Some in Ef as (Hi & [Hm Hnew] & _).
    rewrite (Hb g) in Hnew by (done || by eapply list_elem_of_lookup_2). done.
  - destruct (ParseInt b 64) as [k o]. simpl in He. by subst.
Qed.

(** ** Round trips *)

(** Well-formed entries of passwd, group and subordinate id files that are written one
    to a line are read back unchanged and in order. *)
Theorem files_roundtrip (us : list User) (gs : list Group) (ss : list SubID) :
  Forall entry_ok us → Forall entry_ok gs → Forall entry_ok ss →
  ParsePasswd (Some (file_of us)) = Ok us ∧ ParseGroup (Some (file_of gs)) = Ok gs ∧
  ParseSubID (Some (file_of ss)) = Ok ss.
Proof.
  intros Hus Hgs Hss.
  assert (∀ R (l : list R), List.filter (selected None) l = l) as Hall.
  { intros R l. induction l as [|x l IH]; simpl; [done|by f_equal]. }
  unfold ParsePasswd, ParseGroup, ParseSubID, ParsePasswdFilter, ParseGroupFilter, ParseSubIDFilter, file_of.
  rewrite !parse_lines_unlines by by apply entries_line_ok. rewrite !Hall, !omap_format; [done|..]; try done.
  - intros r (_ & _ & Hne & Ht). unfold subid_line. by rewrite Ht, decide_False.
  - apply group_line_format.
  - apply passwd_line_format.
Qed.

(** ** Id maps *)

(** Characters between the space and the end of ASCII. *)
Definition graph_char (c : ascii) : bool := (33 <=? code c) && (code c <=? 126).

Fixpoint graph (s : string) : bool :=
  match s with EmptyString => true | String c s' => graph_char c && graph s' end.

Lemma graph_width c s : graph_char c = true → space_width (String c s) = 0%nat.
Proof.
  unfold graph_char. intros H. bool_to_prop. unfold space_width.
  assert (is_space_1 (code c) = false) as ->.
  { unfold is_space_1. destruct (Z.leb_spec (code c) 13), (Z.eqb_spec (code c) 32); lia. }
  destruct s as [|c2 s]; [done|]. unfold is_space_2, is_space_3.
  repeat match goal with |- context [code c =? ?k] => destruct (Z.eqb_spec (code c) k); [lia|] end.
  by destruct s.
Qed.

Lemma space_cons_width s : space_width (String " " s) = 1%nat.
Proof. done. Qed.

Lemma fields_word w cur rest :
  graph w = true →
  fields_aux 0 (Some cur) (w +:+ rest) = fields_aux 0 (Some (cur +:+ w)) rest.
Proof.
  revert cur; induction w as [|c w IH]; intros cur.
  - intros _. by rewrite string_app_nil_r.
  - intros [Hc Hw]%andb_true_iff. rewrite string_app_cons. cbn [fields_aux].
    rewrite graph_width by done. cbn [default]. rewrite IH by done. by rewrite string_app_assoc.
Qed.

Fixpoint spaces (n : nat) : string := match n with O => "" | S n' => String " " (spaces n') end.

Lemma fields_spaces n rest : fields_aux 0 None (spaces n +:+ rest) = fields_aux 0 None rest.
Proof. induction n as [|n IH]; [done|]. simpl spaces. rewrite string_app_cons. cbn [fields_aux]. by rewrite space_cons_width, IH. Qed.

(** A word between spaces, and the last word. *)
Lemma fields_one c w n rest :
  graph (String c w) = true →
  fields_aux 0 None (String c w +:+ String " " (spaces n +:+ rest)) = String c w :: fields_aux 0 None rest.
Proof.
  intros [Hc Hw]%andb_true_iff. rewrite string_app_cons. cbn [fields_aux].
  rewrite graph_width by done. cbn [default]. rewrite fields_word by done.
  cbn [fields_aux]. by rewrite space_cons_width, fields_spaces.
Qed.

Lemma fields_last c w : graph (String c w) = true → fields_aux 0 None (String c w) = [String c w].
Proof.
  intros [Hc Hw]%andb_true_iff. cbn [fields_aux]. rewrite graph_width by done. cbn [default].
  rewrite <- (string_app_nil_r w) at 1. by rewrite fields_word.
Qed.

(** Trimming a text of words and spaces that ends in a word. *)
Definition text_char (c : ascii) : bool := graph_char c || bool_decide (c = " "%char).

Fixpoint ends_in_word (s : string) : bool :=
  match s with
  | EmptyString => false
  | String c EmptyString => graph_char c
  | String c s' => text_char c && ends_in_word s'
  end.

Lemma ends_in_word_cons c s :
  ends_in_word (String c s) = true →
  (graph_char c = true ∨ c = " "%char) ∧ (s = "" ∧ graph_char c = true ∨ ends_in_word s = true).
Proof.
  destruct s as [|c' s]; simpl; [by auto|]. intros [Hc Hs]%andb_true_iff. unfold text_char in Hc.
  bool_to_prop. destruct Hc; bool_to_prop; auto.
Qed.

Lemma trim_left_word s : ends_in_word s = true → TrimLeftSpace s ≠ "".
Proof.
  unfold TrimLeftSpace. induction s as [|c s IH]; [done|]. intros [Hc Hs]%ends_in_word_cons.
  destruct (decide (graph_char c = true)) as [Hg|Hg].
  - cbn [trim_left_aux]. by rewrite graph_width.
  - destruct Hc as [?| ->]; [done|]. destruct Hs as [[_ ?]|Hs]; [done|]. cbn. by apply IH.
Qed.

Lemma trim_right_word s : ends_in_word s = true → TrimRightSpace s = s.
Proof.
  induction s as [|c s IH]; [done|]. intros H. cbn [TrimRightSpace].
  rewrite bool_decide_eq_false_2 by by apply trim_left_word.
  apply ends_in_word_cons in H as [_ [[-> _]|Hs]]; [done|]. by rewrite IH.
Qed.

Lemma trim_left_spaces n c w : graph_char c = true → TrimLeftSpace (spaces n +:+ String c w) = String c w.
Proof.
  unfold TrimLeftSpace. intros Hc. induction n as [|n IH].
  { change (spaces 0 +:+ String c w) with (String c w). cbn [trim_left_aux]. by rewrite graph_width. }
  simpl spaces. rewrite string_app_cons. cbn [trim_left_aux]. rewrite space_cons_width. apply IH.
Qed.

Fixpoint text (s : string) : bool :=
  match s with EmptyString => true | String c s' => text_char c && text s' end.

Lemma text_app a b : text (a +:+ b) = text a && text b.
Proof. induction a as [|c a IH]; [done|]. rewrite string_app_cons. simpl. by rewrite IH, andb_assoc. Qed.

Lemma text_spaces n : text (spaces n) = true.
Proof. by induction n. Qed.

Lemma text_graph s : graph s = true → text s = true.
Proof.
  induction s as [|c s IH]; [done|]. simpl. intros [Hc Hs]%andb_true_iff.
  unfold text_char. by rewrite Hc, IH.
Qed.

Lemma ends_in_graph s : s ≠ "" → graph s = true → ends_in_word s = true.
Proof.
  induction s as [|c s IH]; [done|]. intros _ [Hc Hs]%andb_true_iff. destruct s as [|c' s]; [done|].
  cbn [ends_in_word]. unfold text_char. rewrite Hc. simpl orb. by apply IH.
Qed.

Lemma ends_in_word_app a b : text a = true → ends_in_word b = true → ends_in_word (a +:+ b) = true.
Proof.
  induction a as [|c a IH]; [done|]. rewrite string_app_cons. intros [Hc Ha]%andb_true_iff Hb.
  specialize (IH Ha Hb). destruct (a +:+ b) as [|c' s]; [done|]. cbn [ends_in_word]. by rewrite Hc.
Qed.

Lemma digit_graph c : is_Some (digit_val c) → graph_char c = true.
Proof.
  unfold digit_val, graph_char, code. intros [d H]. case_match eqn:E; [|done]. bool_to_prop.
  apply andb_true_iff; split; apply Z.leb_le; lia.
Qed.

Lemma FormatInt_graph n : 0 ≤ n → ∃ c w, FormatInt n = String c w ∧ graph (String c w) = true.
Proof.
  intros Hn. destruct (FormatInt_nonneg n Hn) as (c & w & -> & Hd). exists c, w. split; [done|].
  revert Hd. generalize (String c w). clear. intros s. induction s as [|c s IH]; [done|]. simpl.
  destruct (digit_val c) eqn:E; [|done]. intros Hs. rewrite IH by done. by rewrite digit_graph.
Qed.

(** A row of an id map as the kernel shows it: three numbers, any number of spaces before
    the first and between them. *)
Definition idmap_row (p : nat * nat * nat) (m : IDMap) : string :=
  let '(p1, p2, p3) := p in
  spaces p1 +:+ FormatInt (id_ID m) +:+ String " " (spaces p2 +:+ FormatInt (id_ParentID m)
    +:+ String " " (spaces p3 +:+ FormatInt (id_Count m))).

Definition small_id (n : Z) : Prop := 0 ≤ n < 2 ^ 32.
Definition small_map (m : IDMap) : Prop := small_id (id_ID m) ∧ small_id (id_ParentID m) ∧ small_id (id_Count m).

Lemma idmap_row_line p m : small_map m → idmap_line (idmap_row p m) = Some m.
Proof.
  destruct p as [[p1 p2] p3], m as [i j k]. intros (Hi & Hj & Hk). unfold idmap_row, idmap_line; simpl in *.
  destruct (FormatInt_graph i) as (c1 & w1 & E1 & G1); [apply Hi|].
  destruct (FormatInt_graph j) as (c2 & w2 & E2 & G2); [apply Hj|].
  destruct (FormatInt_graph k) as (c3 & w3 & E3 & G3); [apply Hk|].
  assert (TrimSpace (spaces p1 +:+ FormatInt i +:+ String " " (spaces p2 +:+ FormatInt j
            +:+ String " " (spaces p3 +:+ FormatInt k)))
          = FormatInt i +:+ String " " (spaces p2 +:+ FormatInt j +:+ String " " (spaces p3 +:+ FormatInt k))) as ->.
  { unfold TrimSpace. rewrite E1 at 1. rewrite string_app_cons, trim_left_spaces by (by apply andb_true_iff in G1 as []).
    rewrite <- string_app_cons, <- E1. apply trim_right_word.
    assert (∀ n, 0 ≤ n → text (FormatInt n) = true) as Ht.
    { intros n Hn. destruct (FormatInt_graph n Hn) as (c & w & -> & ?). by apply text_graph. }
    apply ends_in_word_app; [by apply Ht, Hi|].
    change (String " " ?s) with ((String " " "") +:+ s). apply ends_in_word_app; [done|].
    apply ends_in_word_app; [apply text_spaces|]. apply ends_in_word_app; [by apply Ht, Hj|].
    apply (ends_in_word_app (String " " "")); [done|]. apply ends_in_word_app; [apply text_spaces|].
    rewrite E3. by apply ends_in_graph. }
  rewrite decide_False by by rewrite E1.
  unfold Fields, scan_parts. rewrite E1, fields_one, E2, fields_one, E3, fields_last by done.
  rewrite <- E1, <- E2, <- E3. simpl.
  by rewrite !ParseInt_FormatInt by (unfold small_id in *; lia).
Qed.

Lemma spaces_no_char c n : c ≠ " "%char → contains_char c (spaces n) = false.
Proof. intros Hc. induction n as [|n IH]; [done|]. simpl. by rewrite bool_decide_eq_false_2. Qed.

Lemma space_app s : String " " s = spaces 1 +:+ s.
Proof. done. Qed.

Lemma spaces_length n : String.length (spaces n) = n.
Proof. induction n as [|n IH]; [done|]. simpl. by rewrite IH. Qed.

(** Columns of at most ten characters, as ["%10u"] gives. *)
Definition pad_ok (p : nat * nat * nat) : Prop := (p.1.1 ≤ 10 ∧ p.1.2 ≤ 10 ∧ p.2 ≤ 10)%nat.

Lemma idmap_row_ok p m : pad_ok p → small_map m → line_ok (idmap_row p m).
Proof.
  destruct p as [[p1 p2] p3], m as [i j k]. unfold pad_ok, small_map, small_id; simpl.
  intros (Hp1 & Hp2 & Hp3) (Hi & Hj & Hk).
  assert (∀ c, digit_val c = None → c ≠ "-"%char → c ≠ " "%char →
            contains_char c (idmap_row (p1, p2, p3) (mk_IDMap i j k)) = false) as Hno.
  { intros c Hd Hm Hs. unfold idmap_row; cbn [id_ID id_ParentID id_Count]. rewrite !space_app.
    by rewrite !contains_char_app, !spaces_no_char, !FormatInt_no_char. }
  split; [by apply Hno|]. split; [by apply Hno|]. unfold idmap_row; cbn [id_ID id_ParentID id_Count].
  rewrite !space_app, !string_length_app, !spaces_length.
  pose proof (FormatInt_length i 32 Hi ltac:(lia)). pose proof (FormatInt_length j 32 Hj ltac:(lia)).
  pose proof (FormatInt_length k 32 Hk ltac:(lia)).
  unfold MaxScanTokenSize. lia.
Qed.

(** The text of an id map with the given rows. *)
Definition shows (file : string) (ms : list IDMap) : Prop :=
  ∃ pads, Forall pad_ok pads ∧ length pads = length ms ∧ file = unlines (zip_with idmap_row pads ms).

Lemma ParseIDMap_shows file ms :
  shows file ms → Forall small_map ms → ParseIDMap (Some (mk_reader file None)) = Ok ms.
Proof.
  intros (pads & Hpads & Hlen & ->) Hms.
  assert (Forall line_ok (zip_with idmap_row pads ms) ∧ omap idmap_line (zip_with idmap_row pads ms) = ms) as [Hl Ho].
  { revert pads Hpads Hlen. induction Hms as [|m ms Hm _ IH]; intros [|p pads]; try done.
    intros [Hp Hpads]%Forall_cons [= Hlen]. destruct (IH pads) as [Hl Ho]; [done..|].
    split; [constructor; [by apply idmap_row_ok|done]|].
    change (zip_with idmap_row (p :: pads) (m :: ms)) with (idmap_row p m :: zip_with idmap_row pads ms).
    csimpl. by rewrite idmap_row_line, Ho. }
  unfold ParseIDMap, ParseIDMapFilter. rewrite parse_lines_unlines, Ho by done. f_equal.
  clear. induction ms as [|m ms IH]; simpl; [done|by f_equal].
Qed.

(** A configured mapping as a row of an id map. *)
Definition row_of (m : Container.IDMap) : IDMap := mk_IDMap (im_ContainerID m) (im_HostID m) (im_Size m).

Definition full_map : Container.IDMap := Container.mk_IDMap 0 0 4294967295.

Lemma encode_shows maps : shows (encodeIDMapping maps) (row_of <$> maps).
Proof.
  exists (replicate (length maps) (0, 0, 0)%nat). split; [|split].
  - apply Forall_replicate. unfold pad_ok. simpl. lia.
  - by rewrite length_replicate, length_fmap.
  - induction maps as [|m maps IH]; [done|]. csimpl. rewrite IH. unfold idmap_row, row_of; simpl.
    change (String " " ?s) with (" " +:+ s). by rewrite !string_app_assoc.
Qed.

(** C26. The mappings of a user namespace that the parent writes are a text of the form the
    kernel shows; reading any such text gives the configured mappings back; the id in the
    parent namespace computed from it is the host id the configuration gives; and only the
    identity mapping of all ids counts as the initial namespace. *)
Theorem mapping_roundtrip (maps : list Container.IDMap) :
  Forall (λ m, small_map (row_of m)) maps →
  shows (encodeIDMapping maps) (row_of <$> maps) ∧
  ∀ open file, open "/proc/self/uid_map" = Ok (mk_reader file None) → shows file (row_of <$> maps) →
    CurrentProcessUIDMap open = Ok (row_of <$> maps) ∧
    (∀ id, GetParentNSeuid open id = default id (hostIDFromMapping id maps)) ∧
    RunningInUserNS open = negb (bool_decide (maps = [full_map])).
Proof.
  intros Hmaps. split; [apply encode_shows|]. intros open file Hopen Hfile.
  assert (CurrentProcessUIDMap open = Ok (row_of <$> maps)) as Hc.
  { unfold CurrentProcessUIDMap, ParseIDMapFile. rewrite Hopen. simpl.
    apply ParseIDMap_shows; [done|]. by apply Forall_fmap. }
  split; [done|]. split.
  - intros id. unfold GetParentNSeuid. rewrite Hc. unfold hostIDFromMapping. rewrite list_find_fmap.
    match goal with |- context [prod_map _ _ <$> ?f] =>
      match goal with |- context [default id (match ?g with _ => _ end)] =>
        replace g with f; [destruct f as [[n m]|]; [|done]|] end end.
    + unfold row_of; simpl. f_equal. lia.
    + apply list_find_ext. done.
  - unfold RunningInUserNS. rewrite Hc. unfold full_map.
    destruct maps as [|[i j k] [|m' maps]]; [done| |by rewrite bool_decide_eq_false_2].
    simpl. destruct (Z.eqb_spec i 0), (Z.eqb_spec j 0), (Z.eqb_spec k 4294967295); simpl; subst;
      try (by rewrite bool_decide_eq_false_2 by congruence). done.
Qed.

(** ** A small host *)

Definition some_users : list User :=
  [mk_User "root" "x" 0 0 "root" "/root" "/bin/sh"; mk_User "app" "x" 1000 1000 "" "/home/app" "/bin/sh"].

Definition some_groups : list Group :=
  [mk_Group "root" "x" 0 []; mk_Group "wheel" "x" 10 ["root"; "app"]; mk_Group "app" "x" 1000 [];
   mk_Group "video" "x" 44 ["app"]].

Definition some_subids : list SubID := [mk_SubID "app" 100000 65536].

Definition nobody : ExecUser := mk_ExecUser 65534 65534 [] "/".

Lemma GetExecUser_spec_witness :
  GetExecUser "app" (Some nobody) (Some (file_of some_users)) (Some (file_of some_groups))
  = Ok (mk_ExecUser 1000 1000 [10; 44] "/home/app").
Proof.
  etrans; [eapply (GetExecUser_spec "app" (ByName "app") Blank some_users some_groups)|].
  - by vm_compute.
  - by vm_compute.
  - split_and!; [done..|]. by eexists.
  - done.
  - by right.
  - done.
Defined.

Lemma GetAdditionalGroups_spec_witness :
  ∃ l, GetAdditionalGroups ["video"; "10"; "77"] (Some (file_of some_groups)) = Ok l ∧ l ≡ₚ [44; 10; 77].
Proof.
  apply (GetAdditionalGroups_spec ["video"; "10"; "77"] (Some (file_of some_groups)) some_groups).
  - by vm_compute.
  - by repeat constructor.
  - repeat constructor; set_solver.
Defined.

Lemma repeated_group_refused_witness :
  ∃ e, GetAdditionalGroups ["wheel"; "video"; "wheel"] (Some (file_of some_groups)) = Err e.
Proof.
  apply (repeated_group_refused [] "wheel" ["video"] "wheel" [] (Some (file_of some_groups)) some_groups 10).
  - by vm_compute.
  - done.
  - by eexists.
  - intros g Hg Hm. unfold some_groups in Hg. set_unfold in Hg. by destruct_or! Hg; subst; vm_compute in Hm |- *.
Defined.

Ltac solve_entry_ok :=
  repeat first
    [ apply Forall_cons_2 | apply Forall_nil_2 | split | done
    | match goal with |- entry_ok _ => split_and! end ].

Lemma files_roundtrip_witness :
  ParsePasswd (Some (file_of some_users)) = Ok some_users ∧ ParseGroup (Some (file_of some_groups)) = Ok some_groups ∧
  ParseSubID (Some (file_of some_subids)) = Ok some_subids.
Proof. apply (files_roundtrip some_users some_groups some_subids); unfold some_users, some_groups, some_subids; solve_entry_ok. Defined.

Definition kernel_map : string := unlines ["         0     100000      65536"; "     65536       1000          1"].

Lemma mapping_roundtrip_witness :
  let maps := [Container.mk_IDMap 0 100000 65536; Container.mk_IDMap 65536 1000 1] in
  CurrentProcessUIDMap (λ _, Ok (mk_reader kernel_map None)) = Ok (row_of <$> maps) ∧
  GetParentNSeuid (λ _, Ok (mk_reader kernel_map None)) 65536 = 1000.
Proof.
  intros maps. destruct (mapping_roundtrip maps) as [_ Hread].
  { unfold maps, small_map, small_id. repeat constructor; simpl; lia. }
  destruct (Hread (λ _, Ok (mk_reader kernel_map None)) kernel_map eq_refl) as (Hc & Hid & _).
  { exists [(9, 4, 5)%nat; (5, 6, 9)%nat]. split; [|done]. repeat constructor; simpl; lia. }
  split; [exact Hc|]. by rewrite Hid.
Defined.

(** A line without a number for the user id makes its user root: the error of the
    conversion is dropped and 0 is what [Atoi] returns beside it. *)
Lemma line_without_uid_is_root :
  GetExecUser "nfs" None (Some (mk_reader (unlines ["root:x:0:0::/root:"; "nfs:x:?:?::/:"]) None)) None
  = Ok (mk_ExecUser 0 0 [] "/").
Proof. by vm_compute. Qed.
