(* ===== verification/SpecConv.v ===== *)
(** * From an OCI runtime spec to a configuration ([libcontainer/specconv/spec_linux.go])

    The part of [config.json] that [CreateLibcontainerConfig] reads, the configuration it
    makes, and the conversion. Devices are shared objects: the device nodes and rules that
    every container gets are one global table, a configuration holds pointers into it, and
    [setupUserNamespace] writes through these pointers. They live in a store, a list of
    devices whose indices are the pointers; the table [AllowedDevices] comes first. *)

From S2P Require Import InitParent InitChild Enosys ContainerState.
From S2P Require Import Prelude GoStd GoMonad DeviceRules Container CgroupUtils Rootfs.

(** ** The spec ([runtime-spec/specs-go/config.go]), the fields that are read *)

Record LinuxIDMapping := mk_LinuxIDMapping { lm_ContainerID : Z; lm_HostID : Z; lm_Size : Z }.
Record LinuxNamespace := mk_LinuxNamespace { ln_Type : string; ln_Path : string }.
Record LinuxDevice := mk_LinuxDevice {
  ld_Path : string; ld_Type : string; ld_Major : Z; ld_Minor : Z;
  ld_FileMode : option Z; ld_UID : option Z; ld_GID : option Z
}.
Record LinuxDeviceCgroup := mk_LinuxDeviceCgroup {
  dc_Allow : bool; dc_Type : string; dc_Major : option Z; dc_Minor : option Z; dc_Access : string
}.
Record LinuxMemory := mk_LinuxMemory {
  lmem_Limit : option Z; lmem_Reservation : option Z; lmem_Swap : option Z; lmem_Kernel : option Z;
  lmem_KernelTCP : option Z; lmem_Swappiness : option Z; lmem_DisableOOMKiller : option bool
}.
Record LinuxCPU := mk_LinuxCPU {
  lcpu_Shares : option Z; lcpu_Quota : option Z; lcpu_Period : option Z;
  lcpu_RealtimeRuntime : option Z; lcpu_RealtimePeriod : option Z; lcpu_Cpus : string; lcpu_Mems : string
}.
Record LinuxWeightDevice := mk_LinuxWeightDevice {
  lw_Major : Z; lw_Minor : Z; lw_Weight : option Z; lw_LeafWeight : option Z
}.
Record LinuxThrottleDevice := mk_LinuxThrottleDevice { lt_Major : Z; lt_Minor : Z; lt_Rate : Z }.
Record LinuxBlockIO := mk_LinuxBlockIO {
  lb_Weight : option Z; lb_LeafWeight : option Z; lb_WeightDevice : list LinuxWeightDevice;
  lb_ThrottleReadBpsDevice : list LinuxThrottleDevice; lb_ThrottleWriteBpsDevice : list LinuxThrottleDevice;
  lb_ThrottleReadIOPSDevice : list LinuxThrottleDevice; lb_ThrottleWriteIOPSDevice : list LinuxThrottleDevice
}.
Record LinuxNetwork := mk_LinuxNetwork { lnet_ClassID : option Z; lnet_Priorities : list (string * Z) }.
Record LinuxResources := mk_LinuxResources {
  lr_Devices : list LinuxDeviceCgroup; lr_Memory : option LinuxMemory; lr_CPU : option LinuxCPU;
  lr_Pids : option Z; lr_BlockIO : option LinuxBlockIO; lr_HugepageLimits : list (string * Z);
  lr_Network : option LinuxNetwork; lr_Unified : gmap string string
}.
Record LinuxSeccompArg := mk_LinuxSeccompArg { la_Index : Z; la_Value : Z; la_ValueTwo : Z; la_Op : string }.
Record LinuxSyscall := mk_LinuxSyscall {
  ls_Names : list string; ls_Action : string; ls_ErrnoRet : option Z; ls_Args : list LinuxSeccompArg
}.
Record LinuxSeccomp := mk_LinuxSeccomp {
  lsc_DefaultAction : string; lsc_Architectures : list string; lsc_Flags : list string;
  lsc_Syscalls : list LinuxSyscall
}.
Record LinuxIntelRdt := mk_LinuxIntelRdt { lir_L3CacheSchema : string; lir_MemBwSchema : string }.
Record Linux := mk_Linux {
  li_UIDMappings : list LinuxIDMapping; li_GIDMappings : list LinuxIDMapping;
  li_Sysctl : gmap string string; li_Resources : option LinuxResources; li_CgroupsPath : string;
  li_Namespaces : list LinuxNamespace; li_Devices : list LinuxDevice; li_Seccomp : option LinuxSeccomp;
  li_RootfsPropagation : string; li_MaskedPaths : list string; li_ReadonlyPaths : list string;
  li_MountLabel : string; li_IntelRdt : option LinuxIntelRdt
}.
Record SpecProcess := mk_SpecProcess {
  sp_Umask : option Z; sp_Capabilities : option Capabilities; sp_NoNewPrivileges : bool;
  sp_OOMScoreAdj : option Z; sp_SelinuxLabel : string
}.
Record SpecMount := mk_SpecMount { sm_Destination : string; sm_Type : string; sm_Source : string; sm_Options : list string }.
Record SpecHook := mk_SpecHook { sh_Path : string; sh_Args : list string; sh_Env : list string; sh_Timeout : option Z }.
Record SpecHooks := mk_SpecHooks {
  sh_Prestart : list SpecHook; sh_CreateRuntime : list SpecHook; sh_CreateContainer : list SpecHook;
  sh_StartContainer : list SpecHook; sh_Poststart : list SpecHook; sh_Poststop : list SpecHook
}.
(** [spec_Root] is the path of the root and whether it is read-only. *)
Record Spec := mk_Spec {
  spec_Root : option (string * bool); spec_Process : option SpecProcess; spec_Hostname : string;
  spec_Mounts : list SpecMount; spec_Hooks : option SpecHooks; spec_Annotations : gmap string string;
  spec_Linux : option Linux
}.

Record CreateOpts := mk_CreateOpts {
  op_CgroupName : string; op_UseSystemdCgroup : bool; op_NoPivotRoot : bool; op_NoNewKeyring : bool;
  op_Spec : Spec; op_RootlessEUID : bool; op_RootlessCgroups : bool
}.

(** ** Cgroup settings ([configs/cgroup_linux.go], [blkio_device.go]) *)

Record WeightDevice := mk_WeightDevice { wd_Major : Z; wd_Minor : Z; wd_Weight : Z; wd_LeafWeight : Z }.
Record ThrottleDevice := mk_ThrottleDevice { td_Major : Z; td_Minor : Z; td_Rate : Z }.
Definition NewWeightDevice (major minor weight leafWeight : Z) : WeightDevice :=
  mk_WeightDevice major minor weight leafWeight.
Definition NewThrottleDevice (major minor rate : Z) : ThrottleDevice := mk_ThrottleDevice major minor rate.

Record HugepageLimit := mk_HugepageLimit { hl_Pagesize : string; hl_Limit : Z }.
Record IfPrioMap := mk_IfPrioMap { ip_Interface : string; ip_Priority : Z }.

(** [configs.Resources] by controller: memory, cpu, blkio, network, and the rest. The
    fields [Freezer] and [SkipDevices], and [Paths] of a cgroup, are never set here. *)
Record MemoryResources := mk_MemoryResources {
  rs_Memory : Z; rs_MemoryReservation : Z; rs_MemorySwap : Z; rs_KernelMemory : Z;
  rs_KernelMemoryTCP : Z; rs_MemorySwappiness : option Z; rs_OomKillDisable : bool
}.
Record CpuResources := mk_CpuResources {
  rs_CpuShares : Z; rs_CpuWeight : Z; rs_CpuQuota : Z; rs_CpuPeriod : Z; rs_CpuRtRuntime : Z;
  rs_CpuRtPeriod : Z; rs_CpusetCpus : string; rs_CpusetMems : string
}.
Record BlkioResources := mk_BlkioResources {
  rs_BlkioWeight : Z; rs_BlkioLeafWeight : Z; rs_BlkioWeightDevice : list WeightDevice;
  rs_BlkioThrottleReadBpsDevice : list ThrottleDevice; rs_BlkioThrottleWriteBpsDevice : list ThrottleDevice;
  rs_BlkioThrottleReadIOPSDevice : list ThrottleDevice; rs_BlkioThrottleWriteIOPSDevice : list ThrottleDevice
}.
Record NetResources := mk_NetResources { rs_NetClsClassid : Z; rs_NetPrioIfpriomap : list IfPrioMap }.
Record Resources := mk_Resources {
  rs_Devices : list Rule; rs_mem : MemoryResources; rs_cpu : CpuResources; rs_PidsLimit : Z;
  rs_blkio : BlkioResources; rs_HugetlbLimit : list HugepageLimit; rs_net : NetResources;
  rs_Unified : gmap string string; rs_Freezer : FreezerState; rs_SkipDevices : bool
}.

(** A value of a D-Bus variant, by its signature; the conversion of a double is that of
    the machine. *)
Inductive Variant :=
  | VByte (n : Z) | VInt16 (n : Z) | VUint16 (n : Z) | VInt32 (n : Z) | VUint32 (n : Z)
  | VInt64 (n : Z) | VUint64 (n : Z) | VDouble (usec : Z) | VOther (text : string).

Record Property := mk_Property { pr_Name : string; pr_Value : Variant }.

Record Cgroup := mk_Cgroup {
  cg_Name : string; cg_Parent : string; cg_Path : string; cg_ScopePrefix : string;
  cg_Resources : Resources; cg_SystemdProps : list Property; cg_Paths : gmap string string
}.

(** ** Seccomp profiles and hooks ([configs/config.go]) *)

Inductive Operator :=
  | EqualTo | NotEqualTo | GreaterThan | GreaterThanOrEqualTo | LessThan | LessThanOrEqualTo | MaskEqualTo.

Record Arg := mk_Arg { arg_Index : Z; arg_Value : Z; arg_ValueTwo : Z; arg_Op : Operator }.
Record Syscall := mk_Syscall { sy_Name : string; sy_Action : Action; sy_ErrnoRet : option Z; sy_Args : list Arg }.
Record Seccomp := mk_Seccomp { se_DefaultAction : Action; se_Architectures : list string; se_Syscalls : list Syscall }.

Record Command := mk_Command {
  cmd_Path : string; cmd_Args : list string; cmd_Env : list string; cmd_Timeout : option Z
}.

Record IntelRdt := mk_IntelRdt { ir_L3CacheSchema : string; ir_MemBwSchema : string }.

(** ** The configuration

    [configs.Config] with all that is set here, in three groups by what a field comes
    from. [fc_Devices] are pointers. No rlimit, route, AppArmor profile or parent death
    signal is set here, but a validator may see routes. *)
Record LinuxConfig := mk_LinuxConfig {
  lc_RootPropagation : Z; lc_Namespaces : list Namespace; lc_Networks : list Network;
  lc_Routes : list Route;
  lc_UidMappings : list IDMap; lc_GidMappings : list IDMap; lc_MaskPaths : list string;
  lc_ReadonlyPaths : list string; lc_MountLabel : string; lc_Sysctl : gmap string string;
  lc_Seccomp : option Seccomp; lc_IntelRdt : option IntelRdt
}.
Record ProcessConfig := mk_ProcessConfig {
  pc_OomScoreAdj : option Z; pc_NoNewPrivileges : bool; pc_Umask : option Z; pc_ProcessLabel : string;
  pc_Capabilities : option Capabilities
}.
Record FullConfig := mk_FullConfig {
  fc_Rootfs : string; fc_NoPivotRoot : bool; fc_Readonlyfs : bool; fc_Hostname : string;
  fc_Labels : list string; fc_NoNewKeyring : bool; fc_RootlessEUID : bool; fc_RootlessCgroups : bool;
  fc_Mounts : list Mount; fc_Devices : list nat; fc_Cgroups : Cgroup; fc_linux : LinuxConfig;
  fc_process : ProcessConfig; fc_Hooks : gmap string (list Command); fc_Version : string
}.

Definition no_linux : LinuxConfig := mk_LinuxConfig 0 [] [] [] [] [] [] [] "" ∅ None None.
Definition no_process : ProcessConfig := mk_ProcessConfig None false None "" None.

(** ** Tables *)

Definition PIDNamespace : string := "pid".
Definition NetworkNamespace : string := "network".
Definition MountNamespace : string := "mount".
Definition IPCNamespace : string := "ipc".
Definition UTSNamespace : string := "uts".
Definition UserNamespace : string := "user".
Definition CgroupNamespace : string := "cgroup".

Definition namespaceMapping : gmap string NamespaceType := list_to_map [
  (PIDNamespace, NEWPID); (NetworkNamespace, NEWNET); (MountNamespace, NEWNS); (UserNamespace, NEWUSER);
  (IPCNamespace, NEWIPC); (UTSNamespace, NEWUTS); (CgroupNamespace, NEWCGROUP) ].

(** [golang.org/x/sys/unix]; [MS_BIND] and [MS_REC] are those of Rootfs.v, [MS_RDONLY] that
    of InitChild.v. *)
Definition MS_NOSUID : Z := 2.
Definition MS_NODEV : Z := 4.
Definition MS_NOEXEC : Z := 8.
Definition MS_SYNCHRONOUS : Z := 16.
Definition MS_REMOUNT : Z := 32.
Definition MS_MANDLOCK : Z := 64.
Definition MS_DIRSYNC : Z := 128.
Definition MS_NOATIME : Z := 1024.
Definition MS_NODIRATIME : Z := 2048.
Definition MS_SILENT : Z := 32768.
Definition MS_POSIXACL : Z := 65536.
Definition MS_UNBINDABLE : Z := 131072.
Definition MS_PRIVATE : Z := 262144.
Definition MS_SLAVE : Z := 524288.
Definition MS_SHARED : Z := 1048576.
Definition MS_RELATIME : Z := 2097152.
Definition MS_I_VERSION : Z := 8388608.
Definition MS_STRICTATIME : Z := 16777216.
Definition MS_LAZYTIME : Z := 33554432.

Definition mountPropagationMapping : gmap string Z := list_to_map [
  ("rprivate", Z.lor MS_PRIVATE MS_REC); ("private", MS_PRIVATE);
  ("rslave", Z.lor MS_SLAVE MS_REC); ("slave", MS_SLAVE);
  ("rshared", Z.lor MS_SHARED MS_REC); ("shared", MS_SHARED);
  ("runbindable", Z.lor MS_UNBINDABLE MS_REC); ("unbindable", MS_UNBINDABLE); ("", 0) ].

(** A device that is allowed and made, and a rule without a node. *)
Definition allowed_node (path : string) (major minor : Z) : Device :=
  mk_Device (mk_Rule CharDevice major minor "rwm" true) path 438 0 0.
Definition allowed_rule (t major minor : Z) (perms : string) : Device :=
  mk_Device (mk_Rule t major minor perms true) "" 0 0 0.

(** The global table. *)
Definition AllowedDevices : list Device := [
  allowed_rule CharDevice Wildcard Wildcard "m";
  allowed_rule BlockDevice Wildcard Wildcard "m";
  allowed_node "/dev/null" 1 3;
  allowed_node "/dev/random" 1 8;
  allowed_node "/dev/full" 1 7;
  allowed_node "/dev/tty" 5 0;
  allowed_node "/dev/zero" 1 5;
  allowed_node "/dev/urandom" 1 9;
  allowed_rule CharDevice 136 Wildcard "rwm";
  allowed_rule CharDevice 5 2 "rwm";
  allowed_rule CharDevice 10 200 "rwm" ].

(** ** Mounts *)

Definition EXT_COPYUP : Z := 1.

(** An option clears or sets its flag. *)
Definition mount_flags : gmap string (bool * Z) := list_to_map [
  ("acl", (false, MS_POSIXACL)); ("async", (true, MS_SYNCHRONOUS)); ("atime", (true, MS_NOATIME));
  ("bind", (false, MS_BIND)); ("defaults", (false, 0)); ("dev", (true, MS_NODEV));
  ("diratime", (true, MS_NODIRATIME)); ("dirsync", (false, MS_DIRSYNC)); ("exec", (true, MS_NOEXEC));
  ("iversion", (false, MS_I_VERSION)); ("lazytime", (false, MS_LAZYTIME)); ("loud", (true, MS_SILENT));
  ("mand", (false, MS_MANDLOCK)); ("noacl", (true, MS_POSIXACL)); ("noatime", (false, MS_NOATIME));
  ("nodev", (false, MS_NODEV)); ("nodiratime", (false, MS_NODIRATIME)); ("noexec", (false, MS_NOEXEC));
  ("noiversion", (true, MS_I_VERSION)); ("nolazytime", (true, MS_LAZYTIME)); ("nomand", (true, MS_MANDLOCK));
  ("norelatime", (true, MS_RELATIME)); ("nostrictatime", (true, MS_STRICTATIME)); ("nosuid", (false, MS_NOSUID));
  ("rbind", (false, Z.lor MS_BIND MS_REC)); ("relatime", (false, MS_RELATIME)); ("remount", (false, MS_REMOUNT));
  ("ro", (false, MS_RDONLY)); ("rw", (true, MS_RDONLY)); ("silent", (false, MS_SILENT));
  ("strictatime", (false, MS_STRICTATIME)); ("suid", (true, MS_NOSUID)); ("sync", (false, MS_SYNCHRONOUS)) ].

Definition propagationFlags : gmap string Z := list_to_map [
  ("private", MS_PRIVATE); ("shared", MS_SHARED); ("slave", MS_SLAVE); ("unbindable", MS_UNBINDABLE);
  ("rprivate", Z.lor MS_PRIVATE MS_REC); ("rshared", Z.lor MS_SHARED MS_REC);
  ("rslave", Z.lor MS_SLAVE MS_REC); ("runbindable", Z.lor MS_UNBINDABLE MS_REC) ].

Definition extensionFlags : gmap string (bool * Z) := list_to_map [("tmpcopyup", (false, EXT_COPYUP))].

Definition apply_flag (flag : Z) (f : bool * Z) : Z := if fst f then Z.ldiff flag (snd f) else Z.lor flag (snd f).

(** What has been parsed so far. *)
Record mount_opts := mk_mount_opts {
  po_flag : Z; po_pgflag : list Z; po_data : list string; po_ext : Z
}.

(** [f, exists := table[o]; exists && f != 0] *)
Definition flag_of (table : gmap string (bool * Z)) (o : string) : option (bool * Z) :=
  match table !! o with Some f => if snd f =? 0 then None else Some f | None => None end.
Definition pgflag_of (o : string) : option Z :=
  match propagationFlags !! o with Some f => if f =? 0 then None else Some f | None => None end.

Definition mount_option (st : mount_opts) (o : string) : mount_opts :=
  let '(mk_mount_opts flag pgflag data extFlags) := st in
  match flag_of mount_flags o with
  | Some f => mk_mount_opts (apply_flag flag f) pgflag data extFlags
  | None =>
      match pgflag_of o with
      | Some f => mk_mount_opts flag (pgflag ++ [f]) data extFlags
      | None =>
          match flag_of extensionFlags o with
          | Some f => mk_mount_opts flag pgflag data (apply_flag extFlags f)
          | None => mk_mount_opts flag pgflag (data ++ [o]) extFlags
          end
      end
  end.

Definition parseMountOptions (options : list string) : Z * list Z * string * Z :=
  let '(mk_mount_opts flag pgflag data extFlags) := foldl mount_option (mk_mount_opts 0 [] [] 0) options in
  (flag, pgflag, Join "," data, extFlags).

Definition createLibcontainerMount (cwd : string) (m : SpecMount) : Mount :=
  let '(flags, pgflags, data, ext) := parseMountOptions (sm_Options m) in
  let bind := negb (Z.land flags MS_BIND =? 0) in
  mk_Mount
    (if bind && negb (IsAbs (sm_Source m)) then path_Join cwd (sm_Source m) else sm_Source m)
    (sm_Destination m)
    (if bind then "bind" else sm_Type m)
    (mk_MountOptions flags pgflags data "" ext [] []).

(** ** Properties of systemd units *)

Definition is_lower (c : ascii) : bool := (97 <=? code c) && (code c <=? 122).
Definition is_upper (c : ascii) : bool := (65 <=? code c) && (code c <=? 90).

Fixpoint all_chars (P : ascii → bool) (s : string) : bool :=
  match s with EmptyString => true | String c s' => P c && all_chars P s' end.

(** [^[a-zA-Z]{3,}$] *)
Definition isValidName (s : string) : bool :=
  all_chars (λ c, is_lower c || is_upper c) s && (3 <=? Z.of_nat (String.length s)).

(** [[a-z]Sec$] *)
Fixpoint isSecSuffix (s : string) : bool :=
  match s with
  | EmptyString => false
  | String c s' => (is_lower c && bool_decide (s' = "Sec")) || isSecSuffix s'
  end.

(** [strings.TrimSuffix] *)
Fixpoint TrimSuffix (s suffix : string) : string :=
  if decide (s = suffix) then ""
  else match s with EmptyString => "" | String c s' => String c (TrimSuffix s' suffix) end.

Definition convertSecToUSec (value : Variant) : result Variant :=
  let M := 1000000 in
  match value with
  | VByte n | VInt16 n | VUint16 n | VInt32 n | VUint32 n | VInt64 n | VUint64 n => Ok (VUint64 (u64 (u64 n * M)))
  | VDouble usec => Ok (VUint64 (u64 usec))
  | VOther _ => Err (ErrNew "not a number")
  end.

Section Dbus.
(** [dbus.ParseVariant] of a text without a given signature. *)
Context (ParseVariant : string → result Variant).

Definition keyPrefix : string := "org.systemd.property.".

Definition systemd_prop (sp : list Property) (kv : string * string) : result (list Property) :=
  let '(k, v) := kv in
  let name := TrimPrefix k keyPrefix in
  if decide (String.length name = String.length k) then Ok sp
  else if negb (isValidName name) then Err (ErrNew ("Annotation " +:+ k +:+ " name incorrect: " +:+ name))
  else
    let! value := wrap_err ("Annotation " +:+ k +:+ "=" +:+ v +:+ " value parse error") (ParseVariant v) in
    if isSecSuffix name then
      let! value := wrap_err ("Annotation " +:+ k +:+ "=" +:+ v +:+ " value parse error") (convertSecToUSec value) in
      Ok (sp ++ [mk_Property (TrimSuffix name "Sec" +:+ "USec") value])
    else Ok (sp ++ [mk_Property name value]).

Definition initSystemdProps (spec : Spec) : result (list Property) :=
  foldM systemd_prop [] (map_to_list (spec_Annotations spec)).

(** ** Cgroups *)

Definition stringToCgroupDeviceRune (s : string) : result DevType :=
  if decide (s = "a") then Ok WildcardDevice
  else if decide (s = "b") then Ok BlockDevice
  else if decide (s = "c") then Ok CharDevice
  else Err (ErrNew ("invalid cgroup device type " +:+ s)).

Definition cgroup_rule (rules : list Rule) (id : nat * LinuxDeviceCgroup) : result (list Rule) :=
  let '(i, d) := id in
  let t := if decide (dc_Type d = "") then "a" else dc_Type d in
  if decide (dc_Access d = "")
  then Err (ErrNew ("device access at " +:+ Itoa (Z.of_nat i) +:+ " field cannot be empty"))
  else
    let! dt := stringToCgroupDeviceRune t in
    Ok (rules ++ [mk_Rule dt (default (-1) (dc_Major d)) (default (-1) (dc_Minor d)) (dc_Access d) (dc_Allow d)]).

Definition cgroup_rules (r : LinuxResources) : result (list Rule) :=
  foldM cgroup_rule [] (imap pair (lr_Devices r)).

Definition memory_of (m : option LinuxMemory) : MemoryResources :=
  match m with
  | None => mk_MemoryResources 0 0 0 0 0 None false
  | Some m =>
      mk_MemoryResources (default 0 (lmem_Limit m)) (default 0 (lmem_Reservation m)) (default 0 (lmem_Swap m))
        (default 0 (lmem_Kernel m)) (default 0 (lmem_KernelTCP m)) (lmem_Swappiness m)
        (default false (lmem_DisableOOMKiller m))
  end.

Definition cpu_of (c : option LinuxCPU) : CpuResources :=
  match c with
  | None => mk_CpuResources 0 0 0 0 0 0 "" ""
  | Some c =>
      mk_CpuResources (default 0 (lcpu_Shares c))
        (match lcpu_Shares c with Some s => ConvertCPUSharesToCgroupV2Value s | None => 0 end)
        (default 0 (lcpu_Quota c)) (default 0 (lcpu_Period c)) (default 0 (lcpu_RealtimeRuntime c))
        (default 0 (lcpu_RealtimePeriod c)) (lcpu_Cpus c) (lcpu_Mems c)
  end.

Definition weight_device (wd : LinuxWeightDevice) : WeightDevice :=
  NewWeightDevice (lw_Major wd) (lw_Minor wd) (default 0 (lw_Weight wd)) (default 0 (lw_LeafWeight wd)).
Definition throttle_device (td : LinuxThrottleDevice) : ThrottleDevice :=
  NewThrottleDevice (lt_Major td) (lt_Minor td) (lt_Rate td).

Definition blkio_of (b : option LinuxBlockIO) : BlkioResources :=
  match b with
  | None => mk_BlkioResources 0 0 [] [] [] [] []
  | Some b =>
      mk_BlkioResources (default 0 (lb_Weight b)) (default 0 (lb_LeafWeight b))
        (weight_device <$> lb_WeightDevice b)
        (throttle_device <$> lb_ThrottleReadBpsDevice b) (throttle_device <$> lb_ThrottleWriteBpsDevice b)
        (throttle_device <$> lb_ThrottleReadIOPSDevice b) (throttle_device <$> lb_ThrottleWriteIOPSDevice b)
  end.

Definition net_of (n : option LinuxNetwork) : NetResources :=
  match n with
  | None => mk_NetResources 0 []
  | Some n => mk_NetResources (default 0 (lnet_ClassID n)) ((λ m, mk_IfPrioMap m.1 m.2) <$> lnet_Priorities n)
  end.

Definition no_resources : Resources :=
  mk_Resources [] (memory_of None) (cpu_of None) 0 (blkio_of None) [] (net_of None) ∅ Undefined false.

Definition resources_of (r : LinuxResources) : result Resources :=
  let! rules := cgroup_rules r in
  Ok (mk_Resources rules (memory_of (lr_Memory r)) (cpu_of (lr_CPU r)) (default 0 (lr_Pids r))
        (blkio_of (lr_BlockIO r)) ((λ l, mk_HugepageLimit l.1 l.2) <$> lr_HugepageLimits r)
        (net_of (lr_Network r)) (lr_Unified r) Undefined false).

Definition add_rules (rules : list Rule) (r : Resources) : Resources :=
  mk_Resources (rs_Devices r ++ rules) (rs_mem r) (rs_cpu r) (rs_PidsLimit r) (rs_blkio r) (rs_HugetlbLimit r)
    (rs_net r) (rs_Unified r) (rs_Freezer r) (rs_SkipDevices r).

(** Name, parent, path and scope prefix of the cgroup. *)
Definition cgroup_place (opts : CreateOpts) : result (string * string * string * string) :=
  let cgroupsPath := match spec_Linux (op_Spec opts) with Some l => li_CgroupsPath l | None => "" end in
  if op_UseSystemdCgroup opts then
    if decide (cgroupsPath = "") then Ok (op_CgroupName opts, "system.slice", "", "runc")
    else
      match Split ":" cgroupsPath with
      | [parent; prefix; name] => Ok (name, parent, "", prefix)
      | _ => Err (ErrNew ("expected cgroupsPath to be of format slice:prefix:name for systemd cgroups, got "
                          +:+ cgroupsPath +:+ " instead"))
      end
  else
    let myCgroupPath := if decide (cgroupsPath = "") then "" else CleanPath cgroupsPath in
    Ok (if decide (myCgroupPath = "") then op_CgroupName opts else "", "", myCgroupPath, "").

(** [defaultDevs] are the rules of the default devices, in the order of the table. *)
Definition CreateCgroupConfig (opts : CreateOpts) (defaultDevs : list Rule) : result Cgroup :=
  let spec := op_Spec opts in
  let! sp := if op_UseSystemdCgroup opts then initSystemdProps spec else Ok [] in
  let! (name, parent, path, prefix) := cgroup_place opts in
  let! res := match spec_Linux spec with
              | Some {| li_Resources := Some r |} => resources_of r
              | _ => Ok no_resources
              end in
  Ok (mk_Cgroup name parent path prefix (add_rules defaultDevs res) sp ∅).

(** ** Devices *)

Definition stringToDeviceRune (s : string) : result DevType :=
  if decide (s = "p") then Ok FifoDevice
  else if decide (s = "u" ∨ s = "c") then Ok CharDevice
  else if decide (s = "b") then Ok BlockDevice
  else Err (ErrNew ("invalid device type " +:+ s)).

Abbreviation Store A := (M (list Device) A).

Definition load (p : nat) : Store Device := λ s,
  match s !! p with Some d => (Ok d, s) | None => (Panic "nil pointer dereference", s) end.
Definition store (p : nat) (d : Device) : Store () := modify <[p := d]>.
Definition alloc (d : Device) : Store nat := λ s, (Ok (length s), s ++ [d]).

(** The pointers of the global table. *)
Definition AllowedDevices_refs : list nat := seq 0 (length AllowedDevices).

(** Is a default device one the spec does not have? The devices of the spec are looked at
    without a test that there is a Linux section. *)
Definition keeps_default (linux : option Linux) (ad : Device) : result bool :=
  if decide (dev_path ad = "") then Ok true
  else match linux with
       | None => Panic "nil pointer dereference"
       | Some l => Ok (negb (existsb (λ sd, bool_decide (ld_Path sd = dev_path ad)) (li_Devices l)))
       end.

(** The loop over the table: the kept entries, and those of them that have a node. *)
Fixpoint default_devices (linux : option Linux) (refs dedupedAllowDevs devs : list nat)
    : Store (list nat * list nat) :=
  match refs with
  | [] => ret (dedupedAllowDevs, devs)
  | p :: refs' =>
      do ad ← load p;
      do keep ← lift (keeps_default linux ad);
      if (keep : bool)
      then default_devices linux refs' (dedupedAllowDevs ++ [p])
             (if decide (dev_path ad = "") then devs else devs ++ [p])
      else default_devices linux refs' dedupedAllowDevs devs
  end.

Definition spec_device (d : LinuxDevice) : result Device :=
  let! dt := stringToDeviceRune (ld_Type d) in
  Ok (mk_Device (mk_Rule dt (ld_Major d) (ld_Minor d) "" false) (ld_Path d)
        (match ld_FileMode d with Some m => Z.ldiff m S_IFMT | None => 438 end)
        (default 0 (ld_UID d)) (default 0 (ld_GID d))).

Fixpoint add_devices (ds : list LinuxDevice) (devs : list nat) : Store (list nat) :=
  match ds with
  | [] => ret devs
  | d :: ds' =>
      do dev ← lift (spec_device d);
      do p ← alloc dev;
      add_devices ds' (devs ++ [p])
  end.

(** [createDevices]: the default devices that are kept, and the devices of the container. *)
Definition createDevices (spec : Spec) : Store (list nat * list nat) :=
  do r ← default_devices (spec_Linux spec) AllowedDevices_refs [] [];
  let '(dedupedAllowDevs, devs) := r in
  do devs ← add_devices (match spec_Linux spec with Some l => li_Devices l | None => [] end) devs;
  ret (dedupedAllowDevs, devs).

(** ** User namespaces *)

Definition create_idmap (m : LinuxIDMapping) : IDMap := mk_IDMap (lm_ContainerID m) (lm_HostID m) (lm_Size m).

(** A configuration as the functions of [config_linux.go] read it. *)
Definition ids_config (namespaces : list Namespace) (uids gids : list IDMap) : Config :=
  mk_Config "" namespaces uids gids false false None [] false [] [] [] [] 0 no_settings.

(** The node gets a new owner, for whoever else points to it as well. *)
Definition chown_device (uid gid : Z) (p : nat) : Store () :=
  do node ← load p;
  store p (mk_Device (dev_rule node) (dev_path node) (dev_mode node) (u32 uid) (u32 gid)).

(** The mappings of the user namespace; [devs] are the devices of the container. *)
Definition setupUserNamespace (linux : Linux) (namespaces : list Namespace) (devs : list nat)
    : Store (list IDMap * list IDMap) :=
  let uids := create_idmap <$> li_UIDMappings linux in
  let gids := create_idmap <$> li_GIDMappings linux in
  do rootUID ← lift (HostUID (ids_config namespaces uids gids) 0);
  do rootGID ← lift (HostGID (ids_config namespaces uids gids) 0);
  for_each (chown_device rootUID rootGID) devs ;;;
  ret (uids, gids).

(** ** Seccomp ([seccomp/config.go]) *)

Definition operators : gmap string Operator := list_to_map [
  ("SCMP_CMP_NE", NotEqualTo); ("SCMP_CMP_LT", LessThan); ("SCMP_CMP_LE", LessThanOrEqualTo);
  ("SCMP_CMP_EQ", EqualTo); ("SCMP_CMP_GE", GreaterThanOrEqualTo); ("SCMP_CMP_GT", GreaterThan);
  ("SCMP_CMP_MASKED_EQ", MaskEqualTo) ].

Definition actions : gmap string Action := list_to_map [
  ("SCMP_ACT_KILL", Kill); ("SCMP_ACT_ERRNO", Errno); ("SCMP_ACT_TRAP", Trap);
  ("SCMP_ACT_ALLOW", Allow); ("SCMP_ACT_TRACE", Trace); ("SCMP_ACT_LOG", Log) ].

Definition archs : gmap string string := list_to_map [
  ("SCMP_ARCH_X86", "x86"); ("SCMP_ARCH_X86_64", "amd64"); ("SCMP_ARCH_X32", "x32");
  ("SCMP_ARCH_ARM", "arm"); ("SCMP_ARCH_AARCH64", "arm64"); ("SCMP_ARCH_MIPS", "mips");
  ("SCMP_ARCH_MIPS64", "mips64"); ("SCMP_ARCH_MIPS64N32", "mips64n32"); ("SCMP_ARCH_MIPSEL", "mipsel");
  ("SCMP_ARCH_MIPSEL64", "mipsel64"); ("SCMP_ARCH_MIPSEL64N32", "mipsel64n32"); ("SCMP_ARCH_PPC", "ppc");
  ("SCMP_ARCH_PPC64", "ppc64"); ("SCMP_ARCH_PPC64LE", "ppc64le"); ("SCMP_ARCH_S390", "s390");
  ("SCMP_ARCH_S390X", "s390x") ].

Definition convert {A} (table : gmap string A) (what input : string) : result A :=
  match table !! input with
  | Some a => Ok a
  | None => Err (ErrNew ("string " +:+ input +:+ " is not a valid " +:+ what +:+ " for seccomp"))
  end.
Definition ConvertStringToOperator : string → result Operator := convert operators "operator".
Definition ConvertStringToAction : string → result Action := convert actions "action".
Definition ConvertStringToArch : string → result string := convert archs "arch".

Definition add_arg (args : list Arg) (arg : LinuxSeccompArg) : result (list Arg) :=
  let! newOp := ConvertStringToOperator (la_Op arg) in
  Ok (args ++ [mk_Arg (la_Index arg) (la_Value arg) (la_ValueTwo arg) newOp]).

Definition add_named (newAction : Action) (call : LinuxSyscall) (calls : list Syscall) (name : string)
    : result (list Syscall) :=
  let! args := foldM add_arg [] (ls_Args call) in
  Ok (calls ++ [mk_Syscall name newAction (ls_ErrnoRet call) args]).

Definition add_call (calls : list Syscall) (call : LinuxSyscall) : result (list Syscall) :=
  let! newAction := ConvertStringToAction (ls_Action call) in
  foldM (add_named newAction call) calls (ls_Names call).

Definition add_seccomp_arch (l : list string) (arch : string) : result (list string) :=
  let! newArch := ConvertStringToArch arch in Ok (l ++ [newArch]).

(** [Ok None] is the nil profile: seccomp is off. *)
Definition SetupSeccomp (config : option LinuxSeccomp) : result (option Seccomp) :=
  match config with
  | None => Ok None
  | Some c =>
      if decide (lsc_DefaultAction c = "" ∧ lsc_Syscalls c = []) then Ok None
      else if negb (bool_decide (lsc_Flags c = []))
      then Err (ErrNew "seccomp flags are not yet supported by runc")
      else
        let! architectures := foldM add_seccomp_arch [] (lsc_Architectures c) in
        let! newDefaultAction := ConvertStringToAction (lsc_DefaultAction c) in
        let! calls := foldM add_call [] (lsc_Syscalls c) in
        Ok (Some (mk_Seccomp newDefaultAction architectures calls))
  end.

(** ** Hooks *)

Definition Poststop : string := "poststop".

(** [time.Duration] counts nanoseconds in 64 bits. *)
Definition createCommandHook (h : SpecHook) : Command :=
  mk_Command (sh_Path h) (sh_Args h) (sh_Env h) ((λ t, wraps 64 (t * 1000000000)) <$> sh_Timeout h).

(** Appending to the list of a name that is not in the map makes it. *)
Definition add_hooks (name : string) (hs : list SpecHook) (m : gmap string (list Command)) : gmap string (list Command) :=
  foldl (λ m h, <[name := default [] (m !! name) ++ [createCommandHook h]]> m) m hs.

Definition createHooks (hooks : option SpecHooks) : gmap string (list Command) :=
  match hooks with
  | None => ∅
  | Some h =>
      add_hooks Poststop (sh_Poststop h) $ add_hooks Poststart (sh_Poststart h) $
      add_hooks StartContainer (sh_StartContainer h) $ add_hooks CreateContainer (sh_CreateContainer h) $
      add_hooks CreateRuntime (sh_CreateRuntime h) $ add_hooks Prestart (sh_Prestart h) ∅
  end.

(** ** The conversion *)

(** The labels: the annotations, in the order of the map, and the bundle. *)
Definition labels_of (cwd : string) (annotations : gmap string string) : list string :=
  ((λ kv, kv.1 +:+ "=" +:+ kv.2) <$> map_to_list annotations) ++ ["bundle=" +:+ cwd].

Definition add_namespace (nss : list Namespace) (ns : LinuxNamespace) : result (list Namespace) :=
  match namespaceMapping !! ln_Type ns with
  | None => Err (ErrNew ("namespace " +:+ ln_Type ns +:+ " does not exist"))
  | Some t =>
      if ns_Contains nss t then Err (ErrNew ("malformed spec file: duplicated ns " +:+ ln_Type ns))
      else Ok (ns_Add nss t (ln_Path ns))
  end.

Definition loopback : Network := mk_Network "loopback" "" "".

(** The Linux section; [devs] are the devices of the container. *)
Definition linux_config (opts : CreateOpts) (linux : Linux) (devs : list nat) : Store LinuxConfig :=
  match mountPropagationMapping !! li_RootfsPropagation linux with
  | None => throw (ErrNew ("rootfsPropagation=" +:+ li_RootfsPropagation linux +:+ " is not supported"))
  | Some propagation =>
      if op_NoPivotRoot opts && negb (Z.land propagation MS_PRIVATE =? 0)
      then throw (ErrNew "rootfsPropagation of [r]private is not safe without pivot_root")
      else
        do namespaces ← lift (foldM add_namespace [] (li_Namespaces linux));
        let networks := if ns_Contains namespaces NEWNET && bool_decide (ns_PathOf namespaces NEWNET = "")
                        then [loopback] else [] in
        do maps ← (if ns_Contains namespaces NEWUSER then setupUserNamespace linux namespaces devs
                   else ret ([], []));
        do seccomp ← lift (SetupSeccomp (li_Seccomp linux));
        ret (mk_LinuxConfig propagation namespaces networks [] (fst maps) (snd maps) (li_MaskedPaths linux)
               (li_ReadonlyPaths linux) (li_MountLabel linux) (li_Sysctl linux) seccomp
               ((λ r, mk_IntelRdt (lir_L3CacheSchema r) (lir_MemBwSchema r)) <$> li_IntelRdt linux))
  end.

Definition process_config (p : option SpecProcess) : ProcessConfig :=
  match p with
  | None => no_process
  | Some p => mk_ProcessConfig (sp_OOMScoreAdj p) (sp_NoNewPrivileges p) (sp_Umask p) (sp_SelinuxLabel p)
                (sp_Capabilities p)
  end.

Fixpoint load_rules (refs : list nat) : Store (list Rule) :=
  match refs with
  | [] => ret []
  | p :: refs' => do d ← load p; do rs ← load_rules refs'; ret (dev_rule d :: rs)
  end.

(** [getwd] is the answer of [os.Getwd], an absolute path. *)
Definition CreateLibcontainerConfig (getwd : result string) (opts : CreateOpts) : Store FullConfig :=
  do rcwd ← lift getwd;
  let cwd := Clean rcwd in
  let spec := op_Spec opts in
  match spec_Root spec with
  | None => throw (ErrNew "Root must be specified")
  | Some (path, readonly) =>
      let rootfsPath := if IsAbs path then path else path_Join cwd path in
      let mounts := createLibcontainerMount cwd <$> spec_Mounts spec in
      do devices ← createDevices spec;
      let '(defaultDevs, devs) := devices in
      do rules ← load_rules defaultDevs;
      do c ← lift (CreateCgroupConfig opts rules);
      do linux ← (match spec_Linux spec with
                  | None => ret no_linux
                  | Some l => linux_config opts l devs
                  end);
      ret (mk_FullConfig rootfsPath (op_NoPivotRoot opts) readonly (spec_Hostname spec)
             (labels_of cwd (spec_Annotations spec)) (op_NoNewKeyring opts) (op_RootlessEUID opts)
             (op_RootlessCgroups opts) mounts devs c linux (process_config (spec_Process spec))
             (createHooks (spec_Hooks spec)) specs_Version)
  end.
End Dbus.

(** What the rest of libcontainer reads of a configuration, in the form of Container.v;
    [resources] and [profile] stand for what is only handed on. *)
Definition view (resources : Cgroup → Z) (profile : Seccomp → Z) (s : list Device) (c : FullConfig) : Config :=
  let l := fc_linux c in
  let p := fc_process c in
  mk_Config (fc_Rootfs c) (lc_Namespaces l) (lc_UidMappings l) (lc_GidMappings l) (fc_RootlessEUID c)
    (fc_RootlessCgroups c) (pc_OomScoreAdj p) (fc_Labels c) true (fc_Mounts c) (lc_MaskPaths l)
    (omap (λ q, dev_path <$> s !! q) (fc_Devices c)) (lc_Networks l) (resources (fc_Cgroups c))
    (mk_Settings (fc_NoPivotRoot c) (pc_Umask p) (fc_Readonlyfs c) 0 (lc_MountLabel l) (fc_Hostname c)
       (pc_Capabilities p) (lc_Routes l) "" (pc_ProcessLabel p) [] (lc_ReadonlyPaths l) (lc_Sysctl l)
       (profile <$> lc_Seccomp l) (pc_NoNewPrivileges p) (fc_NoNewKeyring c)).
