(* ===== verification/Validate.v ===== *)
(** * Validation of a configuration ([libcontainer/configs/validate])

    [ConfigValidator.Validate] ([validator.go]) and its part for rootless containers
    ([rootless.go]). What the checks ask of the host is a record of functions. Go's nil and
    empty mappings are not told apart: [specconv] never makes an empty mapping. *)

From S2P Require Import DeviceEmulator.
From S2P Require Import Prelude GoStd Container SpecConv.

Record Host := mk_Host {
  os_Stat : string → option error;
  filepath_Abs : string → result string;
  EvalSymlinks : string → result string;
  selinux_enabled : bool;
  IsCATEnabled : bool;
  IsMBAEnabled : bool;
  unix_Stat : string → result (Z * Z) (* device and inode *)
}.

(** [fmt.Sscanf(s, "%d", &n)] on what follows the literal part of the format: white space
    without a line feed, a sign, digits; what follows is not looked at. *)
Definition scan_d (s : string) : option Z :=
  let t := TrimLeftSpace s in
  let skipped := String.substring 0 (String.length s - String.length t) s in
  if contains_char LF skipped then None
  else
    let '(sign, t) := match t with
                      | String "+" t' => ("+", t')
                      | String "-" t' => ("-", t')
                      | _ => ("", t)
                      end in
    let digits := fst (span_str is_digit t) in
    if decide (digits = "") then None
    else match ParseInt (sign +:+ digits) 64 with (n, None) => Some n | _ => None end.

Section Validator.
Context (h : Host).

Definition v_rootfs (config : FullConfig) : result () :=
  match os_Stat h (fc_Rootfs config) with
  | Some err => if IsNotExist err then Err (ErrNew ("rootfs (" +:+ fc_Rootfs config +:+ ") does not exist")) else Err err
  | None =>
      let! cleaned := filepath_Abs h (fc_Rootfs config) in
      let! cleaned := EvalSymlinks h cleaned in
      if decide (Clean (fc_Rootfs config) = cleaned) then Ok tt
      else Err (ErrNew (fc_Rootfs config +:+ " is not an absolute path or is a symlink"))
  end.

Definition contains (config : FullConfig) (t : NamespaceType) : bool := ns_Contains (lc_Namespaces (fc_linux config)) t.

Definition v_network (config : FullConfig) : result () :=
  if negb (contains config NEWNET)
     && (negb (bool_decide (lc_Networks (fc_linux config) = []))
         || negb (bool_decide (lc_Routes (fc_linux config) = [])))
  then Err (ErrNew "unable to apply network settings without a private NET namespace")
  else Ok tt.

Definition v_hostname (config : FullConfig) : result () :=
  if negb (bool_decide (fc_Hostname config = "")) && negb (contains config NEWUTS)
  then Err (ErrNew "unable to set hostname without a private UTS namespace")
  else Ok tt.

Definition v_security (config : FullConfig) : result () :=
  if (negb (bool_decide (lc_MaskPaths (fc_linux config) = []))
      || negb (bool_decide (lc_ReadonlyPaths (fc_linux config) = [])))
     && negb (contains config NEWNS)
  then Err (ErrNew "unable to restrict sys entries without a private MNT namespace")
  else if negb (bool_decide (pc_ProcessLabel (fc_process config) = "")) && negb (selinux_enabled h)
  then Err (ErrNew "selinux label is specified in config, but selinux is disabled or not supported")
  else Ok tt.

Definition missing (path : string) : bool :=
  match os_Stat h path with Some err => IsNotExist err | None => false end.

Definition v_usernamespace (config : FullConfig) : result () :=
  if contains config NEWUSER then
    if missing "/proc/self/ns/user" then Err (ErrNew "USER namespaces aren't enabled in the kernel") else Ok tt
  else if negb (bool_decide (lc_UidMappings (fc_linux config) = []))
          || negb (bool_decide (lc_GidMappings (fc_linux config) = []))
  then Err (ErrNew "User namespace mappings specified, but USER namespace isn't enabled in the config")
  else Ok tt.

Definition v_cgroupnamespace (config : FullConfig) : result () :=
  if contains config NEWCGROUP && missing "/proc/self/ns/cgroup"
  then Err (ErrNew "cgroup namespaces aren't enabled in the kernel")
  else Ok tt.

Definition isHostNetNS (path : string) : result bool :=
  let! st1 := wrap_err "unable to stat /proc/self/ns/net" (unix_Stat h "/proc/self/ns/net") in
  let! st2 := wrap_err ("unable to stat " +:+ path) (unix_Stat h path) in
  Ok ((fst st1 =? fst st2) && (snd st1 =? snd st2)).

(** What [netOnce] computes: is the network namespace that of the caller? *)
Definition hostnet (config : FullConfig) : result bool :=
  if negb (contains config NEWNET) then Ok true
  else
    let path := ns_PathOf (lc_Namespaces (fc_linux config)) NEWNET in
    if decide (path = "") then Ok false else isHostNetNS path.

Definition validSysctlMap : list string := [
  "kernel.msgmax"; "kernel.msgmnb"; "kernel.msgmni"; "kernel.sem"; "kernel.shmall"; "kernel.shmmax";
  "kernel.shmmni"; "kernel.shm_rmid_forced" ].

Definition sysctl_key (config : FullConfig) (s : string) : result () :=
  if bool_decide (s ∈ validSysctlMap) || HasPrefix s "fs.mqueue." then
    if contains config NEWIPC then Ok tt
    else Err (ErrNew ("sysctl " +:+ s +:+ " is not allowed in the hosts ipc namespace"))
  else if HasPrefix s "net." then
    let! host := hostnet config in
    if host then Err (ErrNew ("sysctl " +:+ s +:+ " not allowed in host network namespace")) else Ok tt
  else if contains config NEWUTS && bool_decide (s = "kernel.domainname") then Ok tt
  else if contains config NEWUTS && bool_decide (s = "kernel.hostname")
  then Err (ErrNew ("sysctl " +:+ s +:+ " is not allowed as it conflicts with the OCI hostname field"))
  else Err (ErrNew ("sysctl " +:+ s +:+ " is not in a separate kernel namespace")).

(** The loop over the keys, in the order in which the map yields them. *)
Fixpoint sysctl_loop (config : FullConfig) (keys : list string) : result () :=
  match keys with
  | [] => Ok tt
  | s :: keys' => do! sysctl_key config s in sysctl_loop config keys'
  end.

Definition v_sysctl (config : FullConfig) : result () :=
  sysctl_loop config (fst <$> map_to_list (lc_Sysctl (fc_linux config))).

Definition v_intelrdt (config : FullConfig) : result () :=
  match lc_IntelRdt (fc_linux config) with
  | None => Ok tt
  | Some rdt =>
      let l3 := bool_decide (ir_L3CacheSchema rdt = "") in
      let mb := bool_decide (ir_MemBwSchema rdt = "") in
      if negb (IsCATEnabled h) && negb (IsMBAEnabled h)
      then Err (ErrNew "intelRdt is specified in config, but Intel RDT is not supported or enabled")
      else if negb (IsCATEnabled h) && negb l3
      then Err (ErrNew "intelRdt.l3CacheSchema is specified in config, but Intel RDT/CAT is not enabled")
      else if negb (IsMBAEnabled h) && negb mb
      then Err (ErrNew "intelRdt.memBwSchema is specified in config, but Intel RDT/MBA is not enabled")
      else if IsCATEnabled h && l3
      then Err (ErrNew "Intel RDT/CAT is enabled and intelRdt is specified in config, but intelRdt.l3CacheSchema is empty")
      else if IsMBAEnabled h && mb
      then Err (ErrNew "Intel RDT/MBA is enabled and intelRdt is specified in config, but intelRdt.memBwSchema is empty")
      else Ok tt
  end.

(** ** Rootless containers *)

Definition hasIDMapping (id : Z) (mappings : list IDMap) : bool :=
  existsb (λ m, (im_ContainerID m <=? id) && (id <? wraps 64 (im_ContainerID m + im_Size m))) mappings.

Definition rootlessEUIDMappings (config : FullConfig) : result () :=
  if negb (contains config NEWUSER) then Err (ErrNew "rootless container requires user namespaces")
  else if decide (lc_UidMappings (fc_linux config) = [])
  then Err (ErrNew "rootless containers requires at least one UID mapping")
  else if decide (lc_GidMappings (fc_linux config) = [])
  then Err (ErrNew "rootless containers requires at least one GID mapping")
  else Ok tt.

(** The id in an option of the form [uid=1000]; [key] is ["uid="] or ["gid="]. *)
Definition id_option (key opt : string) : option Z :=
  if HasPrefix opt key then scan_d (TrimPrefix opt key) else None.

Definition mount_data_option (config : FullConfig) (opt : string) : result () :=
  match id_option "uid=" opt with
  | Some uid =>
      if hasIDMapping uid (lc_UidMappings (fc_linux config)) then Ok tt
      else Err (ErrNew "cannot specify uid= mount options for unmapped uid in rootless containers")
  | None =>
      match id_option "gid=" opt with
      | Some gid =>
          if hasIDMapping gid (lc_GidMappings (fc_linux config)) then Ok tt
          else Err (ErrNew "cannot specify gid= mount options for unmapped gid in rootless containers")
      | None => Ok tt
      end
  end.

Fixpoint data_loop (config : FullConfig) (opts : list string) : result () :=
  match opts with
  | [] => Ok tt
  | opt :: opts' => do! mount_data_option config opt in data_loop config opts'
  end.

Definition rootlessEUIDMount (config : FullConfig) : result () :=
  data_loop config (mjoin ((λ m, Split "," (mo_Data (mt_Options m))) <$> fc_Mounts config)).

Definition rootlessEUID (config : FullConfig) : result () :=
  do! rootlessEUIDMappings config in rootlessEUIDMount config.

Definition Validate (config : FullConfig) : result () :=
  do! v_rootfs config in
  do! v_network config in
  do! v_hostname config in
  do! v_security config in
  do! v_usernamespace config in
  do! v_cgroupnamespace config in
  do! v_sysctl config in
  do! v_intelrdt config in
  if fc_RootlessEUID config then rootlessEUID config else Ok tt.
End Validator.

(** ** What a valid configuration is *)

Section Valid.
Context (h : Host).

(** The container has a network namespace of its own, or one that is not that of runc. *)
Definition private_net (c : FullConfig) : Prop :=
  contains c NEWNET = true ∧
  let path := ns_PathOf (lc_Namespaces (fc_linux c)) NEWNET in
  path = "" ∨ ∃ a b, unix_Stat h "/proc/self/ns/net" = Ok a ∧ unix_Stat h path = Ok b ∧ a ≠ b.

(** A kernel parameter that belongs to a namespace of the container. *)
Definition namespaced (c : FullConfig) (s : string) : Prop :=
  (s ∈ validSysctlMap ∨ HasPrefix s "fs.mqueue." = true) ∧ contains c NEWIPC = true ∨
  HasPrefix s "net." = true ∧ private_net c ∨
  s = "kernel.domainname" ∧ contains c NEWUTS = true.

Definition valid_rootfs (c : FullConfig) : Prop :=
  os_Stat h (fc_Rootfs c) = None ∧
  ∃ p, filepath_Abs h (fc_Rootfs c) = Ok p ∧ EvalSymlinks h p = Ok (Clean (fc_Rootfs c)).

Definition valid_network (c : FullConfig) : Prop :=
  lc_Networks (fc_linux c) ≠ [] ∨ lc_Routes (fc_linux c) ≠ [] → contains c NEWNET = true.

Definition valid_paths (c : FullConfig) : Prop :=
  (fc_Hostname c ≠ "" → contains c NEWUTS = true) ∧
  (lc_MaskPaths (fc_linux c) ≠ [] ∨ lc_ReadonlyPaths (fc_linux c) ≠ [] → contains c NEWNS = true) ∧
  (pc_ProcessLabel (fc_process c) ≠ "" → selinux_enabled h = true).

Definition valid_mappings (c : FullConfig) : Prop :=
  contains c NEWUSER = false → lc_UidMappings (fc_linux c) = [] ∧ lc_GidMappings (fc_linux c) = [].

Definition valid_kernel (c : FullConfig) : Prop :=
  (contains c NEWUSER = true → missing h "/proc/self/ns/user" = false) ∧
  (contains c NEWCGROUP = true → missing h "/proc/self/ns/cgroup" = false) ∧
  ∀ r, lc_IntelRdt (fc_linux c) = Some r →
    (IsCATEnabled h = true ∨ IsMBAEnabled h = true) ∧
    (IsCATEnabled h = true ↔ ir_L3CacheSchema r ≠ "") ∧ (IsMBAEnabled h = true ↔ ir_MemBwSchema r ≠ "").

Definition valid_sysctl (c : FullConfig) : Prop :=
  map_Forall (λ k _, namespaced c k) (lc_Sysctl (fc_linux c)).

(** A rootless container has mappings, and its mounts name mapped owners only. *)
Definition valid_rootless (c : FullConfig) : Prop :=
  fc_RootlessEUID c = true →
  contains c NEWUSER = true ∧ lc_UidMappings (fc_linux c) ≠ [] ∧ lc_GidMappings (fc_linux c) ≠ [] ∧
  ∀ m opt n, m ∈ fc_Mounts c → opt ∈ Split "," (mo_Data (mt_Options m)) →
    (id_option "uid=" opt = Some n → hasIDMapping n (lc_UidMappings (fc_linux c)) = true) ∧
    (id_option "gid=" opt = Some n → hasIDMapping n (lc_GidMappings (fc_linux c)) = true).

Definition valid (c : FullConfig) : Prop :=
  valid_rootfs c ∧ valid_network c ∧ valid_paths c ∧ valid_mappings c ∧ valid_kernel c ∧ valid_sysctl c ∧
  valid_rootless c.

(** A guard that refuses. *)
Lemma guard_ok (b : bool) (e : error) : (if b then Err e else Ok tt) = Ok tt ↔ b = false.
Proof. by destruct b. Qed.

Lemma seq_ok {A} (m : result ()) (k : result A) a : (do! m in k) = Ok a ↔ m = Ok tt ∧ k = Ok a.
Proof. destruct m as [[]| |]; simpl; naive_solver. Qed.

Lemma v_rootfs_ok c : v_rootfs h c = Ok tt ↔ valid_rootfs c.
Proof.
  unfold v_rootfs, valid_rootfs. destruct (os_Stat h (fc_Rootfs c)) as [e|].
  { split; [by destruct (IsNotExist e)|by intros []]. }
  split.
  - intros (p & Hp & (q & Hq & H)%rbind_ok)%rbind_ok. split; [done|]. exists p. split; [done|].
    by case_decide; [subst|].
  - intros (_ & p & -> & Hq). simpl. rewrite Hq. simpl. by rewrite decide_True.
Qed.

Lemma v_network_ok c : v_network c = Ok tt ↔ valid_network c.
Proof.
  unfold v_network, valid_network. rewrite guard_ok. destruct (contains c NEWNET); simpl; [naive_solver|].
  repeat case_bool_decide; simpl; naive_solver.
Qed.

Lemma v_hostname_ok c : v_hostname c = Ok tt ↔ (fc_Hostname c ≠ "" → contains c NEWUTS = true).
Proof.
  unfold v_hostname. rewrite guard_ok. case_bool_decide; destruct (contains c NEWUTS); simpl; naive_solver.
Qed.

Lemma v_security_ok c :
  v_security h c = Ok tt ↔
  (lc_MaskPaths (fc_linux c) ≠ [] ∨ lc_ReadonlyPaths (fc_linux c) ≠ [] → contains c NEWNS = true) ∧
  (pc_ProcessLabel (fc_process c) ≠ "" → selinux_enabled h = true).
Proof.
  unfold v_security.
  transitivity (((negb (bool_decide (lc_MaskPaths (fc_linux c) = []))
      || negb (bool_decide (lc_ReadonlyPaths (fc_linux c) = []))) && negb (contains c NEWNS) = false) ∧
    negb (bool_decide (pc_ProcessLabel (fc_process c) = "")) && negb (selinux_enabled h) = false).
  { destruct (_ && negb (contains c NEWNS)); [naive_solver|]. rewrite guard_ok. naive_solver. }
  f_equiv.
  - destruct (contains c NEWNS); simpl; [rewrite andb_false_r; naive_solver|].
    repeat case_bool_decide; simpl; naive_solver.
  - case_bool_decide; destruct (selinux_enabled h); simpl; naive_solver.
Qed.

Lemma v_usernamespace_ok c :
  v_usernamespace h c = Ok tt ↔
  valid_mappings c ∧ (contains c NEWUSER = true → missing h "/proc/self/ns/user" = false).
Proof.
  unfold v_usernamespace, valid_mappings. destruct (contains c NEWUSER).
  - rewrite guard_ok. naive_solver.
  - rewrite guard_ok. repeat case_bool_decide; simpl; naive_solver.
Qed.

Lemma v_cgroupnamespace_ok c :
  v_cgroupnamespace h c = Ok tt ↔ (contains c NEWCGROUP = true → missing h "/proc/self/ns/cgroup" = false).
Proof. unfold v_cgroupnamespace. rewrite guard_ok. destruct (contains c NEWCGROUP); simpl; naive_solver. Qed.

Lemma v_intelrdt_ok c :
  v_intelrdt h c = Ok tt ↔
  ∀ r, lc_IntelRdt (fc_linux c) = Some r →
    (IsCATEnabled h = true ∨ IsMBAEnabled h = true) ∧
    (IsCATEnabled h = true ↔ ir_L3CacheSchema r ≠ "") ∧ (IsMBAEnabled h = true ↔ ir_MemBwSchema r ≠ "").
Proof.
  unfold v_intelrdt. destruct (lc_IntelRdt (fc_linux c)) as [r|]; [|by split].
  transitivity ((IsCATEnabled h = true ∨ IsMBAEnabled h = true) ∧
    (IsCATEnabled h = true ↔ ir_L3CacheSchema r ≠ "") ∧ (IsMBAEnabled h = true ↔ ir_MemBwSchema r ≠ "")).
  - destruct (IsCATEnabled h), (IsMBAEnabled h); simpl; repeat case_bool_decide; simpl; naive_solver.
  - split; [by intros ? ? [= <-]|eauto].
Qed.

Lemma hostnet_ok c : hostnet h c = Ok false ↔ private_net c.
Proof.
  unfold hostnet, private_net, isHostNetNS. destruct (contains c NEWNET); simpl; [|naive_solver].
  case_decide as Hp; [naive_solver|]. split.
  - intros (a & Ha%wrap_err_ok & (b & Hb%wrap_err_ok & [= Hne])%rbind_ok)%rbind_ok. split; [done|right].
    exists a, b. split; [done|]. split; [done|]. intros ->. by rewrite !Z.eqb_refl in Hne.
  - intros [_ [?|(a & b & Ha & Hb & Hne)]]; [done|]. rewrite Ha, Hb. simpl. f_equal.
    destruct a as [a1 a2], b as [b1 b2]; simpl. destruct (Z.eqb_spec a1 b1), (Z.eqb_spec a2 b2); [congruence|done..].
Qed.

(** The three kinds of parameters exclude each other. *)
Lemma net_not_ipc s :
  HasPrefix s "net." = true → bool_decide (s ∈ validSysctlMap) || HasPrefix s "fs.mqueue." = false.
Proof.
  destruct s as [|c s]; [done|]. simpl. intros [Hc _]%andb_true_iff. bool_to_prop. subst c.
  rewrite orb_false_r. apply bool_decide_eq_false. unfold validSysctlMap.
  rewrite !not_elem_of_cons. split_and!; [done..|]. apply not_elem_of_nil.
Qed.

Lemma sysctl_key_ok c s : sysctl_key h c s = Ok tt ↔ namespaced c s.
Proof.
  unfold sysctl_key, namespaced.
  destruct (bool_decide (s ∈ validSysctlMap) || HasPrefix s "fs.mqueue.") eqn:Ei.
  { assert (HasPrefix s "net." = false) as Hn.
    { destruct (HasPrefix s "net.") eqn:E; [|done]. by rewrite net_not_ipc in Ei. }
    assert (s ∈ validSysctlMap ∨ HasPrefix s "fs.mqueue." = true) as Hs by (bool_to_prop; destruct Ei; bool_to_prop; auto).
    destruct (contains c NEWIPC); [naive_solver|]. split; [done|].
    intros [[_ ?]|[[? _]|[-> _]]]; [done|congruence|by vm_compute in Ei]. }
  bool_to_prop.
  destruct (HasPrefix s "net.") eqn:En.
  { rewrite rbind_ok. split.
    - intros (b & Hb & Hk). destruct b; [done|]. right; left. split; [done|]. by apply hostnet_ok.
    - intros [[[?|?] _]|[[_ Hp]|[-> _]]]; [done|congruence| |by vm_compute in En].
      exists false. split; [by apply hostnet_ok|done]. }
  destruct (contains c NEWUTS); simpl.
  - destruct (decide (s = "kernel.domainname")); [rewrite bool_decide_eq_true_2 by done; naive_solver|].
    rewrite bool_decide_eq_false_2 by done. split; [by case_bool_decide|].
    intros [[[?|?] _]|[[? _]|[? ?]]]; congruence.
  - split; [done|]. intros [[[?|?] _]|[[? _]|[? ?]]]; congruence.
Qed.

Lemma sysctl_loop_ok c keys : sysctl_loop h c keys = Ok tt ↔ Forall (namespaced c) keys.
Proof.
  induction keys as [|s keys IH]; simpl; [by split|]. by rewrite seq_ok, sysctl_key_ok, Forall_cons, IH.
Qed.

Lemma v_sysctl_ok c : v_sysctl h c = Ok tt ↔ valid_sysctl c.
Proof.
  unfold v_sysctl, valid_sysctl. rewrite sysctl_loop_ok, Forall_fmap, map_Forall_to_list.
  by apply Forall_proper; [intros []|].
Qed.

Lemma HasPrefix_disjoint s : HasPrefix s "uid=" = true → HasPrefix s "gid=" = true → False.
Proof. destruct s as [|c s]; simpl; [done|]. intros H1 H2. bool_to_prop. congruence. Qed.

Lemma mount_data_option_ok c opt :
  mount_data_option c opt = Ok tt ↔
  ∀ n, (id_option "uid=" opt = Some n → hasIDMapping n (lc_UidMappings (fc_linux c)) = true) ∧
       (id_option "gid=" opt = Some n → hasIDMapping n (lc_GidMappings (fc_linux c)) = true).
Proof.
  unfold mount_data_option.
  destruct (id_option "uid=" opt) as [u|] eqn:Eu.
  - assert (id_option "gid=" opt = None) as Eg.
    { unfold id_option in *. destruct (HasPrefix opt "uid=") eqn:E1; [|done].
      destruct (HasPrefix opt "gid=") eqn:E2; [|done]. by destruct (HasPrefix_disjoint opt). }
    rewrite Eg. destruct (hasIDMapping u _) eqn:E; [split; [|done]; naive_solver|].
    split; [done|]. intros H. destruct (H u) as [H' _]. by rewrite H' in E.
  - destruct (id_option "gid=" opt) as [g|]; [|naive_solver].
    destruct (hasIDMapping g _) eqn:E; [split; [|done]; naive_solver|].
    split; [done|]. intros H. destruct (H g) as [_ H']. by rewrite H' in E.
Qed.

Lemma data_loop_ok c opts : data_loop c opts = Ok tt ↔ ∀ opt, opt ∈ opts → mount_data_option c opt = Ok tt.
Proof.
  induction opts as [|o opts IH]; simpl; [split; [set_solver|done]|]. rewrite seq_ok, IH. set_solver.
Qed.

Lemma v_rootless_ok c : (if fc_RootlessEUID c then rootlessEUID c else Ok tt) = Ok tt ↔ valid_rootless c.
Proof.
  unfold valid_rootless, rootlessEUID, rootlessEUIDMappings, rootlessEUIDMount.
  destruct (fc_RootlessEUID c); [|by split].
  rewrite !seq_ok, data_loop_ok. setoid_rewrite mount_data_option_ok.
  setoid_rewrite list_elem_of_join. setoid_rewrite list_elem_of_fmap.
  assert (∀ P : Prop, (if negb (contains c NEWUSER) then Err (ErrNew "rootless container requires user namespaces")
    else if decide (lc_UidMappings (fc_linux c) = [])
    then Err (ErrNew "rootless containers requires at least one UID mapping")
    else if decide (lc_GidMappings (fc_linux c) = [])
    then Err (ErrNew "rootless containers requires at least one GID mapping") else Ok tt) = Ok tt ∧ P ↔
    contains c NEWUSER = true ∧ lc_UidMappings (fc_linux c) ≠ [] ∧ lc_GidMappings (fc_linux c) ≠ [] ∧ P) as Hg.
  { intros P. destruct (contains c NEWUSER); simpl; [|by split; intros []]. repeat case_decide; naive_solver. }
  rewrite Hg. split.
  - intros (Hn & Hu & Hg' & H) _. split_and!; [done..|]. intros m opt n Hm Ho. apply H. eexists; eauto.
  - intros H. destruct H as (Hn & Hu & Hg' & H); [done|]. split_and!; [done..|].
    intros opt (l & Ho & m & -> & Hm) n. by eapply H.
Qed.

(** C14. A configuration passes validation exactly when: its root is there and is an absolute
    path free of symbolic links; what it wants of the network, the host name, masked paths,
    mappings and cgroups comes with the namespace it needs; every kernel parameter belongs
    to a namespace of the container; Intel RDT is set for what the host has; and a rootless
    container has mappings that cover the owners its mounts name. *)
Theorem Validate_ok_iff c : Validate h c = Ok tt ↔ valid c.
Proof.
  unfold Validate, valid. rewrite !seq_ok, v_rootfs_ok, v_network_ok, v_hostname_ok, v_security_ok,
    v_usernamespace_ok, v_cgroupnamespace_ok, v_sysctl_ok, v_intelrdt_ok, v_rootless_ok.
  unfold valid_kernel, valid_paths. tauto.
Qed.

(** The order in which the map of kernel parameters is walked decides which error is
    reported, and nothing else. *)
Lemma sysctl_order c keys keys' :
  keys ≡ₚ keys' → sysctl_loop h c keys = Ok tt ↔ sysctl_loop h c keys' = Ok tt.
Proof. intros Hk. by rewrite !sysctl_loop_ok, Hk. Qed.

(** [hasIDMapping] is whether [config_linux.go] finds a host id. *)
Lemma hasIDMapping_host id ms :
  Forall (λ m, - 2 ^ 63 < im_ContainerID m + im_Size m < 2 ^ 63) ms →
  hasIDMapping id ms = bool_decide (is_Some (hostIDFromMapping id ms)).
Proof.
  intros Hms. unfold hostIDFromMapping. induction Hms as [|m ms Hm _ IH]; [done|]. simpl. rewrite IH.
  rewrite !wraps_small by lia.
  destruct (decide (im_ContainerID m ≤ id ∧ id ≤ im_ContainerID m + im_Size m - 1)) as [H|H].
  - rewrite (bool_decide_eq_true_2 (is_Some (Some _))) by by eexists. apply orb_true_iff. left. apply andb_true_iff.
    rewrite Z.leb_le, Z.ltb_lt. lia.
  - destruct (Z.leb_spec (im_ContainerID m) id), (Z.ltb_spec id (im_ContainerID m + im_Size m)); simpl; try lia;
      by destruct (list_find _ ms) as [[]|].
Qed.
End Valid.
