(* ===== verification/SpecConvSpec.v ===== *)
(** * What the conversion of a spec promises *)

From S2P Require Import InitChild DeviceFilter.
From S2P Require Import Prelude GoStd GoMonad DeviceRules Container Rootfs SpecConv Validate.

(** ** Mount options *)

(** The tables are large: they are only looked into by evaluation. *)
#[local] Opaque flag_of pgflag_of.

(** What an option says of bit [b] of a set of flags. *)
Definition setting (table : gmap string (bool * Z)) (b : Z) (o : string) : option bool :=
  match flag_of table o with
  | Some (clear, f) => if Z.testbit f b then Some (negb clear) else None
  | None => None
  end.

(** The kinds of options, in the order in which they are recognised. *)
Definition is_flag (o : string) : Prop := is_Some (flag_of mount_flags o).
Definition propagation (o : string) : option Z := if decide (is_flag o) then None else pgflag_of o.
Definition extension (b : Z) (o : string) : option bool :=
  if decide (is_flag o) then None
  else match pgflag_of o with Some _ => None | None => setting extensionFlags b o end.
Definition is_data (o : string) : Prop :=
  ¬ is_flag o ∧ pgflag_of o = None ∧ flag_of extensionFlags o = None.

#[export] Instance is_data_dec o : Decision (is_data o).
Proof. unfold is_data, is_flag. apply _. Defined.

(** The last option that says something of a bit decides it. *)
Definition last_word (say : string → option bool) (dflt : bool) (options : list string) : bool :=
  default dflt (last (omap say options)).

Lemma last_word_cons say d o os : last_word say d (o :: os) = last_word say (default d (say o)) os.
Proof.
  unfold last_word. csimpl. destruct (say o) as [b|]; [|done]. rewrite last_cons. by destruct (last _).
Qed.

Lemma apply_flag_bit flag clear f b :
  Z.testbit (apply_flag flag (clear, f)) b
  = default (Z.testbit flag b) (if Z.testbit f b then Some (negb clear) else None).
Proof.
  unfold apply_flag; simpl. destruct clear; rewrite ?Z.ldiff_spec, ?Z.lor_spec; destruct (Z.testbit f b); simpl;
    by rewrite ?andb_true_r, ?andb_false_r, ?orb_true_r, ?orb_false_r.
Qed.

Lemma mount_option_bits st o b :
  Z.testbit (po_flag (mount_option st o)) b = default (Z.testbit (po_flag st) b) (setting mount_flags b o) ∧
  Z.testbit (po_ext (mount_option st o)) b = default (Z.testbit (po_ext st) b) (extension b o).
Proof.
  destruct st as [flag pg data ext]. unfold mount_option, extension.
  destruct (decide (is_flag o)) as [[[clear f] Hf]|Hf].
  { rewrite Hf. simpl. unfold setting. rewrite Hf. by rewrite apply_flag_bit. }
  assert (flag_of mount_flags o = None) as Hn by by apply eq_None_not_Some.
  unfold setting at 1. rewrite Hn. destruct (pgflag_of o); simpl; [done|].
  unfold setting. destruct (flag_of extensionFlags o) as [[clear f]|]; simpl; [|done]. by rewrite apply_flag_bit.
Qed.

Lemma mount_option_lists st o :
  po_pgflag (mount_option st o) = po_pgflag st ++ option_list (propagation o) ∧
  po_data (mount_option st o) = po_data st ++ filter is_data [o].
Proof.
  destruct st as [flag pg data ext]. unfold mount_option, propagation. rewrite filter_cons, filter_nil.
  destruct (decide (is_flag o)) as [Hf|Hf].
  { rewrite decide_False by by intros []. destruct Hf as [f ->]. simpl. by rewrite !app_nil_r. }
  assert (flag_of mount_flags o = None) as -> by by apply eq_None_not_Some.
  destruct (pgflag_of o) as [p|] eqn:Ep; simpl.
  { rewrite decide_False, app_nil_r; [done|]. intros (_ & ? & _). congruence. }
  destruct (flag_of extensionFlags o) as [x|] eqn:Ex; simpl.
  - rewrite decide_False, !app_nil_r; [done|]. intros (_ & _ & ?). congruence.
  - by rewrite decide_True, app_nil_r.
Qed.

Lemma mount_options_fold options st b :
  let st' := foldl mount_option st options in
  Z.testbit (po_flag st') b = last_word (setting mount_flags b) (Z.testbit (po_flag st) b) options ∧
  Z.testbit (po_ext st') b = last_word (extension b) (Z.testbit (po_ext st) b) options ∧
  po_pgflag st' = po_pgflag st ++ omap propagation options ∧ po_data st' = po_data st ++ filter is_data options.
Proof.
  revert st; induction options as [|o os IH]; intros st; [by rewrite !app_nil_r|].
  destruct (mount_option_bits st o b) as [H1 H2], (mount_option_lists st o) as [H3 H4].
  destruct (IH (mount_option st o)) as (I1 & I2 & I3 & I4). rewrite !last_word_cons, <- H1, <- H2.
  split; [exact I1|]. split; [exact I2|].
  change (foldl mount_option st (o :: os)) with (foldl mount_option (mount_option st o) os).
  rewrite I3, I4, H3, H4. rewrite filter_cons, filter_cons, filter_nil. csimpl. split.
  - rewrite <- app_assoc. f_equal. by destruct (propagation o).
  - rewrite <- app_assoc. by destruct (decide (is_data o)).
Qed.

(** C27. Every bit of the mount flags, and of the extension flags, is what the last option
    that speaks of it says, and unset if none does; the propagation flags come one to an
    option, in their order; every other option is data for the file system. *)
Theorem parseMountOptions_spec options flag pgflag data ext :
  parseMountOptions options = (flag, pgflag, data, ext) →
  (∀ b, Z.testbit flag b = last_word (setting mount_flags b) false options) ∧
  (∀ b, Z.testbit ext b = last_word (extension b) false options) ∧
  pgflag = omap propagation options ∧ data = Join "," (filter is_data options).
Proof.
  unfold parseMountOptions. destruct (foldl _ _ options) as [f p d e] eqn:E. intros [= <- <- <- <-].
  assert (∀ b, _) as Hf by exact (mount_options_fold options (mk_mount_opts 0 [] [] 0)).
  rewrite E in Hf. simpl in Hf. split_and!.
  - intros b. rewrite (proj1 (Hf b)). by rewrite Z.bits_0.
  - intros b. rewrite (proj1 (proj2 (Hf b))). by rewrite Z.bits_0.
  - apply (Hf 0).
  - f_equal. apply (Hf 0).
Qed.

Lemma parseMountOptions_spec_witness :
  let '(flag, pgflag, data, ext) := parseMountOptions ["ro"; "nosuid"; "rslave"; "size=64m"; "rw"; "tmpcopyup"; "mode=755"] in
  (∀ b, Z.testbit flag b =
        last_word (setting mount_flags b) false ["ro"; "nosuid"; "rslave"; "size=64m"; "rw"; "tmpcopyup"; "mode=755"]) ∧
  flag = MS_NOSUID ∧ pgflag = [Z.lor MS_SLAVE MS_REC] ∧ data = "size=64m,mode=755" ∧ ext = EXT_COPYUP.
Proof.
  destruct (parseMountOptions _) as [[[flag pgflag] data] ext] eqn:E.
  pose proof (parseMountOptions_spec _ _ _ _ _ E) as (Hf & _).
  split; [exact Hf|]. vm_compute in E. by simplify_eq.
Defined.

(** The option [defaults] is in the table of flags, but with no flag: it is handed to the
    file system as data, which not every file system takes. *)
Lemma defaults_is_data : parseMountOptions ["defaults"; "ro"] = (MS_RDONLY, [], "defaults", 0).
Proof. by vm_compute. Qed.

(** ** The shared table of devices *)

(** A device in the store that is, up to its owner, a given one. *)
Definition same_device (d d' : Device) : Prop := dev_path d' = dev_path d ∧ dev_rule d' = dev_rule d.
Definition holds (s : list Device) (p : nat) (d : Device) : Prop := ∃ d', s !! p = Some d' ∧ same_device d d'.

(** The store starts with the global table; owners may have changed. *)
Definition table (s : list Device) : Prop := ∀ p d, AllowedDevices !! p = Some d → holds s p d.

Abbreviation Store A := (M (list Device) A).

(** Does the container get a default device? *)
Definition kept (l : Linux) (e : nat * Device) : Prop :=
  dev_path (snd e) = "" ∨ dev_path (snd e) ∉ (ld_Path <$> li_Devices l).
#[export] Instance kept_dec l e : Decision (kept l e).
Proof. unfold kept. apply _. Defined.
Definition kept_node (l : Linux) (e : nat * Device) : Prop := kept l e ∧ dev_path (snd e) ≠ "".
#[export] Instance kept_node_dec l e : Decision (kept_node l e).
Proof. unfold kept_node. apply _. Defined.

Definition default_entries : list (nat * Device) := imap pair AllowedDevices.
#[local] Arguments default_entries : simpl never.

Lemma holds_mono s s' p d : s !! p = s' !! p → holds s p d → holds s' p d.
Proof. intros Hp (d' & Hd & H). exists d'. by rewrite <- Hp. Qed.

Lemma load_run s p d : s !! p = Some d → load p s = (Ok d, s).
Proof. unfold load. by intros ->. Qed.

Lemma load_ok_inv s p d s' : load p s = (Ok d, s') → s !! p = Some d ∧ s' = s.
Proof. unfold load. by destruct (s !! p); intros; simplify_eq. Qed.

Lemma lift_ok_inv {S A} (r : result A) (s : S) a s' : lift r s = (Ok a, s') → r = Ok a ∧ s' = s.
Proof. unfold lift. by intros; simplify_eq. Qed.

Ltac inv_store :=
  repeat (inv_run; match goal with
  | H : lift _ _ = (Ok _, _) |- _ => apply lift_ok_inv in H as [? ->]
  | H : load _ _ = (Ok _, _) |- _ => apply load_ok_inv in H as [? ->]
  end); inv_run.

Lemma keeps_default_run l d' p d :
  dev_path d' = dev_path d → keeps_default (Some l) d' = Ok (bool_decide (kept l (p, d))).
Proof.
  intros Hd. unfold keeps_default. rewrite Hd. case_decide as He.
  { rewrite bool_decide_eq_true_2; [done|by left]. }
  f_equal. apply eq_true_iff_eq. rewrite bool_decide_eq_true, negb_true_iff, <- not_true_iff_false, existsb_exists.
  unfold kept; simpl. setoid_rewrite bool_decide_eq_true. rewrite list_elem_of_fmap.
  setoid_rewrite <- list_elem_of_In. naive_solver.
Qed.

Lemma default_devices_run l es s ded devs :
  Forall (λ e, holds s (fst e) (snd e)) es →
  default_devices (Some l) es.*1 ded devs s
  = (Ok (ded ++ (filter (kept l) es).*1, devs ++ (filter (kept_node l) es).*1), s).
Proof.
  intros Hes. revert ded devs. induction Hes as [|[p d] es (d' & Hp & Hpath & _) _ IH]; intros ded devs.
  { by rewrite !app_nil_r. }
  simpl in Hp, Hpath. csimpl. rewrite (bind_ok _ _ _ _ _ (load_run _ _ _ Hp)).
  unfold lift at 1, bind at 1. rewrite (keeps_default_run _ _ p d Hpath), !filter_cons. unfold kept_node at 1.
  case_bool_decide as Hk; simpl.
  - rewrite (decide_True (P := kept l (p, d))) by done. rewrite IH, Hpath.
    destruct (decide (dev_path d = "")) as [He|He].
    + rewrite decide_False by by intros []. csimpl. by rewrite <- !app_assoc.
    + rewrite decide_True by done. csimpl. by rewrite <- !app_assoc.
  - rewrite (decide_False (P := kept l (p, d))) by done. rewrite decide_False by by intros []. apply IH.
Qed.

Lemma default_entries_fst : default_entries.*1 = AllowedDevices_refs.
Proof. done. Qed.

Lemma table_entries s : table s → Forall (λ e, holds s (fst e) (snd e)) default_entries.
Proof.
  intros Hs. apply Forall_forall. intros [p d] Hpd%list_elem_of_lookup_1. destruct Hpd as [i Hi].
  unfold default_entries in Hi. rewrite list_lookup_imap in Hi.
  destruct (AllowedDevices !! i) eqn:E; simplify_eq/=. by apply Hs.
Qed.

Lemma add_devices_ok ds devs s devs' s' :
  add_devices ds devs s = (Ok devs', s') →
  ∃ news, Forall2 (λ d n, spec_device d = Ok n) ds news ∧ s' = s ++ news ∧
          devs' = devs ++ seq (length s) (length ds).
Proof.
  revert devs s. induction ds as [|d ds IH]; intros devs s H.
  { simpl in H. unfold ret in H. simplify_eq. exists []. by rewrite !app_nil_r. }
  simpl in H. inv_store. unfold alloc in *. simplify_eq.
  destruct (IH _ _ H) as (news & Hn & -> & ->). exists (x :: news). split; [by constructor|].
  rewrite <- !app_assoc. split; [done|]. rewrite length_app. simpl. by rewrite Nat.add_1_r.
Qed.

(** The rules of the table, read through pointers. *)
Lemma load_rules_run s es :
  Forall (λ e, holds s (fst e) (snd e)) es → load_rules es.*1 s = (Ok (dev_rule <$> es.*2), s).
Proof.
  induction 1 as [|[p d] es (d' & Hp & _ & Hr) _ IH]; [done|]. csimpl.
  rewrite (bind_ok _ _ _ _ _ (load_run _ _ _ Hp)), (bind_ok _ _ _ _ _ IH). simpl. by rewrite Hr.
Qed.

(** A computation that leaves the table alone, but for the owners. *)
Definition keeps_table {A} (m : Store A) : Prop := ∀ s, table s → table (m s).2.

Lemma keeps_ret {A} (a : A) : keeps_table (ret a).
Proof. by intros s ?. Qed.
Lemma keeps_throw {A} e : keeps_table (throw (A := A) e).
Proof. by intros s ?. Qed.
Lemma keeps_lift {A} (r : result A) : keeps_table (lift r).
Proof. by intros s ?. Qed.
Lemma keeps_load p : keeps_table (load p).
Proof. intros s Hs. unfold load. by destruct (s !! p). Qed.
Lemma keeps_alloc d : keeps_table (alloc d).
Proof.
  intros s Hs p x Hx. destruct (Hs p x Hx) as (d' & Hd & H). exists d'. split; [|done]. simpl.
  by apply lookup_app_l_Some.
Qed.
Lemma table_bind {A B} (m : Store A) (k : A → Store B) :
  keeps_table m → (∀ a, keeps_table (k a)) → keeps_table (bind m k).
Proof.
  intros Hm Hk s Hs. unfold bind. specialize (Hm s Hs). destruct (m s) as [[a|e|x] s1]; [by apply Hk|done..].
Qed.
Lemma keeps_for_each {A} (f : A → Store ()) l : (∀ x, keeps_table (f x)) → keeps_table (for_each f l).
Proof. intros Hf. induction l; simpl; [apply keeps_ret|by apply table_bind]. Qed.

Lemma keeps_chown u g p : keeps_table (chown_device u g p).
Proof.
  intros s Hs. unfold chown_device, load, store, bind, modify. destruct (s !! p) as [d|] eqn:E; [|done]. simpl.
  intros q x Hx. destruct (Hs q x Hx) as (d' & Hd & Hsame). destruct (decide (p = q)) as [<-|Hne].
  - simplify_eq. eexists. rewrite list_lookup_insert_eq by by eapply lookup_lt_Some. split; [done|]. exact Hsame.
  - exists d'. by rewrite list_lookup_insert_ne.
Qed.

Create HintDb keeps discriminated.
#[export] Hint Resolve keeps_ret keeps_throw keeps_lift keeps_load keeps_alloc keeps_chown : keeps.

Ltac keeps_step :=
  match goal with
  | |- ∀ _, _ => intros ?
  | |- keeps_table (bind _ _) => apply table_bind
  | |- keeps_table (for_each _ _) => apply keeps_for_each
  | |- keeps_table (if ?x then _ else _) => destruct x
  | |- keeps_table (match ?x with _ => _ end) => destruct x
  | |- keeps_table _ => solve [eauto with keeps]
  end.
Ltac keeps := repeat keeps_step.

Section Conversion.
Context (ParseVariant : string → result Variant).

(** The nodes a container gets, for a store of the given size. *)
Definition nodes_of (l : Linux) (size : nat) : list nat :=
  (filter (kept_node l) default_entries).*1 ++ seq size (length (li_Devices l)).

Lemma holds_app s news p d : holds s p d → holds (s ++ news) p d.
Proof. intros (d' & Hd & H). exists d'. split; [by apply lookup_app_l_Some|done]. Qed.

Lemma createDevices_ok spec s l r s' :
  table s → spec_Linux spec = Some l → createDevices spec s = (Ok r, s') →
  r = ((filter (kept l) default_entries).*1, nodes_of l (length s)) ∧
  ∃ news, Forall2 (λ d n, spec_device d = Ok n) (li_Devices l) news ∧ s' = s ++ news.
Proof.
  intros Hs Hl. unfold createDevices. rewrite Hl, <- default_entries_fst.
  rewrite (bind_ok _ _ _ _ _ (default_devices_run l _ s [] [] (table_entries s Hs))). simpl.
  intros H. inv_store. match goal with H : add_devices _ _ _ = _ |- _ => apply add_devices_ok in H as (news & Hn & -> & ->) end.
  split; [done|]. by exists news.
Qed.

Lemma default_devices_none p refs ded devs s d :
  s !! p = Some d →
  default_devices None (p :: refs) ded devs s
  = if decide (dev_path d = "") then default_devices None refs (ded ++ [p]) devs s
    else (Panic "nil pointer dereference", s).
Proof.
  intros Hd. cbn [default_devices]. rewrite (bind_ok _ _ _ _ _ (load_run _ _ _ Hd)).
  unfold keeps_default. case_decide as He; [|done].
  by rewrite (bind_ok _ _ s true s).
Qed.

(** Without a Linux section there is no result. *)
Lemma createDevices_none spec s : table s → spec_Linux spec = None → ∃ x, createDevices spec s = (Panic x, s).
Proof.
  intros Hs Hl. unfold createDevices. rewrite Hl.
  destruct (Hs 0%nat _ eq_refl) as (d0 & H0 & P0 & _), (Hs 1%nat _ eq_refl) as (d1 & H1 & P1 & _),
    (Hs 2%nat _ eq_refl) as (d2 & H2 & P2 & _).
  change AllowedDevices_refs with (0 :: 1 :: 2 :: drop 3 AllowedDevices_refs)%nat.
  assert (∀ ded devs, default_devices None (0 :: 1 :: 2 :: drop 3 AllowedDevices_refs)%nat ded devs s
                      = (Panic "nil pointer dereference", s)) as Hp.
  { intros ded devs. rewrite (default_devices_none _ _ _ _ _ _ H0), decide_True by done.
    rewrite (default_devices_none _ _ _ _ _ _ H1), decide_True by done.
    rewrite (default_devices_none _ _ _ _ _ _ H2), decide_False; [done|]. by rewrite P2. }
  unfold bind. rewrite Hp. by eexists.
Qed.

Lemma chown_ok u g p s s' :
  chown_device u g p s = (Ok tt, s') →
  ∃ d, s !! p = Some d ∧ s' = <[p := mk_Device (dev_rule d) (dev_path d) (dev_mode d) (u32 u) (u32 g)]> s.
Proof.
  unfold chown_device. intros H. inv_store. unfold store, modify in *. simplify_eq. by eexists.
Qed.

Definition owned (u g : Z) (d : Device) : Prop := dev_uid d = u32 u ∧ dev_gid d = u32 g.

Lemma chowns_ok u g ps s s' :
  for_each (chown_device u g) ps s = (Ok tt, s') →
  length s' = length s ∧
  (∀ p d, s !! p = Some d → ∃ d', s' !! p = Some d' ∧ same_device d d' ∧ (d' = d ∨ owned u g d')) ∧
  ∀ p, p ∈ ps → ∃ d', s' !! p = Some d' ∧ owned u g d'.
Proof.
  revert s. induction ps as [|p ps IH]; intros s H; simpl in H.
  { unfold ret in H. simplify_eq. split; [done|]. split; [|intros p Hp; by apply elem_of_nil in Hp].
    intros p d Hd. exists d. split; [done|]. split; [done|by left]. }
  inv_store. destruct x. match goal with H : chown_device _ _ _ _ = _ |- _ => apply chown_ok in H as (d & Hd & ->) end.
  destruct (IH _ H) as (Hlen & Hall & Hown). rewrite length_insert in Hlen. split; [done|]. split.
  - intros q dq Hq. destruct (decide (p = q)) as [<-|Hne].
    + simplify_eq. destruct (Hall p _ (list_lookup_insert_eq _ _ _ (lookup_lt_Some _ _ _ Hd))) as (d' & Hd' & Hs & Ho).
      exists d'. split; [done|]. split; [exact Hs|right]. destruct Ho as [->|?]; [done|done].
    + apply Hall. by rewrite list_lookup_insert_ne.
  - intros q [->|Hq]%elem_of_cons; [|by apply Hown].
    destruct (Hall p _ (list_lookup_insert_eq _ _ _ (lookup_lt_Some _ _ _ Hd))) as (d' & Hd' & _ & Ho).
    exists d'. split; [done|]. by destruct Ho as [->|?].
Qed.

(** What a Linux section becomes. *)
Record linux_result (opts : CreateOpts) (l : Linux) (devs : list nat) (s : list Device) (lc : LinuxConfig)
    (s' : list Device) : Prop := {
  lr_namespaces : foldM add_namespace [] (li_Namespaces l) = Ok (lc_Namespaces lc);
  lr_networks : lc_Networks lc = if ns_Contains (lc_Namespaces lc) NEWNET
                   && bool_decide (ns_PathOf (lc_Namespaces lc) NEWNET = "") then [loopback] else [];
  lr_routes : lc_Routes lc = [];
  lr_pivot : op_NoPivotRoot opts = true → Z.land (lc_RootPropagation lc) MS_PRIVATE = 0;
  lr_user : ns_Contains (lc_Namespaces lc) NEWUSER = true →
    ∃ ru rg, HostUID (ids_config (lc_Namespaces lc) (lc_UidMappings lc) (lc_GidMappings lc)) 0 = Ok ru ∧
             HostGID (ids_config (lc_Namespaces lc) (lc_UidMappings lc) (lc_GidMappings lc)) 0 = Ok rg ∧
             for_each (chown_device ru rg) devs s = (Ok tt, s');
  lr_no_user : ns_Contains (lc_Namespaces lc) NEWUSER = false →
    lc_UidMappings lc = [] ∧ lc_GidMappings lc = [] ∧ s' = s
}.

Lemma linux_config_ok opts l devs s lc s' :
  linux_config opts l devs s = (Ok lc, s') → linux_result opts l devs s lc s'.
Proof.
  unfold linux_config. destruct (mountPropagationMapping !! _) as [propagation'|]; [|done].
  destruct (op_NoPivotRoot opts && negb _) eqn:Ep; [done|]. intros H. inv_store.
  assert (op_NoPivotRoot opts = true → Z.land propagation' MS_PRIVATE = 0) as Hp.
  { intros Hn. rewrite Hn in Ep. simpl in Ep. bool_to_prop. done. }
  destruct (ns_Contains x NEWUSER) eqn:Eu.
  - unfold setupUserNamespace in *. inv_store. match goal with H : for_each _ _ _ = (Ok ?t, _) |- _ => destruct t end.
    split; simpl; try done; [by eauto|congruence].
  - inv_store. split; simpl; try done. congruence.
Qed.

(** What a successful conversion went through. *)
Lemma conversion_ok getwd opts s c s' :
  table s → CreateLibcontainerConfig ParseVariant getwd opts s = (Ok c, s') →
  ∃ rcwd path ro l news,
    getwd = Ok rcwd ∧ spec_Root (op_Spec opts) = Some (path, ro) ∧ spec_Linux (op_Spec opts) = Some l ∧
    fc_Rootfs c = (if IsAbs path then path else path_Join (Clean rcwd) path) ∧
    fc_NoPivotRoot c = op_NoPivotRoot opts ∧ fc_Labels c = labels_of (Clean rcwd) (spec_Annotations (op_Spec opts)) ∧
    Forall2 (λ d n, spec_device d = Ok n) (li_Devices l) news ∧ fc_Devices c = nodes_of l (length s) ∧
    CreateCgroupConfig ParseVariant opts (dev_rule <$> (filter (kept l) default_entries).*2) = Ok (fc_Cgroups c) ∧
    linux_result opts l (fc_Devices c) (s ++ news) (fc_linux c) s'.
Proof.
  intros Hs. unfold CreateLibcontainerConfig. intros H. inv_store.
  destruct (spec_Root (op_Spec opts)) as [[path ro]|]; [|done].
  destruct (spec_Linux (op_Spec opts)) as [l|] eqn:El.
  2: { inv_store. destruct (createDevices_none (op_Spec opts) s Hs El) as [y Hy]. congruence. }
  inv_store. match goal with H : createDevices _ _ = _ |- _ => apply (createDevices_ok _ _ l) in H as [-> (news & Hn & ->)]; [|done..] end.
  inv_store. rewrite load_rules_run in *.
  2: { apply Forall_forall. intros e [_ He]%list_elem_of_filter. apply holds_app. revert e He.
       by apply Forall_forall, table_entries. }
  simplify_eq. match goal with H : linux_config _ _ _ _ = _ |- _ => apply linux_config_ok in H end.
  do 5 eexists. split_and!; try done.
Qed.
End Conversion.

(** ** What a converted configuration satisfies *)

Definition namespace_of (n : LinuxNamespace) (ns : Namespace) : Prop :=
  namespaceMapping !! ln_Type n = Some (ns_Type ns) ∧ ns_Path ns = ln_Path n.

Lemma contains_not_in nss t : ns_Contains nss t = false → t ∉ (ns_Type <$> nss).
Proof. unfold ns_Contains. intros H. bool_to_prop. apply ns_index_None. by apply eq_None_not_Some. Qed.

Lemma ns_Add_new nss t path : ns_Contains nss t = false → ns_Add nss t path = nss ++ [mk_Namespace t path].
Proof. intros H%contains_not_in%ns_index_None. unfold ns_Add. by rewrite H. Qed.

Lemma add_namespaces_ok lns done nss r :
  foldM add_namespace nss lns = Ok r → Forall2 namespace_of done nss → NoDup (ns_Type <$> nss) →
  Forall2 namespace_of (done ++ lns) r ∧ NoDup (ns_Type <$> r).
Proof.
  revert done nss. induction lns as [|n lns IH]; intros done nss H Hd Hnd.
  { simpl in H. simplify_eq. by rewrite app_nil_r. }
  simpl in H. apply rbind_ok in H as (nss' & H1 & H2). unfold add_namespace in H1.
  destruct (namespaceMapping !! ln_Type n) as [t|] eqn:Et; [|done].
  destruct (ns_Contains nss t) eqn:Ec; [done|]. rewrite ns_Add_new in H1 by done. simplify_eq.
  change (n :: lns) with ([n] ++ lns). rewrite app_assoc. eapply IH; [done|..].
  - apply Forall2_app; [done|]. by repeat constructor.
  - rewrite fmap_app. apply NoDup_app. split; [done|]. split; [|by repeat constructor; set_solver].
    simpl. intros x Hx ->%list_elem_of_singleton. by apply contains_not_in in Ec.
Qed.

Lemma HasPrefix_slash s : HasPrefix (String "/" s) "/" = true.
Proof. by destruct s. Qed.

Lemma Clean_abs p : IsAbs p = true → IsAbs (Clean p) = true.
Proof.
  unfold IsAbs. intros H. unfold Clean. rewrite (bool_decide_eq_false_2 (p = "")); [|by intros ->]. rewrite H. apply HasPrefix_slash.
Qed.

Lemma path_Join_abs a b : IsAbs a = true → IsAbs (path_Join a b) = true.
Proof.
  intros H. unfold path_Join. rewrite (bool_decide_eq_true_2 (a ≠ "")); [|intros ->; discriminate H]. apply Clean_abs.
  unfold IsAbs in *. destruct a as [|c a]; [done|]. simpl in H. apply andb_true_iff in H as [Hc _].
  bool_to_prop. subst c. apply HasPrefix_slash.
Qed.

Section Promises.
Context (ParseVariant : string → result Variant) (getwd : result string) (opts : CreateOpts).

Abbreviation convert_spec s := (CreateLibcontainerConfig ParseVariant getwd opts s).

(** C13. A converted configuration passes the checks that concern network settings and id
    mappings, so validation can only fail for the root, host name, paths and labels, the
    kernel, parameters and rootless mounts. Its namespaces are those of the spec, each at
    most once; its root is absolute; the root user and group have a host id; without
    pivot_root the root is not private. *)
Theorem converted_config_valid s c s' :
  table s → convert_spec s = (Ok c, s') →
  ∃ l, spec_Linux (op_Spec opts) = Some l ∧
    Forall2 namespace_of (li_Namespaces l) (lc_Namespaces (fc_linux c)) ∧
    NoDup (ns_Type <$> lc_Namespaces (fc_linux c)) ∧
    ((∀ d, getwd = Ok d → IsAbs d = true) → IsAbs (fc_Rootfs c) = true) ∧
    (fc_NoPivotRoot c = true → Z.land (lc_RootPropagation (fc_linux c)) MS_PRIVATE = 0) ∧
    (∀ res prof, is_ok (HostUID (view res prof s' c) 0) = true ∧ is_ok (HostGID (view res prof s' c) 0) = true) ∧
    ∀ h, Validate h c = Ok tt ↔
      valid_rootfs h c ∧ valid_paths h c ∧ valid_kernel h c ∧ valid_sysctl h c ∧ valid_rootless c.
Proof.
  intros Hs Hc. apply conversion_ok in Hc as (rcwd & path & ro & l & news & Hwd & _ & Hl & Hr & Hp & _ & _ & _ & _ & R); [|done].
  exists l. split; [done|].
  destruct (add_namespaces_ok _ [] [] _ (lr_namespaces _ _ _ _ _ _ R)) as [Hns Hnd]; [constructor..|].
  split; [exact Hns|]. split; [exact Hnd|]. split.
  { intros Habs. rewrite Hr. destruct (IsAbs path) eqn:E; [done|]. apply path_Join_abs, Clean_abs. by apply Habs. }
  split; [rewrite Hp; by apply R|]. split.
  { intros res prof. destruct (contains c NEWUSER) eqn:E; unfold contains in E.
    - destruct (lr_user _ _ _ _ _ _ R E) as (ru & rg & Hu & Hg & _).
      change (HostUID (view res prof s' c) 0) with
        (HostUID (ids_config (lc_Namespaces (fc_linux c)) (lc_UidMappings (fc_linux c)) (lc_GidMappings (fc_linux c))) 0).
      change (HostGID (view res prof s' c) 0) with
        (HostGID (ids_config (lc_Namespaces (fc_linux c)) (lc_UidMappings (fc_linux c)) (lc_GidMappings (fc_linux c))) 0).
      by rewrite Hu, Hg.
    - unfold HostUID, HostGID. simpl. by rewrite E. }
  intros h. rewrite Validate_ok_iff. unfold valid.
  assert (valid_network c) as Hn.
  { unfold valid_network, contains. rewrite (lr_networks _ _ _ _ _ _ R), (lr_routes _ _ _ _ _ _ R).
    destruct (ns_Contains _ NEWNET); simpl; [done|]. by intros []. }
  assert (valid_mappings c) as Hm.
  { intros Hu. by destruct (lr_no_user _ _ _ _ _ _ R Hu) as (? & ? & _). }
  tauto.
Qed.

(** ** Devices *)

Definition spec_rules : result (list Rule) :=
  match spec_Linux (op_Spec opts) with
  | Some {| li_Resources := Some r |} => cgroup_rules r
  | _ => Ok []
  end.

Lemma cgroup_config_rules defaults cg :
  CreateCgroupConfig ParseVariant opts defaults = Ok cg →
  ∃ rules, spec_rules = Ok rules ∧ rs_Devices (cg_Resources cg) = rules ++ defaults.
Proof.
  unfold CreateCgroupConfig, spec_rules. intros (sp & _ & H)%rbind_ok.
  apply rbind_ok in H as ([[[name parent] path] prefix] & _ & H). apply rbind_ok in H as (res & Hres & H).
  simplify_eq. simpl.
  destruct (spec_Linux (op_Spec opts)) as [l|]; [|simplify_eq; by exists []].
  destruct l as [? ? ? [r|] ? ? ? ? ? ? ? ? ?]; [|simplify_eq; by exists []].
  apply rbind_ok in Hres as (rules & -> & Hres). simplify_eq. by exists rules.
Qed.

(** The rules of the default devices that a container keeps, and their nodes. *)
Definition kept_rules (l : Linux) : list Rule := dev_rule <$> (filter (kept l) default_entries).*2.
Definition kept_paths (l : Linux) : list string := dev_path <$> (filter (kept_node l) default_entries).*2.

Lemma decision_app x a b :
  decision x (a ++ b) = if existsb (rule_matches x) a then decision x a else decision x b.
Proof. induction a as [|r a IH]; [done|]. simpl. by destruct (rule_matches x r). Qed.

Lemma decision_allow x rs :
  Forall (λ r, rule_allow r = true) rs → decision x rs = existsb (rule_matches x) rs.
Proof. induction 1 as [|r rs Hr _ IH]; [done|]. simpl. by destruct (rule_matches x r). Qed.

Lemma existsb_rev {A} (f : A → bool) l : existsb f (rev l) = existsb f l.
Proof.
  induction l as [|x l IH]; [done|]. simpl. rewrite existsb_app, IH. simpl. rewrite orb_false_r. apply orb_comm.
Qed.

Lemma kept_rules_allow l : Forall (λ r, rule_allow r = true) (kept_rules l).
Proof.
  apply Forall_fmap, Forall_fmap, Forall_forall. intros e [_ He]%list_elem_of_filter. revert e He.
  apply Forall_forall. by repeat constructor.
Qed.

Lemma spec_device_path d n : spec_device d = Ok n → dev_path n = ld_Path d.
Proof. intros (t & _ & [= <-])%rbind_ok. done. Qed.

Lemma spec_paths ds news :
  Forall2 (λ d n, spec_device d = Ok n) ds news → dev_path <$> news = ld_Path <$> ds.
Proof. induction 1 as [|d n ds news Hd _ IH]; [done|]. csimpl. by rewrite (spec_device_path _ _ Hd), IH. Qed.

Lemma paths_at (s : list Device) (ps : list nat) ds :
  Forall2 (λ p d, ∃ d', s !! p = Some d' ∧ dev_path d' = dev_path d) ps ds →
  (λ p, dev_path <$> s !! p) <$> ps = Some <$> (dev_path <$> ds).
Proof. induction 1 as [|p d ps ds (d' & Hp & Hd) _ IH]; [done|]. csimpl. by rewrite Hp, IH, <- Hd. Qed.

Lemma nodes_at (s news : list Device) l (s' : list Device) :
  table s → (∀ p d, (s ++ news) !! p = Some d → ∃ d', s' !! p = Some d' ∧ same_device d d') →
  length news = length (li_Devices l) →
  (λ p, dev_path <$> s' !! p) <$> nodes_of l (length s) = Some <$> (kept_paths l ++ (dev_path <$> news)).
Proof.
  intros Hs Hkeep Hlen. unfold nodes_of, kept_paths. rewrite <- fmap_app. apply paths_at, Forall2_app.
  - assert (Forall (λ e, holds s (fst e) (snd e)) (filter (kept_node l) default_entries)) as Hall.
    { apply Forall_forall. intros e [_ He]%list_elem_of_filter. revert e He. by apply Forall_forall, table_entries. }
    induction Hall as [|[p d] es (d' & Hp & Hd & _) _ IH]; csimpl; constructor; [|done].
    destruct (Hkeep p d') as (d'' & Hd'' & Hsame & _); [by apply lookup_app_l_Some|]. exists d''. split; [done|].
    simpl in *. congruence.
  - apply Forall2_same_length_lookup. rewrite <- Hlen, length_seq. split; [done|]. intros i p d Hp Hd.
    apply lookup_seq in Hp as [-> Hi]. destruct (Hkeep (length s + i)%nat d) as (d' & Hd' & Hsame & _).
    + by rewrite lookup_app_r, Nat.add_comm, Nat.add_sub by lia.
    + by exists d'.
Qed.

(** C12. The devices of a converted container. Its nodes are the default ones whose path the
    spec does not use, and those of the spec. The rules of its cgroup are those of the spec
    followed by those of the default devices it keeps: for the filter of cgroup v2, which
    follows the last matching rule, an access to such a device is allowed whatever the spec
    says, making any node included; for every other access the spec decides. *)
Theorem converted_devices s c s' :
  table s → convert_spec s = (Ok c, s') →
  ∃ l rules, spec_Linux (op_Spec opts) = Some l ∧ spec_rules = Ok rules ∧
    (λ p, dev_path <$> s' !! p) <$> fc_Devices c = Some <$> (kept_paths l ++ (ld_Path <$> li_Devices l)) ∧
    rs_Devices (cg_Resources (fc_Cgroups c)) = rules ++ kept_rules l ∧
    ∀ x, decision x (rev (rs_Devices (cg_Resources (fc_Cgroups c))))
         = existsb (rule_matches x) (kept_rules l) || decision x (rev rules).
Proof.
  intros Hs Hc. apply conversion_ok in Hc as (rcwd & path & ro & l & news & _ & _ & Hl & _ & _ & _ & Hn & Hd & Hcg & R); [|done].
  apply cgroup_config_rules in Hcg as (rules & Hrules & Hdev). exists l, rules.
  split; [done|]. split; [done|]. split; [|split; [done|]].
  - rewrite Hd, <- (spec_paths _ _ Hn). eapply nodes_at; [done| |by symmetry; eapply Forall2_length].
    destruct (contains c NEWUSER) eqn:E; unfold contains in E.
    + destruct (lr_user _ _ _ _ _ _ R E) as (ru & rg & _ & _ & Hch). intros p d Hp.
      destruct (proj1 (proj2 (chowns_ok _ _ _ _ _ Hch)) p d Hp) as (d' & ? & ? & _). by exists d'.
    + destruct (lr_no_user _ _ _ _ _ _ R E) as (_ & _ & ->). intros p d Hp. by exists d.
  - intros x. rewrite Hdev. fold (kept_rules l). rewrite rev_app_distr, decision_app, existsb_rev.
    destruct (existsb (rule_matches x) (kept_rules l)) eqn:E; [|done]. cbn [orb].
    rewrite decision_allow, existsb_rev; [done|]. rewrite Forall_forall. intros r Hr%list_elem_of_In%in_rev.
    apply (proj1 (Forall_forall _ _) (kept_rules_allow l)). by apply list_elem_of_In.
Qed.
End Promises.

(** ** The table is kept, its owners are not *)

Lemma keeps_default_devices linux refs ded devs : keeps_table (default_devices linux refs ded devs).
Proof. revert ded devs; induction refs as [|p refs IH]; intros ded devs; cbn [default_devices]; keeps. Qed.

Lemma keeps_add_devices ds devs : keeps_table (add_devices ds devs).
Proof. revert devs; induction ds as [|d ds IH]; intros devs; cbn [add_devices]; keeps. Qed.

Lemma keeps_load_rules refs : keeps_table (load_rules refs).
Proof. induction refs as [|p refs IH]; cbn [load_rules]; keeps. Qed.

#[export] Hint Resolve keeps_default_devices keeps_add_devices keeps_load_rules : keeps.

Lemma keeps_conversion ParseVariant getwd opts : keeps_table (CreateLibcontainerConfig ParseVariant getwd opts).
Proof.
  unfold CreateLibcontainerConfig, createDevices, linux_config, setupUserNamespace. keeps.
Qed.

(** C40. A conversion with a user namespace gives the nodes of the container to its root, the
    default nodes included, which are shared: a later conversion in the same process that
    has no user namespace gets them with the owner of the first. *)
Theorem default_owner_leaks ParseVariant getwd1 opts1 getwd2 opts2 s c1 s1 c2 s2 res prof ru :
  table s →
  CreateLibcontainerConfig ParseVariant getwd1 opts1 s = (Ok c1, s1) → contains c1 NEWUSER = true →
  HostUID (view res prof s1 c1) 0 = Ok ru →
  CreateLibcontainerConfig ParseVariant getwd2 opts2 s1 = (Ok c2, s2) → contains c2 NEWUSER = false →
  (∀ p, p ∈ fc_Devices c1 → ∃ d, s1 !! p = Some d ∧ dev_uid d = u32 ru) ∧
  (∀ p, p ∈ fc_Devices c1 → p ∈ fc_Devices c2 → ∃ d, s2 !! p = Some d ∧ dev_uid d = u32 ru).
Proof.
  intros Hs H1 Hu1 Hru H2 Hu2.
  assert (table s1) as Hs1.
  { pose proof (keeps_conversion ParseVariant getwd1 opts1 s Hs) as Hk. by rewrite H1 in Hk. }
  apply conversion_ok in H1 as (? & ? & ? & ? & ? & _ & _ & _ & _ & _ & _ & _ & _ & _ & R1); [|done].
  apply conversion_ok in H2 as (? & ? & ? & ? & news & _ & _ & _ & _ & _ & _ & _ & _ & _ & R2); [|done].
  destruct (lr_user _ _ _ _ _ _ R1 Hu1) as (ru' & rg & Hu & _ & Hch).
  destruct (lr_no_user _ _ _ _ _ _ R2 Hu2) as (_ & _ & ->).
  assert (ru' = ru) as -> by (unfold view, HostUID in Hru, Hu; simpl in *; congruence).
  destruct (chowns_ok _ _ _ _ _ Hch) as (_ & _ & Hown). split.
  - intros p Hp. destruct (Hown p Hp) as (d & Hd & ? & _). by exists d.
  - intros p Hp _. destruct (Hown p Hp) as (d & Hd & ? & _). exists d. split; [by apply lookup_app_l_Some|done].
Qed.

(** ** Labels *)

Definition label_of (kv : string * string) : string := fst kv +:+ "=" +:+ snd kv.

Lemma cut_label k v : contains_char "=" k = false → cut "=" (k +:+ "=" +:+ v) = Some (k, v).
Proof.
  induction k as [|c k IH]; [done|]. simpl. intros [Hc Hk]%orb_false_iff. bool_to_prop.
  rewrite decide_False by done. by rewrite IH.
Qed.

Definition no_equals (l : list (string * string)) : Prop := Forall (λ kv, contains_char "=" (fst kv) = false) l.
Definition not_bundle (kv : string * string) : Prop := fst kv ≠ "bundle".
#[export] Instance not_bundle_dec kv : Decision (not_bundle kv).
Proof. unfold not_bundle. apply _. Defined.

Lemma annotate_labels l acc :
  no_equals l → NoDup l.*1 → (∀ kv, kv ∈ l → acc.2 !! kv.1 = None) →
  (foldl annotate acc (label_of <$> l)).2 = list_to_map (filter not_bundle l) ∪ acc.2.
Proof.
  intros Hl. revert acc. induction Hl as [|[k v] l Hk _ IH]; intros acc Hnd Hfr.
  { by rewrite filter_nil, list_to_map_nil, (left_id_L ∅ (∪)). }
  apply NoDup_cons in Hnd as [Hnin Hnd].
  change (foldl annotate acc (label_of <$> (k, v) :: l))
    with (foldl annotate (annotate acc (label_of (k, v))) (label_of <$> l)).
  assert (annotate acc (label_of (k, v)) = if decide (k = "bundle") then (v, acc.2) else (acc.1, <[k:=v]> acc.2)) as ->.
  { unfold annotate, label_of; simpl. by rewrite cut_label. }
  rewrite filter_cons. destruct (decide (k = "bundle")) as [->|Hb].
  - rewrite IH; [|done|]. { rewrite (decide_False (P := not_bundle ("bundle", v))); [done|]. by intros []. }
    intros kv Hkv. apply Hfr. by right.
  - rewrite IH; [|done|].
    + rewrite (decide_True (P := not_bundle (k, v))) by done. rewrite list_to_map_cons. cbn [fst snd].
      rewrite <- insert_union_l. symmetry. apply insert_union_r.
      apply not_elem_of_list_to_map. intros Hin. apply Hnin.
      apply list_elem_of_fmap in Hin as (kv & Hkv & [_ Hin]%list_elem_of_filter). apply list_elem_of_fmap. by exists kv.
    + intros kv Hkv. simpl. rewrite lookup_insert_ne; [apply Hfr; by right|].
      intros ->. apply Hnin, list_elem_of_fmap. by exists kv.
Qed.

(** The labels of a configuration give back the bundle and the annotations they were
    made of, as long as no annotation has a key with an equals sign; an annotation with the
    key [bundle] is lost. *)
Theorem labels_roundtrip cwd annotations :
  no_equals (map_to_list annotations) →
  Annotations (labels_of cwd annotations) = (cwd, filter not_bundle annotations).
Proof.
  intros Hk. unfold Annotations, labels_of. rewrite foldl_app.
  change (foldl annotate ?a ["bundle=" +:+ cwd]) with (annotate a ("bundle" +:+ "=" +:+ cwd)).
  unfold annotate at 1. rewrite cut_label, decide_True by done. f_equal.
  change (λ kv : string * string, kv.1 +:+ "=" +:+ kv.2) with label_of.
  rewrite annotate_labels; [|done|apply NoDup_fst_map_to_list|done]. simpl.
  by rewrite (right_id_L ∅ (∪)), map_filter_alt.
Qed.

(** ** Two containers *)

Lemma table_initial : table AllowedDevices.
Proof. intros p d Hd. by exists d. Qed.

Definition no_variant (text : string) : result Variant := Err (ErrNew "no variant").

Definition some_linux (maps : list LinuxIDMapping) (namespaces : list string) : Linux :=
  mk_Linux maps maps {["net.ipv4.ip_forward" := "1"]}
    (Some (mk_LinuxResources [mk_LinuxDeviceCgroup false "" None None "rwm"] None None None None [] None ∅))
    "/docker/web" ((λ t, mk_LinuxNamespace t "") <$> namespaces) [mk_LinuxDevice "/dev/fuse" "c" 10 229 None None None]
    None "" ["/proc/kcore"] [] "" None.

Definition some_spec (linux : Linux) : Spec :=
  mk_Spec (Some ("rootfs", false)) None "web" [] None {["team" := "a"]} (Some linux).

Definition some_opts (linux : Linux) : CreateOpts := mk_CreateOpts "web" false false false (some_spec linux) false false.

Definition userns_opts : CreateOpts :=
  some_opts (some_linux [mk_LinuxIDMapping 0 100000 65536] ["mount"; "uts"; "network"; "user"]).
Definition plain_opts : CreateOpts := some_opts (some_linux [] ["mount"; "uts"; "network"]).

Definition run_conversion (opts : CreateOpts) (s : list Device) : result FullConfig * list Device :=
  CreateLibcontainerConfig no_variant (Ok "/bundle") opts s.

Definition after_userns : list Device := (run_conversion userns_opts AllowedDevices).2.

Lemma converted_config_valid_witness :
  ∃ c s', run_conversion userns_opts AllowedDevices = (Ok c, s') ∧
    NoDup (ns_Type <$> lc_Namespaces (fc_linux c)) ∧ fc_Rootfs c = "/bundle/rootfs".
Proof.
  destruct (run_conversion userns_opts AllowedDevices) as [r s'] eqn:E. pose proof E as E'. vm_compute in E'.
  injection E' as Er _. subst r.
  destruct (converted_config_valid no_variant (Ok "/bundle") userns_opts _ _ _ table_initial E) as (l & _ & _ & Hnd & _).
  eexists _, s'. split; [reflexivity|]. split; [exact Hnd|]. reflexivity.
Defined.

(** The spec denies every device, and still [/dev/null] can be used, and any node be made. *)
Lemma converted_devices_witness :
  ∃ c s', run_conversion plain_opts AllowedDevices = (Ok c, s') ∧
    decision (mk_dev_ctx (6 * 65536 + 2) 1 3) (rev (rs_Devices (cg_Resources (fc_Cgroups c)))) = true ∧
    decision (mk_dev_ctx (1 * 65536 + 1) 8 0) (rev (rs_Devices (cg_Resources (fc_Cgroups c)))) = true ∧
    decision (mk_dev_ctx (2 * 65536 + 1) 8 0) (rev (rs_Devices (cg_Resources (fc_Cgroups c)))) = false.
Proof.
  destruct (run_conversion plain_opts AllowedDevices) as [r s'] eqn:E. pose proof E as E'. vm_compute in E'.
  injection E' as Er _. subst r.
  destruct (converted_devices no_variant (Ok "/bundle") plain_opts _ _ _ table_initial E)
    as (l & rules & Hl & Hr & _ & _ & Hd).
  vm_compute in Hl, Hr. injection Hl as <-. injection Hr as <-.
  eexists _, s'. split; [reflexivity|].
  split; [|split]; (etrans; [exact (Hd _)|vm_compute; reflexivity]).
Defined.

Lemma default_owner_leaks_witness :
  ∃ c s2 d, run_conversion plain_opts after_userns = (Ok c, s2) ∧ s2 !! 2%nat = Some d ∧ dev_uid d = 100000.
Proof.
  destruct (run_conversion userns_opts AllowedDevices) as [r1 s1] eqn:E1.
  destruct (run_conversion plain_opts after_userns) as [r2 s2] eqn:E2.
  assert (s1 = after_userns) as -> by (unfold after_userns; by rewrite E1).
  pose proof (f_equal fst E1) as E1'. vm_compute in E1'. subst r1.
  pose proof (f_equal fst E2) as E2'. vm_compute in E2'. subst r2.
  match type of E1 with _ = (Ok ?c, _) => set (c1 := c) in * end.
  match type of E2 with _ = (Ok ?c, _) => set (c2 := c) in * end.
  assert (contains c1 NEWUSER = true) as H1 by reflexivity.
  assert (contains c2 NEWUSER = false) as H2 by reflexivity.
  assert (HostUID (view (λ _, 0) (λ _, 0) after_userns c1) 0 = Ok 100000) as H3 by reflexivity.
  destruct (default_owner_leaks no_variant (Ok "/bundle") userns_opts (Ok "/bundle") plain_opts AllowedDevices
    c1 after_userns c2 s2 (λ _, 0) (λ _, 0) 100000 table_initial E1 H1 H3 E2 H2) as [_ Hleak].
  destruct (Hleak 2%nat) as (d & Hd & Hu); [apply (bool_decide_unpack _); reflexivity..|].
  exists c2, s2, d. split; [reflexivity|]. split; [exact Hd|]. rewrite Hu. reflexivity.
Defined.

Lemma labels_roundtrip_witness :
  Annotations (labels_of "/bundle" {["team" := "a"; "bundle" := "b"]}) = ("/bundle", {["team" := "a"]}).
Proof.
  etrans; [apply (labels_roundtrip "/bundle" {["team" := "a"; "bundle" := "b"]})|by vm_compute].
  apply (bool_decide_unpack _). by vm_compute.
Defined.

(** A spec without a Linux section is not refused: the conversion dereferences it. *)
Lemma no_linux_panics ParseVariant opts s :
  table s → spec_Linux (op_Spec opts) = None → spec_Root (op_Spec opts) ≠ None →
  ∃ x, CreateLibcontainerConfig ParseVariant (Ok "/bundle") opts s = (Panic x, s).
Proof.
  intros Hs Hl Hr. unfold CreateLibcontainerConfig. rewrite (bind_ok _ _ s "/bundle" s) by done.
  destruct (spec_Root (op_Spec opts)) as [[path ro]|]; [|done].
  destruct (createDevices_none (op_Spec opts) s Hs Hl) as [x Hx]. exists x. unfold bind. by rewrite Hx.
Qed.
