(* ===== verification/CgroupFile.v ===== *)
(** * Files of cgroups ([libcontainer/cgroups/fscommon], [libcontainer/cgroups/utils.go])

    Opening, reading and writing a file of a cgroup ([open.go], [fscommon.go]), the formats
    of such files ([fscommon/utils.go]), and the operations of [cgroups/utils.go] on the
    directories: joining a cgroup, listing its processes, removing it. Maps are run over
    in the order of [map_to_list]. *)

From S2P Require Import DeviceFilter.
From S2P Require Import Prelude GoStd GoPath GoMonad CgroupUtils.

(** ** The calls *)

Definition O_RDONLY : Z := 0.
Definition O_WRONLY : Z := 1.
Definition O_DIRECTORY : Z := 0x10000.
Definition O_CLOEXEC : Z := 0x80000.
Definition O_PATH : Z := 0x200000.
Definition EINTR : Z := 4.
Definition EINVAL : Z := 22.
Definition ENODEV : Z := 19.
Definition ENOTSUP : Z := 95.

(** [FdRead] reads to the end: what came before an error is part of the answer. *)
Inductive gcall : Type → Type :=
  | Openat2 (dirfd : Z) (path : string) (flags resolve : Z) : gcall Z
  | FstatfsType (fd : Z) : gcall Z
  | GSecureJoin (root path : string) : gcall string
  | GOpenFile (path : string) (flags : Z) : gcall Z
  | FdRead (fd : Z) : gcall reader
  | FdWrite (fd : Z) (data : string) : gcall ()
  | FdClose (fd : Z) : gcall ()
  | GStat (path : string) : gcall ()
  | LstatDir (path : string) : gcall bool (* is it a directory? *)
  | GReadDir (path : string) : gcall (list (string * bool))
  | GReaddirnames (fd : Z) : gcall (list string)
  | GMkdir (path : string) : gcall ()
  | GRemove (path : string) : gcall ()
  | GRmdir (path : string) : gcall ()
  | GSleep (ms : Z) : gcall ()
  | LoadAttachCgroupDeviceFilter (insts : list instruction) (license : string) (dirFd : Z) : gcall ().

(** ** Opening ([open.go])

    What [prepareOpenat2] found out, once for the process: the descriptor of the cgroup
    file system and the flags to resolve a path with. Whoever makes these calls keeps it. *)
Definition prep : Type := error + Z * Z.

Class CgroupFs (S : Type) := { prep_of : S → option prep; set_prep : prep → S → S }.

Definition cgroupfsDir : string := "/sys/fs/cgroup".
Definition cgroupfsPrefix : string := "/sys/fs/cgroup/".
Definition RESOLVE_NO_XDEV : Z := 0x1.
Definition RESOLVE_NO_MAGICLINKS : Z := 0x2.
Definition RESOLVE_NO_SYMLINKS : Z := 0x4.
Definition RESOLVE_BENEATH : Z := 0x8.
Definition CGROUP2_SUPER_MAGIC : Z := 0x63677270.

Section Files.
Context {S W : Type} `{CgroupFs S} `{Handler gcall W}.
(** How often in a row an interrupted write is tried again. *)
Context (interrupts : nat).

Abbreviation GIO A := (M (S * W) A).

Definition prepare : GIO prep :=
  do fd ← try (ask (Openat2 (-1) cgroupfsDir (Z.lor O_DIRECTORY O_PATH) 0));
  match fd with
  | inl e => ret (inl e)
  | inr fd =>
      do t ← try (ask (FstatfsType fd));
      match t with
      | inl e => ret (inl e)
      | inr t =>
          let flags := Z.lor RESOLVE_BENEATH RESOLVE_NO_MAGICLINKS in
          ret (inr (fd, if t =? CGROUP2_SUPER_MAGIC
                        then Z.lor flags (Z.lor RESOLVE_NO_XDEV RESOLVE_NO_SYMLINKS) else flags))
      end
  end.

(** [prepOnce.Do]. *)
Definition prepareOpenat2 : GIO prep :=
  do s ← this;
  match prep_of s with
  | Some p => ret p
  | None => do p ← prepare; change (set_prep p) ;;; ret p
  end.

Definition openWithSecureJoin (dir file : string) (flags : Z) : GIO Z :=
  do path ← ask (GSecureJoin dir file);
  ask (GOpenFile path flags).

Definition OpenFile (dir file : string) (flags : Z) : GIO Z :=
  if decide (dir = "") then throw (ErrNew ("no directory specified for " +:+ file))
  else
    let reldir := TrimPrefix dir cgroupfsPrefix in
    if decide (String.length reldir = String.length dir) then openWithSecureJoin dir file flags
    else
      do p ← prepareOpenat2;
      match p with
      | inl _ => openWithSecureJoin dir file flags
      | inr (cgroupFd, resolveFlags) =>
          ask (Openat2 cgroupFd (reldir +:+ "/" +:+ file) (Z.lor flags O_CLOEXEC) resolveFlags)
      end.

(** ** Reading and writing ([fscommon.go]) *)

(** Reading to the end, with the error as part of the answer. *)
Definition read_fd (fd : Z) : GIO reader :=
  do r ← try (ask (FdRead fd)); ret match r with inl e => mk_reader "" (Some e) | inr r => r end.

(** What [ReadFile] returns: the contents up to the error. *)
Definition ReadFile_contents (dir file : string) : GIO reader :=
  do fd ← try (OpenFile dir file O_RDONLY);
  match fd with
  | inl e => ret (mk_reader "" (Some e))
  | inr fd =>
      defer (ask (FdClose fd)) (read_fd fd)
  end.

Definition ReadFile (dir file : string) : GIO string :=
  do r ← ReadFile_contents dir file;
  match rd_err r with None => ret (rd_data r) | Some e => throw e end.

Fixpoint retryingWriteFile (fuel : nat) (fd : Z) (data : string) : GIO () :=
  do e ← err_of (ask (FdWrite fd data));
  match e, fuel with
  | None, _ => ret tt
  | Some e, O => throw e
  | Some e, Datatypes.S fuel' =>
      if decide (e = ErrSys EINTR) then retryingWriteFile fuel' fd data else throw e
  end.

Definition WriteFile (dir file data : string) : GIO () :=
  do fd ← OpenFile dir file O_WRONLY;
  defer (ask (FdClose fd))
    (map_err (ErrWrap ("failed to write " +:+ data)) (retryingWriteFile interrupts fd data)).

(** ** Formats ([fscommon/utils.go]) *)

(** A negative number is read as 0, one below the smallest integer too. *)
Definition fscommon_ParseUint (s : string) (bits : Z) : Z * option num_error :=
  let '(value, err) := ParseUint s bits in
  match err with
  | None => (value, None)
  | Some _ =>
      let '(intValue, intErr) := ParseInt s bits in
      match intErr with
      | None | Some ErrRange => if intValue <? 0 then (0, None) else (value, err)
      | Some ErrSyntax => (value, err)
      end
  end.

Definition uint_of (what s : string) : result Z :=
  match fscommon_ParseUint s 64 with (n, None) => Ok n | _ => Err (ErrNew ("unable to parse " +:+ what)) end.

Definition ParseKeyValue (t : string) : result (string * Z) :=
  match Split " " t with
  | [key; value] => let! n := uint_of value value in Ok (key, n)
  | _ => Err (ErrNew ("line " +:+ t +:+ " is not in key value format"))
  end.

(** The value of the first line that has the key. *)
Definition value_of_key (key : string) (lines : list string) : result Z :=
  let arrs := Split " " <$> lines in
  match list_find (λ arr, length arr = 2%nat ∧ arr !! 0%nat = Some key) arrs with
  | Some (_, arr) => let value := default "" (arr !! 1%nat) in uint_of value value
  | None => Ok 0
  end.

Definition GetValueByKey (path file key : string) : GIO Z :=
  do content ← ReadFile path file;
  lift (value_of_key key (Split LF content)).

Definition MaxUint64 : Z := 2 ^ 64 - 1.
Definition MaxInt64 : Z := 2 ^ 63 - 1.

Definition GetCgroupParamString (path file : string) : GIO string :=
  do contents ← ReadFile path file; ret (TrimSpace contents).

Definition param_uint (what contents : string) : result Z :=
  if decide (contents = "max") then Ok MaxUint64 else uint_of what contents.

Definition GetCgroupParamUint (path file : string) : GIO Z :=
  do contents ← GetCgroupParamString path file;
  lift (param_uint (path +:+ "/" +:+ file) (TrimSpace contents)).

Definition GetCgroupParamInt (path file : string) : GIO Z :=
  do contents ← ReadFile path file;
  let contents := TrimSpace contents in
  if decide (contents = "max") then ret MaxInt64
  else match ParseInt contents 64 with
       | (n, None) => ret n
       | _ => throw (ErrNew ("unable to parse " +:+ contents +:+ " as a int from Cgroup file "
                             +:+ path +:+ "/" +:+ file))
       end.

(** ** Processes of a cgroup ([cgroups/utils.go]) *)

Definition CgroupProcesses : string := "cgroup.procs".

Definition parse_pid (t : string) : result Z :=
  match Atoi t with (n, None) => Ok n | _ => Err (ErrNew ("strconv.Atoi: parsing " +:+ t)) end.

(** The pids of the lines, up to the first that is none. *)
Definition procs_of (r : reader) : result (list Z) :=
  let '(lines, err) := scan_lines r in
  let! out := foldM (λ out t, if decide (t = "") then Ok out else let! p := parse_pid t in Ok (out ++ [p])) [] lines in
  match err with Some e => Err e | None => Ok out end.

Definition readProcsFile (file : string) : GIO (list Z) :=
  do fd ← ask (GOpenFile file O_RDONLY);
  defer (ask (FdClose fd)) (do r ← read_fd fd; lift (procs_of r)).

Definition GetPids (dir : string) : GIO (list Z) := readProcsFile (path_Join dir CgroupProcesses).

(** [filepath.Walk] with the function of [GetAllPids]: the pids of the tree at [p]. The
    fuel is the depth of the tree. *)
Fixpoint walk (fuel : nat) (p : string) (isDir : bool) (pids : list Z) : GIO (list Z) :=
  if isDir then
    match fuel with
    | O => panic "stack overflow"
    | Datatypes.S fuel' =>
        do names ← ask (GReadDir p);
        (fix entries (ns : list (string * bool)) (pids : list Z) : GIO (list Z) :=
           match ns with
           | [] => ret pids
           | (name, _) :: ns' =>
               let filename := path_Join p name in
               do d ← ask (LstatDir filename);
               do pids ← walk fuel' filename d pids;
               entries ns' pids
           end) names pids
    end
  else if decide (Base p = CgroupProcesses) then
    do cPids ← readProcsFile p; ret (pids ++ cPids)
  else ret pids.

Definition GetAllPids (fuel : nat) (path : string) : GIO (list Z) :=
  do d ← ask (LstatDir path); walk fuel path d [].

(** The attempts to write the pid; [err] is the error of the one before. *)
Fixpoint write_pid (tries : nat) (fd pid : Z) (err : error) : GIO () :=
  match tries with
  | O => throw err
  | Datatypes.S tries' =>
      do e ← err_of (ask (FdWrite fd (Itoa pid)));
      match e with
      | None => ret tt
      | Some e =>
          if decide (e = ErrSys EINVAL) then ignore (ask (GSleep 30)) ;;; write_pid tries' fd pid e
          else throw (ErrNew ("failed to write " +:+ Itoa pid +:+ " to " +:+ CgroupProcesses))
      end
  end.

Definition WriteCgroupProc (dir : string) (pid : Z) : GIO () :=
  if decide (dir = "") then throw (ErrNew ("no such directory for " +:+ CgroupProcesses))
  else if pid =? -1 then ret tt
  else
    do fd ← map_err (λ _, ErrNew ("failed to write " +:+ Itoa pid +:+ " to " +:+ CgroupProcesses))
              (OpenFile dir CgroupProcesses O_WRONLY);
    defer (ask (FdClose fd)) (write_pid 5 fd pid (ErrNew "")).

Definition PathExists (path : string) : GIO bool :=
  do e ← err_of (ask (GStat path)); ret match e with Some _ => false | None => true end.

Definition EnterPid (cgroupPaths : gmap string string) (pid : Z) : GIO () :=
  for_each (λ kv, do ok ← PathExists kv.2; when ok (WriteCgroupProc kv.2 pid)) (map_to_list cgroupPaths).

(** ** Removing cgroups *)

Definition rmdir (path : string) : GIO () :=
  do e ← err_of (ask (GRmdir path));
  match e with
  | None => ret tt
  | Some e => if decide (e = ErrSys ENOENT) then ret tt else throw e
  end.

(** The fuel is the depth of the tree. *)
Fixpoint RemovePath (fuel : nat) (path : string) : GIO () :=
  do e ← err_of (rmdir path);
  match e with
  | None => ret tt
  | Some _ =>
      do infos ← try (ask (GReadDir path));
      match infos with
      | inl err => if IsNotExist err then ret tt else throw err
      | inr infos =>
          match fuel with
          | O => panic "stack overflow"
          | Datatypes.S fuel' =>
              for_each (λ info, when info.2 (RemovePath fuel' (path_Join path info.1))) infos ;;;
              rmdir path
          end
      end
  end.

(** One round over the map: what is gone is deleted from it. *)
Fixpoint remove_round (fuel : nat) (ps : list (string * string)) (paths : gmap string string)
    : GIO (gmap string string) :=
  match ps with
  | [] => ret paths
  | (s, p) :: ps' =>
      ignore (RemovePath fuel p) ;;;
      do e ← err_of (ask (GStat p));
      remove_round fuel ps'
        (match e with Some e => if IsNotExist e then delete s paths else paths | None => paths end)
  end.

Fixpoint remove_rounds (tries : nat) (fuel : nat) (first : bool) (delay : Z) (paths : gmap string string) : GIO () :=
  match tries with
  | O => throw (ErrNew "Failed to remove paths")
  | Datatypes.S tries' =>
      when (negb first) (ignore (ask (GSleep delay))) ;;;
      do paths ← remove_round fuel (map_to_list paths) paths;
      if decide (paths = ∅) then ret tt
      else remove_rounds tries' fuel false (if first then delay else delay * 2) paths
  end.

Definition RemovePaths (fuel : nat) (paths : gmap string string) : GIO () := remove_rounds 5 fuel true 10 paths.

Definition GetHugePageSize : GIO (list string) :=
  do dir ← ask (GOpenFile "/sys/kernel/mm/hugepages" (Z.lor O_DIRECTORY O_RDONLY));
  do files ← try (ask (GReaddirnames dir));
  ignore (ask (FdClose dir)) ;;;
  match files with inl e => throw e | inr files => lift (getHugePageSizeFromFilenames files) end.
End Files.
