(* ===== verification/Cgroup2.v ===== *)
(** * The manager of a cgroup v2 ([libcontainer/cgroups/fs2])

    Where the cgroup of a container is ([defaultpath.go]), the creation of its directory
    ([create.go]), the limits ([pids.go], [memory.go], [io.go], [cpu.go], [cpuset.go],
    [hugetlb.go], [devices.go]), the freezer ([freezer.go]), the statistics, and the
    manager that puts them together ([fs2.go]). The manager has a copy of its
    configuration; in the code it shares it with the container. *)

From S2P Require Import DeviceFilter DeviceCgroup Users.
From S2P Require Import Prelude GoStd GoPath GoMonad Container CgroupUtils Rootfs SpecConv CgroupFile.

(** [m_prep] is the package variable of [fscommon]; [None] is a nil map of controllers. *)
Record manager := mk_manager {
  m_config : Cgroup; m_dirPath : string; m_controllers : option (gset string); m_rootless : bool;
  m_prep : option prep
}.

Definition set_controllers (v : option (gset string)) (m : manager) : manager :=
  mk_manager (m_config m) (m_dirPath m) v (m_rootless m) (m_prep m).
Definition set_m_config (v : Cgroup) (m : manager) : manager :=
  mk_manager v (m_dirPath m) (m_controllers m) (m_rootless m) (m_prep m).

#[export] Instance manager_fs : CgroupFs manager := {|
  prep_of := m_prep;
  set_prep p m := mk_manager (m_config m) (m_dirPath m) (m_controllers m) (m_rootless m) (Some p)
|}.

(** ** The path ([defaultpath.go]) *)

Definition UnifiedMountpoint : string := "/sys/fs/cgroup".

(** [filepath.Join] of any number of elements. *)
Definition path_Joins (l : list string) : string :=
  match filter (λ e, e ≠ "") l with [] => "" | l => Clean (Join "/" l) end.

(** The first line of the unified hierarchy; a line without two colons ends the search. *)
Fixpoint own_cgroup (lines : list string) (err : option error) : result string :=
  match lines with
  | [] => Err (default (ErrNew "cgroup path not found") err)
  | text :: lines' =>
      let bad := ErrNew ("invalid cgroup entry: " +:+ text) in
      match cut ":" text with
      | None => Err bad
      | Some (id, rest) =>
          match cut ":" rest with
          | None => Err bad
          | Some (subsystems, path) =>
              if decide (id = "0" ∧ subsystems = "") then Ok path else own_cgroup lines' err
          end
      end
  end.

Definition fs2_parseCgroupFromReader (r : reader) : result string :=
  let '(lines, err) := scan_lines r in own_cgroup lines err.

Section Path.
Context {S W : Type} `{Handler gcall W}.
Abbreviation PIO A := (M (S * W) A).

Definition fs2_parseCgroupFile (path : string) : PIO string :=
  do fd ← ask (GOpenFile path O_RDONLY);
  defer (ask (FdClose fd)) (do r ← read_fd fd; lift (fs2_parseCgroupFromReader r)).

Definition _defaultDirPath (root cgPath cgParent cgName : string) : PIO string :=
  if (negb (bool_decide (cgName = "")) || negb (bool_decide (cgParent = ""))) && negb (bool_decide (cgPath = ""))
  then throw (ErrNew "cgroup: either Path or Name and Parent should be used")
  else
    let innerPath := if decide (cgPath = "") then path_Join cgParent cgName else cgPath in
    if IsAbs innerPath then ret (path_Join root innerPath)
    else
      do ownCgroup ← fs2_parseCgroupFile "/proc/self/cgroup";
      ret (path_Joins [root; Dir ownCgroup; innerPath]).

Definition defaultDirPath (c : Cgroup) : PIO string :=
  if (negb (bool_decide (cg_Name c = "")) || negb (bool_decide (cg_Parent c = "")))
     && negb (bool_decide (cg_Path c = ""))
  then throw (ErrNew "cgroup: either Path or Name and Parent should be used")
  else if negb (bool_decide (cg_Paths c = ∅))
  then throw (ErrNew "cgroup: Paths is unsupported, use Path")
  else _defaultDirPath UnifiedMountpoint (CleanPath (cg_Path c)) (CleanPath (cg_Parent c)) (CleanPath (cg_Name c)).

(** [prep] is what the process knows of the cgroup file system; the configuration is not
    nil (a nil one stands for an empty one, whose limits must not be asked for). *)
Definition NewManager (p : option prep) (config : Cgroup) (dirPath : string) (rootless : bool) : PIO manager :=
  do dirPath ← (if decide (dirPath = "") then defaultDirPath config else ret dirPath);
  ret (mk_manager config dirPath None rootless p).
End Path.

(** ** Which controllers are needed *)

Definition isPidsSet (r : Resources) : bool := negb (rs_PidsLimit r =? 0).
Definition isMemorySet (r : Resources) : bool :=
  negb (rs_MemoryReservation (rs_mem r) =? 0) || negb (rs_Memory (rs_mem r) =? 0)
  || negb (rs_MemorySwap (rs_mem r) =? 0).
Definition isIoSet (r : Resources) : bool :=
  let b := rs_blkio r in
  negb (rs_BlkioWeight b =? 0) || negb (bool_decide (rs_BlkioThrottleReadBpsDevice b = []))
  || negb (bool_decide (rs_BlkioThrottleWriteBpsDevice b = []))
  || negb (bool_decide (rs_BlkioThrottleReadIOPSDevice b = []))
  || negb (bool_decide (rs_BlkioThrottleWriteIOPSDevice b = [])).
Definition isCpuSet (r : Resources) : bool :=
  negb (rs_CpuWeight (rs_cpu r) =? 0) || negb (rs_CpuQuota (rs_cpu r) =? 0) || negb (rs_CpuPeriod (rs_cpu r) =? 0).
Definition isCpusetSet (r : Resources) : bool :=
  negb (bool_decide (rs_CpusetCpus (rs_cpu r) = "")) || negb (bool_decide (rs_CpusetMems (rs_cpu r) = "")).
Definition isHugeTlbSet (r : Resources) : bool := negb (bool_decide (rs_HugetlbLimit r = [])).

Definition containsDomainController (cg : Cgroup) : bool :=
  let r := cg_Resources cg in isMemorySet r || isIoSet r || isCpuSet r || isHugeTlbSet r.

(** ** Values of the files *)

Definition numToStr (value : Z) : string :=
  if value =? 0 then "" else if value =? -1 then "max" else FormatInt value.

Definition StringName (td : ThrottleDevice) (name : string) : string :=
  FormatInt (td_Major td) +:+ ":" +:+ FormatInt (td_Minor td) +:+ " " +:+ name +:+ "=" +:+ FormatInt (td_Rate td).

(** [errors.Cause] *)
Fixpoint cause_of (e : error) : error := match e with ErrWrap _ e => cause_of e | _ => e end.

Section Manager.
Context {W : Type} `{Handler gcall W}.
Context (interrupts : nat).

Abbreviation MIO A := (M (manager * W) A).

Definition write (dir file data : string) : MIO () := WriteFile interrupts dir file data.

(** ** Creating the cgroup ([create.go]) *)

Definition supportedControllers : MIO string := ReadFile UnifiedMountpoint "/cgroup.controllers".

Definition needAnyControllers (cg : Cgroup) : MIO bool :=
  do content ← supportedControllers;
  let have c := bool_decide (c ∈ Fields content) in
  let r := cg_Resources cg in
  ret ((isPidsSet r && have "pids") || (isMemorySet r && have "memory") || (isIoSet r && have "io")
       || (isCpuSet r && have "cpu") || (isCpusetSet r && have "cpuset") || (isHugeTlbSet r && have "hugetlb")).

(** [defer func() { if Err != nil { d() } }()] *)
Definition on_error {A} (d : MIO ()) (m : MIO A) : MIO A := λ s,
  match m s with
  | (Err e, s1) => match d s1 with (Panic x, s2) => (Panic x, s2) | (_, s2) => (Err e, s2) end
  | r => r
  end.

Definition check_type (c : Cgroup) (current : string) : MIO () :=
  do r ← ReadFile_contents current "cgroup.type";
  let cgType := TrimSpace (rd_data r) in
  if decide (cgType = "domain invalid") then
    if containsDomainController c
    then throw (ErrNew ("cannot enter cgroupv2 " +:+ current +:+ " with domain controllers -- it is in an invalid state"))
    else ignore (write current "cgroup.type" "threaded")
  else if decide (cgType = "domain threaded" ∨ cgType = "threaded") then
    if containsDomainController c
    then throw (ErrNew ("cannot enter cgroupv2 " +:+ current +:+ " with domain controllers -- it is in "
                        +:+ cgType +:+ " mode"))
    else ret tt
  else ret tt.

Definition enable (res current : string) : MIO () :=
  do e ← err_of (write current "cgroup.subtree_control" res);
  match e with
  | None => ret tt
  | Some _ => for_each (λ ctr, ignore (write current "cgroup.subtree_control" ctr)) (Split " " res)
  end.

(** The loop over the elements of the path; [first] is the one of the root. *)
Fixpoint create_elements (c : Cgroup) (res : string) (first : bool) (current : string) (elements : list string) : MIO () :=
  match elements with
  | [] => ret tt
  | e :: rest =>
      let current := path_Join current e in
      let go_on := when (negb (bool_decide (rest = []))) (enable res current) ;;;
                   create_elements c res false current rest in
      if first then go_on
      else
        do err ← err_of (ask (GMkdir current));
        match err with
        | Some err => if IsExist err then check_type c current ;;; go_on else throw err
        | None => on_error (ask (GRemove current)) (check_type c current ;;; go_on)
        end
  end.

Definition CreateCgroupPath (path : string) (c : Cgroup) : MIO () :=
  if negb (HasPrefix path UnifiedMountpoint) then throw (ErrNew ("invalid cgroup path " +:+ path))
  else
    do content ← supportedControllers;
    create_elements c ("+" +:+ Join " +" (Fields content)) true "/sys/fs" (drop 3 (Split "/" path)).

(** ** The limits *)

Definition write_if (value dirPath file : string) : MIO () :=
  when (negb (bool_decide (value = ""))) (write dirPath file value).

Definition setPids (dirPath : string) (r : Resources) : MIO () :=
  when (isPidsSet r) (write_if (numToStr (rs_PidsLimit r)) dirPath "pids.max").

Definition setMemory (dirPath : string) (r : Resources) : MIO () :=
  let mem := rs_mem r in
  when (isMemorySet r)
    (do swap ← lift (ConvertMemorySwapToCgroupV2Value (rs_MemorySwap mem) (rs_Memory mem));
     let swapStr := numToStr swap in
     let swapStr := if bool_decide (swapStr = "") && (swap =? 0) && (0 <? rs_MemorySwap mem) then "0" else swapStr in
     write_if swapStr dirPath "memory.swap.max" ;;;
     write_if (numToStr (rs_Memory mem)) dirPath "memory.max" ;;;
     write_if (numToStr (rs_MemoryReservation mem)) dirPath "memory.low").

Definition set_throttle (dirPath name : string) (tds : list ThrottleDevice) : MIO () :=
  for_each (λ td, write dirPath "io.max" (StringName td name)) tds.

Definition setIo (dirPath : string) (r : Resources) : MIO () :=
  let b := rs_blkio r in
  when (isIoSet r)
    (when (negb (rs_BlkioWeight b =? 0)) (write dirPath "io.bfq.weight" (FormatInt (rs_BlkioWeight b))) ;;;
     set_throttle dirPath "rbps" (rs_BlkioThrottleReadBpsDevice b) ;;;
     set_throttle dirPath "wbps" (rs_BlkioThrottleWriteBpsDevice b) ;;;
     set_throttle dirPath "riops" (rs_BlkioThrottleReadIOPSDevice b) ;;;
     set_throttle dirPath "wiops" (rs_BlkioThrottleWriteIOPSDevice b)).

Definition setCpu (dirPath : string) (r : Resources) : MIO () :=
  let c := rs_cpu r in
  when (isCpuSet r)
    (when (negb (rs_CpuWeight c =? 0)) (write dirPath "cpu.weight" (FormatInt (rs_CpuWeight c))) ;;;
     when (negb (rs_CpuQuota c =? 0) || negb (rs_CpuPeriod c =? 0))
       (let str := if 0 <? rs_CpuQuota c then FormatInt (rs_CpuQuota c) else "max" in
        let period := if rs_CpuPeriod c =? 0 then 100000 else rs_CpuPeriod c in
        write dirPath "cpu.max" (str +:+ " " +:+ FormatInt period))).

Definition setCpuset (dirPath : string) (r : Resources) : MIO () :=
  when (isCpusetSet r)
    (write_if (rs_CpusetCpus (rs_cpu r)) dirPath "cpuset.cpus" ;;;
     write_if (rs_CpusetMems (rs_cpu r)) dirPath "cpuset.mems").

Definition setHugeTlb (dirPath : string) (r : Resources) : MIO () :=
  when (isHugeTlbSet r)
    (for_each (λ l, write dirPath ("hugetlb." +:+ hl_Pagesize l +:+ ".max") (FormatInt (hl_Limit l)))
       (rs_HugetlbLimit r)).

(** [system.RunningInUserNS]: the code asks once and keeps the answer, which does not change. *)
Definition in_userns : MIO bool :=
  do fd ← try (ask (GOpenFile "/proc/self/uid_map" O_RDONLY));
  match fd with
  | inl _ => ret false
  | inr fd =>
      do r ← read_fd fd;
      ignore (ask (FdClose fd)) ;;;
      ret (RunningInUserNS (λ _, Ok r))
  end.

Definition setDevices (dirPath : string) (r : Resources) : MIO () :=
  if rs_SkipDevices r then ret tt
  else
    do p ← lift (DeviceFilter (rs_Devices r));
    do dirFD ← map_err (λ _, ErrNew ("cannot get dir FD for " +:+ dirPath))
                 (ask (GOpenFile dirPath (Z.lor O_DIRECTORY O_RDONLY)));
    defer (ask (FdClose dirFD))
      (do e ← err_of (ask (LoadAttachCgroupDeviceFilter p.1 p.2 dirFD));
       match e with
       | None => ret tt
       | Some e =>
           do userns ← in_userns;
           if canSkipEBPFError userns (mk_DevCgroup (rs_SkipDevices r) (rs_Devices r)) then ret tt else throw e
       end).

(** ** The freezer ([freezer.go]) *)

Definition freezer_text (state : FreezerState) : option string :=
  match state with Undefined => None | Frozen => Some "1" | Thawed => Some "0" end.

Definition freezer_state (text : string) : result FreezerState :=
  if decide (text = "0") then Ok Thawed
  else if decide (text = "1") then Ok Frozen
  else Err (ErrNew ("unknown cgroup.freeze state: " +:+ text)).

Definition getFreezer (dirPath : string) : MIO FreezerState :=
  do state ← try (ReadFile dirPath "cgroup.freeze");
  match state with
  | inl e => if IsNotExist e || bool_decide (e = ErrSys ENODEV) then ret Undefined else throw e
  | inr state => lift (freezer_state (TrimSpace state))
  end.

Definition setFreezer (dirPath : string) (state : FreezerState) : MIO () :=
  do e ← err_of (ReadFile dirPath "cgroup.freeze");
  match e with
  | Some e => if decide (state = Frozen) then throw (ErrWrap "freezer not supported" e) else ret tt
  | None =>
      match freezer_text state with
      | None => ret tt
      | Some stateStr =>
          write dirPath "cgroup.freeze" stateStr ;;;
          do actualState ← getFreezer dirPath;
          if decide (actualState = state) then ret tt
          else throw (ErrNew "expected cgroup.freeze to be in another state")
      end
  end.

(** ** The manager ([fs2.go]) *)

Definition getControllers : MIO () :=
  do m ← this;
  match m_controllers m with
  | Some _ => ret tt
  | None =>
      do data ← try (ReadFile (m_dirPath m) "cgroup.controllers");
      match data with
      | inl e => if m_rootless m && bool_decide (cg_Path (m_config m) = "") then ret tt else throw e
      | inr data => change (set_controllers (Some (list_to_set (Fields data))))
      end
  end.

Definition Manager_Apply (pid : Z) : MIO () :=
  do m ← this;
  do e ← err_of (CreateCgroupPath (m_dirPath m) (m_config m));
  match e with
  | Some err =>
      if m_rootless m && bool_decide (cg_Path (m_config m) = "") then
        do need ← try (needAnyControllers (m_config m));
        match need with
        | inr false => ret tt
        | _ => throw (ErrWrap "rootless needs no limits + no cgrouppath when no permission is granted for cgroups" err)
        end
      else throw err
  | None => WriteCgroupProc (m_dirPath m) pid
  end.

(** What is reported of a unified resource that could not be written. *)
Definition unified_error (controllers : option (gset string)) (k : string) (err : error) : error :=
  let cause := cause_of err in
  let other := ErrWrap ("can't set unified resource " +:+ k) err in
  if IsPermission cause || IsNotExist cause then
    match cut "." k with
    | None => ErrNew ("unified resource " +:+ k +:+ " must be in the form CONTROLLER.PARAMETER")
    | Some (c, _) =>
        if bool_decide (c ∈ default ∅ controllers) || bool_decide (c = "cgroup") then other
        else ErrNew ("unified resource " +:+ k +:+ " can't be set: controller " +:+ c +:+ " not available")
    end
  else other.

Definition set_unified (kv : string * string) : MIO () :=
  do m ← this;
  if contains_char "/" kv.1
  then throw (ErrNew ("unified resource " +:+ kv.1 +:+ " must be a file name (no slashes)"))
  else map_err (unified_error (m_controllers m) kv.1) (write (m_dirPath m) kv.1 kv.2).

Definition setUnified (res : gmap string string) : MIO () := for_each set_unified (map_to_list res).

Definition Manager_Set (container : option Cgroup) : MIO () :=
  match container with
  | None => ret tt
  | Some cg =>
      getControllers ;;;
      do m ← this;
      let dir := m_dirPath m in
      let r := cg_Resources cg in
      setPids dir r ;;;
      setMemory dir r ;;;
      setIo dir r ;;;
      setCpu dir r ;;;
      do e ← err_of (setDevices dir r);
      match e with
      | Some e => if m_rootless m then ret tt else throw e
      | None => ret tt
      end ;;;
      setCpuset dir r ;;;
      setHugeTlb dir r ;;;
      setFreezer dir (rs_Freezer r) ;;;
      setUnified (rs_Unified r) ;;;
      change (set_m_config cg)
  end.

Definition with_freezer (state : FreezerState) (c : Cgroup) : Cgroup :=
  let r := cg_Resources c in
  mk_Cgroup (cg_Name c) (cg_Parent c) (cg_Path c) (cg_ScopePrefix c)
    (mk_Resources (rs_Devices r) (rs_mem r) (rs_cpu r) (rs_PidsLimit r) (rs_blkio r) (rs_HugetlbLimit r) (rs_net r)
       (rs_Unified r) state (rs_SkipDevices r))
    (cg_SystemdProps c) (cg_Paths c).

Definition Manager_Freeze (state : FreezerState) : MIO () :=
  do m ← this;
  setFreezer (m_dirPath m) state ;;;
  change (λ m, set_m_config (with_freezer state (m_config m)) m).

Definition Manager_Destroy (depth : nat) : MIO () := do m ← this; RemovePath depth (m_dirPath m).
Definition Manager_GetFreezerState : MIO FreezerState := do m ← this; getFreezer (m_dirPath m).
Definition Manager_Exists : MIO bool := do m ← this; PathExists (m_dirPath m).
Definition Manager_Path (subsys : string) : MIO string := do m ← this; ret (m_dirPath m).
Definition Manager_GetPaths : MIO (gmap string string) := do m ← this; ret {["" := m_dirPath m]}.
Definition Manager_GetCgroups : MIO Cgroup := do m ← this; ret (m_config m).
Definition Manager_GetPids : MIO (list Z) := do m ← this; GetPids (m_dirPath m).
Definition fs2_OOMKillCount (path : string) : MIO Z := GetValueByKey path "memory.events" "oom_kill".
Definition Manager_OOMKillCount : MIO Z := do m ← this; fs2_OOMKillCount (m_dirPath m).
Definition Manager_GetAllPids (depth : nat) : MIO (list Z) := do m ← this; GetAllPids depth (m_dirPath m).
End Manager.

(** ** Statistics

    The statistics are an object that the functions fill in as they go, also when they end
    with an error. *)

Record MemoryData := mk_MemoryData { md_Usage : Z; md_Limit : Z }.
Record BlkioStatEntry := mk_BlkioStatEntry { be_Major : Z; be_Minor : Z; be_Op : string; be_Value : Z }.
Record HugetlbStats := mk_HugetlbStats { ht_Usage : Z; ht_Failcnt : Z }.
Record PidsStats := mk_PidsStats { ps_Current : Z; ps_Limit : Z }.
Record CpuUsage := mk_CpuUsage { cu_TotalUsage : Z; cu_UsageInUsermode : Z; cu_UsageInKernelmode : Z }.
Record MemoryStats := mk_MemoryStats {
  ms_Stats : gmap string Z; ms_Cache : Z; ms_Usage : MemoryData; ms_SwapUsage : MemoryData; ms_UseHierarchy : bool
}.
Record Stats := mk_Stats {
  st_Pids : PidsStats; st_Memory : MemoryStats; st_IoServiceBytesRecursive : list BlkioStatEntry;
  st_Cpu : CpuUsage; st_Hugetlb : gmap string HugetlbStats
}.
Definition NewStats : Stats :=
  mk_Stats (mk_PidsStats 0 0) (mk_MemoryStats ∅ 0 (mk_MemoryData 0 0) (mk_MemoryData 0 0) false) []
    (mk_CpuUsage 0 0 0) ∅.

Definition set_pids (p : PidsStats) (st : Stats) : Stats :=
  mk_Stats p (st_Memory st) (st_IoServiceBytesRecursive st) (st_Cpu st) (st_Hugetlb st).
Definition upd_mem (f : MemoryStats → MemoryStats) (st : Stats) : Stats :=
  mk_Stats (st_Pids st) (f (st_Memory st)) (st_IoServiceBytesRecursive st) (st_Cpu st) (st_Hugetlb st).
Definition set_io_stats (l : list BlkioStatEntry) (st : Stats) : Stats :=
  mk_Stats (st_Pids st) (st_Memory st) l (st_Cpu st) (st_Hugetlb st).
Definition upd_cpu (f : CpuUsage → CpuUsage) (st : Stats) : Stats :=
  mk_Stats (st_Pids st) (st_Memory st) (st_IoServiceBytesRecursive st) (f (st_Cpu st)) (st_Hugetlb st).
Definition add_hugetlb (size : string) (h : HugetlbStats) (st : Stats) : Stats :=
  mk_Stats (st_Pids st) (st_Memory st) (st_IoServiceBytesRecursive st) (st_Cpu st) (<[size := h]> (st_Hugetlb st)).

#[export] Instance with_stats_fs : CgroupFs (manager * Stats) := {|
  prep_of s := m_prep s.1;
  set_prep p s := (set_prep p s.1, s.2)
|}.

(** [major:minor op=value ..] of io.stat. *)
Definition uint0 (s : string) : result Z :=
  match ParseUint s 64 with (n, None) => Ok n | _ => Err (ErrNew ("strconv.ParseUint: parsing " +:+ s)) end.

Definition io_item (major minor : Z) (acc : list BlkioStatEntry) (item : string) : result (list BlkioStatEntry) :=
  match Split "=" item with
  | [op; v] =>
      let op := if decide (op = "rbytes") then "read" else if decide (op = "wbytes") then "write" else op in
      let! value := uint0 v in Ok (acc ++ [mk_BlkioStatEntry major minor op value])
  | _ => Ok acc
  end.

Definition io_device (acc : list BlkioStatEntry) (kv : string * list string) : result (list BlkioStatEntry) :=
  match Split ":" kv.1 with
  | [a; b] =>
      let! major := uint0 a in let! minor := uint0 b in foldM (io_item major minor) acc kv.2
  | _ => Ok acc
  end.

Definition map_line (m : gmap string (list string)) (line : string) : gmap string (list string) :=
  match Fields line with x :: (_ :: _) as l => <[x := tail l]> m | _ => m end.

Section Statistics.
Context {W : Type} `{Handler gcall W}.

Abbreviation SIO A := (M ((manager * Stats) * W) A).

Definition stat_change (f : Stats → Stats) : SIO () := change (λ s, (s.1, f s.2)).

(** A file that is scanned line by line. *)
Definition read_lines (dirPath name : string) : SIO (list string * option error) :=
  do fd ← OpenFile dirPath name O_RDONLY;
  defer (ask (FdClose fd)) (do r ← read_fd fd; ret (scan_lines r)).

Definition statPidsWithoutController (dirPath : string) : SIO () :=
  do contents ← try (ReadFile dirPath "cgroup.procs");
  do contents ← match contents with
                | inl e => if decide (e = ErrSys ENOTSUP) then ReadFile dirPath "cgroup.threads" else throw e
                | inr c => ret c
                end;
  let pids : gset string := list_to_set (filter (λ i, i ≠ "") (Split LF contents)) in
  stat_change (set_pids (mk_PidsStats (Z.of_nat (size pids)) 0)).

Definition statPids (dirPath : string) : SIO () :=
  do current ← map_err (ErrWrap "failed to parse pids.current") (GetCgroupParamUint dirPath "pids.current");
  do maxString ← map_err (ErrWrap "failed to parse pids.max") (GetCgroupParamString dirPath "pids.max");
  do max ← (if decide (maxString = "max") then ret 0
            else map_err (ErrWrap "failed to parse pids.max") (lift (uint_of "pids.max" maxString)));
  stat_change (set_pids (mk_PidsStats current max)).

Definition is_missing (moduleName : string) (e : error) : bool :=
  negb (bool_decide (moduleName = "memory")) && IsNotExist e.

Definition getMemoryDataV2 (path name : string) : SIO MemoryData :=
  let moduleName := if decide (name = "") then "memory" else "memory." +:+ name in
  do value ← try (GetCgroupParamUint path (moduleName +:+ ".current"));
  match value with
  | inl e => if is_missing moduleName e then ret (mk_MemoryData 0 0)
             else throw (ErrWrap ("failed to parse " +:+ moduleName +:+ ".current") e)
  | inr usage =>
      do value ← try (GetCgroupParamUint path (moduleName +:+ ".max"));
      match value with
      | inl e => if is_missing moduleName e then ret (mk_MemoryData 0 0)
                 else throw (ErrWrap ("failed to parse " +:+ moduleName +:+ ".max") e)
      | inr limit => ret (mk_MemoryData usage limit)
      end
  end.

Definition stat_line (t : string) : SIO () :=
  do kv ← map_err (ErrWrap "failed to parse memory.stat") (lift (ParseKeyValue t));
  stat_change (upd_mem (λ m, mk_MemoryStats (<[kv.1 := kv.2]> (ms_Stats m)) (ms_Cache m) (ms_Usage m)
                               (ms_SwapUsage m) (ms_UseHierarchy m))).

Definition statMemory (dirPath : string) : SIO () :=
  do fd ← OpenFile dirPath "memory.stat" O_RDONLY;
  defer (ask (FdClose fd))
    (do r ← read_fd fd;
     for_each stat_line (scan_lines r).1 ;;;
     stat_change (upd_mem (λ m, mk_MemoryStats (ms_Stats m) (default 0 (ms_Stats m !! "file")) (ms_Usage m)
                                  (ms_SwapUsage m) (ms_UseHierarchy m))) ;;;
     do memoryUsage ← getMemoryDataV2 dirPath "";
     stat_change (upd_mem (λ m, mk_MemoryStats (ms_Stats m) (ms_Cache m) memoryUsage (ms_SwapUsage m)
                                  (ms_UseHierarchy m))) ;;;
     do swapUsage ← getMemoryDataV2 dirPath "swap";
     stat_change (upd_mem (λ m, mk_MemoryStats (ms_Stats m) (ms_Cache m) (ms_Usage m) swapUsage true))).

Definition readCgroup2MapFile (dirPath name : string) : SIO (gmap string (list string)) :=
  do r ← read_lines dirPath name;
  match r.2 with Some e => throw e | None => ret (foldl map_line ∅ r.1) end.

Definition statIo (dirPath : string) : SIO () :=
  do values ← readCgroup2MapFile dirPath "io.stat";
  do entries ← lift (foldM io_device [] (map_to_list values));
  stat_change (set_io_stats entries).

Definition cpu_line (t : string) : SIO () :=
  do kv ← lift (ParseKeyValue t);
  let v := u64 (kv.2 * 1000) in
  stat_change (upd_cpu (λ c,
    if decide (kv.1 = "usage_usec") then mk_CpuUsage v (cu_UsageInUsermode c) (cu_UsageInKernelmode c)
    else if decide (kv.1 = "user_usec") then mk_CpuUsage (cu_TotalUsage c) v (cu_UsageInKernelmode c)
    else if decide (kv.1 = "system_usec") then mk_CpuUsage (cu_TotalUsage c) (cu_UsageInUsermode c) v
    else c)).

Definition statCpu (dirPath : string) : SIO () :=
  do fd ← OpenFile dirPath "cpu.stat" O_RDONLY;
  defer (ask (FdClose fd)) (do r ← read_fd fd; for_each cpu_line (scan_lines r).1).

Definition stat_pagesize (dirPath pagesize : string) : SIO () :=
  do usage ← GetCgroupParamUint dirPath ("hugetlb." +:+ pagesize +:+ ".current");
  do failcnt ← map_err (ErrWrap "failed to read stats")
                 (GetValueByKey dirPath ("hugetlb." +:+ pagesize +:+ ".events") "max");
  stat_change (add_hugetlb pagesize (mk_HugetlbStats usage failcnt)).

Definition statHugeTlb (dirPath : string) : SIO () :=
  do hugePageSizes ← map_err (ErrWrap "failed to fetch hugetlb info") GetHugePageSize;
  for_each (stat_pagesize dirPath) hugePageSizes.

(** One group of statistics: its error joins the list. *)
Definition collect (errs : list error) (m : SIO ()) : SIO (list error) :=
  do e ← err_of m; ret (errs ++ option_list e).

Definition stat_all (dirPath : string) (controllers : gset string) : SIO (list error) :=
  let have c := bool_decide (c ∈ controllers) in
  do errs ← collect [] (if have "pids" then statPids dirPath else statPidsWithoutController dirPath);
  do errs ← collect errs (when (have "memory") (statMemory dirPath));
  do errs ← collect errs (when (have "io") (statIo dirPath));
  do errs ← collect errs (when (have "cpu") (statCpu dirPath));
  collect errs (when (have "hugetlb") (statHugeTlb dirPath)).

(** The statistics come with the error, if there is one. *)
Definition Manager_GetStats : M (manager * W) (Stats * option error) := λ s,
  match getControllers s with
  | (Ok _, (m, w)) =>
      match stat_all (m_dirPath m) (default ∅ (m_controllers m)) ((m, NewStats), w) with
      | (Ok errs, ((m, st), w)) =>
          (Ok (st, if negb (bool_decide (errs = [])) && negb (m_rootless m)
                   then Some (ErrNew "error while statting cgroup v2") else None), (m, w))
      | (Err e, ((m, st), w)) => (Ok (st, Some e), (m, w))
      | (Panic x, ((m, _), w)) => (Panic x, (m, w))
      end
  | (Err e, s) => (Ok (NewStats, Some e), s)
  | (Panic x, s) => (Panic x, s)
  end.
End Statistics.
