(* ===== verification/Cgroup2Spec.v ===== *)
(** * What the manager of a cgroup v2 does with paths and directories

    Where it puts the cgroup of a container: below the mount point, whatever the path of
    the configuration says. Which directories it makes for it: all that are missing on the
    way, or none. *)

From S2P Require Import DeviceFilter.
From S2P Require Import Prelude GoStd GoPath GoMonad Container CgroupUtils Rootfs SpecConv CgroupFile Cgroup2.

(** ** Paths without dots

    A path is [safe] when appending it to another one appends the elements [l], which
    never lead upwards. *)
Definition safe (q : string) (l : list string) : Prop :=
  clean_elems l ∧ ∀ rt stk, foldl (clean_step rt) stk (Split "/" q) = reverse l ++ stk.

Lemma clean_fold rt l stk : clean_elems l → foldl (clean_step rt) stk l = reverse l ++ stk.
Proof.
  intros [Ho Hd]. revert stk. induction l as [|e l IH]; intros stk; [done|].
  inversion_clear Ho as [|? ? (H1 & H2 & H3)]. inversion_clear Hd as [|? ? H4]. simpl.
  unfold clean_step at 2. rewrite !bool_decide_eq_false_2 by done. simpl.
  by rewrite IH, reverse_cons, <- app_assoc.
Qed.

Lemma safe_Join l : clean_elems l → safe (Join "/" l) l.
Proof.
  intros Hl. split; [done|]. intros rt stk.
  destruct (decide (l = [])) as [->|Hne]; [done|].
  rewrite Split_Join; [by apply clean_fold|done|].
  destruct Hl as [Ho _]. rewrite Forall_forall in Ho. intros y Hy. by apply Ho.
Qed.


Lemma safe_slash q l : safe q l → safe (String "/" q) l.
Proof. intros [Hl Hq]. split; [done|]. intros rt stk. simpl. by rewrite <- (Hq rt stk). Qed.

Lemma clean_elems_app a b : clean_elems a → clean_elems b → clean_elems (a ++ b).
Proof. intros [] []. split; by apply Forall_app. Qed.

Lemma safe_app a b la lb : safe a la → safe b lb → safe (a +:+ String "/" b) (la ++ lb).
Proof.
  intros [Ha Ea] [Hb Eb]. split; [by apply clean_elems_app|]. intros rt stk.
  by rewrite Split_sep_app, foldl_app, Ea, Eb, reverse_app, <- app_assoc.
Qed.









Lemma safe_elems q l : rooted q → safe q l → elems q = l.
Proof. intros Hr [_ Hq]. unfold elems. by rewrite Hq, app_nil_r, reverse_involutive. Qed.

(** The elements of a path of the configuration, taken from the root, where [..] leads no
    higher. *)
Definition from_root (p : string) : list string := if decide (p = "") then [] else elems (String "/" (Clean p)).

Lemma elems_slash p : rooted p → elems (String "/" p) = elems p.
Proof. intros Hp. unfold elems. by rewrite (rooted_cons p : HasPrefix _ _ = _), (Hp : HasPrefix _ _ = _). Qed.

Lemma from_root_rooted p : rooted p → from_root p = elems p.
Proof.
  intros Hp. unfold from_root. rewrite decide_False by (by intros ->).
  rewrite elems_slash by (by apply Clean_Rooted). by apply elems_Clean.
Qed.



(** A directory below the mount point. *)
Definition mount_elems : list string := ["sys"; "fs"; "cgroup"].
Definition below_mount (q : string) (l : list string) : Prop :=
  clean_elems l ∧ q = String "/" (Join "/" (mount_elems ++ l)).

Lemma safe_mount : safe UnifiedMountpoint mount_elems.
Proof. apply (safe_slash (Join "/" mount_elems)), safe_Join. by apply (bool_decide_unpack (clean_elems mount_elems)). Qed.

Lemma Clean_below q l : rooted q → safe q (mount_elems ++ l) → clean_elems l → below_mount (Clean q) l.
Proof. intros Hr Hs Hl. split; [done|]. rewrite Clean_rooted by done. by rewrite (safe_elems _ _ Hr Hs). Qed.

Section Path.
Context {S W : Type} `{Handler gcall W}.










(** *** Errors *)






End Path.

(** ** The directories

    The kernel as an interface: [ct_dirs] are the cgroups there are. A directory that was
    just made has nothing in it, and one with nothing in it can be removed again. *)

Definition changes_dirs {A} (c : gcall A) : bool :=
  match c with GMkdir _ | GRemove _ | GRmdir _ => true | _ => false end.

Class CgroupTree (W : Type) `{Handler gcall W} := {
  ct_dirs : W → gset string;
  ct_mkdir : ∀ p w r w', handle_call (GMkdir p) w = (r, w') →
    match r with
    | inr _ => p ∉ ct_dirs w ∧ (∀ q, q ∈ ct_dirs w → HasPrefix q (p +:+ "/") = false) ∧ ct_dirs w' = {[p]} ∪ ct_dirs w
    | inl e => ct_dirs w' = ct_dirs w ∧ (IsExist e = true → p ∈ ct_dirs w)
    end;
  ct_remove : ∀ p w, p ∈ ct_dirs w → (∀ q, q ∈ ct_dirs w → HasPrefix q (p +:+ "/") = false) →
    ∃ w', handle_call (GRemove p) w = (inr tt, w') ∧ ct_dirs w' = ct_dirs w ∖ {[p]};
  ct_quiet : ∀ A (c : gcall A) w r w', changes_dirs c = false → handle_call c w = (r, w') → ct_dirs w' = ct_dirs w
}.

Section Create.
Context `{CgroupTree W}.
Context (interrupts : nat).

Abbreviation dirs := (λ s : manager * W, ct_dirs s.2).

Lemma still_ask {A} (c : gcall A) : changes_dirs c = false → quiet dirs (ask c).
Proof.
  intros Hc [m w]. unfold ask. cbn [fst snd]. destruct (handle_call c w) as [[e|a] w'] eqn:E; by eapply (ct_quiet _ c).
Qed.
#[local] Hint Extern 1 (quiet _ (ask _)) => apply still_ask; reflexivity : quiet.

Lemma still_change (g : manager → manager) : quiet dirs (change g).
Proof. by apply quiet_modify. Qed.
#[local] Hint Resolve still_change : quiet.

Lemma still_OpenFile dir file flags : quiet dirs (OpenFile dir file flags).
Proof. unfold OpenFile, openWithSecureJoin, prepareOpenat2, prepare. quiet. Qed.
#[local] Hint Resolve still_OpenFile : quiet.

Lemma still_ReadFile_contents dir file : quiet dirs (ReadFile_contents dir file).
Proof. unfold ReadFile_contents. quiet. Qed.
#[local] Hint Resolve still_ReadFile_contents : quiet.

Lemma still_ReadFile dir file : quiet dirs (ReadFile dir file).
Proof. unfold ReadFile. quiet. Qed.
#[local] Hint Resolve still_ReadFile : quiet.

Lemma still_write dir file data : quiet dirs (write interrupts dir file data).
Proof.
  unfold write, WriteFile. apply quiet_bind; [quiet|intros fd]. apply quiet_defer; [quiet|]. apply quiet_map_err.
  induction interrupts; simpl; quiet.
Qed.
#[local] Hint Resolve still_write : quiet.

Lemma still_check_type c current : quiet dirs (check_type interrupts c current).
Proof. unfold check_type. quiet. Qed.
Lemma still_enable res current : quiet dirs (enable interrupts res current).
Proof. unfold enable. quiet. Qed.

(** The directories on the way. *)
Fixpoint made (first : bool) (current : string) (elements : list string) : gset string :=
  match elements with
  | [] => ∅
  | e :: rest =>
      let current := path_Join current e in
      (if first then ∅ else {[current]}) ∪ made false current rest
  end.

Definition all_or_none (D : gset string) (m : M (manager * W) ()) : Prop :=
  ∀ s, match m s with
       | (Ok _, s') => dirs s' = D ∪ dirs s
       | (Err _, s') => dirs s' = dirs s
       | (Panic _, _) => False
       end.

Lemma all_or_none_after {A} D (m : M (manager * W) A) k :
  quiet dirs m → (∀ a, all_or_none D (k a)) → all_or_none D (bind m k).
Proof.
  intros Hm Hk s. unfold bind. specialize (Hm s). destruct (m s) as [[a|e|x] s1]; [|done|done].
  specialize (Hk a s1). cbn beta in Hm. by destruct (k a s1) as [[] s2]; cbn beta in Hk |- *; rewrite ?Hm in Hk.
Qed.

(** A new directory is removed when what follows fails. *)
Lemma all_or_none_mkdir D p m k :
  all_or_none D m → all_or_none D k →
  all_or_none ({[p]} ∪ D)
    (do err ← err_of (ask (GMkdir p));
     match err with Some err => if IsExist err then m else throw err | None => on_error (ask (GRemove p)) k end).
Proof.
  intros Hm Hk [x w]. unfold err_of, try, bind, ask. cbn [fst snd].
  pose proof (ct_mkdir p w) as Hmk. destruct (handle_call (GMkdir p) w) as [[e|u] w1]; cbn;
    specialize (Hmk _ _ eq_refl); cbn in Hmk.
  - destruct Hmk as [Hd Hp]. destruct (IsExist e); [|done]. specialize (Hm (x, w1)).
    destruct (m (x, w1)) as [[]]; cbn in Hm; [|congruence|done]. specialize (Hp eq_refl). set_solver.
  - destruct Hmk as (Hp & Hbelow & Hd). unfold on_error. specialize (Hk (x, w1)).
    destruct (k (x, w1)) as [[a|e|y] [x2 w2]]; cbn in Hk; [set_solver| |done].
    destruct (ct_remove p w2) as (w3 & E & Hd3); [set_solver| |].
    { intros q. rewrite Hk, Hd. intros [->%elem_of_singleton|Hq]%elem_of_union; [|by apply Hbelow].
      clear. induction p as [|c p IH]; [done|]. simpl. by rewrite bool_decide_eq_true_2. }
    cbn. rewrite E. cbn. rewrite Hd3, Hk, Hd. set_solver.
Qed.

Lemma create_elements_all c res first current elements :
  all_or_none (made first current elements) (create_elements interrupts c res first current elements).
Proof.
  revert first current. induction elements as [|e rest IH]; intros first current; simpl.
  { intros s. simpl. set_solver. }
  assert (all_or_none (made false (path_Join current e) rest)
    (when (negb (bool_decide (rest = []))) (enable interrupts res (path_Join current e)) ;;;
     create_elements interrupts c res false (path_Join current e) rest)) as Hgo.
  { apply all_or_none_after; [apply quiet_when, still_enable|intros _; apply IH]. }
  destruct first; [by rewrite (left_id_L ∅ (∪))|].
  apply all_or_none_mkdir; (apply all_or_none_after; [apply still_check_type|intros _; exact Hgo]).
Qed.

Lemma below_rooted q l : below_mount q l → rooted q ∧ safe q (mount_elems ++ l).
Proof.
  intros [Hl ->]. split; [apply rooted_cons|]. apply safe_slash, safe_Join, clean_elems_app; [apply safe_mount|done].
Qed.

Lemma path_Join_below q l e : below_mount q l → clean_elems [e] → below_mount (path_Join q e) (l ++ [e]).
Proof.
  intros Hq He. destruct (below_rooted _ _ Hq) as [Hr Hs]. unfold path_Join.
  rewrite bool_decide_eq_true_2 by (by intros ->). apply Clean_below; [by apply rooted_app| |].
  - rewrite app_assoc. apply safe_app; [done|]. by apply (safe_Join [e]).
  - apply clean_elems_app; [apply Hq|done].
Qed.

Lemma below_unique q q' l : below_mount q l → below_mount q' l → q = q'.
Proof. by intros [_ ->] [_ ->]. Qed.

Lemma made_below q0 l0 l q :
  below_mount q0 l0 → clean_elems l →
  q ∈ made false q0 l ↔ ∃ l1, l1 ≠ [] ∧ l1 `prefix_of` l ∧ below_mount q (l0 ++ l1).
Proof.
  revert q0 l0. induction l as [|e l IH]; intros q0 l0 Hq0 Hl; simpl.
  { split; [set_solver|]. by intros (l1 & Hne & ->%prefix_nil_inv & _). }
  assert (clean_elems [e] ∧ clean_elems l) as [He Hl'].
  { destruct Hl as [Ho Hd]. inversion_clear Ho. inversion_clear Hd. repeat split; auto. }
  pose proof (path_Join_below _ _ _ Hq0 He) as Hq1. rewrite elem_of_union, elem_of_singleton, (IH _ _ Hq1 Hl').
  split.
  - intros [->|(l1 & Hne & Hp & Hb)].
    + exists [e]. split; [done|]. split; [apply prefix_cons, prefix_nil|done].
    + exists (e :: l1). split; [done|]. split; [by apply prefix_cons|]. by rewrite <- app_assoc in Hb.
  - intros (l1 & Hne & Hp & Hb). destruct l1 as [|e' l1]; [done|].
    pose proof (prefix_cons_inv_1 _ _ _ _ Hp) as ->. apply prefix_cons_inv_2 in Hp.
    rewrite (cons_middle e), app_assoc in Hb. destruct l1 as [|e1 l1].
    + left. rewrite app_nil_r in Hb. by eapply below_unique.
    + right. by exists (e1 :: l1).
Qed.

(** A cgroup is created with all the cgroups above it that are missing, or not at all:
    when anything fails on the way - a directory, the delegation of the controllers, an
    invalid or threaded cgroup -, what was made is removed again. *)
Theorem CreateCgroupPath_all path l c s :
  below_mount path l →
  match CreateCgroupPath interrupts path c s with
  | (Ok _, s') => ∀ q, q ∈ ct_dirs s'.2 ↔ q ∈ ct_dirs s.2 ∨ ∃ l1, l1 ≠ [] ∧ l1 `prefix_of` l ∧ below_mount q l1
  | (Err _, s') => ct_dirs s'.2 = ct_dirs s.2
  | (Panic _, _) => False
  end.
Proof.
  intros Hb. destruct (below_rooted _ _ Hb) as [_ _]. destruct Hb as [Hl ->].
  unfold CreateCgroupPath. assert (drop 3 (Split "/" (String "/" (Join "/" (mount_elems ++ l)))) = "cgroup" :: l) as ->.
  { change (Split "/" (String "/" ?x)) with ("" :: Split "/" x). rewrite Split_Join; [done|done|].
    destruct (clean_elems_app mount_elems l) as [Ho _]; [apply safe_mount|done|].
    rewrite Forall_forall in Ho. intros y Hy. by apply Ho. }
  match goal with |- context [if ?b then _ else _] => destruct b; [done|] end.
  pose proof (all_or_none_after (made true "/sys/fs" ("cgroup" :: l)) (supportedControllers (W := W))
    (λ content, create_elements interrupts c ("+" +:+ Join " +" (Fields content)) true "/sys/fs" ("cgroup" :: l))
    (still_ReadFile _ _) (λ _, create_elements_all _ _ _ _ _) s) as Ha.
  destruct (bind supportedControllers _ s) as [[a|e|x] s']; [|done..]. cbn beta in Ha. rewrite Ha.
  cbn [made]. rewrite (left_id_L ∅ (∪)). intros q.
  rewrite elem_of_union, (made_below _ []); [naive_solver|by apply (bool_decide_unpack _)|done].
Qed.
End Create.

(** ** At work

    A kernel for a process of a session: the cgroups there are; one that is called [bad]
    cannot be made. *)

Definition below (p : string) (w : gset string) : gset string := filter (λ q, HasPrefix q (p +:+ "/") = true) w.

#[local] Instance session : Handler gcall (gset string) := λ A c w,
  match c in gcall A return (error + A) * gset string with
  | GOpenFile path _ => (inr (if decide (path = "/proc/self/cgroup") then 3 else 4), w)
  | GSecureJoin root path => (inr (root +:+ "/" +:+ path), w)
  | FdRead fd => (inr (mk_reader ((if fd =? 3 then "0::/user.slice/session.scope" else "cpu memory") +:+ String LF "") None), w)
  | FdClose _ => (inr tt, w)
  | GMkdir p =>
      if decide (p ∈ w) then (inl (ErrSys EEXIST), w)
      else if decide (below p w ≠ ∅ ∨ Base p = "bad") then (inl (ErrSys EACCES), w) else (inr tt, {[p]} ∪ w)
  | GRemove p => if decide (p ∈ w ∧ below p w = ∅) then (inr tt, w ∖ {[p]}) else (inl (ErrSys EACCES), w)
  | _ => (inl (ErrSys EACCES), w)
  end.

Lemma below_empty p (w : gset string) : below p w = ∅ ↔ ∀ q, q ∈ w → HasPrefix q (p +:+ "/") = false.
Proof.
  unfold below. split.
  - intros E q Hq. apply not_true_iff_false. intros Hp. assert (q ∈ filter (λ q, HasPrefix q (p +:+ "/") = true) w) as Hin.
    { by apply elem_of_filter. } rewrite E in Hin. set_solver.
  - intros Hall. apply set_eq. intros q. rewrite elem_of_filter. split; [|set_solver].
    intros [Hp Hq]. by rewrite Hall in Hp.
Qed.

#[local, refine] Instance session_tree : CgroupTree (gset string) := { ct_dirs := id }.
Proof.
  - intros p w r w'. cbn. repeat case_decide; intros [= <- <-]; [done|done|].
    split; [done|]. split; [apply below_empty|done]. destruct (decide (below p w = ∅)); tauto.
  - intros p w Hp Hb%below_empty. cbn. rewrite decide_True by done. by eexists.
  - intros A c w r w' Hc. by destruct c; cbn; try done; intros [= _ <-].
Defined.

Definition session_start : gset string := {["/sys/fs/cgroup"; "/sys/fs/cgroup/a"]}.

Definition upwards (path : string) : Cgroup :=
  mk_Cgroup "" "" path ""
    (mk_Resources [] (mk_MemoryResources 0 0 0 0 0 None false) (mk_CpuResources 0 0 0 0 0 0 "" "") 0
       (mk_BlkioResources 0 0 [] [] [] [] []) [] (mk_NetResources 0 []) ∅ Undefined false) [] ∅.


Definition session_create (path : string) : result () * (manager * gset string) :=
  CreateCgroupPath 0 path (upwards "") (mk_manager (upwards "") path None false None, session_start).

Lemma CreateCgroupPath_all_witness :
  (is_ok (session_create "/sys/fs/cgroup/a/b/c").1 = true ∧
   ∀ q, q ∈ (session_create "/sys/fs/cgroup/a/b/c").2.2 ↔
        q ∈ session_start ∨ ∃ l1, l1 ≠ [] ∧ l1 `prefix_of` ["a"; "b"; "c"] ∧ below_mount q l1) ∧
  is_ok (session_create "/sys/fs/cgroup/a/b/bad").1 = false ∧
  (session_create "/sys/fs/cgroup/a/b/bad").2.2 = session_start.
Proof.
  assert (below_mount "/sys/fs/cgroup/a/b/c" ["a"; "b"; "c"] ∧ below_mount "/sys/fs/cgroup/a/b/bad" ["a"; "b"; "bad"])
    as [Hc Hbad] by (split; (split; [by apply (bool_decide_unpack _)|done])).
  pose proof (CreateCgroupPath_all 0 _ _ (upwards "") (mk_manager (upwards "") "/sys/fs/cgroup/a/b/c" None false None, session_start) Hc) as H1.
  pose proof (CreateCgroupPath_all 0 _ _ (upwards "") (mk_manager (upwards "") "/sys/fs/cgroup/a/b/bad" None false None, session_start) Hbad) as H2.
  change (CreateCgroupPath _ _ _ _) with (session_create "/sys/fs/cgroup/a/b/c") in H1.
  change (CreateCgroupPath _ _ _ _) with (session_create "/sys/fs/cgroup/a/b/bad") in H2.
  unfold ct_dirs, session_tree, id in H1, H2. cbn [snd] in H1, H2.
  assert (is_ok (session_create "/sys/fs/cgroup/a/b/c").1 = true) as E1 by (vm_compute; reflexivity).
  assert (is_ok (session_create "/sys/fs/cgroup/a/b/bad").1 = false) as E2 by (vm_compute; reflexivity).
  split; [split; [exact E1|]|split; [exact E2|]].
  - revert H1 E1. generalize (session_create "/sys/fs/cgroup/a/b/c"). intros [[[]|e|x] s'] H1 E1; [exact H1|discriminate E1..].
  - revert H2 E2. generalize (session_create "/sys/fs/cgroup/a/b/bad"). intros [[[]|e|x] s'] H2 E2; [discriminate E2|exact H2|destruct H2].
Defined.
